(* ===== verification/_CoqProject ===== *)
-Q . S2P
Prelude.v
Fwd.v
Msgp.v
MsgpFacts.v
MsgpSafe.v
MsgpBytes.v
Writer.v
Stream.v
Dispatch.v
Codec.v
CodecFacts.v
Number.v
SpawnOp.v
Conn.v
Json.v
Duration.v
MtnStore.v
Mtn.v
MtnFacts.v
MtnSpec.v
Journal.v
PortoUtil.v
Repository.v
World.v
GoPath.v
PortoContainer.v
Gate.v
SpawnRate.v
Context.v
Scopes.v
Pools.v
PortoBox.v
PortoBoxFacts.v
PortoLoop.v
PortoAdmin.v
Profiles.v
ProfileCodecs.v
DockerProfile.v
Docker.v
DockerBox.v
CodeStorage.v
Config.v
ConfigJson.v
DockerEvents.v
DockerPull.v
RawProfile.v
Process.v
ProcessGroup.v
ProcessBox.v
Output.v
Session.v
PortoSession.v
Suite.v
Daemon.v
Telemetry.v
Server.v
Metrics.v
