(* ===== verification/Prelude.v ===== *)
(** * Stout: a verification library for the Cocaine isolate daemon

    Stout is a daemon that runs the workers of Cocaine applications.  A client opens
    a connection and multiplexes requests over channels: it asks to spool (prepare)
    or to spawn (start) an application inside an isolation box, and may cancel or
    kill what it started.  Three boxes exist: plain processes, Docker containers and
    Porto containers; the Porto box may give containers network addresses from a
    pool (MTN) kept in a local database.

    ** The parts and the files that model them

    The wire:
    - [Fwd] the buffered reader (vendor/github.com/philhofer/fwd/reader.go);
    - [Msgp] the MessagePack encoders and decoders the daemon uses
      (vendor/github.com/tinylib/msgp/msgp), [MsgpFacts] their round trips and the
      search for a key of a map, [MsgpSafe] that every reader call ends and consumes;
    - [MsgpBytes] the decoders of byte slices and when they agree with those of
      streams, [Writer] the buffered encoder, [Number] numbers of any type;
    - [Codec] the shapes of generated code (maps, slices, fields in any order) with
      [CodecFacts], the lemmas every generated method is proved with;
    - [Stream] the messages of a channel, the session map and the error codes
      (isolate/conn_handler.go, isolate/errors.go);
    - [Dispatch] decoding of requests and raw profiles (isolate/initialdispatch.go,
      isolate/profile.go).
    Requests and connections:
    - [SpawnOp] the goroutines of one spawn request and of its kill requests as a
      machine whose events are their atomic steps (isolate/initialdispatch.go onSpawn,
      isolate/spawndispatch.go);
    - [Conn] HandleConn and all requests of a connection, interleaved
      (isolate/conn_handler.go, isolate/spooldispatch.go);
    - [Gate] the semaphore (pkg/semaphore) behind a type class and the queue in front
      of Spawn in the three boxes;
    - [Context] the contexts of golang.org/x/net with their tree of cancellations and
      the logger and the boxes they carry (pkg/log, isolate/utils.go), [Scopes] the
      contexts of the daemon, its connections, channels and requests
      (isolate/conn_handler.go, isolate/initialdispatch.go);
    - [Pools] the pools of byte buffers behind profiles and messages (isolate/profile.go,
      isolate/proto_decoders.go) over slices that share arrays;
    - [Session] whole sessions, from the bytes of a request to the calls of its box and the
      bytes of its replies: it joins [Conn], [Dispatch], [Stream] with the Docker and the
      process box; [PortoSession] does so with the Porto box, spooling and then spawning.
    JSON: [Json] the grammar of encoding/json on bytes, its parser and printer, and
    [Duration] time.ParseDuration; the journal, the pool records, the configuration and
    the events of Docker are read with them.
    The address pool (isolate/mtn.go):
    - [MtnStore] records and their JSON, the database as a type class with the laws
      its documentation gives, and an instance in memory;
    - [Mtn] every operation of the pool, [MtnFacts] what they guarantee, [MtnSpec] the
      abstract allocator they refine.
    The Porto box (isolate/porto):
    - [Journal] (journal.go), [PortoUtil] (utils.go), [Repository] (repository.go);
    - [World] calls to the operating system and to Porto as a log with arbitrary
      answers, so that theorems hold for every behaviour of the engine; [GoPath] the
      path functions of the standard library;
    - [PortoContainer] volumes, containers, Kill and Cleanup (container_config.go,
      container.go);
    - [PortoBox] construction, journal file, garbage collection, wait loop, Spool and
      Spawn (box.go), [PortoBoxFacts] what they guarantee, [PortoLoop] the wait loop as a
      whole and the account of the connections to portod, [PortoAdmin] Inspect, Close and
      the goroutine that saves the journal;
    - [Profiles] DecodeMsg and MarshalMsg of the Porto and process profiles,
      [ProfileCodecs] their UnmarshalMsg, EncodeMsg and Msgsize.
    The other boxes:
    - [DockerProfile] the profile of the Docker box and its generated codec;
    - [Docker] replies to a pull, output forwarding, the life of containers, Spawn and
      Spool, [DockerBox] a spawn request from its bytes on, and Inspect, [DockerEvents] the
      stream of events and [DockerPull] the reply to a pull on their bytes (isolate/docker);
    - [RawProfile] profiles made of Go values (isolate/profile.go), [SpawnRate] the pause
      after a spawn of the Porto box;
    - [CodeStorage] the client of the code storage (isolate/process/
      cocaine_code_storage.go), [Process] children and their reaping, Spawn, archives,
      [ProcessBox] the box as a whole: configuration, signals, Spool, Inspect, [Output] the
      goroutines that carry the output of a worker to its client (isolate/process,
      [OutputCollector] of isolate/initialdispatch.go), [ProcessGroup] the process groups
      of the workers and what a kill reaches;
    - [Suite] the specification test of the boxes (isolate/testsuite), run against the
      three of them.
    The daemon:
    - [Config] the configuration and the registry of boxes (isolate/isolate.go,
      isolate/plugins.go, pkg/logutils/level.go), [ConfigJson] its decoding from the text
      of the file, and the older copy in pkg/config;
    - [Daemon] construction of the boxes, which it sees through the class [BoxOps], and
      the listeners; [Server] the accept loops, the inspect handler and the program
      (daemon/daemon.go, cmd/stout/main.go);
    - [Telemetry] log lines, the Graphite report, gauges and health checks
      (pkg/logutils, pkg/exportmetrics, daemon/metrics.go), [Metrics] the registry, what
      the packages put into it and the loop that reports it.

    ** How code becomes definitions

    A Go function that returns an error is a function into [result]; methods that
    change their receiver are computations of [act], which keeps state changes made
    before an error.  Goroutines are machines: a state, an executable step function
    over events, and a reachability relation closed under it.  Maps are [gmap]; where
    the order of a range over a map matters it is an argument.  Machine integers are
    [Z] with [uint] and [sint] written out.  Locks are the atomicity of a step.

    ** What the theorems show

    - Connections: a process whose connection ended is killed exactly once; at most
      one terminal message per spawn request; a channel serves one request; the
      handler ends on every finite input; late messages are consumed whole; the context of
      a request carries its own logger and dies exactly with its request, its connection or
      the server; sharing buffers is invisible to requests.
    - Sessions: a spawn request of the Docker box, a spool request of the process box and
      an application spooled and spawned in the Porto box, end to end; the three boxes
      pass the specification test of the repository.
    - Wire: messages and requests decode to what was encoded under any segmentation;
      no input makes a decoder run for ever; the Porto and Docker profile round trips;
      the generated methods of a profile agree with each other (stream and slice
      decoders, both encoders also when the sink fails, Msgsize); what is decoded is
      well formed whatever the bytes were.
    - Pool: no address is held by two boxes at once; effects of each operation; every
      history of the pool is a run of an abstract allocator.
    - Porto: downloads are atomic, single and lose no waiter, and a path the repository
      returns is the whole blob that was asked for; connections to portod are closed; a
      journal is parsed back from the bytes of its dump; properties a profile
      cannot override; failed creations clean up after themselves as far as stated;
      an address is given back once; exact calls of the garbage collection; the wait
      loop reaps exactly the dead; layers are imported only when verified.
    - Gate: bounds of the queue and of the running spawns, and that the gate drains.
    - Docker and process boxes: verdict on a pull, events handled in order, the output of a
      worker delivered in order with one notification, framing of the output, one removal
      per container, the calls of a spawn request; all zombies reaped in one run and none
      lost to merged signals, a kill reaches the family of its worker only; an archive is unpacked whole from the request, the reply of
      the storage and the members it has.
    - Daemon: boxes and listeners are made all or nothing; when the server returns; what
      holds when the program serves and when it leaves; a configuration is read back from
      its text; no metric is lost and reports have different paths.
    Lemmas that show where the code falls short of its intent stand beside the
    theorems they limit (for instance [SaveRename_loses], [porto_queue_starves],
    [gc_list_error_frees_living], [failed_creation_leaks], [unpack_escapes],
    [unreachable_service_panics], [connections_never_counted], [spooled_image_differs],
    [close_without_mtn_panics], [channels_nest], [callers_bytes_overwritten],
    [gc_error_ends_loop], [output_lost_at_wait], [stale_event_id],
    [stale_kill_hits_stranger], [suite_misses_arguments]).

    ** Fuel

    Loops over a reader take as fuel one more than the bytes left ([loop] in [Msgp]):
    every body consumes a byte or fails, so [Diverged] is never returned, which
    [loop_enough], [Skip_safe] and the totality theorems prove; [ploop] of [MsgpBytes]
    is the same for slices.  [search_loop] of [Journal], [drop_live] of [PortoBox],
    [pull_loop] and [collect_loop] of [Docker] take the length of their input; the
    theorems about them hold for that fuel.  [parse_value] of [Json] takes twice the length
    of the text and one more, which [parse_fuel] shows to be enough: more fuel gives the
    same answer; [components] of [Duration], [raw_members] of [ConfigJson], [watch] of
    [DockerEvents], [pull_docs] of [DockerPull] and [read_env] of [Suite] take the length
    of their text, since every turn consumes a byte.
    [cancel_cell] of [Context] takes the size of the heap: children are younger than their
    parents.

    ** Not modelled

    Flags, pprof, expvar and the HTTP export of the metrics: library state that no modelled
    part reads.  Libraries whose answers are arbitrary: mapstructure on the sections of the
    boxes, the registry and Docker clients, portod, the framework behind the code storage,
    archive readers, html/template, [http.DetectContentType].  Decoding JSON into
    [interface{}] keeps the text of a number where encoding/json makes a float64.  What the
    shell prints for the worker of the specification test, and how Porto splits a command,
    are parameters with the documented behaviour as hypotheses. *)

From Stdlib Require Import ZArith Strings.Byte String Lia.
From stdpp Require Export base gmap strings list sorting.

#[global] Open Scope Z_scope.
#[global] Set Default Goal Selector "!".
#[global] Set Warnings "-clear-no-such-hyp".

(** ** Results of fallible operations

    A Go function returning [(T, error)] is a function into [result E T]:
    [Ok] when the error is nil, [Err] otherwise. *)
Inductive result (E A : Type) : Type :=
  | Ok (a : A)
  | Err (e : E).
Arguments Ok {E A} a.
Arguments Err {E A} e.

Definition is_ok {E A} (r : result E A) : bool :=
  match r with Ok _ => true | Err _ => false end.

#[export] Instance result_eq_dec {E A} `{EqDecision E, EqDecision A} :
  EqDecision (result E A).
Proof. solve_decision. Defined.

(** ** A state and error monad

    [act S E A]: a computation over a mutable state [S] that keeps its state
    changes when it fails, as a Go method on a pointer receiver does. *)
Definition act (S E A : Type) : Type := S -> result E A * S.

#[export] Instance act_ret {S E} : MRet (act S E) := λ A a s, (Ok a, s).
#[export] Instance act_bind {S E} : MBind (act S E) := λ A B k m s,
  match m s with
  | (Ok a, s') => k a s'
  | (Err e, s') => (Err e, s')
  end.

Definition throw {S E A} (e : E) : act S E A := λ s, (Err e, s).

Section act_laws.
Context {S E : Type}.

Lemma act_bind_ok {A B} (m : act S E A) (k : A -> act S E B) s a s' :
  m s = (Ok a, s') -> (m ≫= k) s = k a s'.
Proof. intros H. unfold mbind, act_bind. by rewrite H. Qed.

Lemma act_bind_err {A B} (m : act S E A) (k : A -> act S E B) s e s' :
  m s = (Err e, s') -> (m ≫= k) s = (Err e, s').
Proof. intros H. unfold mbind, act_bind. by rewrite H. Qed.

(** Inversion of a sequenced computation that succeeded. *)
Lemma act_bind_inv {A B} (m : act S E A) (k : A -> act S E B) s b s' :
  (m ≫= k) s = (Ok b, s') ->
  exists a s1, m s = (Ok a, s1) /\ k a s1 = (Ok b, s').
Proof.
  unfold mbind, act_bind. destruct (m s) as [[a|e] s1]; [|done]. eauto.
Qed.
End act_laws.

(** ** Bytes and machine integers *)

Abbreviation byte := Byte.byte.

Definition b2z (b : byte) : Z := Z.of_N (Byte.to_N b).

(** The conversion [byte(x)]: truncation to eight bits. *)
Definition z2b (z : Z) : byte :=
  match Byte.of_N (Z.to_N (z mod 256)) with Some b => b | None => x00 end.

(** Unsigned and signed truncation to [w] bits. *)
Definition uint (w : Z) (z : Z) : Z := z mod 2 ^ w.
Definition sint (w : Z) (z : Z) : Z := (z + 2 ^ (w - 1)) mod 2 ^ w - 2 ^ (w - 1).

#[export] Instance byte_eq_dec : EqDecision byte := Byte.byte_eq_dec.

Lemma b2z_range b : 0 <= b2z b < 256.
Proof. unfold b2z. pose proof (Byte.to_N_bounded b). lia. Qed.

Lemma z2b_b2z_mod z : b2z (z2b z) = z mod 256.
Proof.
  unfold z2b, b2z. pose proof (Z.mod_pos_bound z 256 eq_refl).
  destruct (Byte.of_N _) as [b|] eqn:E.
  - apply Byte.to_of_N in E. rewrite E. lia.
  - apply Byte.of_N_None_iff in E. lia.
Qed.

Lemma b2z_z2b z : 0 <= z < 256 -> b2z (z2b z) = z.
Proof. intros. rewrite z2b_b2z_mod. by apply Z.mod_small. Qed.

Lemma b2z_inj a b : b2z a = b2z b -> a = b.
Proof.
  unfold b2z. intros H%N2Z.inj. apply (f_equal Byte.of_N) in H.
  rewrite !Byte.of_to_N in H. by simplify_eq.
Qed.

Lemma z2b_b2z b : z2b (b2z b) = b.
Proof. apply b2z_inj. apply b2z_z2b, b2z_range. Qed.

(** One step of big-endian reassembly: the byte at bit [k] over the low [k]
    bits gives the low [k + 8] bits. *)
Lemma lor_byte_step u k :
  0 <= k ->
  Z.lor ((b2z (z2b (u ≫ k))) ≪ k) (u mod 2 ^ k) = u mod 2 ^ (k + 8).
Proof.
  intros Hk. rewrite z2b_b2z_mod. change 256 with (2 ^ 8).
  apply Z.bits_inj'. intros n Hn. rewrite Z.lor_spec.
  rewrite Z.shiftl_spec by done.
  destruct (decide (n < k)) as [Hlt|Hge].
  - rewrite (Z.testbit_neg_r _ (n - k)) by lia. cbn [orb].
    rewrite !Z.mod_pow2_bits_low by lia. done.
  - rewrite (Z.mod_pow2_bits_high u k) by lia. rewrite orb_false_r.
    destruct (decide (n < k + 8)).
    + rewrite !Z.mod_pow2_bits_low by lia. rewrite Z.shiftr_spec by lia.
      f_equal. lia.
    + rewrite !Z.mod_pow2_bits_high by lia. done.
Qed.

Lemma z2b_low u : b2z (z2b u) = u mod 2 ^ 8.
Proof. apply z2b_b2z_mod. Qed.

Lemma sint_of_uint w z :
  0 < w -> - 2 ^ (w - 1) <= z < 2 ^ (w - 1) -> sint w (z mod 2 ^ w) = z.
Proof.
  intros Hw Hz. unfold sint.
  rewrite Zplus_mod_idemp_l.
  assert (2 ^ w = 2 * 2 ^ (w - 1)) as Hp.
  { rewrite <- Z.pow_succ_r by lia. f_equal. lia. }
  rewrite Z.mod_small; lia.
Qed.

(** A decidable property of all small non-negative integers, by computation. *)
Lemma Zrange_check (P : Z -> bool) (n : nat) :
  forallb (λ k, P (Z.of_nat k)) (seq 0 n) = true ->
  forall z, 0 <= z < Z.of_nat n -> P z = true.
Proof.
  rewrite forallb_forall. intros H z Hz.
  specialize (H (Z.to_nat z)). rewrite in_seq in H.
  rewrite Z2Nat.id in H by lia. apply H. lia.
Qed.

(** ** Strings

    A Go string is a sequence of bytes: exactly a Rocq [string]. *)
Definition str_bytes (s : string) : list byte := list_byte_of_string s.
Definition bytes_str (l : list byte) : string := string_of_list_byte l.

Lemma bytes_str_bytes s : bytes_str (str_bytes s) = s.
Proof. apply string_of_list_byte_of_string. Qed.
Lemma str_bytes_str l : str_bytes (bytes_str l) = l.
Proof. apply list_byte_of_string_of_list_byte. Qed.

(** [len(x)] as an [int]. *)
Definition zlen {A} (l : list A) : Z := Z.of_nat (length l).

Arguments zlen : simpl never.

Lemma zlen_nonneg {A} (l : list A) : 0 <= zlen l.
Proof. unfold zlen. lia. Qed.
Lemma zlen_app {A} (l k : list A) : zlen (l ++ k) = zlen l + zlen k.
Proof. unfold zlen. rewrite length_app. lia. Qed.
Lemma zlen_cons {A} (x : A) l : zlen (x :: l) = 1 + zlen l.
Proof. unfold zlen. cbn [length]. lia. Qed.
Lemma zlen_nil {A} : zlen (@nil A) = 0.
Proof. done. Qed.

(** [x[:n]] and [x[n:]] for an [int] bound. *)
Definition ztake {A} (n : Z) (l : list A) : list A := take (Z.to_nat n) l.
Definition zdrop {A} (n : Z) (l : list A) : list A := drop (Z.to_nat n) l.

Arguments ztake : simpl never.
Arguments zdrop : simpl never.

Lemma ztake_app_len {A} (l k : list A) : ztake (zlen l) (l ++ k) = l.
Proof. unfold ztake, zlen. rewrite Nat2Z.id. apply take_app_length. Qed.
Lemma zdrop_app_len {A} (l k : list A) : zdrop (zlen l) (l ++ k) = k.
Proof. unfold zdrop, zlen. rewrite Nat2Z.id. apply drop_app_length. Qed.
Lemma ztake_zdrop {A} n (l : list A) : ztake n l ++ zdrop n l = l.
Proof. apply take_drop. Qed.
Lemma zlen_zdrop {A} n (l : list A) :
  0 <= n <= zlen l -> zlen (zdrop n l) = zlen l - n.
Proof. unfold zlen, zdrop. rewrite length_drop. lia. Qed.
Lemma zlen_ztake {A} n (l : list A) :
  0 <= n <= zlen l -> zlen (ztake n l) = n.
Proof. unfold zlen, ztake. rewrite length_take. lia. Qed.

Lemma fold_left_snoc {A} (l acc : list A) : fold_left (λ acc x, acc ++ [x]) l acc = acc ++ l.
Proof.
  revert acc. induction l as [|x l IH]; intros acc; cbn; [by rewrite app_nil_r|].
  by rewrite IH, <- app_assoc.
Qed.

Lemma length_concat_perm {A B} (f : A -> list B) l k :
  l ≡ₚ k -> length (concat (map f l)) = length (concat (map f k)).
Proof. induction 1; cbn; rewrite ?length_app; lia. Qed.

(** Sums over a list in which one element changes. *)
Section sums.
Context {A : Type} (f : A -> nat).

Lemma sum_with_insert l i a b : l !! i = Some a ->
  (sum_list_with f (<[i := b]> l) + f a = sum_list_with f l + f b)%nat.
Proof.
  revert i. induction l as [|x l IH]; intros [|i] H; simplify_eq/=; [lia|]. specialize (IH _ H). lia.
Qed.
Lemma sum_with_delete l i a : l !! i = Some a -> (sum_list_with f (delete i l) + f a = sum_list_with f l)%nat.
Proof.
  revert i. induction l as [|x l IH]; intros [|i] H; simplify_eq/=; [lia|]. specialize (IH _ H). lia.
Qed.
Lemma sum_with_lookup l i a : l !! i = Some a -> (f a <= sum_list_with f l)%nat.
Proof. intros H. pose proof (sum_with_delete l i a H). lia. Qed.
Lemma sum_with_two l i j a b : i <> j -> l !! i = Some a -> l !! j = Some b ->
  (f a + f b <= sum_list_with f l)%nat.
Proof.
  revert i j. induction l as [|x l IH]; intros [|i] [|j] Hij Hi Hj; simplify_eq/=.
  - pose proof (sum_with_lookup _ _ _ Hj). lia.
  - pose proof (sum_with_lookup _ _ _ Hi). lia.
  - assert (i <> j) by lia. specialize (IH i j ltac:(done) Hi Hj). lia.
Qed.
Lemma sum_with_zero l : (forall x, x ∈ l -> f x = 0%nat) -> sum_list_with f l = 0%nat.
Proof.
  induction l as [|x l IH]; intros H; [done|]. cbn. rewrite (H x) by left. rewrite IH; [done|].
  intros y Hy. apply H. by right.
Qed.
End sums.

(** ** Automation *)
Create HintDb stout discriminated.
Create HintDb zlen.
#[export] Hint Resolve b2z_range zlen_nonneg : stout.
#[export] Hint Rewrite @zlen_app @zlen_cons @zlen_nil : zlen.

(** Splits every [if]/[match] scrutinee of the goal or of the hypotheses. *)
Ltac break_match_goal :=
  match goal with
  | |- context [match ?x with _ => _ end] =>
      lazymatch x with context [match _ with _ => _ end] => fail | _ => destruct x eqn:? end
  end.
Ltac break_match_hyp H :=
  match type of H with
  | context [match ?x with _ => _ end] =>
      lazymatch x with context [match _ with _ => _ end] => fail | _ => destruct x eqn:? end
  end.

(** Turns boolean comparisons of the source into propositions for [lia]. *)
Ltac bool_prop :=
  repeat match goal with
  | H : (_ <=? _) = true |- _ => apply Z.leb_le in H
  | H : (_ <=? _) = false |- _ => apply Z.leb_gt in H
  | H : (_ <? _) = true |- _ => apply Z.ltb_lt in H
  | H : (_ <? _) = false |- _ => apply Z.ltb_ge in H
  | H : (_ =? _) = true |- _ => apply Z.eqb_eq in H
  | H : (_ =? _) = false |- _ => apply Z.eqb_neq in H
  | H : (_ && _)%bool = true |- _ => apply andb_true_iff in H as [??]
  | H : (_ || _)%bool = false |- _ => apply orb_false_iff in H as [??]
  end.
