(* ===== verification/Fwd.v ===== *)
(** * The buffered reader [fwd.Reader] under the msgpack decoder

    Models vendor/github.com/philhofer/fwd/reader.go, the reader every incoming
    byte of the daemon goes through.  A [Reader] holds the unread part of its
    buffer and the segments its underlying [io.Reader] will deliver, one per
    [Read] call (a TCP connection may split the same bytes anywhere), and the
    error that ends them.

    [pending] forgets the segmentation: it is the abstract byte stream.  The
    lemmas show that each primitive acts on [pending] as the stream operation it
    promises, and the [Equiv] instance (same stream, any segmentation) is
    respected by all of them. *)

From Stdlib Require Import ZArith Lia.
From S2P Require Import Prelude.

(** The errors of the readers: those of [io] and the underlying connection
    ([IOError]), and those of package msgp (errors.go). *)
Inductive Type_ :=
  | InvalidType | StrType | BinType | MapType | ArrayType | Float64Type
  | Float32Type | BoolType | IntType | UintType | NilType | ExtensionType
  | Complex64Type | Complex128Type | TimeType.

Inductive rerror :=
  | EOF
  | ErrUnexpectedEOF
  | IOError (code : Z)
  | ErrShortBytes
  | InvalidPrefixError (lead : byte)
  | TypeError (method encoded : Type_)
  | UintBelowZero (value : Z)
  | UintOverflow (value : Z)
  | fatal
  (** the error a modelled loop reports if its fuel were too small; proved
      unreachable for the fuel used *)
  | Diverged.

#[export] Instance Type__eq_dec : EqDecision Type_.
Proof. solve_decision. Defined.
#[export] Instance rerror_eq_dec : EqDecision rerror.
Proof. solve_decision. Defined.

(** A segment delivered by one successful [Read]: never empty. *)
Abbreviation chunk := (byte * list byte)%type (only parsing).
Definition chunk_bytes (c : chunk) : list byte := c.1 :: c.2.
Definition cat (cs : list chunk) : list byte := concat (map chunk_bytes cs).
Arguments cat : simpl never.
Arguments chunk_bytes : simpl never.

Record Reader := mkReader {
  R_data : list byte;   (* r.data[r.n:], the buffered and unread bytes *)
  R_rest : list chunk;  (* what the underlying reader will return *)
  R_end : rerror;       (* ... and the error after that *)
  R_cap : Z;            (* cap(r.data) *)
  R_seek : bool         (* r.rs != nil: the underlying reader is an io.Seeker *)
}.

Definition DefaultReaderSize : Z := 2048.

Definition NewReader (cap : Z) (cs : list chunk) (e : rerror) (seek : bool) : Reader :=
  mkReader [] cs e cap seek.

Definition Buffered (r : Reader) : Z := zlen (R_data r).
Definition BufferSize (r : Reader) : Z := R_cap r.

(** The stream: everything still to be read. *)
Definition pending (r : Reader) : list byte := R_data r ++ cat (R_rest r).

(** [noEOF]: an end of stream inside an object is unexpected. *)
Definition noEOF (e : rerror) : rerror :=
  match e with EOF => ErrUnexpectedEOF | e => e end.

(** The degenerate case of [Peek] and [Next]: reallocate a buffer smaller than
    the request. *)
Definition grow (n : Z) (r : Reader) : Reader :=
  if R_cap r <? n
  then mkReader (R_data r) (R_rest r) (R_end r) (n + Buffered r) (R_seek r)
  else r.

(** [for r.buffered() < n && r.state == nil { r.more() }] *)
Fixpoint fill_loop (n : Z) (data : list byte) (rest : list chunk)
  : list byte * list chunk :=
  if n <=? zlen data then (data, rest)
  else match rest with
       | [] => (data, [])
       | c :: rest' => fill_loop n (data ++ chunk_bytes c) rest'
       end.

Definition fill (n : Z) (r : Reader) : Reader :=
  let '(d, cs) := fill_loop n (R_data r) (R_rest r) in
  mkReader d cs (R_end r) (R_cap r) (R_seek r).

Definition Peek (n : Z) : act Reader rerror (list byte) := λ r,
  let r := fill n (grow n r) in
  if Buffered r <? n then (Err (R_end r), r)
  else (Ok (ztake n (R_data r)), r).

Definition Next (n : Z) : act Reader rerror (list byte) := λ r,
  let r := fill n (grow n r) in
  if Buffered r <? n then (Err (noEOF (R_end r)), r)
  else (Ok (ztake n (R_data r)),
        mkReader (zdrop n (R_data r)) (R_rest r) (R_end r) (R_cap r) (R_seek r)).

(** [Seek(n, io.SeekCurrent)] on the underlying reader: succeeds past the end. *)
Fixpoint seek_chunks (n : Z) (cs : list chunk) : list chunk :=
  match cs with
  | [] => []
  | c :: cs' =>
      if zlen (chunk_bytes c) <=? n then seek_chunks (n - zlen (chunk_bytes c)) cs'
      else match zdrop n (chunk_bytes c) with
           | [] => cs'
           | b :: l => (b, l) :: cs'
           end
  end.

(** The filling and erasing loop of [fwd_Skip]. *)
Fixpoint skip_loop (n : Z) (data : list byte) (rest : list chunk)
  : bool * (list byte * list chunk) :=
  match rest with
  | [] => (false, ([], []))
  | c :: rest' =>
      let d := data ++ chunk_bytes c in
      if n <=? zlen d then (true, (zdrop n d, rest'))
      else skip_loop (n - zlen d) [] rest'
  end.

Definition fwd_Skip (n : Z) : act Reader rerror unit := λ r,
  if n <=? Buffered r then
    (Ok tt, mkReader (zdrop n (R_data r)) (R_rest r) (R_end r) (R_cap r) (R_seek r))
  else if R_seek r then
    (Ok tt, mkReader [] (seek_chunks (n - Buffered r) (R_rest r))
              (R_end r) (R_cap r) (R_seek r))
  else
    let '(ok, (d, cs)) := skip_loop n (R_data r) (R_rest r) in
    (if ok then Ok tt else Err (noEOF (R_end r)),
     mkReader d cs (R_end r) (R_cap r) (R_seek r)).

(** [ReadFull]: [n] bytes copied out of the buffer and the following segments. *)
Fixpoint readfull_loop (n : Z) (acc data : list byte) (rest : list chunk)
  : bool * list byte * (list byte * list chunk) :=
  if n <=? zlen data then (true, acc ++ ztake n data, (zdrop n data, rest))
  else match rest with
       | [] => (false, acc ++ data, ([], []))
       | c :: rest' => readfull_loop (n - zlen data) (acc ++ data) (chunk_bytes c) rest'
       end.

Definition ReadFull (n : Z) : act Reader rerror (list byte) := λ r,
  let '(ok, out, (d, cs)) := readfull_loop n [] (R_data r) (R_rest r) in
  (if ok then Ok out else Err (noEOF (R_end r)),
   mkReader d cs (R_end r) (R_cap r) (R_seek r)).

(** ** The primitives as stream operations *)

Lemma cat_nil : cat [] = [].
Proof. done. Qed.
Lemma cat_cons c cs : cat (c :: cs) = chunk_bytes c ++ cat cs.
Proof. done. Qed.

Lemma zlen_chunk c : 0 < zlen (chunk_bytes c).
Proof. unfold chunk_bytes. rewrite zlen_cons. pose proof (zlen_nonneg c.2). lia. Qed.

Lemma fill_loop_spec n data rest :
  let '(d, cs) := fill_loop n data rest in
  d ++ cat cs = data ++ cat rest /\ (n <= zlen d \/ cs = []).
Proof.
  revert data. induction rest as [|c rest IH]; intros data; cbn [fill_loop].
  - destruct (Z.leb_spec n (zlen data)); auto.
  - destruct (Z.leb_spec n (zlen data)); [auto|].
    specialize (IH (data ++ chunk_bytes c)).
    destruct (fill_loop _ _ _) as [d cs]. destruct IH as [IH1 IH2].
    rewrite cat_cons. split; [|done]. by rewrite IH1, <- app_assoc.
Qed.

Lemma pending_fill n r : pending (fill n r) = pending r.
Proof.
  unfold pending, fill. pose proof (fill_loop_spec n (R_data r) (R_rest r)).
  destruct (fill_loop _ _ _). by destruct H.
Qed.

Lemma pending_grow n r : pending (grow n r) = pending r.
Proof. unfold grow. by destruct (_ <? _). Qed.

Lemma Buffered_fill n r :
  (Buffered (fill n r) <? n) = (zlen (pending r) <? n).
Proof.
  rewrite <- (pending_fill n r). unfold fill, pending, Buffered.
  pose proof (fill_loop_spec n (R_data r) (R_rest r)).
  destruct (fill_loop _ _ _) as [d cs]. destruct H as [_ [H| ->]].
  - cbn. rewrite zlen_app. pose proof (zlen_nonneg (cat cs)).
    destruct (Z.ltb_spec (zlen d) n), (Z.ltb_spec (zlen d + zlen (cat cs)) n);
      (done || lia).
  - cbn. by rewrite app_nil_r.
Qed.

(** What a primitive leaves untouched besides the stream. *)
Definition same_source (r r' : Reader) : Prop :=
  R_end r' = R_end r /\ R_seek r' = R_seek r /\ R_cap r <= R_cap r'.

Lemma same_source_refl r : same_source r r.
Proof. unfold same_source. auto with lia. Qed.
Lemma same_source_trans r1 r2 r3 :
  same_source r1 r2 -> same_source r2 r3 -> same_source r1 r3.
Proof. unfold same_source. intros (-> & -> & ?) (-> & -> & ?). auto with lia. Qed.
#[export] Hint Resolve same_source_refl : stout.

Lemma same_source_fill_grow n r : 0 <= n -> same_source r (fill n (grow n r)).
Proof.
  intros Hn. unfold same_source, fill, grow.
  destruct (Z.ltb_spec (R_cap r) n); destruct (fill_loop _ _ _); cbn;
    pose proof (zlen_nonneg (R_data r)); unfold Buffered; auto with lia.
Qed.

Lemma take_buffered n r :
  n <= Buffered r -> ztake n (R_data r) = ztake n (pending r).
Proof.
  unfold Buffered, pending, ztake, zlen. intros. rewrite take_app_le by lia. done.
Qed.
Lemma drop_buffered n r :
  n <= Buffered r -> zdrop n (R_data r) ++ cat (R_rest r) = zdrop n (pending r).
Proof.
  unfold Buffered, pending, zdrop, zlen. intros. rewrite drop_app_le by lia. done.
Qed.

Lemma Peek_spec n r :
  0 <= n ->
  exists r', same_source r r' /\ pending r' = pending r /\
    Peek n r = (if zlen (pending r) <? n then Err (R_end r)
                else Ok (ztake n (pending r)), r').
Proof.
  intros Hn. unfold Peek. set (r' := fill n (grow n r)).
  assert (Hp : pending r' = pending r) by (unfold r'; by rewrite pending_fill, pending_grow).
  assert (Hs : same_source r r') by (unfold r'; by apply same_source_fill_grow).
  pose proof (Buffered_fill n (grow n r)) as Hb. rewrite pending_grow in Hb. fold r' in Hb.
  exists r'. split; [done|]. split; [done|].
  rewrite <- Hb. destruct (Z.ltb_spec (Buffered r') n).
  - destruct Hs as (-> & _). done.
  - rewrite take_buffered by lia. by rewrite Hp.
Qed.

Lemma Next_spec n r :
  0 <= n ->
  exists r', same_source r r' /\
    pending r' = (if zlen (pending r) <? n then pending r else zdrop n (pending r)) /\
    Next n r = (if zlen (pending r) <? n then Err (noEOF (R_end r))
                else Ok (ztake n (pending r)), r').
Proof.
  intros Hn. unfold Next. set (r' := fill n (grow n r)).
  assert (Hp : pending r' = pending r) by (unfold r'; by rewrite pending_fill, pending_grow).
  assert (Hs : same_source r r') by (unfold r'; by apply same_source_fill_grow).
  pose proof (Buffered_fill n (grow n r)) as Hb. rewrite pending_grow in Hb. fold r' in Hb.
  rewrite <- Hb. destruct (Z.ltb_spec (Buffered r') n).
  - exists r'. split_and!; auto. destruct Hs as (-> & _). done.
  - eexists. split_and!; [ | | rewrite take_buffered by lia; rewrite Hp; done ].
    + done.
    + unfold pending at 1. cbn. rewrite drop_buffered by lia. by rewrite Hp.
Qed.

Lemma seek_chunks_spec n cs : 0 <= n -> cat (seek_chunks n cs) = zdrop n (cat cs).
Proof.
  revert n. induction cs as [|c cs IH]; intros n Hn; cbn [seek_chunks].
  - rewrite cat_nil. unfold zdrop. by rewrite drop_nil.
  - rewrite cat_cons. pose proof (zlen_chunk c).
    destruct (Z.leb_spec (zlen (chunk_bytes c)) n).
    + rewrite IH by lia. unfold zdrop, zlen in *. rewrite drop_app_ge by lia.
      f_equal. lia.
    + assert (Hd : zlen (zdrop n (chunk_bytes c)) = zlen (chunk_bytes c) - n)
        by (apply zlen_zdrop; lia).
      unfold zdrop in Hd |- *. rewrite drop_app_le by (unfold zlen in *; lia).
      destruct (drop _ _) as [|b l]; [rewrite zlen_nil in Hd; lia|done].
Qed.

Lemma skip_loop_spec n data rest :
  zlen data < n ->
  let s := data ++ cat rest in
  let '(ok, (d, cs)) := skip_loop n data rest in
  ok = (n <=? zlen s) /\ d ++ cat cs = zdrop n s.
Proof.
  revert n data. induction rest as [|c rest IH]; intros n data Hn; cbn [skip_loop].
  - rewrite cat_nil, app_nil_r. split; [symmetry; apply Z.leb_gt; lia|].
    unfold zdrop, zlen in *. by rewrite drop_ge by lia.
  - set (d := data ++ chunk_bytes c). rewrite cat_cons, app_assoc. fold d.
    pose proof (zlen_nonneg (cat rest)).
    destruct (Z.leb_spec n (zlen d)).
    + split; [symmetry; apply Z.leb_le; rewrite zlen_app; lia|].
      unfold zdrop, zlen in *. by rewrite drop_app_le by lia.
    + specialize (IH (n - zlen d) [] ltac:(rewrite zlen_nil; lia)).
      destruct (skip_loop _ _ _) as [ok [d' cs]]. destruct IH as [-> ->].
      cbn [app]. split.
      * rewrite zlen_app.
        destruct (Z.leb_spec (n - zlen d) (zlen (cat rest))),
          (Z.leb_spec n (zlen d + zlen (cat rest))); (done || lia).
      * unfold zdrop, zlen in *. rewrite drop_app_ge by lia. f_equal. lia.
Qed.

Lemma readfull_loop_spec n acc data rest :
  0 <= n ->
  let s := data ++ cat rest in
  let '(ok, out, (d, cs)) := readfull_loop n acc data rest in
  ok = (n <=? zlen s) /\ out = acc ++ ztake n s /\ d ++ cat cs = zdrop n s.
Proof.
  revert n acc data. induction rest as [|c rest IH]; intros n acc data Hn;
    cbn [readfull_loop].
  - rewrite cat_nil, app_nil_r. destruct (Z.leb_spec n (zlen data)).
    + rewrite app_nil_r. auto.
    + unfold ztake, zdrop, zlen in *. rewrite take_ge, drop_ge by lia. auto.
  - set (s := data ++ cat (c :: rest)). cbn zeta.
    pose proof (zlen_nonneg (cat (c :: rest))).
    destruct (Z.leb_spec n (zlen data)).
    + unfold s. rewrite zlen_app. split; [symmetry; apply Z.leb_le; lia|].
      unfold ztake, zdrop, zlen in *. rewrite take_app_le, drop_app_le by lia. auto.
    + specialize (IH (n - zlen data) (acc ++ data) (chunk_bytes c) ltac:(lia)).
      destruct (readfull_loop _ _ _ _) as [[ok out] [d cs]].
      destruct IH as (-> & -> & ->). unfold s. rewrite <- cat_cons, zlen_app.
      split_and!.
      * destruct (Z.leb_spec (n - zlen data) (zlen (cat (c :: rest)))),
          (Z.leb_spec n (zlen data + zlen (cat (c :: rest)))); (done || lia).
      * rewrite <- app_assoc. f_equal. unfold ztake, zlen in *.
        rewrite take_app_ge by lia. f_equal. f_equal. lia.
      * unfold zdrop, zlen in *. rewrite drop_app_ge by lia. f_equal. lia.
Qed.

Lemma fwd_Skip_spec n r :
  0 <= n ->
  exists r', same_source r r' /\ R_cap r' = R_cap r /\ pending r' = zdrop n (pending r) /\
    fwd_Skip n r = (if (n <=? zlen (pending r)) || R_seek r then Ok tt
                else Err (noEOF (R_end r)), r').
Proof.
  intros Hn. unfold fwd_Skip. pose proof (zlen_nonneg (cat (R_rest r))).
  destruct (Z.leb_spec n (Buffered r)) as [Hb|Hb].
  - eexists. split_and!; [ | | |].
    4: { unfold pending. rewrite zlen_app. unfold Buffered in Hb.
         destruct (Z.leb_spec n (zlen (R_data r) + zlen (cat (R_rest r)))); [done|lia]. }
    + unfold same_source; cbn; auto with lia.
    + done.
    + unfold pending at 1. cbn. by apply drop_buffered.
  - destruct (R_seek r) eqn:Hs.
    + rewrite orb_true_r. eexists. split_and!; [ | | |done].
      * unfold same_source; cbn; auto with lia.
      * done.
      * unfold pending. cbn. rewrite seek_chunks_spec by lia.
        unfold zdrop, zlen, Buffered, zlen in *. rewrite drop_app_ge by lia. f_equal. lia.
    + rewrite orb_false_r. pose proof (skip_loop_spec n (R_data r) (R_rest r) Hb) as Hl.
      destruct (skip_loop _ _ _) as [ok [d cs]]. destruct Hl as [Hok Hd].
      eexists. split_and!; [ | | |unfold pending; by rewrite <- Hok].
      * unfold same_source; cbn; auto with lia.
      * done.
      * done.
Qed.

Lemma ReadFull_spec n r :
  0 <= n ->
  exists r', same_source r r' /\ R_cap r' = R_cap r /\ pending r' = zdrop n (pending r) /\
    ReadFull n r = (if n <=? zlen (pending r) then Ok (ztake n (pending r))
                    else Err (noEOF (R_end r)), r').
Proof.
  intros Hn. unfold ReadFull.
  pose proof (readfull_loop_spec n [] (R_data r) (R_rest r) Hn) as Hl.
  destruct (readfull_loop _ _ _ _) as [[ok out] [d cs]].
  destruct Hl as (Hok & Hout & Hd). eexists. split_and!; [ | | |].
  4: { unfold pending. rewrite <- Hok. by rewrite Hout. }
  - unfold same_source; cbn; auto with lia.
  - done.
  - done.
Qed.

(** ** Decoding a known prefix

    [reads m bs a]: on any stream beginning with [bs], and however it is
    segmented, [m] consumes exactly [bs] and returns [a]. *)
Definition reads {A} (m : act Reader rerror A) (bs : list byte) (a : A) : Prop :=
  forall r rest, pending r = bs ++ rest ->
  exists r', m r = (Ok a, r') /\ pending r' = rest /\ same_source r r'.

Section reads.
Context {A B : Type}.

Lemma reads_ret (a : A) : reads (mret a) [] a.
Proof. intros r rest H. exists r. auto with stout. Qed.

Lemma reads_bind (m : act Reader rerror A) (k : A -> act Reader rerror B) bs1 bs2 a b :
  reads m bs1 a -> reads (k a) bs2 b -> reads (m ≫= k) (bs1 ++ bs2) b.
Proof.
  intros Hm Hk r rest Hr. rewrite <- app_assoc in Hr.
  destruct (Hm r _ Hr) as (r1 & E1 & Hr1 & S1).
  destruct (Hk r1 _ Hr1) as (r2 & E2 & Hr2 & S2).
  exists r2. rewrite (act_bind_ok _ _ _ _ _ E1). eauto using same_source_trans.
Qed.

Lemma reads_bind_nil (m : act Reader rerror A) (k : A -> act Reader rerror B) bs a b :
  reads m bs a -> reads (k a) [] b -> reads (m ≫= k) bs b.
Proof. intros Hm Hk. rewrite <- (app_nil_r bs). by eapply reads_bind. Qed.

(** Looking at the lead byte of an object does not consume it. *)
Lemma reads_peek1 (k : list byte -> act Reader rerror A) b bs a :
  reads (k [b]) (b :: bs) a -> reads (Peek 1 ≫= k) (b :: bs) a.
Proof.
  intros Hk r rest Hr. destruct (Peek_spec 1 r ltac:(lia)) as (r1 & S1 & P1 & E1).
  rewrite Hr in E1, P1. cbn [app] in E1. rewrite zlen_cons in E1.
  pose proof (zlen_nonneg (bs ++ rest)).
  destruct (Z.ltb_spec (1 + zlen (bs ++ rest)) 1); [lia|].
  change (ztake 1 (b :: bs ++ rest)) with [b] in E1.
  destruct (Hk r1 rest P1) as (r2 & E2 & P2 & S2).
  exists r2. rewrite (act_bind_ok _ _ _ _ _ E1). eauto using same_source_trans.
Qed.
End reads.

Lemma reads_Next n bs : zlen bs = n -> reads (Next n) bs bs.
Proof.
  intros <- r rest Hr. pose proof (zlen_nonneg bs). pose proof (zlen_nonneg rest).
  destruct (Next_spec (zlen bs) r ltac:(lia)) as (r1 & S1 & P1 & E1).
  rewrite Hr, zlen_app in E1, P1.
  destruct (Z.ltb_spec (zlen bs + zlen rest) (zlen bs)); [lia|].
  rewrite ztake_app_len in E1. rewrite zdrop_app_len in P1. eauto.
Qed.

Lemma reads_fwd_Skip n bs : zlen bs = n -> reads (fwd_Skip n) bs tt.
Proof.
  intros <- r rest Hr. pose proof (zlen_nonneg bs). pose proof (zlen_nonneg rest).
  destruct (fwd_Skip_spec (zlen bs) r ltac:(lia)) as (r1 & S1 & _ & P1 & E1).
  rewrite Hr, zlen_app in E1. rewrite Hr, zdrop_app_len in P1.
  destruct (Z.leb_spec (zlen bs) (zlen bs + zlen rest)); [|lia]. eauto.
Qed.

Lemma reads_ReadFull n bs : zlen bs = n -> reads (ReadFull n) bs bs.
Proof.
  intros <- r rest Hr. pose proof (zlen_nonneg bs). pose proof (zlen_nonneg rest).
  destruct (ReadFull_spec (zlen bs) r ltac:(lia)) as (r1 & S1 & _ & P1 & E1).
  rewrite Hr, zlen_app in E1. rewrite Hr, zdrop_app_len in P1.
  destruct (Z.leb_spec (zlen bs) (zlen bs + zlen rest)); [|lia].
  rewrite ztake_app_len in E1. eauto.
Qed.

Create HintDb reads discriminated.
#[export] Hint Resolve reads_ret reads_Next reads_fwd_Skip reads_ReadFull : reads.

(** ** Independence of the segmentation

    Two readers are equivalent when they hold the same stream, wherever it is
    split into segments and however much of it is already buffered. *)
#[export] Instance Reader_equiv : Equiv Reader := λ r1 r2,
  pending r1 = pending r2 /\ R_end r1 = R_end r2 /\ R_seek r1 = R_seek r2 /\
  R_cap r1 = R_cap r2.

#[export] Instance Reader_equivalence : Equivalence (≡@{Reader}).
Proof.
  split.
  - intros r. by split_and!.
  - intros r1 r2 (? & ? & ? & ?). by split_and!.
  - intros r1 r2 r3 (? & ? & ? & ?) (? & ? & ? & ?). split_and!; congruence.
Qed.

(** A buffer no fixed-size header outgrows (the daemon's is 2048 bytes). *)
Definition roomy (r : Reader) : Prop := 16 <= R_cap r.

(** [m] gives equal results and equivalent readers from equivalent readers. *)
Definition respects {A} (m : act Reader rerror A) : Prop :=
  forall r1 r2, roomy r1 -> r1 ≡ r2 ->
  (m r1).1 = (m r2).1 /\ (m r1).2 ≡ (m r2).2 /\ roomy (m r1).2.

Lemma respects_ret {A} (a : A) : respects (mret a).
Proof. intros r1 r2 ??. done. Qed.

Lemma respects_throw {A} e : respects (throw e : act Reader rerror A).
Proof. intros r1 r2 ??. done. Qed.

Lemma respects_bind {A B} (m : act Reader rerror A) (k : A -> act Reader rerror B) :
  respects m -> (forall a, respects (k a)) -> respects (m ≫= k).
Proof.
  intros Hm Hk r1 r2 Hc Hr. destruct (Hm r1 r2 Hc Hr) as (E & Er & Hc').
  unfold mbind, act_bind. destruct (m r1) as [[a|e] s1], (m r2) as [[a'|e'] s2];
    cbn in *; simplify_eq; [|done]. by apply Hk.
Qed.

Lemma fill_grow_small n r : n <= R_cap r -> grow n r = r.
Proof. unfold grow. intros. destruct (Z.ltb_spec (R_cap r) n); [lia|done]. Qed.

Lemma R_cap_fill n r : R_cap (fill n r) = R_cap r.
Proof. unfold fill. by destruct (fill_loop _ _ _). Qed.

(** The same, when the request fits the buffer whatever its size. *)
Lemma Peek_respects_at n r1 r2 :
  0 <= n <= R_cap r1 -> r1 ≡ r2 ->
  (Peek n r1).1 = (Peek n r2).1 /\ (Peek n r1).2 ≡ (Peek n r2).2 /\
  R_cap (Peek n r1).2 = R_cap r1.
Proof.
  intros Hn (Hp & He & Hs & Hc).
  assert (Hcap : forall r, n <= R_cap r -> R_cap (Peek n r).2 = R_cap r).
  { intros r Hr. unfold Peek. rewrite fill_grow_small by done.
    destruct (_ <? _); cbn; by rewrite R_cap_fill. }
  pose proof (Hcap r1 ltac:(lia)) as C1. pose proof (Hcap r2 ltac:(lia)) as C2.
  destruct (Peek_spec n r1 ltac:(lia)) as (r1' & S1 & P1 & E1).
  destruct (Peek_spec n r2 ltac:(lia)) as (r2' & S2 & P2 & E2).
  rewrite E1, E2 in *. cbn in *. destruct S1 as (? & ? & _), S2 as (? & ? & _).
  rewrite Hp, He. split_and!; [done| |done]. split_and!; congruence.
Qed.

Lemma Next_respects_at n r1 r2 :
  0 <= n <= R_cap r1 -> r1 ≡ r2 ->
  (Next n r1).1 = (Next n r2).1 /\ (Next n r1).2 ≡ (Next n r2).2 /\
  R_cap (Next n r1).2 = R_cap r1.
Proof.
  intros Hn (Hp & He & Hs & Hc).
  assert (Hcap : forall r, n <= R_cap r -> R_cap (Next n r).2 = R_cap r).
  { intros r Hr. unfold Next. rewrite fill_grow_small by done.
    destruct (_ <? _); cbn; by rewrite R_cap_fill. }
  pose proof (Hcap r1 ltac:(lia)) as C1. pose proof (Hcap r2 ltac:(lia)) as C2.
  destruct (Next_spec n r1 ltac:(lia)) as (r1' & S1 & P1 & E1).
  destruct (Next_spec n r2 ltac:(lia)) as (r2' & S2 & P2 & E2).
  rewrite E1, E2 in *. cbn in *. destruct S1 as (? & ? & _), S2 as (? & ? & _).
  rewrite Hp in P1 |- *. rewrite He. split_and!; [done| |done]. split_and!; congruence.
Qed.

Lemma respects_Peek n : 0 <= n <= 16 -> respects (Peek n).
Proof.
  intros Hn r1 r2 Hc Hr. unfold roomy in *.
  destruct (Peek_respects_at n r1 r2) as (? & ? & ?); [lia|done|].
  split_and!; [done|done|lia].
Qed.
Lemma respects_Next n : 0 <= n <= 16 -> respects (Next n).
Proof.
  intros Hn r1 r2 Hc Hr. unfold roomy in *.
  destruct (Next_respects_at n r1 r2) as (? & ? & ?); [lia|done|].
  split_and!; [done|done|lia].
Qed.

Lemma respects_fwd_Skip n : 0 <= n -> respects (fwd_Skip n).
Proof.
  intros Hn r1 r2 Hc (Hp & He & Hs & Hcc).
  destruct (fwd_Skip_spec n r1 Hn) as (r1' & S1 & C1 & P1 & E1).
  destruct (fwd_Skip_spec n r2 Hn) as (r2' & S2 & C2 & P2 & E2).
  rewrite E1, E2. cbn. unfold roomy in *. destruct S1 as (? & ? & _), S2 as (? & ? & _).
  rewrite Hp, Hs, He. split_and!; [done| |lia]. split_and!; congruence.
Qed.

Lemma respects_ReadFull n : 0 <= n -> respects (ReadFull n).
Proof.
  intros Hn r1 r2 Hc (Hp & He & Hs & Hcc).
  destruct (ReadFull_spec n r1 Hn) as (r1' & S1 & C1 & P1 & E1).
  destruct (ReadFull_spec n r2 Hn) as (r2' & S2 & C2 & P2 & E2).
  rewrite E1, E2. cbn. unfold roomy in *. destruct S1 as (? & ? & _), S2 as (? & ? & _).
  rewrite Hp, He. split_and!; [done| |lia]. split_and!; congruence.
Qed.

Create HintDb respects discriminated.
#[export] Hint Resolve respects_ret respects_throw respects_bind respects_Peek
  respects_Next respects_fwd_Skip respects_ReadFull : respects.
