(* ===== verification/Msgp.v ===== *)
(** * The msgpack codec

    Models the parts of vendor/github.com/tinylib/msgp/msgp the daemon uses:
    the prefixes (defs.go), the size table (elsize.go), the big-endian integer
    helpers (integers.go), the appending encoders (write_bytes.go), the methods
    of [msgp.Reader] (read.go) and the functions on byte slices (read_bytes.go,
    edit.go).

    Reader methods are computations over [Fwd.Reader]; a byte-slice function
    returns the rest of the slice.  A lead byte is handled as its value in [Z]. *)

From Stdlib Require Import ZArith Lia.
From S2P Require Import Prelude Fwd.

(** ** Prefixes (defs.go) *)

Definition last4 : Z := 0x0f.
Definition first4 : Z := 0xf0.
Definition last5 : Z := 0x1f.
Definition first3 : Z := 0xe0.
Definition last7 : Z := 0x7f.

Definition mfixint : Z := 0x00.
Definition mnfixint : Z := 0xe0.
Definition mfixmap : Z := 0x80.
Definition mfixarray : Z := 0x90.
Definition mfixstr : Z := 0xa0.
Definition mnil : Z := 0xc0.
Definition mfalse : Z := 0xc2.
Definition mtrue : Z := 0xc3.
Definition mbin8 : Z := 0xc4.
Definition mbin16 : Z := 0xc5.
Definition mbin32 : Z := 0xc6.
Definition mext8 : Z := 0xc7.
Definition mext16 : Z := 0xc8.
Definition mext32 : Z := 0xc9.
Definition mfloat32 : Z := 0xca.
Definition mfloat64 : Z := 0xcb.
Definition muint8 : Z := 0xcc.
Definition muint16 : Z := 0xcd.
Definition muint32 : Z := 0xce.
Definition muint64 : Z := 0xcf.
Definition mint8 : Z := 0xd0.
Definition mint16 : Z := 0xd1.
Definition mint32 : Z := 0xd2.
Definition mint64 : Z := 0xd3.
Definition mfixext1 : Z := 0xd4.
Definition mfixext2 : Z := 0xd5.
Definition mfixext4 : Z := 0xd6.
Definition mfixext8 : Z := 0xd7.
Definition mfixext16 : Z := 0xd8.
Definition mstr8 : Z := 0xd9.
Definition mstr16 : Z := 0xda.
Definition mstr32 : Z := 0xdb.
Definition marray16 : Z := 0xdc.
Definition marray32 : Z := 0xdd.
Definition mmap16 : Z := 0xde.
Definition mmap32 : Z := 0xdf.

Definition isfixint (b : Z) : bool := b ≫ 7 =? 0.
Definition isnfixint (b : Z) : bool := Z.land b first3 =? mnfixint.
Definition isfixmap (b : Z) : bool := Z.land b first4 =? mfixmap.
Definition isfixarray (b : Z) : bool := Z.land b first4 =? mfixarray.
Definition isfixstr (b : Z) : bool := Z.land b first3 =? mfixstr.

Definition wfixint (u : Z) : byte := z2b (Z.land u last7).
Definition rfixint (b : Z) : Z := b.
Definition wnfixint (i : Z) : byte := z2b (Z.lor (uint 8 i) mnfixint).
Definition rnfixint (b : Z) : Z := sint 8 b.
Definition rfixmap (b : Z) : Z := Z.land b last4.
Definition wfixmap (u : Z) : byte := z2b (Z.lor mfixmap (Z.land u last4)).
Definition rfixstr (b : Z) : Z := Z.land b last5.
Definition wfixstr (u : Z) : byte := z2b (Z.lor (Z.land u last5) mfixstr).
Definition rfixarray (b : Z) : Z := Z.land b last4.
Definition wfixarray (u : Z) : byte := z2b (Z.lor (Z.land u last4) mfixarray).

(** ** The size table (elsize.go) *)

(** [varmode]: a non-negative mode counts the elements of a composite. *)
Definition constsize : Z := 0.
Definition extra8 : Z := -1.
Definition extra16 : Z := -2.
Definition extra32 : Z := -3.
Definition map16v : Z := -4.
Definition map32v : Z := -5.
Definition array16v : Z := -6.
Definition array32v : Z := -7.

Record bytespec := { bs_size : Z; bs_extra : Z; bs_typ : Type_ }.
Abbreviation spec s e t := {| bs_size := s; bs_extra := e; bs_typ := t |} (only parsing).

Definition sizes_tab : list (Z * bytespec) :=
  [ (mnil, spec 1 constsize NilType);
    (mfalse, spec 1 constsize BoolType);
    (mtrue, spec 1 constsize BoolType);
    (mbin8, spec 2 extra8 BinType);
    (mbin16, spec 3 extra16 BinType);
    (mbin32, spec 5 extra32 BinType);
    (mext8, spec 3 extra8 ExtensionType);
    (mext16, spec 4 extra16 ExtensionType);
    (mext32, spec 6 extra32 ExtensionType);
    (mfloat32, spec 5 constsize Float32Type);
    (mfloat64, spec 9 constsize Float64Type);
    (muint8, spec 2 constsize UintType);
    (muint16, spec 3 constsize UintType);
    (muint32, spec 5 constsize UintType);
    (muint64, spec 9 constsize UintType);
    (mint8, spec 2 constsize IntType);
    (mint16, spec 3 constsize IntType);
    (mint32, spec 5 constsize IntType);
    (mint64, spec 9 constsize IntType);
    (mfixext1, spec 3 constsize ExtensionType);
    (mfixext2, spec 4 constsize ExtensionType);
    (mfixext4, spec 6 constsize ExtensionType);
    (mfixext8, spec 10 constsize ExtensionType);
    (mfixext16, spec 18 constsize ExtensionType);
    (mstr8, spec 2 extra8 StrType);
    (mstr16, spec 3 extra16 StrType);
    (mstr32, spec 5 extra32 StrType);
    (marray16, spec 3 array16v ArrayType);
    (marray32, spec 5 array32v ArrayType);
    (mmap16, spec 3 map16v MapType);
    (mmap32, spec 5 map32v MapType) ].

Fixpoint assoc_spec (lead : Z) (l : list (Z * bytespec)) : bytespec :=
  match l with
  | [] => spec 0 0 InvalidType
  | (k, s) :: l => if lead =? k then s else assoc_spec lead l
  end.

(** [sizes], with the ranges its [init] fills in. *)
Definition sizes (lead : Z) : bytespec :=
  if lead <? 0x80 then spec 1 constsize IntType
  else if mnfixint <=? lead then spec 1 constsize IntType
  else if (mfixstr <=? lead) && (lead <? 0xc0) then spec (1 + rfixstr lead) constsize StrType
  else if (mfixmap <=? lead) && (lead <? 0x90) then spec 1 (2 * rfixmap lead) MapType
  else if (mfixarray <=? lead) && (lead <? 0xa0) then spec 1 (rfixarray lead) ArrayType
  else assoc_spec lead sizes_tab.

Definition getType (lead : Z) : Type_ := bs_typ (sizes lead).

Definition badPrefix (want : Type_) (lead : Z) : rerror :=
  match getType lead with
  | InvalidType => InvalidPrefixError (z2b lead)
  | t => TypeError want t
  end.

(** ** Big-endian integers (integers.go) *)

(** [b[i]]; the callers have checked the length. *)
Definition at_ (p : list byte) (i : nat) : Z :=
  match p !! i with Some b => b2z b | None => 0 end.

Definition putMint64 (i : Z) : list byte :=
  [z2b mint64; z2b (i ≫ 56); z2b (i ≫ 48); z2b (i ≫ 40); z2b (i ≫ 32);
   z2b (i ≫ 24); z2b (i ≫ 16); z2b (i ≫ 8); z2b i].
Definition putMint32 (i : Z) : list byte :=
  [z2b mint32; z2b (i ≫ 24); z2b (i ≫ 16); z2b (i ≫ 8); z2b i].
Definition putMint16 (i : Z) : list byte := [z2b mint16; z2b (i ≫ 8); z2b i].
Definition putMint8 (i : Z) : list byte := [z2b mint8; z2b i].

Definition putMuint64 (u : Z) : list byte :=
  [z2b muint64; z2b (u ≫ 56); z2b (u ≫ 48); z2b (u ≫ 40); z2b (u ≫ 32);
   z2b (u ≫ 24); z2b (u ≫ 16); z2b (u ≫ 8); z2b u].
Definition putMuint32 (u : Z) : list byte :=
  [z2b muint32; z2b (u ≫ 24); z2b (u ≫ 16); z2b (u ≫ 8); z2b u].
Definition putMuint16 (u : Z) : list byte := [z2b muint16; z2b (u ≫ 8); z2b u].
Definition putMuint8 (u : Z) : list byte := [z2b muint8; z2b u].

Definition prefixu8 (pre sz : Z) : list byte := [z2b pre; z2b sz].
Definition prefixu16 (pre sz : Z) : list byte := [z2b pre; z2b (sz ≫ 8); z2b sz].
Definition prefixu32 (pre sz : Z) : list byte :=
  [z2b pre; z2b (sz ≫ 24); z2b (sz ≫ 16); z2b (sz ≫ 8); z2b sz].

Definition getMuint64 (b : list byte) : Z :=
  Z.lor (Z.lor (Z.lor (Z.lor (Z.lor (Z.lor (Z.lor
    (at_ b 1 ≪ 56) (at_ b 2 ≪ 48)) (at_ b 3 ≪ 40)) (at_ b 4 ≪ 32))
    (at_ b 5 ≪ 24)) (at_ b 6 ≪ 16)) (at_ b 7 ≪ 8)) (at_ b 8).
Definition getMuint32 (b : list byte) : Z :=
  Z.lor (Z.lor (Z.lor (at_ b 1 ≪ 24) (at_ b 2 ≪ 16)) (at_ b 3 ≪ 8)) (at_ b 4).
Definition getMuint16 (b : list byte) : Z := Z.lor (at_ b 1 ≪ 8) (at_ b 2).
Definition getMuint8 (b : list byte) : Z := at_ b 1.

(** The signed readers or together the same bytes in a signed type. *)
Definition getMint64 (b : list byte) : Z := sint 64 (getMuint64 b).
Definition getMint32 (b : list byte) : Z := sint 32 (getMuint32 b).
Definition getMint16 (b : list byte) : Z := sint 16 (getMuint16 b).
Definition getMint8 (b : list byte) : Z := sint 8 (at_ b 1).

(** [big.Uint16(p[1:])] and [big.Uint32(p[1:])]: encoding/binary.BigEndian on
    the bytes after the lead byte. *)
Definition be16 (p : list byte) : Z := Z.lor (at_ p 2) (at_ p 1 ≪ 8).
Definition be32 (p : list byte) : Z :=
  Z.lor (Z.lor (Z.lor (at_ p 4) (at_ p 3 ≪ 8)) (at_ p 2 ≪ 16)) (at_ p 1 ≪ 24).

(** ** Encoders (write_bytes.go) *)

Definition MaxUint8 : Z := 2 ^ 8 - 1.
Definition MaxUint16 : Z := 2 ^ 16 - 1.
Definition MaxUint32 : Z := 2 ^ 32 - 1.

Definition AppendMapHeader (b : list byte) (sz : Z) : list byte :=
  if sz <=? 15 then b ++ [wfixmap (uint 8 sz)]
  else if sz <=? MaxUint16 then b ++ prefixu16 mmap16 (uint 16 sz)
  else b ++ prefixu32 mmap32 sz.

Definition AppendArrayHeader (b : list byte) (sz : Z) : list byte :=
  if sz <=? 15 then b ++ [wfixarray (uint 8 sz)]
  else if sz <=? MaxUint16 then b ++ prefixu16 marray16 (uint 16 sz)
  else b ++ prefixu32 marray32 sz.

Definition AppendInt64 (b : list byte) (i : Z) : list byte :=
  if 0 <=? i then
    if i <=? 2 ^ 7 - 1 then b ++ [wfixint (uint 8 i)]
    else if i <=? 2 ^ 15 - 1 then b ++ putMint16 (sint 16 i)
    else if i <=? 2 ^ 31 - 1 then b ++ putMint32 (sint 32 i)
    else b ++ putMint64 i
  else
    if -32 <=? i then b ++ [wnfixint (sint 8 i)]
    else if - 2 ^ 7 <=? i then b ++ putMint8 (sint 8 i)
    else if - 2 ^ 15 <=? i then b ++ putMint16 (sint 16 i)
    else if - 2 ^ 31 <=? i then b ++ putMint32 (sint 32 i)
    else b ++ putMint64 i.

Definition AppendInt (b : list byte) (i : Z) : list byte := AppendInt64 b i.

Definition AppendUint64 (b : list byte) (u : Z) : list byte :=
  if u <=? (1 ≪ 7) - 1 then b ++ [wfixint (uint 8 u)]
  else if u <=? MaxUint8 then b ++ putMuint8 (uint 8 u)
  else if u <=? MaxUint16 then b ++ putMuint16 (uint 16 u)
  else if u <=? MaxUint32 then b ++ putMuint32 (uint 32 u)
  else b ++ putMuint64 u.

Definition AppendUint (b : list byte) (u : Z) : list byte := AppendUint64 b u.

Definition AppendStringFromBytes (b : list byte) (str : list byte) : list byte :=
  let sz := zlen str in
  (if sz <=? 31 then b ++ [wfixstr (uint 8 sz)]
   else if sz <=? MaxUint8 then b ++ prefixu8 mstr8 (uint 8 sz)
   else if sz <=? MaxUint16 then b ++ prefixu16 mstr16 (uint 16 sz)
   else b ++ prefixu32 mstr32 (uint 32 sz)) ++ str.

(** The same body as [AppendStringFromBytes], on a string. *)
Definition AppendString (b : list byte) (s : string) : list byte :=
  AppendStringFromBytes b (str_bytes s).

(** [AppendMapStrStr]: the pairs in the order the map range yields them. *)
Definition AppendMapStrStr (b : list byte) (kvs : list (string * string)) : list byte :=
  fold_left (λ b kv, AppendString (AppendString b kv.1) kv.2) kvs
    (AppendMapHeader b (uint 32 (zlen kvs))).

(** ** Sizes of objects on the wire (read_bytes.go, read.go) *)

(** The [switch mode] shared by [getSize] and [getNextSize]. *)
Definition mode_size (sz mode : Z) (b : list byte) : result rerror (Z * Z) :=
  if mode =? extra8 then Ok (sz + at_ b 1, 0)
  else if mode =? extra16 then Ok (sz + be16 b, 0)
  else if mode =? extra32 then Ok (sz + be32 b, 0)
  else if mode =? map16v then Ok (sz, 2 * be16 b)
  else if mode =? map32v then Ok (sz, 2 * be32 b)
  else if mode =? array16v then Ok (sz, be16 b)
  else if mode =? array32v then Ok (sz, be32 b)
  else Err fatal.

(** (object size, number of elements) of the object at the head of a slice. *)
Definition getSize (b : list byte) : result rerror (Z * Z) :=
  let l := zlen b in
  if l =? 0 then Err ErrShortBytes
  else
    let lead := at_ b 0 in
    let s := sizes lead in
    let sz := bs_size s in
    let mode := bs_extra s in
    if sz =? 0 then Err (InvalidPrefixError (z2b lead))
    else if 0 <=? mode then Ok (sz, mode)
    else if l <? sz then Err ErrShortBytes
    else mode_size sz mode b.

Definition lift {S A} (x : result rerror A) : act S rerror A := λ s, (x, s).

Definition getNextSize : act Reader rerror (Z * Z) :=
  b ← Peek 1;
  let lead := at_ b 0 in
  let s := sizes lead in
  let sz := bs_size s in
  let mode := bs_extra s in
  if sz =? 0 then throw (InvalidPrefixError (z2b lead))
  else if 0 <=? mode then mret (sz, mode)
  else b ← Peek sz; lift (mode_size sz mode b).

(** ** Methods of [msgp.Reader] (read.go) *)

(** A counted loop of reader calls, [for n > 0 { n--; ... }].  Every body used
    reads at least one byte or fails, so the fuel (one more than the bytes that
    are left) is never exhausted: see [loop_enough]. *)
Fixpoint loop_fuel {A} (fuel : nat) (n : Z) (body : A -> act Reader rerror A) (a : A)
  : act Reader rerror A :=
  if n <=? 0 then mret a
  else match fuel with
       | O => throw Diverged
       | S f => a' ← body a; loop_fuel f (n - 1) body a'
       end.

Definition loop {A} (n : Z) (body : A -> act Reader rerror A) (a : A)
  : act Reader rerror A := λ r, loop_fuel (S (length (pending r))) n body a r.

(** The size computation of [Skip]: the fast path uses the five buffered bytes
    when there are as many, the slow path peeks at what the prefix needs. *)
Definition Skip_fast : act Reader rerror (Z * Z) := p ← Peek 5; lift (getSize p).
Definition Skip_size : act Reader rerror (Z * Z) := λ r,
  if 5 <=? Buffered r then Skip_fast r else getNextSize r.

(** One object prefix of [Skip]: returns the number of elements that follow. *)
Definition Skip_prefix : act Reader rerror Z :=
  vo ← Skip_size;
  _ ← fwd_Skip vo.1;
  mret vo.2.

(** [Skip] recurs once per element; flattened, it skips [k] objects in a row,
    where each one adds its elements to the count. *)
Fixpoint Skip_objs (fuel : nat) (k : Z) : act Reader rerror unit :=
  if k <=? 0 then mret tt
  else match fuel with
       | O => throw Diverged
       | S f => o ← Skip_prefix; Skip_objs f (k - 1 + o)
       end.

Definition Skip : act Reader rerror unit := λ r,
  Skip_objs (S (length (pending r))) 1 r.

(** [io.CopyN] from the buffered reader: an early end is reported as it is. *)
Definition CopyN (n : Z) : act Reader rerror (list byte) := λ r,
  match ReadFull n r with
  | (Ok b, r') => (Ok b, r')
  | (Err _, r') => (Err (R_end r'), r')
  end.

(** [if err == io.ErrUnexpectedEOF { err = ErrShortBytes }] *)
Definition short {A} (m : act Reader rerror A) : act Reader rerror A := λ r,
  match m r with
  | (Err ErrUnexpectedEOF, r') => (Err ErrShortBytes, r')
  | x => x
  end.

(** The object's own bytes: out of the buffer when they fit it. *)
Definition CopyNext_buf (sz : Z) : act Reader rerror (list byte) := λ r,
  if sz <=? BufferSize r then short (Next sz) r else short (CopyN sz) r.

(** One object prefix of [CopyNext], with the bytes it writes. *)
Definition CopyNext_prefix : act Reader rerror (list byte * Z) :=
  so ← getNextSize;
  buf ← CopyNext_buf so.1;
  mret (buf, so.2).

Fixpoint CopyNext_objs (fuel : nat) (k : Z) (w : list byte)
  : act Reader rerror (list byte) :=
  if k <=? 0 then mret w
  else match fuel with
       | O => throw Diverged
       | S f => bo ← CopyNext_prefix; CopyNext_objs f (k - 1 + bo.2) (w ++ bo.1)
       end.

(** [CopyNext(w)], for a writer that only appends: returns its new contents. *)
Definition CopyNext (w : list byte) : act Reader rerror (list byte) := λ r,
  CopyNext_objs (S (length (pending r))) 1 w r.

Definition Complex64Extension : Z := 3.
Definition Complex128Extension : Z := 4.
Definition TimeExtension : Z := 5.

Definition peekExtensionType : act Reader rerror Z :=
  p ← Peek 2;
  let s := sizes (at_ p 0) in
  if decide (bs_typ s = ExtensionType) then
    if bs_extra s =? constsize then mret (sint 8 (at_ p 1))
    else p ← Peek (bs_size s); mret (sint 8 (at_ p (Z.to_nat (bs_size s - 1))))
  else throw (badPrefix ExtensionType (at_ p 0)).

Definition NextType : act Reader rerror Type_ :=
  p ← Peek 1;
  let t := getType (at_ p 0) in
  if decide (t = InvalidType) then throw (InvalidPrefixError (z2b (at_ p 0)))
  else if decide (t = ExtensionType) then
    v ← peekExtensionType;
    if v =? Complex64Extension then mret Complex64Type
    else if v =? Complex128Extension then mret Complex128Type
    else if v =? TimeExtension then mret TimeType
    else mret t
  else mret t.

Definition ReadMapHeader : act Reader rerror Z :=
  p ← Peek 1;
  let lead := at_ p 0 in
  if isfixmap lead then _ ← fwd_Skip 1; mret (rfixmap lead)
  else if lead =? mmap16 then p ← Next 3; mret (be16 p)
  else if lead =? mmap32 then p ← Next 5; mret (be32 p)
  else throw (badPrefix MapType lead).

Definition ReadArrayHeader : act Reader rerror Z :=
  p ← Peek 1;
  let lead := at_ p 0 in
  if isfixarray lead then _ ← fwd_Skip 1; mret (rfixarray lead)
  else if lead =? marray16 then p ← Next 3; mret (be16 p)
  else if lead =? marray32 then p ← Next 5; mret (be32 p)
  else throw (badPrefix ArrayType lead).

(** [u = uint64(v)] for a signed [v], refused when negative. *)
Definition nonneg (v : Z) : act Reader rerror Z :=
  if v <? 0 then throw (UintBelowZero v) else mret (uint 64 v).

Definition ReadUint64 : act Reader rerror Z :=
  p ← Peek 1;
  let lead := at_ p 0 in
  if isfixint lead then _ ← fwd_Skip 1; mret (rfixint lead)
  else if lead =? mint8 then p ← Next 2; nonneg (getMint8 p)
  else if lead =? muint8 then p ← Next 2; mret (getMuint8 p)
  else if lead =? mint16 then p ← Next 3; nonneg (getMint16 p)
  else if lead =? muint16 then p ← Next 3; mret (getMuint16 p)
  else if lead =? mint32 then p ← Next 5; nonneg (getMint32 p)
  else if lead =? muint32 then p ← Next 5; mret (getMuint32 p)
  else if lead =? mint64 then p ← Next 9; nonneg (getMint64 p)
  else if lead =? muint64 then p ← Next 9; mret (getMuint64 p)
  else if isnfixint lead then throw (UintBelowZero (rnfixint lead))
  else throw (badPrefix UintType lead).

(** On a 64-bit platform ([smallint] is false). *)
Definition ReadUint : act Reader rerror Z := ReadUint64.

Definition ReadInt64 : act Reader rerror Z :=
  p ← Peek 1;
  let lead := at_ p 0 in
  if isfixint lead then _ ← fwd_Skip 1; mret (rfixint lead)
  else if isnfixint lead then _ ← fwd_Skip 1; mret (rnfixint lead)
  else if lead =? mint8 then p ← Next 2; mret (getMint8 p)
  else if lead =? muint8 then p ← Next 2; mret (getMuint8 p)
  else if lead =? mint16 then p ← Next 3; mret (getMint16 p)
  else if lead =? muint16 then p ← Next 3; mret (getMuint16 p)
  else if lead =? mint32 then p ← Next 5; mret (getMint32 p)
  else if lead =? muint32 then p ← Next 5; mret (getMuint32 p)
  else if lead =? mint64 then p ← Next 9; mret (getMint64 p)
  else if lead =? muint64 then
    p ← Next 9;
    let u := getMuint64 p in
    if 2 ^ 63 - 1 <? u then throw (UintOverflow u) else mret u
  else throw (badPrefix IntType lead).

(** [m.R.Skip(1)] with its error dropped, as after a successful [Peek(1)]. *)
Definition fwd_Skip_ (n : Z) : act Reader rerror unit := λ r, (Ok tt, (fwd_Skip n r).2).

Definition ReadString : act Reader rerror string :=
  p ← Peek 1;
  let lead := at_ p 0 in
  read ← (if isfixstr lead then _ ← fwd_Skip_ 1; mret (rfixstr lead)
          else if lead =? mstr8 then p ← Next 2; mret (at_ p 1)
          else if lead =? mstr16 then p ← Next 3; mret (be16 p)
          else if lead =? mstr32 then p ← Next 5; mret (be32 p)
          else throw (badPrefix StrType lead));
  if read =? 0 then mret EmptyString
  else out ← ReadFull read; mret (bytes_str out).

Definition ReadMapKeyPtr : act Reader rerror (list byte) :=
  p ← Peek 1;
  let lead := at_ p 0 in
  read ← (if isfixstr lead then _ ← fwd_Skip_ 1; mret (rfixstr lead)
          else if (lead =? mstr8) || (lead =? mbin8) then p ← Next 2; mret (at_ p 1)
          else if (lead =? mstr16) || (lead =? mbin16) then p ← Next 3; mret (be16 p)
          else if (lead =? mstr32) || (lead =? mbin32) then p ← Next 5; mret (be32 p)
          else throw (badPrefix StrType lead));
  if read =? 0 then throw ErrShortBytes
  else Next read.

(** ** Functions on byte slices (read_bytes.go, edit.go) *)

(** A function that reads off the front of a slice returns what it read and the
    rest; [x, b, err = f(b)] threads the rest through a sequence of such calls. *)
Definition parser (A : Type) : Type := list byte -> result rerror (A * list byte).
#[export] Instance parser_ret : MRet parser := λ A a b, Ok (a, b).
#[export] Instance parser_bind : MBind parser := λ A B k f b,
  match f b with
  | Ok (a, o) => k a o
  | Err e => Err e
  end.
Definition pfail {A} (e : rerror) : parser A := λ _, Err e.

Definition ReadMapHeaderBytes : parser Z := λ b,
  let l := zlen b in
  if l <? 1 then Err ErrShortBytes
  else
    let lead := at_ b 0 in
    if isfixmap lead then Ok (rfixmap lead, zdrop 1 b)
    else if lead =? mmap16 then
      if l <? 3 then Err ErrShortBytes else Ok (be16 b, zdrop 3 b)
    else if lead =? mmap32 then
      if l <? 5 then Err ErrShortBytes else Ok (be32 b, zdrop 5 b)
    else Err (badPrefix MapType lead).

Definition ReadStringZC : parser (list byte) := λ b,
  let l := zlen b in
  if l <? 1 then Err ErrShortBytes
  else
    let lead := at_ b 0 in
    match (if isfixstr lead then Ok (rfixstr lead, zdrop 1 b)
           else if lead =? mstr8 then
             if l <? 2 then Err ErrShortBytes else Ok (at_ b 1, zdrop 2 b)
           else if lead =? mstr16 then
             if l <? 3 then Err ErrShortBytes else Ok (be16 b, zdrop 3 b)
           else if lead =? mstr32 then
             if l <? 5 then Err ErrShortBytes else Ok (be32 b, zdrop 5 b)
           else Err (TypeError StrType (getType lead))) with
    | Err e => Err e
    | Ok (read, b) =>
        if zlen b <? read then Err ErrShortBytes
        else Ok (ztake read b, zdrop read b)
    end.

Definition ReadStringBytes : parser string := λ b,
  match ReadStringZC b with
  | Ok (v, o) => Ok (bytes_str v, o)
  | Err e => Err e
  end.

Fixpoint SkipBytes_objs (fuel : nat) (k : Z) (b : list byte) : result rerror (list byte) :=
  if k <=? 0 then Ok b
  else match fuel with
       | O => Err Diverged
       | S f =>
           match getSize b with
           | Err e => Err e
           | Ok (sz, asz) =>
               if zlen b <? sz then Err ErrShortBytes
               else SkipBytes_objs f (k - 1 + asz) (zdrop sz b)
           end
       end.

(** The package-level [msgp.Skip]. *)
Definition SkipBytes (b : list byte) : result rerror (list byte) :=
  SkipBytes_objs (S (length b)) 1 b.

Fixpoint locate_loop (fuel : nat) (n : Z) (raw bts : list byte) (key : string) : Z * Z :=
  if n <=? 0 then (0, 0)
  else match fuel with
       | O => (0, 0)
       | S f =>
           match ReadStringZC bts with
           | Err _ => (0, 0)
           | Ok (field, bts) =>
               if decide (bytes_str field = key) then
                 match SkipBytes bts with
                 | Err _ => (0, 0)
                 | Ok bts' => (zlen raw - zlen bts, zlen raw - zlen bts')
                 end
               else
                 match SkipBytes bts with
                 | Err _ => (0, 0)
                 | Ok bts' => locate_loop f (n - 1) raw bts' key
                 end
           end
       end.

Definition locate (raw : list byte) (key : string) : Z * Z :=
  match ReadMapHeaderBytes raw with
  | Err _ => (0, 0)
  | Ok (sz, bts) => locate_loop (S (length bts)) sz raw bts key
  end.

(** [raw[s:n]] *)
Definition Locate (key : string) (raw : list byte) : list byte :=
  let '(s, n) := locate raw key in ztake (n - s) (zdrop s raw).
