(* ===== verification/MsgpFacts.v ===== *)
(** * Correctness of the msgpack codec

    Encoding then decoding is the identity for every integer, string and header
    the daemon sends or receives; [Skip] and [CopyNext] pass over exactly one
    object; none of the reader loops runs out of fuel; and no decoding depends on
    how the connection segments the bytes. *)

From Stdlib Require Import ZArith Lia.
From S2P Require Import Prelude Fwd Msgp.

(** ** Integers *)

Ltac be_assemble u :=
  rewrite <- ?Z.lor_assoc; rewrite (z2b_low u);
  repeat (rewrite lor_byte_step by lia;
          match goal with |- context [2 ^ (?a + 8)] =>
            let c := eval vm_compute in (a + 8) in change (a + 8) with c end).

Lemma getMuint16_put u : getMuint16 (putMuint16 u) = u mod 2 ^ 16.
Proof.
  unfold getMuint16, putMuint16, at_; cbn [lookup list_lookup].
  be_assemble u. done.
Qed.
Lemma getMuint32_put u : getMuint32 (putMuint32 u) = u mod 2 ^ 32.
Proof.
  unfold getMuint32, putMuint32, at_; cbn [lookup list_lookup].
  be_assemble u. done.
Qed.
Lemma getMuint64_put u : getMuint64 (putMuint64 u) = u mod 2 ^ 64.
Proof.
  unfold getMuint64, putMuint64, at_; cbn [lookup list_lookup].
  be_assemble u. done.
Qed.
Lemma getMint_put16 u : getMint16 (putMint16 u) = sint 16 (u mod 2 ^ 16).
Proof.
  unfold getMint16, getMuint16, putMint16, at_; cbn [lookup list_lookup].
  be_assemble u. done.
Qed.
Lemma getMint_put32 u : getMint32 (putMint32 u) = sint 32 (u mod 2 ^ 32).
Proof.
  unfold getMint32, getMuint32, putMint32, at_; cbn [lookup list_lookup].
  be_assemble u. done.
Qed.
Lemma getMint_put64 u : getMint64 (putMint64 u) = sint 64 (u mod 2 ^ 64).
Proof.
  unfold getMint64, getMuint64, putMint64, at_; cbn [lookup list_lookup].
  be_assemble u. done.
Qed.
Lemma be16_prefix pre u : be16 (prefixu16 pre u) = u mod 2 ^ 16.
Proof.
  unfold be16, prefixu16, at_; cbn [lookup list_lookup].
  rewrite Z.lor_comm. be_assemble u. done.
Qed.
Lemma be32_prefix pre u : be32 (prefixu32 pre u) = u mod 2 ^ 32.
Proof.
  unfold be32, prefixu32, at_; cbn [lookup list_lookup].
  rewrite Z.lor_comm, (Z.lor_comm (Z.lor (b2z _) _)), (Z.lor_comm (b2z _) (_ ≪ 8)).
  be_assemble u. done.
Qed.
Lemma sint_small w z : 0 < w -> - 2 ^ (w - 1) <= z < 2 ^ (w - 1) -> sint w z = z.
Proof.
  intros Hw Hz. unfold sint.
  assert (2 ^ w = 2 * 2 ^ (w - 1)) as Hp.
  { rewrite <- Z.pow_succ_r by lia. f_equal. lia. }
  rewrite Z.mod_small; lia.
Qed.

(** ** The one-byte prefixes *)

Lemma fixint_ok u : 0 <= u < 128 -> b2z (wfixint (uint 8 u)) = u /\ isfixint u = true.
Proof.
  intros Hu. pose proof (Zrange_check
    (λ u, (b2z (wfixint (uint 8 u)) =? u) && isfixint u) 128 eq_refl u ltac:(lia)) as H.
  cbn beta in H. bool_prop. auto.
Qed.
Lemma nfixint_ok i : -32 <= i < 0 ->
  let b := b2z (wnfixint (sint 8 i)) in
  isfixint b = false /\ isnfixint b = true /\ rnfixint b = i.
Proof.
  intros Hi. pose proof (Zrange_check
    (λ k, let i := k - 32 in let b := b2z (wnfixint (sint 8 i)) in
       negb (isfixint b) && isnfixint b && (rnfixint b =? i)) 32 eq_refl (i + 32)
    ltac:(lia)) as H.
  cbn beta zeta in H. replace (i + 32 - 32) with i in H by lia. bool_prop.
  cbv zeta. split_and!; [by apply negb_true_iff|done|done].
Qed.
Lemma fixmap_ok u : 0 <= u <= 15 ->
  let b := b2z (wfixmap (uint 8 u)) in isfixmap b = true /\ rfixmap b = u.
Proof.
  intros Hu. pose proof (Zrange_check
    (λ u, let b := b2z (wfixmap (uint 8 u)) in isfixmap b && (rfixmap b =? u)) 16
    eq_refl u ltac:(lia)) as H. cbn beta zeta in H. bool_prop. auto.
Qed.
Lemma fixarray_ok u : 0 <= u <= 15 ->
  let b := b2z (wfixarray (uint 8 u)) in isfixarray b = true /\ rfixarray b = u.
Proof.
  intros Hu. pose proof (Zrange_check
    (λ u, let b := b2z (wfixarray (uint 8 u)) in isfixarray b && (rfixarray b =? u)) 16
    eq_refl u ltac:(lia)) as H. cbn beta zeta in H. bool_prop. auto.
Qed.
Lemma fixstr_ok u : 0 <= u <= 31 ->
  let b := b2z (wfixstr (uint 8 u)) in isfixstr b = true /\ rfixstr b = u.
Proof.
  intros Hu. pose proof (Zrange_check
    (λ u, let b := b2z (wfixstr (uint 8 u)) in isfixstr b && (rfixstr b =? u)) 32
    eq_refl u ltac:(lia)) as H. cbn beta zeta in H. bool_prop. auto.
Qed.

(** ** Encoding appends *)

Lemma AppendUint64_app b u : AppendUint64 b u = b ++ AppendUint64 [] u.
Proof. unfold AppendUint64. by repeat destruct (_ <=? _). Qed.
Lemma AppendInt64_app b i : AppendInt64 b i = b ++ AppendInt64 [] i.
Proof. unfold AppendInt64. by repeat destruct (_ <=? _). Qed.
Lemma AppendArrayHeader_app b n : AppendArrayHeader b n = b ++ AppendArrayHeader [] n.
Proof. unfold AppendArrayHeader. by repeat destruct (_ <=? _). Qed.
Lemma AppendMapHeader_app b n : AppendMapHeader b n = b ++ AppendMapHeader [] n.
Proof. unfold AppendMapHeader. by repeat destruct (_ <=? _). Qed.
Lemma AppendStringFromBytes_app b s :
  AppendStringFromBytes b s = b ++ AppendStringFromBytes [] s.
Proof.
  unfold AppendStringFromBytes. repeat destruct (_ <=? _); by rewrite <- !app_assoc.
Qed.
Lemma AppendString_app b s : AppendString b s = b ++ AppendString [] s.
Proof. apply AppendStringFromBytes_app. Qed.

(** ** Decoding what was encoded *)

(** Decides the tests on a constant lead byte. *)
Ltac lead_if :=
  cbv zeta;
  repeat match goal with
  | |- context [at_ [z2b ?c] 0] => change (at_ [z2b c] 0) with c
  | |- context [if ?c then _ else _] =>
      let v := eval vm_compute in c in
      lazymatch v with true => idtac | false => idtac end;
      change c with v; cbv iota
  end.

(** The fixed-width case of a reader: the whole header is taken by [Next]. *)
Ltac reads_fixed :=
  apply reads_peek1; lead_if;
  eapply reads_bind_nil; [apply reads_Next; reflexivity|].

(** Rewrites with a [get]/[put] law after [reads_peek1] exposed the bytes. *)
Ltac rew_put L :=
  let E := fresh in
  pose proof L as E;
  cbv [putMuint16 putMuint32 putMuint64 putMint16 putMint32 putMint64
       prefixu8 prefixu16 prefixu32] in E;
  cbn [app]; rewrite E; clear E.

Lemma reads_nonneg v : 0 <= v < 2 ^ 64 -> reads (nonneg v) [] v.
Proof.
  intros Hv. unfold nonneg. destruct (Z.ltb_spec v 0); [lia|].
  unfold uint. rewrite Z.mod_small by lia. apply reads_ret.
Qed.

Lemma reads_uint64 u : 0 <= u < 2 ^ 64 -> reads ReadUint64 (AppendUint64 [] u) u.
Proof.
  intros Hu. unfold AppendUint64, ReadUint64.
  destruct (Z.leb_spec u ((1 ≪ 7) - 1)) as [H1|H1].
  { change ((1 ≪ 7) - 1) with 127 in H1.
    apply reads_peek1. cbv zeta. unfold at_; cbn [lookup list_lookup].
    destruct (fixint_ok u ltac:(lia)) as [-> ->].
    eapply reads_bind_nil; [by apply reads_fwd_Skip|apply reads_ret]. }
  change ((1 ≪ 7) - 1) with 127 in H1.
  destruct (Z.leb_spec u MaxUint8) as [H2|H2]; unfold MaxUint8 in H2.
  { reads_fixed. unfold getMuint8, putMuint8, at_, uint; cbn [lookup list_lookup].
    rewrite z2b_low, Zmod_mod, Z.mod_small by lia. apply reads_ret. }
  destruct (Z.leb_spec u MaxUint16) as [H3|H3]; unfold MaxUint16 in H3.
  { reads_fixed. rew_put (getMuint16_put (uint 16 u)). unfold uint.
    rewrite Zmod_mod, Z.mod_small by lia. apply reads_ret. }
  destruct (Z.leb_spec u MaxUint32) as [H4|H4]; unfold MaxUint32 in H4.
  { reads_fixed. rew_put (getMuint32_put (uint 32 u)). unfold uint.
    rewrite Zmod_mod, Z.mod_small by lia. apply reads_ret. }
  reads_fixed. rew_put (getMuint64_put u). rewrite Z.mod_small by lia. apply reads_ret.
Qed.

Lemma reads_int64 i : - 2 ^ 63 <= i < 2 ^ 63 -> reads ReadInt64 (AppendInt64 [] i) i.
Proof.
  intros Hi. unfold AppendInt64, ReadInt64.
  destruct (Z.leb_spec 0 i).
  - destruct (Z.leb_spec i (2 ^ 7 - 1)).
    { apply reads_peek1. cbv zeta. unfold at_; cbn [lookup list_lookup].
      destruct (fixint_ok i ltac:(lia)) as [-> ->].
      eapply reads_bind_nil; [by apply reads_fwd_Skip|apply reads_ret]. }
    destruct (Z.leb_spec i (2 ^ 15 - 1)).
    { reads_fixed. rew_put (getMint_put16 (sint 16 i)).
      rewrite (sint_small 16 i), sint_of_uint by lia.
      apply reads_ret. }
    destruct (Z.leb_spec i (2 ^ 31 - 1)).
    { reads_fixed. rew_put (getMint_put32 (sint 32 i)).
      rewrite (sint_small 32 i), sint_of_uint by lia.
      apply reads_ret. }
    reads_fixed. rew_put (getMint_put64 i). rewrite sint_of_uint by lia. apply reads_ret.
  - destruct (Z.leb_spec (-32) i).
    { apply reads_peek1. cbv zeta. unfold at_; cbn [lookup list_lookup].
      destruct (nfixint_ok i ltac:(lia)) as (-> & -> & ->).
      eapply reads_bind_nil; [by apply reads_fwd_Skip|apply reads_ret]. }
    destruct (Z.leb_spec (- 2 ^ 7) i).
    { reads_fixed. unfold getMint8, putMint8, at_; cbn [lookup list_lookup].
      rewrite z2b_low, (sint_small 8 i), sint_of_uint by lia. apply reads_ret. }
    destruct (Z.leb_spec (- 2 ^ 15) i).
    { reads_fixed. rew_put (getMint_put16 (sint 16 i)).
      rewrite (sint_small 16 i), sint_of_uint by lia.
      apply reads_ret. }
    destruct (Z.leb_spec (- 2 ^ 31) i).
    { reads_fixed. rew_put (getMint_put32 (sint 32 i)).
      rewrite (sint_small 32 i), sint_of_uint by lia.
      apply reads_ret. }
    reads_fixed. rew_put (getMint_put64 i). rewrite sint_of_uint by lia. apply reads_ret.
Qed.

Lemma reads_array_header n :
  0 <= n < 2 ^ 32 -> reads ReadArrayHeader (AppendArrayHeader [] n) n.
Proof.
  intros Hn. unfold AppendArrayHeader, ReadArrayHeader.
  destruct (Z.leb_spec n 15).
  { apply reads_peek1. cbv zeta. unfold at_; cbn [lookup list_lookup].
    destruct (fixarray_ok n ltac:(lia)) as [-> ->].
    eapply reads_bind_nil; [by apply reads_fwd_Skip|apply reads_ret]. }
  destruct (Z.leb_spec n MaxUint16) as [H3|H3]; unfold MaxUint16 in H3.
  { reads_fixed. rew_put (be16_prefix marray16 (uint 16 n)). unfold uint.
    rewrite Zmod_mod, Z.mod_small by lia. apply reads_ret. }
  reads_fixed. rew_put (be32_prefix marray32 n). rewrite Z.mod_small by lia. apply reads_ret.
Qed.

Lemma reads_map_header n :
  0 <= n < 2 ^ 32 -> reads ReadMapHeader (AppendMapHeader [] n) n.
Proof.
  intros Hn. unfold AppendMapHeader, ReadMapHeader.
  destruct (Z.leb_spec n 15).
  { apply reads_peek1. cbv zeta. unfold at_; cbn [lookup list_lookup].
    destruct (fixmap_ok n ltac:(lia)) as [-> ->].
    eapply reads_bind_nil; [by apply reads_fwd_Skip|apply reads_ret]. }
  destruct (Z.leb_spec n MaxUint16) as [H3|H3]; unfold MaxUint16 in H3.
  { reads_fixed. rew_put (be16_prefix mmap16 (uint 16 n)). unfold uint.
    rewrite Zmod_mod, Z.mod_small by lia. apply reads_ret. }
  reads_fixed. rew_put (be32_prefix mmap32 n). rewrite Z.mod_small by lia. apply reads_ret.
Qed.

Lemma reads_fwd_Skip_ n bs : zlen bs = n -> reads (fwd_Skip_ n) bs tt.
Proof.
  intros Hn r rest Hr. destruct (reads_fwd_Skip n bs Hn r rest Hr) as (r' & E & P & S).
  exists r'. unfold fwd_Skip_. rewrite E. auto.
Qed.

(** The payload part of [ReadString] and of [ReadMapKeyPtr]. *)
Lemma reads_string_fill str n :
  n = zlen str ->
  reads (if n =? 0 then mret EmptyString
         else out ← ReadFull n; mret (bytes_str out)) str (bytes_str str).
Proof.
  intros ->. destruct (Z.eqb_spec (zlen str) 0) as [E|E].
  - assert (str = []) as -> by (destruct str; [done|rewrite zlen_cons in E;
      pose proof (zlen_nonneg str); lia]). apply reads_ret.
  - eapply reads_bind_nil; [by apply reads_ReadFull|apply reads_ret].
Qed.
Lemma reads_key_fill str n :
  n = zlen str -> 0 < n ->
  reads (if n =? 0 then throw ErrShortBytes else Next n) str str.
Proof.
  intros -> Hn. destruct (Z.eqb_spec (zlen str) 0); [lia|]. by apply reads_Next.
Qed.

Section strings.
Context (str : list byte) (Hlen : zlen str < 2 ^ 32).
Context {A : Type} (k : Z -> act Reader rerror A) (a : A).
Context (Hk : reads (k (zlen str)) str a).

Lemma reads_fixstr (lo : Z -> act Reader rerror Z) :
  zlen str <= 31 ->
  (forall lead, isfixstr lead = true -> lo lead = (_ ← fwd_Skip_ 1; mret (rfixstr lead))) ->
  reads (p ← Peek 1; read ← lo (at_ p 0); k read)
    ([wfixstr (uint 8 (zlen str))] ++ str) a.
Proof using Hk.
  intros H Hlo. pose proof (zlen_nonneg str). apply reads_peek1.
  destruct (fixstr_ok (zlen str) ltac:(lia)) as [E1 E2].
  change (at_ [wfixstr (uint 8 (zlen str))] 0) with (b2z (wfixstr (uint 8 (zlen str)))).
  rewrite Hlo, E2 by done. eapply (reads_bind _ _ [_]); [|apply Hk].
  eapply reads_bind_nil; [by apply reads_fwd_Skip_|apply reads_ret].
Qed.

Lemma reads_strhdr (lo : Z -> act Reader rerror Z) (h : list byte) n
    (get : list byte -> Z) (c : Z) :
  h <> [] -> zlen h = n -> at_ h 0 = c -> get h = zlen str ->
  lo c = (p ← Next n; mret (get p)) ->
  reads (p ← Peek 1; read ← lo (at_ p 0); k read) (h ++ str) a.
Proof using Hk.
  intros Hne Hn Hc Hget Hlo. destruct h as [|b h]; [done|].
  cbn [app]. apply reads_peek1.
  assert (at_ [b] 0 = c) as -> by done. rewrite Hlo.
  change (b :: h ++ str) with ((b :: h) ++ str).
  eapply (reads_bind _ _ (b :: h)); [|apply Hk].
  eapply reads_bind_nil; [by apply reads_Next|]. rewrite Hget. apply reads_ret.
Qed.
End strings.

(** The string header, decoded by any reader that agrees with [ReadString] on
    the four string prefixes. *)
Lemma reads_string_like {A} str (lo : Z -> act Reader rerror Z)
    (k : Z -> act Reader rerror A) a :
  zlen str < 2 ^ 32 ->
  (forall lead, isfixstr lead = true -> lo lead = (_ ← fwd_Skip_ 1; mret (rfixstr lead))) ->
  lo mstr8 = (p ← Next 2; mret (at_ p 1)) ->
  lo mstr16 = (p ← Next 3; mret (be16 p)) ->
  lo mstr32 = (p ← Next 5; mret (be32 p)) ->
  reads (k (zlen str)) str a ->
  reads (p ← Peek 1; read ← lo (at_ p 0); k read) (AppendStringFromBytes [] str) a.
Proof.
  intros Hlen Hf H8 H16 H32 Hk. pose proof (zlen_nonneg str).
  unfold AppendStringFromBytes. cbn [app].
  destruct (Z.leb_spec (zlen str) 31); [by apply reads_fixstr|].
  destruct (Z.leb_spec (zlen str) MaxUint8) as [H1|H1]; unfold MaxUint8 in H1.
  { eapply reads_strhdr; [exact Hk|done|reflexivity|reflexivity| |exact H8].
    unfold prefixu8, at_, uint; cbn [lookup list_lookup].
    rewrite z2b_low, Zmod_mod, Z.mod_small; lia. }
  destruct (Z.leb_spec (zlen str) MaxUint16) as [H2|H2]; unfold MaxUint16 in H2.
  { eapply reads_strhdr; [exact Hk|done|reflexivity|reflexivity| |exact H16].
    rewrite be16_prefix. unfold uint. rewrite Zmod_mod, Z.mod_small; lia. }
  eapply reads_strhdr; [exact Hk|done|reflexivity|reflexivity| |exact H32].
  rewrite be32_prefix. unfold uint. rewrite Zmod_mod, Z.mod_small; lia.
Qed.

Lemma reads_string_bytes str :
  zlen str < 2 ^ 32 -> reads ReadString (AppendStringFromBytes [] str) (bytes_str str).
Proof.
  intros Hlen. unfold ReadString.
  apply (reads_string_like str
    (λ lead, if isfixstr lead then _ ← fwd_Skip_ 1; mret (rfixstr lead)
             else if lead =? mstr8 then p ← Next 2; mret (at_ p 1)
             else if lead =? mstr16 then p ← Next 3; mret (be16 p)
             else if lead =? mstr32 then p ← Next 5; mret (be32 p)
             else throw (badPrefix StrType lead))
    (λ n, if n =? 0 then mret EmptyString
          else out ← ReadFull n; mret (bytes_str out))); try done.
  - by intros lead ->.
  - by apply reads_string_fill.
Qed.

Lemma reads_string s :
  zlen (str_bytes s) < 2 ^ 32 -> reads ReadString (AppendString [] s) s.
Proof.
  intros Hs. rewrite <- (bytes_str_bytes s) at 2. by apply reads_string_bytes.
Qed.

Lemma reads_map_key s :
  0 < zlen (str_bytes s) < 2 ^ 32 ->
  reads ReadMapKeyPtr (AppendString [] s) (str_bytes s).
Proof.
  intros Hlen. unfold ReadMapKeyPtr.
  apply (reads_string_like (str_bytes s)
    (λ lead, if isfixstr lead then _ ← fwd_Skip_ 1; mret (rfixstr lead)
             else if (lead =? mstr8) || (lead =? mbin8) then p ← Next 2; mret (at_ p 1)
             else if (lead =? mstr16) || (lead =? mbin16) then p ← Next 3; mret (be16 p)
             else if (lead =? mstr32) || (lead =? mbin32) then p ← Next 5; mret (be32 p)
             else throw (badPrefix StrType lead))
    (λ n, if n =? 0 then throw ErrShortBytes else Next n)); try done; try lia.
  - by intros lead ->.
  - apply reads_key_fill; [done|lia].
Qed.

(** ** Counted loops *)

Lemma reads_loop {A B} (body : A -> act Reader rerror A) (f : A -> B -> A)
    (enc : B -> list byte) (l : list B) (a : A) :
  (forall a b, b ∈ l -> reads (body a) (enc b) (f a b)) ->
  (forall b, enc b <> []) ->
  reads (loop (zlen l) body a) (concat (map enc l)) (fold_left f l a).
Proof.
  intros Hbody Hne.
  assert (Hgo : forall fuel, (length l <= fuel)%nat ->
    reads (loop_fuel fuel (zlen l) body a) (concat (map enc l)) (fold_left f l a)).
  { revert a. induction l as [|b l IH]; intros a fuel Hf.
    - destruct fuel; apply reads_ret.
    - destruct fuel as [|fuel]; [cbn in Hf; lia|]. cbn [loop_fuel].
      rewrite zlen_cons. pose proof (zlen_nonneg l).
      destruct (Z.leb_spec (1 + zlen l) 0); [lia|].
      replace (1 + zlen l - 1) with (zlen l) by lia. cbn [map concat fold_left].
      eapply reads_bind; [apply Hbody; set_solver|].
      apply IH; [|cbn in Hf; lia]. intros a' b' Hb'. apply Hbody. set_solver. }
  intros r rest Hr. unfold loop. apply (Hgo _).
  - rewrite Hr. rewrite length_app.
    enough (length l <= length (concat (map enc l)))%nat by lia.
    clear -Hne. induction l as [|b l IH]; [done|]. cbn. rewrite length_app.
    specialize (Hne b). destruct (enc b); [done|cbn; lia].
  - done.
Qed.

(** ** The grammar of skipped objects

    [prefix_of p o]: [p] is one object prefix with its payload (all of a scalar,
    the header of a composite) and [o] elements follow it.  [objs ext k bs]: [bs]
    is exactly [k] objects; [ext] says whether ext32 objects may occur. *)
Definition prefix_of (p : list byte) (o : Z) : Prop :=
  let s := sizes (at_ p 0) in
  p <> [] /\ bs_size s <> 0 /\
  (if 0 <=? bs_extra s then zlen p = bs_size s /\ o = bs_extra s
   else bs_size s <= zlen p /\ mode_size (bs_size s) (bs_extra s) p = Ok (zlen p, o)).

Inductive objs (ext : bool) : Z -> list byte -> Prop :=
  | objs_nil : objs ext 0 []
  | objs_cons k p o bs :
      0 <= k -> prefix_of p o -> (at_ p 0 = mext32 -> ext = true) ->
      objs ext (k + o) bs -> objs ext (k + 1) (p ++ bs).

Lemma at_range b i : 0 <= at_ b i < 256.
Proof. unfold at_. destruct (b !! i); [apply b2z_range|lia]. Qed.

(** How many bytes of a prefix the mode looks at. *)
Definition mode_need (mode : Z) : Z :=
  if mode =? extra8 then 2
  else if (mode =? extra16) || (mode =? map16v) || (mode =? array16v) then 3 else 5.

Lemma sizes_table lead :
  0 <= lead < 256 ->
  0 <= bs_size (sizes lead) <= 32 /\
  (bs_extra (sizes lead) < 0 ->
     -7 <= bs_extra (sizes lead) /\
     mode_need (bs_extra (sizes lead)) <= bs_size (sizes lead) <= 6 /\
     (lead <> mext32 -> bs_size (sizes lead) <= 5)).
Proof.
  intros Hl. pose proof (Zrange_check (λ lead, let s := sizes lead in
    (0 <=? bs_size s) && (bs_size s <=? 32) &&
    ((0 <=? bs_extra s) ||
     ((-7 <=? bs_extra s) && (mode_need (bs_extra s) <=? bs_size s) && (bs_size s <=? 6) &&
      ((lead =? mext32) || (bs_size s <=? 5))))) 256 eq_refl lead ltac:(lia)) as H.
  cbn beta zeta in H. apply andb_true_iff in H as [H1 H2]. bool_prop.
  split; [lia|]. intros Hneg. apply orb_true_iff in H2 as [H2|H2]; bool_prop; [lia|].
  split_and!; lia.
Qed.

Lemma mode_size_ext sz mode b b' :
  (forall i, Z.of_nat i < mode_need mode -> at_ b i = at_ b' i) ->
  mode_size sz mode b = mode_size sz mode b'.
Proof.
  unfold mode_size, mode_need, be16, be32. intros H.
  destruct (mode =? extra8) eqn:?; [by rewrite (H 1%nat) by lia|].
  destruct (mode =? extra16) eqn:?; cbn [orb] in H.
  { by rewrite (H 1%nat), (H 2%nat) by lia. }
  destruct (mode =? map16v) eqn:?; cbn [orb] in H.
  { destruct (mode =? extra32) eqn:?; bool_prop; [exfalso; unfold extra32, map16v in *; lia|].
    by rewrite (H 1%nat), (H 2%nat) by lia. }
  destruct (mode =? array16v) eqn:?; cbn [orb] in H.
  { destruct (mode =? extra32) eqn:?, (mode =? map32v) eqn:?; bool_prop;
      try (exfalso; unfold extra32, map32v, array16v in *; lia).
    by rewrite (H 1%nat), (H 2%nat) by lia. }
  rewrite (H 1%nat), (H 2%nat), (H 3%nat), (H 4%nat) by lia. done.
Qed.

Lemma at_app_l p rest i : (i < length p)%nat -> at_ (p ++ rest) i = at_ p i.
Proof. intros. unfold at_. by rewrite lookup_app_l. Qed.
Lemma at_ztake n b i : Z.of_nat i < n -> at_ (ztake n b) i = at_ b i.
Proof. intros. unfold at_, ztake. by rewrite lookup_take_lt by lia. Qed.

Lemma mode_size_nonneg sz mode b v o : mode_size sz mode b = Ok (v, o) -> sz <= v /\ 0 <= o.
Proof.
  pose proof (at_range b 1). pose proof (at_range b 2). pose proof (at_range b 3).
  pose proof (at_range b 4).
  assert (0 <= be16 b).
  { unfold be16. apply Z.lor_nonneg. split; [lia|]. apply Z.shiftl_nonneg. lia. }
  assert (0 <= be32 b).
  { unfold be32. rewrite !Z.lor_nonneg, !Z.shiftl_nonneg. lia. }
  unfold mode_size. intros E. repeat (case_match; simplify_eq; try lia).
Qed.

Lemma prefix_of_elems p o : prefix_of p o -> 0 <= o /\ 1 <= zlen p.
Proof.
  intros (Hne & _ & H). split.
  - destruct (Z.leb_spec 0 (bs_extra (sizes (at_ p 0)))); [lia|].
    destruct H as [_ H]. apply mode_size_nonneg in H as [_ H]. done.
  - destruct p; [done|]. rewrite zlen_cons. pose proof (zlen_nonneg p). lia.
Qed.

Lemma at_prefix p rest i : Z.of_nat i < zlen p -> at_ (p ++ rest) i = at_ p i.
Proof. intros. apply at_app_l. unfold zlen in *. lia. Qed.

(** The size of a prefix does not depend on what follows it. *)
Lemma getSize_prefix p o rest n :
  prefix_of p o -> bs_size (sizes (at_ p 0)) <= n \/ 0 <= bs_extra (sizes (at_ p 0)) ->
  1 <= n <= zlen (p ++ rest) ->
  getSize (ztake n (p ++ rest)) = Ok (zlen p, o).
Proof.
  intros Hp Hsz Hn. pose proof (prefix_of_elems _ _ Hp) as [Ho Hl].
  destruct Hp as (_ & Hs0 & H). unfold getSize. cbv zeta.
  rewrite zlen_ztake by lia. destruct (Z.eqb_spec n 0); [lia|].
  rewrite at_ztake, at_prefix by lia. set (s := sizes (at_ p 0)) in *.
  destruct (Z.eqb_spec (bs_size s) 0); [done|].
  destruct (Z.leb_spec 0 (bs_extra s)); [by destruct H as [-> ->]|].
  destruct H as [Hle <-]. destruct (Z.ltb_spec n (bs_size s)); [lia|].
  destruct (sizes_table (at_ p 0) (at_range _ _)) as (_ & Ht).
  destruct (Ht ltac:(fold s; lia)) as (_ & Hneed & _). fold s in Hneed.
  apply mode_size_ext. intros i Hi.
  rewrite at_ztake by lia. apply at_prefix. lia.
Qed.

Lemma getNextSize_prefix p o r rest :
  prefix_of p o -> pending r = p ++ rest ->
  exists r', getNextSize r = (Ok (zlen p, o), r') /\ pending r' = pending r /\
             same_source r r'.
Proof.
  intros Hp Hr. pose proof (prefix_of_elems _ _ Hp) as [Ho Hl].
  destruct Hp as (Hne & Hs0 & H). unfold getNextSize.
  pose proof (zlen_nonneg rest).
  destruct (Peek_spec 1 r ltac:(lia)) as (r1 & S1 & P1 & E1).
  rewrite Hr, zlen_app in E1. destruct (Z.ltb_spec (zlen p + zlen rest) 1); [lia|].
  rewrite (act_bind_ok _ _ _ _ _ E1). cbv zeta.
  rewrite at_ztake, at_prefix by lia. set (s := sizes (at_ p 0)) in *.
  destruct (Z.eqb_spec (bs_size s) 0); [done|].
  destruct (Z.leb_spec 0 (bs_extra s)).
  { destruct H as [-> ->]. exists r1. by rewrite P1. }
  destruct H as [Hle Hm].
  destruct (sizes_table (at_ p 0) (at_range _ _)) as (Hb & Ht). fold s in Hb.
  destruct (Ht ltac:(fold s; lia)) as (_ & Hneed & _). fold s in Hneed.
  destruct (Peek_spec (bs_size s) r1 ltac:(lia)) as (r2 & S2 & P2 & E2).
  rewrite P1, Hr, zlen_app in E2.
  destruct (Z.ltb_spec (zlen p + zlen rest) (bs_size s)); [lia|].
  rewrite (act_bind_ok _ _ _ _ _ E2). unfold lift.
  exists r2. split_and!; [|congruence|eauto using same_source_trans].
  f_equal. rewrite <- Hm. apply mode_size_ext. intros i Hi.
  rewrite at_ztake by lia. apply at_prefix. lia.
Qed.

Lemma reads_Skip_prefix p o :
  prefix_of p o -> at_ p 0 <> mext32 -> reads Skip_prefix p o.
Proof.
  intros Hp Hx r rest Hr. pose proof (prefix_of_elems _ _ Hp) as [Ho Hl].
  assert (exists r1, Skip_size r = (Ok (zlen p, o), r1) /\ pending r1 = pending r /\
                     same_source r r1) as (r1 & E1 & P1 & S1).
  { unfold Skip_size. destruct (Z.leb_spec 5 (Buffered r)) as [Hb|Hb].
    - unfold Skip_fast. destruct (Peek_spec 5 r ltac:(lia)) as (r1 & S1 & P1 & E1).
      assert (5 <= zlen (pending r)) as H5.
      { unfold pending, Buffered in *. rewrite zlen_app.
        pose proof (zlen_nonneg (cat (R_rest r))). lia. }
      destruct (Z.ltb_spec (zlen (pending r)) 5); [lia|].
      rewrite (act_bind_ok _ _ _ _ _ E1). exists r1. split_and!; [|done|done].
      unfold lift. rewrite Hr in *. rewrite (getSize_prefix p o); [done|done| |lia].
      destruct (Z.leb_spec 0 (bs_extra (sizes (at_ p 0)))); [by right|left].
      destruct (sizes_table (at_ p 0) (at_range _ _)) as (_ & Ht).
      destruct (Ht ltac:(lia)) as (_ & _ & H6). auto.
    - eapply getNextSize_prefix; eauto. }
  unfold Skip_prefix. rewrite (act_bind_ok _ _ _ _ _ E1).
  rewrite Hr in P1. cbn [fst snd].
  destruct (reads_fwd_Skip (zlen p) p eq_refl r1 rest P1) as (r2 & E2 & P2 & S2).
  rewrite (act_bind_ok _ _ _ _ _ E2). exists r2. eauto using same_source_trans.
Qed.

Lemma objs_len ext k bs : objs ext k bs -> 0 <= k.
Proof. destruct 1; lia. Qed.

Lemma objs_nonempty ext k bs : objs ext k bs -> 0 < k -> bs <> [].
Proof.
  intros H Hk. destruct H as [|k p o bs _ [Hne _]]; [lia|]. by destruct p.
Qed.

Lemma reads_Skip_objs k bs fuel :
  objs false k bs -> (length bs <= fuel)%nat -> reads (Skip_objs fuel k) bs tt.
Proof.
  intros Ho. revert fuel. induction Ho as [|k p o bs Hk Hp Hx Ho IH]; intros fuel Hf.
  - destruct fuel; apply reads_ret.
  - pose proof (prefix_of_elems _ _ Hp) as [? Hl]. rewrite length_app in Hf.
    destruct fuel as [|fuel]; [unfold zlen in Hl; lia|]. cbn [Skip_objs].
    destruct (Z.leb_spec (k + 1) 0); [lia|].
    eapply reads_bind.
    { apply reads_Skip_prefix; [done|]. intros Hm. by specialize (Hx Hm). }
    replace (k + 1 - 1 + o) with (k + o) by lia. apply IH. unfold zlen in Hl. lia.
Qed.

Lemma reads_Skip bs : objs false 1 bs -> reads Skip bs tt.
Proof.
  intros Ho r rest Hr. unfold Skip. eapply reads_Skip_objs; [done| |done].
  rewrite Hr, length_app. lia.
Qed.

Lemma reads_CopyNext_prefix p o : prefix_of p o -> reads CopyNext_prefix p (p, o).
Proof.
  intros Hp r rest Hr. unfold CopyNext_prefix.
  destruct (getNextSize_prefix p o r rest Hp Hr) as (r1 & E1 & P1 & S1).
  rewrite (act_bind_ok _ _ _ _ _ E1). rewrite Hr in P1. cbn [fst snd].
  assert (exists r2, CopyNext_buf (zlen p) r1 = (Ok p, r2) /\ pending r2 = rest /\
                     same_source r1 r2) as (r2 & E2 & P2 & S2).
  { unfold CopyNext_buf, short, CopyN. destruct (zlen p <=? BufferSize r1).
    - destruct (reads_Next (zlen p) p eq_refl r1 rest P1) as (r2 & -> & ?). eauto.
    - destruct (reads_ReadFull (zlen p) p eq_refl r1 rest P1) as (r2 & -> & ?). eauto. }
  rewrite (act_bind_ok _ _ _ _ _ E2). exists r2. eauto using same_source_trans.
Qed.

Lemma reads_CopyNext_objs ext k bs fuel w :
  objs ext k bs -> (length bs <= fuel)%nat -> reads (CopyNext_objs fuel k w) bs (w ++ bs).
Proof.
  intros Ho. revert fuel w.
  induction Ho as [|k p o bs Hk Hp Hx Ho IH]; intros fuel w Hf.
  - rewrite app_nil_r. destruct fuel; apply reads_ret.
  - pose proof (prefix_of_elems _ _ Hp) as [? Hl]. rewrite length_app in Hf.
    destruct fuel as [|fuel]; [unfold zlen in Hl; lia|]. cbn [CopyNext_objs].
    destruct (Z.leb_spec (k + 1) 0); [lia|].
    eapply reads_bind; [by apply reads_CopyNext_prefix|]. cbn [fst snd].
    replace (k + 1 - 1 + o) with (k + o) by lia. rewrite app_assoc.
    apply IH. unfold zlen in Hl. lia.
Qed.

Lemma reads_CopyNext ext w bs : objs ext 1 bs -> reads (CopyNext w) bs (w ++ bs).
Proof.
  intros Ho r rest Hr. unfold CopyNext. eapply reads_CopyNext_objs; [done| |done].
  rewrite Hr, length_app. lia.
Qed.

Lemma SkipBytes_objs_ok ext k bs fuel rest :
  objs ext k bs -> (length bs <= fuel)%nat ->
  SkipBytes_objs fuel k (bs ++ rest) = Ok rest.
Proof.
  intros Ho. revert fuel. induction Ho as [|k p o bs Hk Hp Hx Ho IH]; intros fuel Hf.
  - by destruct fuel.
  - pose proof (prefix_of_elems _ _ Hp) as [? Hl]. rewrite length_app in Hf.
    destruct fuel as [|fuel]; [unfold zlen in Hl; lia|]. cbn [SkipBytes_objs].
    destruct (Z.leb_spec (k + 1) 0); [lia|]. rewrite <- app_assoc.
    pose proof (getSize_prefix p o (bs ++ rest) (zlen (p ++ bs ++ rest)) Hp) as Hg.
    unfold ztake in Hg at 1. rewrite take_ge in Hg by (unfold zlen; lia).
    pose proof (zlen_nonneg (bs ++ rest)). rewrite (zlen_app p) in Hg.
    rewrite Hg; [|destruct Hp as (_ & _ & Hp); destruct (Z.leb_spec 0 (bs_extra (sizes (at_ p 0))));
      lia|lia].
    rewrite zlen_app. destruct (Z.ltb_spec (zlen p + zlen (bs ++ rest)) (zlen p)); [lia|].
    rewrite zdrop_app_len. replace (k + 1 - 1 + o) with (k + o) by lia.
    apply IH. unfold zlen in Hl. lia.
Qed.

Lemma SkipBytes_ok ext bs rest : objs ext 1 bs -> SkipBytes (bs ++ rest) = Ok rest.
Proof.
  intros Ho. unfold SkipBytes. eapply SkipBytes_objs_ok; [done|]. rewrite length_app. lia.
Qed.

Lemma objs_app ext k1 k2 b1 b2 : objs ext k1 b1 -> objs ext k2 b2 -> objs ext (k1 + k2) (b1 ++ b2).
Proof.
  induction 1 as [|k p o bs Hk Hp Hx Ho IH]; intros H2; [done|].
  rewrite <- app_assoc. pose proof (objs_len _ _ _ H2).
  replace (k + 1 + k2) with (k + k2 + 1) by lia.
  apply (objs_cons _ _ _ o); [lia|done|done|].
  replace (k + k2 + o) with (k + o + k2) by lia. auto.
Qed.

(** A scalar, or the header of a composite followed by its elements. *)
Lemma objs_prefix ext p o bs :
  prefix_of p o -> (at_ p 0 = mext32 -> ext = true) -> objs ext o bs -> objs ext 1 (p ++ bs).
Proof.
  intros Hp Hx Ho. change 1 with (0 + 1). by apply (objs_cons _ _ _ o).
Qed.

(** ** What the encoders emit *)

Definition wire (p : list byte) (o : Z) : Prop := prefix_of p o /\ at_ p 0 <> mext32.

Lemma objs_wire p o bs : wire p o -> objs false o bs -> objs false 1 (p ++ bs).
Proof. intros [Hp Hx] Ho. by eapply objs_prefix. Qed.

Lemma objs_scalar p : wire p 0 -> objs false 1 p.
Proof. intros H. rewrite <- (app_nil_r p). eapply objs_wire; [done|constructor]. Qed.

(** A constant-size object behind a constant lead byte. *)
Ltac wire_const :=
  split; [split; [done|split; [by vm_compute|]]|by vm_compute];
  match goal with |- context [sizes (at_ ?p 0)] =>
    let s := eval vm_compute in (sizes (at_ p 0)) in change (sizes (at_ p 0)) with s end;
  cbn [bs_size bs_extra]; cbv iota beta.

Lemma lead_byte z : 0 <= z < 256 -> forall l, at_ (z2b z :: l) 0 = z.
Proof. intros. by apply b2z_z2b. Qed.

Lemma wire_small z o :
  0 <= z < 256 -> bs_size (sizes z) = 1 -> bs_extra (sizes z) = o -> 0 <= o ->
  wire [z2b z] o.
Proof.
  intros Hz Hs He Ho. unfold wire, prefix_of. rewrite lead_byte by done.
  rewrite Hs, He. destruct (Z.leb_spec 0 o); [|lia]. split_and!; try done.
  intros ->. vm_compute in Hs. done.
Qed.

Lemma wire_fixint u : 0 <= u < 128 -> wire [wfixint (uint 8 u)] 0.
Proof.
  intros Hu. destruct (fixint_ok u Hu) as [E _].
  replace (wfixint (uint 8 u)) with (z2b u) by (rewrite <- E at 1; apply z2b_b2z).
  apply wire_small; [lia| | |lia]; unfold sizes; by destruct (Z.ltb_spec u 128); [|lia].
Qed.

Lemma wire_nfixint i : -32 <= i < 0 -> wire [wnfixint (sint 8 i)] 0.
Proof.
  intros Hi. unfold wnfixint.
  pose proof (Zrange_check (λ k, let z := Z.lor (uint 8 (sint 8 (k - 32))) mnfixint in
    (0 <=? z) && (z <? 256) && (bs_size (sizes z) =? 1) && (bs_extra (sizes z) =? 0)) 32
    eq_refl (i + 32) ltac:(lia)) as H. cbn beta zeta in H.
  replace (i + 32 - 32) with i in H by lia. bool_prop.
  apply wire_small; lia.
Qed.

Lemma wire_fixmap n : 0 <= n <= 15 -> wire [wfixmap (uint 8 n)] (2 * n).
Proof.
  intros Hi. unfold wfixmap.
  pose proof (Zrange_check (λ n, let z := Z.lor mfixmap (Z.land (uint 8 n) last4) in
    (0 <=? z) && (z <? 256) && (bs_size (sizes z) =? 1) && (bs_extra (sizes z) =? 2 * n)) 16
    eq_refl n ltac:(lia)) as H. cbn beta zeta in H. bool_prop.
  apply wire_small; lia.
Qed.

Lemma wire_fixarray n : 0 <= n <= 15 -> wire [wfixarray (uint 8 n)] n.
Proof.
  intros Hi. unfold wfixarray.
  pose proof (Zrange_check (λ n, let z := Z.lor (Z.land (uint 8 n) last4) mfixarray in
    (0 <=? z) && (z <? 256) && (bs_size (sizes z) =? 1) && (bs_extra (sizes z) =? n)) 16
    eq_refl n ltac:(lia)) as H. cbn beta zeta in H. bool_prop.
  apply wire_small; lia.
Qed.

Lemma wire_uint64 u : 0 <= u < 2 ^ 64 -> wire (AppendUint64 [] u) 0.
Proof.
  intros Hu. unfold AppendUint64. cbn [app]. change ((1 ≪ 7) - 1) with 127.
  destruct (Z.leb_spec u 127); [apply wire_fixint; lia|].
  repeat destruct (_ <=? _); by wire_const.
Qed.

Lemma wire_int64 i : - 2 ^ 63 <= i < 2 ^ 63 -> wire (AppendInt64 [] i) 0.
Proof.
  intros Hu. unfold AppendInt64. cbn [app].
  destruct (Z.leb_spec 0 i).
  - destruct (Z.leb_spec i (2 ^ 7 - 1)); [apply wire_fixint; lia|].
    repeat destruct (_ <=? _); by wire_const.
  - destruct (Z.leb_spec (-32) i); [apply wire_nfixint; lia|].
    repeat destruct (_ <=? _); by wire_const.
Qed.

(** A prefix whose mode reads its own bytes. *)
Ltac wire_mode :=
  unfold mode_size;
  repeat match goal with |- context [if ?c then _ else _] =>
    let v := eval vm_compute in c in
    lazymatch v with true => idtac | false => idtac end;
    change c with v; cbv iota end.

Lemma wire_map_header n : 0 <= n < 2 ^ 32 -> wire (AppendMapHeader [] n) (2 * n).
Proof.
  intros Hn. unfold AppendMapHeader. cbn [app].
  destruct (Z.leb_spec n 15); [apply wire_fixmap; lia|].
  destruct (Z.leb_spec n MaxUint16) as [H2|H2]; unfold MaxUint16 in H2.
  - wire_const. wire_mode. split; [done|]. rewrite be16_prefix. unfold uint.
    by rewrite Zmod_mod, Z.mod_small by lia.
  - wire_const. wire_mode. split; [done|]. rewrite be32_prefix.
    by rewrite Z.mod_small by lia.
Qed.

Lemma wire_array_header n : 0 <= n < 2 ^ 32 -> wire (AppendArrayHeader [] n) n.
Proof.
  intros Hn. unfold AppendArrayHeader. cbn [app].
  destruct (Z.leb_spec n 15); [apply wire_fixarray; lia|].
  destruct (Z.leb_spec n MaxUint16) as [H2|H2]; unfold MaxUint16 in H2.
  - wire_const. wire_mode. split; [done|]. rewrite be16_prefix. unfold uint.
    by rewrite Zmod_mod, Z.mod_small by lia.
  - wire_const. wire_mode. split; [done|]. rewrite be32_prefix.
    by rewrite Z.mod_small by lia.
Qed.

Lemma wire_string_bytes str : zlen str < 2 ^ 32 -> wire (AppendStringFromBytes [] str) 0.
Proof.
  intros Hn. unfold AppendStringFromBytes. cbn [app]. pose proof (zlen_nonneg str).
  destruct (Z.leb_spec (zlen str) 31).
  { pose proof (Zrange_check (λ n, let z := Z.lor (Z.land (uint 8 n) last5) mfixstr in
      (0 <=? z) && (z <? 256) && (bs_size (sizes z) =? 1 + n) && (bs_extra (sizes z) =? 0) &&
      negb (z =? mext32)) 32
      eq_refl (zlen str) ltac:(lia)) as Hc. cbn beta zeta in Hc. bool_prop.
    unfold wfixstr, wire, prefix_of. cbn [app]. rewrite lead_byte by lia.
    rewrite H4, H3. split_and!; [done|lia| |by apply Z.eqb_neq, negb_true_iff].
    cbv iota. split; [rewrite zlen_cons; lia|done]. }
  destruct (Z.leb_spec (zlen str) MaxUint8) as [H1|H1]; unfold MaxUint8 in H1.
  { wire_const. wire_mode. unfold prefixu8. split; [unfold zlen; rewrite length_app; cbn [length prefixu16 prefixu32]; lia|].
    rewrite zlen_app, at_app_l by (cbn; lia). f_equal. f_equal. change (zlen [_; _]) with 2.
    unfold at_, uint; cbn [lookup list_lookup]. rewrite z2b_low, Zmod_mod, Z.mod_small; lia. }
  destruct (Z.leb_spec (zlen str) MaxUint16) as [H2|H2]; unfold MaxUint16 in H2.
  { wire_const. wire_mode.
    assert (be16 (prefixu16 mstr16 (uint 16 (zlen str)) ++ str) =
            be16 (prefixu16 mstr16 (uint 16 (zlen str)))) as E.
    { unfold be16. rewrite !at_app_l by (cbn; lia). done. }
    split; [unfold zlen; rewrite length_app; cbn [length prefixu16 prefixu32]; lia|]. rewrite E, be16_prefix, zlen_app.
    change (zlen (prefixu16 _ _)) with 3. unfold uint. rewrite Zmod_mod, Z.mod_small by lia.
    done. }
  wire_const. wire_mode.
  assert (be32 (prefixu32 mstr32 (uint 32 (zlen str)) ++ str) =
          be32 (prefixu32 mstr32 (uint 32 (zlen str)))) as E.
  { unfold be32. rewrite !at_app_l by (cbn; lia). done. }
  split; [unfold zlen; rewrite length_app; cbn [length prefixu16 prefixu32]; lia|]. rewrite E, be32_prefix, zlen_app.
  change (zlen (prefixu32 _ _)) with 5. unfold uint. rewrite Zmod_mod, Z.mod_small by lia.
  done.
Qed.

Lemma wire_string s : zlen (str_bytes s) < 2 ^ 32 -> wire (AppendString [] s) 0.
Proof. apply wire_string_bytes. Qed.

#[export] Hint Resolve objs_scalar wire_string wire_string_bytes wire_uint64 wire_int64
  wire_map_header wire_array_header : stout.

(** ** Decoding from slices *)

(** [be16]/[be32]/[at_] only look at the header. *)
Lemma be16_app h l : zlen h = 3 -> be16 (h ++ l) = be16 h.
Proof. intros H. unfold be16. by rewrite !at_prefix by lia. Qed.
Lemma be32_app h l : zlen h = 5 -> be32 (h ++ l) = be32 h.
Proof. intros H. unfold be32. by rewrite !at_prefix by lia. Qed.

(** The lead byte of a header, and the rest of the slice behind it. *)
Lemma slice_header h n l :
  zlen h = n -> 1 <= n ->
  (zlen (h ++ l) <? 1) = false /\ (zlen (h ++ l) <? n) = false /\
  at_ (h ++ l) 0 = at_ h 0 /\ zdrop n (h ++ l) = l.
Proof.
  intros <- Hn. pose proof (zlen_nonneg l). rewrite zlen_app. split_and!.
  - apply Z.ltb_ge. lia.
  - apply Z.ltb_ge. lia.
  - apply at_prefix. lia.
  - apply zdrop_app_len.
Qed.

Lemma ReadMapHeaderBytes_ok n rest :
  0 <= n < 2 ^ 32 -> ReadMapHeaderBytes (AppendMapHeader [] n ++ rest) = Ok (n, rest).
Proof.
  intros Hn. unfold AppendMapHeader, ReadMapHeaderBytes. cbn [app].
  destruct (Z.leb_spec n 15) as [H|H].
  { destruct (slice_header [wfixmap (uint 8 n)] 1 rest eq_refl ltac:(lia)) as (-> & _ & -> & ->).
    unfold at_; cbn [lookup list_lookup]. by destruct (fixmap_ok n ltac:(lia)) as [-> ->]. }
  destruct (Z.leb_spec n MaxUint16) as [H2|H2]; unfold MaxUint16 in H2.
  { destruct (slice_header (prefixu16 mmap16 (uint 16 n)) 3 rest eq_refl ltac:(lia))
      as (-> & E & -> & ->). cbv zeta.
    change (at_ (prefixu16 mmap16 (uint 16 n)) 0) with mmap16. lead_if. rewrite E.
    rewrite be16_app, be16_prefix by done. unfold uint. rewrite Zmod_mod, Z.mod_small by lia.
    done. }
  destruct (slice_header (prefixu32 mmap32 n) 5 rest eq_refl ltac:(lia)) as (-> & E & -> & ->).
  cbv zeta. change (at_ (prefixu32 mmap32 n) 0) with mmap32. lead_if. rewrite E.
  rewrite be32_app, be32_prefix by done. rewrite Z.mod_small by lia. done.
Qed.

Lemma take_payload (str rest : list byte) n :
  n = zlen str ->
  (if zlen (str ++ rest) <? n then Err ErrShortBytes
   else Ok (ztake n (str ++ rest), zdrop n (str ++ rest))) = Ok (str, rest).
Proof.
  intros ->. rewrite zlen_app. pose proof (zlen_nonneg rest).
  destruct (Z.ltb_spec (zlen str + zlen rest) (zlen str)); [lia|].
  by rewrite ztake_app_len, zdrop_app_len.
Qed.

Lemma ReadStringZC_ok str rest :
  zlen str < 2 ^ 32 ->
  ReadStringZC (AppendStringFromBytes [] str ++ rest) = Ok (str, rest).
Proof.
  intros Hn. pose proof (zlen_nonneg str). unfold AppendStringFromBytes, ReadStringZC.
  cbn [app]. rewrite <- app_assoc.
  destruct (Z.leb_spec (zlen str) 31) as [H1|H1].
  { destruct (slice_header [wfixstr (uint 8 (zlen str))] 1 (str ++ rest) eq_refl ltac:(lia))
      as (-> & _ & -> & ->). unfold at_; cbn [lookup list_lookup].
    destruct (fixstr_ok (zlen str) ltac:(lia)) as [-> ->]. by apply take_payload. }
  destruct (Z.leb_spec (zlen str) MaxUint8) as [H2|H2]; unfold MaxUint8 in H2.
  { destruct (slice_header (prefixu8 mstr8 (uint 8 (zlen str))) 2 (str ++ rest) eq_refl
      ltac:(lia)) as (-> & E & -> & ->). cbv zeta.
    change (at_ (prefixu8 mstr8 (uint 8 (zlen str))) 0) with mstr8. lead_if. rewrite E.
    apply take_payload. rewrite at_prefix by done.
    unfold prefixu8, at_, uint; cbn [lookup list_lookup].
    rewrite z2b_low, Zmod_mod, Z.mod_small; lia. }
  destruct (Z.leb_spec (zlen str) MaxUint16) as [H3|H3]; unfold MaxUint16 in H3.
  { destruct (slice_header (prefixu16 mstr16 (uint 16 (zlen str))) 3 (str ++ rest) eq_refl
      ltac:(lia)) as (-> & E & -> & ->). cbv zeta.
    change (at_ (prefixu16 mstr16 (uint 16 (zlen str))) 0) with mstr16. lead_if. rewrite E.
    apply take_payload. rewrite be16_app, be16_prefix by done. unfold uint.
    rewrite Zmod_mod, Z.mod_small; lia. }
  destruct (slice_header (prefixu32 mstr32 (uint 32 (zlen str))) 5 (str ++ rest) eq_refl
    ltac:(lia)) as (-> & E & -> & ->). cbv zeta.
  change (at_ (prefixu32 mstr32 (uint 32 (zlen str))) 0) with mstr32. lead_if. rewrite E.
  apply take_payload. rewrite be32_app, be32_prefix by done. unfold uint.
  rewrite Zmod_mod, Z.mod_small; lia.
Qed.

Lemma ReadStringBytes_ok s rest :
  zlen (str_bytes s) < 2 ^ 32 -> ReadStringBytes (AppendString [] s ++ rest) = Ok (s, rest).
Proof.
  intros Hs. unfold ReadStringBytes, AppendString. rewrite ReadStringZC_ok by done.
  by rewrite bytes_str_bytes.
Qed.

(** [Locate] on an encoded map: the first pair with the key, whatever the other
    values are. *)
Definition map_pair (kv : string * list byte) : list byte := AppendString [] kv.1 ++ kv.2.

Lemma locate_loop_found pre key v post raw fuel :
  Forall (λ kv, zlen (str_bytes kv.1) < 2 ^ 32 /\ kv.1 <> key /\ objs true 1 kv.2) pre ->
  zlen (str_bytes key) < 2 ^ 32 -> objs true 1 v -> (length pre < fuel)%nat ->
  forall n, zlen pre < n ->
  let bts := concat (map map_pair pre) ++ map_pair (key, v) ++ post in
  locate_loop fuel n raw bts key = (zlen raw - zlen (v ++ post), zlen raw - zlen post).
Proof.
  intros Hpre Hk Hv. revert fuel. induction Hpre as [|[k w] pre (Hl & Hne & Hw) Hpre IH];
    intros fuel Hf n Hn; cbn zeta.
  - destruct fuel; [cbn in Hf; lia|]. cbn [map concat app locate_loop map_pair fst snd].
    destruct (Z.leb_spec n 0); [rewrite zlen_nil in Hn; lia|].
    unfold map_pair, AppendString. cbn [fst snd]. rewrite <- ?app_assoc. rewrite ReadStringZC_ok, bytes_str_bytes by done.
    rewrite decide_True by done. by rewrite (SkipBytes_ok true).
  - destruct fuel; [cbn in Hf; lia|]. rewrite zlen_cons in Hn. pose proof (zlen_nonneg pre).
    cbn [map concat app locate_loop map_pair fst snd].
    destruct (Z.leb_spec n 0); [lia|]. cbn [fst snd] in *.
    unfold map_pair at 1, AppendString. cbn [fst snd]. rewrite <- ?app_assoc. rewrite ReadStringZC_ok, bytes_str_bytes by done.
    rewrite decide_False by done. rewrite (SkipBytes_ok true) by done.
    cbn in Hf. apply (IH fuel ltac:(lia) (n - 1) ltac:(lia)).
Qed.

Lemma Locate_first pre key v post :
  Forall (λ kv, zlen (str_bytes kv.1) < 2 ^ 32 /\ kv.1 <> key /\ objs true 1 kv.2) pre ->
  zlen (str_bytes key) < 2 ^ 32 -> objs true 1 v ->
  let kvs := pre ++ (key, v) :: post in
  zlen kvs < 2 ^ 32 ->
  Locate key (AppendMapHeader [] (zlen kvs) ++ concat (map map_pair kvs)) = v.
Proof.
  intros Hpre Hk Hv kvs Hn. pose proof (zlen_nonneg kvs). unfold Locate, locate.
  rewrite ReadMapHeaderBytes_ok by lia.
  assert (concat (map map_pair kvs) =
    concat (map map_pair pre) ++ map_pair (key, v) ++ concat (map map_pair post)) as E.
  { unfold kvs. rewrite map_app, concat_app. done. }
  set (raw := AppendMapHeader [] (zlen kvs) ++ concat (map map_pair kvs)).
  rewrite E. pose proof (locate_loop_found pre key v (concat (map map_pair post)) raw) as L.
  cbv zeta in L. rewrite L; [|done..| |].
  - set (hd := AppendMapHeader [] (zlen kvs) ++ concat (map map_pair pre) ++ AppendString [] key).
    assert (raw = hd ++ v ++ concat (map map_pair post)) as ->.
    { unfold raw, hd. rewrite E. unfold map_pair at 2. cbn [fst snd]. by rewrite <- !app_assoc. }
    generalize (concat (map map_pair post)) as tl. intros tl. rewrite !zlen_app.
    replace (zlen hd + (zlen v + zlen tl) - (zlen v + zlen tl)) with (zlen hd) by lia.
    rewrite zdrop_app_len.
    replace (zlen hd + (zlen v + zlen tl) - zlen tl - zlen hd) with (zlen v) by lia.
    apply ztake_app_len.
  - assert (forall l : list (string * list byte), (length l <= length (concat (map map_pair l)))%nat) as G.
    { clear. induction l as [|x l IH]; [done|]. cbn. rewrite length_app.
      assert (1 <= length (map_pair x))%nat; [|lia]. unfold map_pair. rewrite length_app.
      assert (1 <= length (AppendString [] x.1))%nat; [|lia].
      unfold AppendString, AppendStringFromBytes. repeat case_match; cbn; lia. }
    rewrite length_app. specialize (G pre). lia.
  - unfold kvs. rewrite zlen_app, zlen_cons. pose proof (zlen_nonneg post). lia.
Qed.
