(* ===== verification/MsgpSafe.v ===== *)
(** * Termination and segmentation independence of the msgpack readers

    [safe m]: the fuel of the loops in [m] is never exhausted, on any input.
    [respects m] (Fwd.v): the result of [m] and the stream it leaves depend on the
    stream only, not on how the connection cut it into segments.  Both are shown
    for every reader method the daemon calls. *)

From Stdlib Require Import ZArith Lia.
From S2P Require Import Prelude Fwd Msgp MsgpFacts.

(** ** Progress *)

Definition safe {A} (m : act Reader rerror A) : Prop :=
  forall r, R_end r <> Diverged ->
  (m r).1 <> Err Diverged /\ R_end (m r).2 <> Diverged.

(** [m] never gives bytes back. *)
Definition shrinks {A} (m : act Reader rerror A) : Prop :=
  forall r, (length (pending (m r).2) <= length (pending r))%nat.

(** [m] fails or consumes at least a byte, when there is one. *)
Definition eats1 {A} (m : act Reader rerror A) : Prop :=
  forall r a r', pending r <> [] -> m r = (Ok a, r') ->
  (length (pending r') < length (pending r))%nat.

(** [m] fails or consumes at least a byte. *)
Definition eats {A} (m : act Reader rerror A) : Prop :=
  forall r a r', m r = (Ok a, r') -> (length (pending r') < length (pending r))%nat.

Lemma safe_ret {A} (a : A) : safe (mret a).
Proof. intros r Hr. done. Qed.
Lemma safe_throw {A} e : e <> Diverged -> safe (throw e : act Reader rerror A).
Proof. intros He r Hr. split; [cbn; congruence|done]. Qed.
Lemma safe_bind {A B} (m : act Reader rerror A) (k : A -> act Reader rerror B) :
  safe m -> (forall a, safe (k a)) -> safe (m ≫= k).
Proof.
  intros Hm Hk r Hr. destruct (Hm r Hr) as [H1 H2]. unfold mbind, act_bind.
  destruct (m r) as [[a|e] r']; [by apply Hk|]. cbn in *. split; [congruence|done].
Qed.
Lemma shrinks_ret {A} (a : A) : shrinks (mret a).
Proof. intros r. done. Qed.
Lemma shrinks_throw {A} e : shrinks (throw e : act Reader rerror A).
Proof. intros r. done. Qed.
Lemma shrinks_bind {A B} (m : act Reader rerror A) (k : A -> act Reader rerror B) :
  shrinks m -> (forall a, shrinks (k a)) -> shrinks (m ≫= k).
Proof.
  intros Hm Hk r. specialize (Hm r). unfold mbind, act_bind.
  destruct (m r) as [[a|e] r']; [|done]. specialize (Hk a r'). cbn in *. lia.
Qed.

Lemma noEOF_Diverged e : e <> Diverged -> noEOF e <> Diverged.
Proof. by destruct e. Qed.

Lemma safe_Peek n : 0 <= n -> safe (Peek n).
Proof.
  intros Hn r Hr. destruct (Peek_spec n r Hn) as (r' & (S & _) & _ & ->). cbn.
  rewrite S. split; [|done]. case_match; congruence.
Qed.
Lemma safe_Next n : 0 <= n -> safe (Next n).
Proof.
  intros Hn r Hr. destruct (Next_spec n r Hn) as (r' & (S & _) & _ & ->). cbn.
  rewrite S. split; [|done]. apply noEOF_Diverged in Hr. case_match; congruence.
Qed.
Lemma safe_fwd_Skip n : 0 <= n -> safe (fwd_Skip n).
Proof.
  intros Hn r Hr. destruct (fwd_Skip_spec n r Hn) as (r' & (S & _) & _ & _ & ->). cbn.
  rewrite S. split; [|done]. apply noEOF_Diverged in Hr. case_match; congruence.
Qed.
Lemma safe_fwd_Skip_ n : 0 <= n -> safe (fwd_Skip_ n).
Proof.
  intros Hn r Hr. unfold fwd_Skip_.
  destruct (fwd_Skip_spec n r Hn) as (r' & (S & _) & _ & _ & ->). cbn. by rewrite S.
Qed.
Lemma safe_ReadFull n : 0 <= n -> safe (ReadFull n).
Proof.
  intros Hn r Hr. destruct (ReadFull_spec n r Hn) as (r' & (S & _) & _ & _ & ->). cbn.
  rewrite S. split; [|done]. apply noEOF_Diverged in Hr. case_match; congruence.
Qed.

Lemma length_zdrop_le {A} n (l : list A) : (length (zdrop n l) <= length l)%nat.
Proof. unfold zdrop. rewrite length_drop. lia. Qed.
Lemma length_zdrop_lt {A} n (l : list A) :
  1 <= n -> l <> [] -> (length (zdrop n l) < length l)%nat.
Proof. unfold zdrop. rewrite length_drop. destruct l; [done|]. cbn. lia. Qed.

Lemma shrinks_Peek n : 0 <= n -> shrinks (Peek n).
Proof. intros Hn r. destruct (Peek_spec n r Hn) as (r' & _ & P & ->). cbn. by rewrite P. Qed.
Lemma shrinks_Next n : 0 <= n -> shrinks (Next n).
Proof.
  intros Hn r. destruct (Next_spec n r Hn) as (r' & _ & P & ->). cbn. rewrite P.
  case_match; [done|apply length_zdrop_le].
Qed.
Lemma shrinks_fwd_Skip n : 0 <= n -> shrinks (fwd_Skip n).
Proof.
  intros Hn r. destruct (fwd_Skip_spec n r Hn) as (r' & _ & _ & P & ->). cbn.
  rewrite P. apply length_zdrop_le.
Qed.
Lemma shrinks_fwd_Skip_ n : 0 <= n -> shrinks (fwd_Skip_ n).
Proof.
  intros Hn r. unfold fwd_Skip_.
  destruct (fwd_Skip_spec n r Hn) as (r' & _ & _ & P & ->). cbn.
  rewrite P. apply length_zdrop_le.
Qed.
Lemma shrinks_ReadFull n : 0 <= n -> shrinks (ReadFull n).
Proof.
  intros Hn r. destruct (ReadFull_spec n r Hn) as (r' & _ & _ & P & ->). cbn.
  rewrite P. apply length_zdrop_le.
Qed.

Lemma eats1_Next n : 1 <= n -> eats1 (Next n).
Proof.
  intros Hn r a r1 Hne E. destruct (Next_spec n r ltac:(lia)) as (r' & _ & P & E').
  rewrite E' in E. destruct (_ <? _); simplify_eq. rewrite P. by apply length_zdrop_lt.
Qed.
Lemma eats1_fwd_Skip n : 1 <= n -> eats1 (fwd_Skip n).
Proof.
  intros Hn r a r1 Hne E.
  destruct (fwd_Skip_spec n r ltac:(lia)) as (r' & _ & _ & P & E').
  rewrite E' in E. simplify_eq. rewrite P. by apply length_zdrop_lt.
Qed.
Lemma eats1_fwd_Skip_ n : 1 <= n -> eats1 (fwd_Skip_ n).
Proof.
  intros Hn r a r1 Hne E. unfold fwd_Skip_ in E.
  destruct (fwd_Skip_spec n r ltac:(lia)) as (r' & _ & _ & P & E').
  rewrite E' in E. simplify_eq/=. rewrite P. by apply length_zdrop_lt.
Qed.
Lemma eats1_throw {A} e : eats1 (throw e : act Reader rerror A).
Proof. by intros r a r' _ E. Qed.
Lemma eats1_bind_l {A B} (m : act Reader rerror A) (k : A -> act Reader rerror B) :
  eats1 m -> (forall a, shrinks (k a)) -> eats1 (m ≫= k).
Proof.
  intros Hm Hk r b r' Hne (a & r1 & E1 & E2)%act_bind_inv.
  specialize (Hm r a r1 Hne E1). specialize (Hk a r1). rewrite E2 in Hk. cbn in Hk. lia.
Qed.
Lemma eats1_if {A} (c : bool) (m1 m2 : act Reader rerror A) :
  eats1 m1 -> eats1 m2 -> eats1 (if c then m1 else m2).
Proof. by destruct c. Qed.

(** Every reader method looks at the lead byte first. *)
Lemma eats_peek {A} (k : list byte -> act Reader rerror A) :
  (forall p, eats1 (k p)) -> eats (Peek 1 ≫= k).
Proof.
  intros Hk r a r' (p & r1 & E1 & E2)%act_bind_inv.
  destruct (Peek_spec 1 r ltac:(lia)) as (r2 & _ & P & E').
  rewrite E' in E1. destruct (Z.ltb_spec (zlen (pending r)) 1) as [|Hl]; [done|].
  injection E1 as <- <-. rewrite <- P in Hl |- *. eapply Hk; [|done].
  intros Hn. rewrite Hn, zlen_nil in Hl. lia.
Qed.
Lemma eats_bind_l {A B} (m : act Reader rerror A) (k : A -> act Reader rerror B) :
  eats m -> (forall a, shrinks (k a)) -> eats (m ≫= k).
Proof.
  intros Hm Hk r b r' (a & r1 & E1 & E2)%act_bind_inv.
  specialize (Hm r a r1 E1). specialize (Hk a r1). rewrite E2 in Hk. cbn in Hk. lia.
Qed.

Lemma safe_if {A} (c : bool) (m1 m2 : act Reader rerror A) :
  safe m1 -> safe m2 -> safe (if c then m1 else m2).
Proof. by destruct c. Qed.
Lemma shrinks_if {A} (c : bool) (m1 m2 : act Reader rerror A) :
  shrinks m1 -> shrinks m2 -> shrinks (if c then m1 else m2).
Proof. by destruct c. Qed.
Lemma respects_if {A} (c : bool) (m1 m2 : act Reader rerror A) :
  respects m1 -> respects m2 -> respects (if c then m1 else m2).
Proof. by destruct c. Qed.

Lemma badPrefix_ok want lead : badPrefix want lead <> Diverged.
Proof. unfold badPrefix. by destruct (getType lead). Qed.

(** ** Counted loops: the fuel is enough *)

Lemma loop_enough {A} n (body : A -> act Reader rerror A) a :
  (forall a, safe (body a)) -> (forall a, eats (body a)) -> safe (loop n body a).
Proof.
  intros Hs He.
  assert (Hgo : forall fuel n a r, R_end r <> Diverged ->
    (length (pending r) < fuel)%nat ->
    (loop_fuel fuel n body a r).1 <> Err Diverged /\
    R_end (loop_fuel fuel n body a r).2 <> Diverged).
  { induction fuel as [|fuel IH]; intros m b r Hr Hf; [lia|]. cbn [loop_fuel].
    destruct (m <=? 0); [done|]. destruct (Hs b r Hr) as [H1 H2].
    unfold mbind, act_bind. destruct (body b r) as [[b'|e] r'] eqn:E.
    - apply IH; [done|]. specialize (He b r b' r' E). lia.
    - cbn in *. split; [congruence|done]. }
  intros r Hr. apply Hgo; [done|lia].
Qed.

Lemma loop_shrinks {A} n (body : A -> act Reader rerror A) a :
  (forall a, shrinks (body a)) -> shrinks (loop n body a).
Proof.
  intros Hs r. unfold loop. generalize (S (length (pending r))) as fuel.
  intros fuel. revert n a r. induction fuel as [|fuel IH]; intros n a r; cbn [loop_fuel].
  - by destruct (n <=? 0).
  - destruct (n <=? 0); [done|]. specialize (Hs a r). unfold mbind, act_bind.
    destruct (body a r) as [[b|e] r']; [|done]. specialize (IH (n - 1) b r'). cbn in *. lia.
Qed.

Lemma loop_respects {A} n (body : A -> act Reader rerror A) a :
  (forall a, respects (body a)) -> respects (loop n body a).
Proof.
  intros Hb.
  assert (Hf : forall fuel n a, respects (loop_fuel fuel n body a)).
  { induction fuel as [|fuel IH]; intros m b; cbn [loop_fuel];
      (apply respects_if; [apply respects_ret|]); [apply respects_throw|].
    apply respects_bind; auto. }
  intros r1 r2 Hc Hr. unfold loop. destruct Hr as (Hp & Hr'). rewrite <- Hp.
  apply Hf; [done|by split].
Qed.

(** ** The reader methods *)

Create HintDb reader discriminated.
#[export] Hint Resolve safe_ret safe_bind safe_if safe_Peek safe_Next safe_fwd_Skip
  safe_fwd_Skip_ safe_ReadFull badPrefix_ok shrinks_ret shrinks_throw shrinks_bind
  shrinks_if shrinks_Peek shrinks_Next shrinks_fwd_Skip shrinks_fwd_Skip_
  shrinks_ReadFull eats1_Next eats1_fwd_Skip eats1_fwd_Skip_ eats1_throw eats1_bind_l
  eats1_if respects_ret respects_throw respects_bind respects_if respects_Peek
  respects_Next respects_fwd_Skip respects_ReadFull : reader.
#[export] Hint Extern 2 (_ <= _) => lia : reader.
#[export] Hint Extern 2 (_ <= _ <= _) => lia : reader.
#[export] Hint Extern 1 (safe (throw _)) => apply safe_throw; first [done | by apply badPrefix_ok] : reader.

(** Solves a goal about a method by following its text. *)
Ltac reader_auto :=
  repeat match goal with
  | |- safe (_ ≫= _) => apply safe_bind; [|intros ?]
  | |- shrinks (_ ≫= _) => apply shrinks_bind; [|intros ?]
  | |- respects (_ ≫= _) => apply respects_bind; [|intros ?]
  | |- eats (Peek 1 ≫= _) => apply eats_peek; intros ?
  | |- eats1 (_ ≫= _) => apply eats1_bind_l; [|intros ?]
  | |- safe (if _ then _ else _) => apply safe_if
  | |- shrinks (if _ then _ else _) => apply shrinks_if
  | |- respects (if _ then _ else _) => apply respects_if
  | |- eats1 (if _ then _ else _) => apply eats1_if
  | |- _ => progress cbv zeta
  end; auto with reader.

Lemma respects_fwd_Skip_ n : 0 <= n -> respects (fwd_Skip_ n).
Proof.
  intros Hn r1 r2 Hc Hr. destruct (respects_fwd_Skip n Hn r1 r2 Hc Hr) as (_ & ? & ?).
  done.
Qed.
#[export] Hint Resolve respects_fwd_Skip_ : reader.

Lemma be_nonneg p : 0 <= be16 p /\ 0 <= be32 p.
Proof.
  unfold be16, be32. rewrite !Z.lor_nonneg, !Z.shiftl_nonneg.
  pose proof (at_range p 1). pose proof (at_range p 2). pose proof (at_range p 3).
  pose proof (at_range p 4). lia.
Qed.

Lemma rfixstr_nonneg p : 0 <= rfixstr (at_ p 0).
Proof. unfold rfixstr. apply Z.land_nonneg. right. by vm_compute. Qed.

Lemma be16_nonneg p : 0 <= be16 p.
Proof. apply be_nonneg. Qed.
Lemma be32_nonneg p : 0 <= be32 p.
Proof. apply be_nonneg. Qed.
Lemma at1_nonneg p : 0 <= at_ p 1.
Proof. apply at_range. Qed.
Lemma safe_nonneg v : safe (nonneg v).
Proof. unfold nonneg. reader_auto. Qed.
Lemma shrinks_nonneg v : shrinks (nonneg v).
Proof. unfold nonneg. reader_auto. Qed.
Lemma respects_nonneg v : respects (nonneg v).
Proof. unfold nonneg. reader_auto. Qed.
#[export] Hint Resolve be16_nonneg be32_nonneg at1_nonneg rfixstr_nonneg safe_nonneg
  shrinks_nonneg respects_nonneg : reader.

(** A method that terminates, consumes input and ignores the segmentation. *)
Definition well_behaved {A} (m : act Reader rerror A) : Prop :=
  safe m /\ shrinks m /\ eats m /\ respects m.

Lemma ReadMapHeader_wb : well_behaved ReadMapHeader.
Proof. unfold ReadMapHeader. split_and!; reader_auto. Qed.
Lemma ReadArrayHeader_wb : well_behaved ReadArrayHeader.
Proof. unfold ReadArrayHeader. split_and!; reader_auto. Qed.
Lemma ReadUint64_wb : well_behaved ReadUint64.
Proof. unfold ReadUint64. split_and!; reader_auto. Qed.
Lemma ReadInt64_wb : well_behaved ReadInt64.
Proof. unfold ReadInt64. split_and!; reader_auto. Qed.
(** ** Lengths read from the stream *)

(** [m] returns only values that satisfy [P]. *)
Definition returns {A} (P : A -> Prop) (m : act Reader rerror A) : Prop :=
  forall r a r', m r = (Ok a, r') -> P a.

Lemma returns_ret {A} (P : A -> Prop) a : P a -> returns P (mret a).
Proof. intros Ha r b r' E. unfold mret, act_ret in E. by simplify_eq. Qed.
Lemma returns_throw {A} (P : A -> Prop) e : returns P (throw e).
Proof. intros r a r' E. unfold throw in E. by simplify_eq. Qed.
Lemma returns_bind {A B} (P : B -> Prop) (m : act Reader rerror A) (k : A -> act Reader rerror B) :
  (forall a, returns P (k a)) -> returns P (m ≫= k).
Proof. intros Hk r b r' (a & r1 & _ & E2)%act_bind_inv. by eapply Hk. Qed.
Lemma returns_if {A} (P : A -> Prop) (c : bool) m1 m2 :
  returns P m1 -> returns P m2 -> returns P (if c then m1 else m2).
Proof. by destruct c. Qed.

Section bind_returns.
Context {A B : Type} (P : A -> Prop) (m : act Reader rerror A).
Context (k : A -> act Reader rerror B) (HP : returns P m).

Lemma safe_bind_returns : safe m -> (forall a, P a -> safe (k a)) -> safe (m ≫= k).
Proof.
  intros Hm Hk r Hr. destruct (Hm r Hr) as [H1 H2]. specialize (HP r).
  unfold mbind, act_bind. destruct (m r) as [[a|e] r']; [apply Hk; eauto|].
  cbn in *. split; [congruence|done].
Qed.
Lemma shrinks_bind_returns :
  shrinks m -> (forall a, P a -> shrinks (k a)) -> shrinks (m ≫= k).
Proof.
  intros Hm Hk r. specialize (Hm r). specialize (HP r). unfold mbind, act_bind.
  destruct (m r) as [[a|e] r']; [|done].
  specialize (Hk a (HP _ _ eq_refl) r'). cbn in *. lia.
Qed.
Lemma eats1_bind_returns :
  eats1 m -> (forall a, P a -> shrinks (k a)) -> eats1 (m ≫= k).
Proof.
  intros Hm Hk r b r' Hne (a & r1 & E1 & E2)%act_bind_inv.
  specialize (Hm r a r1 Hne E1). specialize (Hk a (HP _ _ _ E1) r1).
  rewrite E2 in Hk. cbn in Hk. lia.
Qed.
Lemma respects_bind_returns :
  respects m -> (forall a, P a -> respects (k a)) -> respects (m ≫= k).
Proof.
  intros Hm Hk r1 r2 Hc Hr. destruct (Hm r1 r2 Hc Hr) as (H1 & H2 & H3).
  specialize (HP r1). unfold mbind, act_bind.
  destruct (m r1) as [[a|e] r1'], (m r2) as [[b|e'] r2']; cbn in *; simplify_eq.
  - apply Hk; eauto.
  - done.
Qed.
End bind_returns.

#[export] Hint Resolve returns_ret returns_throw returns_bind returns_if : reader.

(** The length prefix of a string, in both string readers. *)
Section str_len.
Context (c1 c2 c3 c4 : bool) (lead : Z).
Definition str_len : act Reader rerror Z :=
  if c1 then _ ← fwd_Skip_ 1; mret (rfixstr lead)
  else if c2 then p ← Next 2; mret (at_ p 1)
  else if c3 then p ← Next 3; mret (be16 p)
  else if c4 then p ← Next 5; mret (be32 p)
  else throw (badPrefix StrType lead).

Lemma str_len_returns : returns (λ n, 0 <= n) str_len.
Proof.
  unfold str_len.
  repeat first [apply returns_if | apply returns_bind; intros ?];
    try apply returns_ret; cbn beta; auto using be16_nonneg, be32_nonneg, at1_nonneg, returns_throw.
  unfold rfixstr. apply Z.land_nonneg. right. by vm_compute.
Qed.
Lemma safe_str_len : safe str_len.
Proof. unfold str_len. reader_auto. Qed.
Lemma shrinks_str_len : shrinks str_len.
Proof. unfold str_len. reader_auto. Qed.
Lemma eats1_str_len : eats1 str_len.
Proof. unfold str_len. reader_auto. Qed.
Lemma respects_str_len : respects str_len.
Proof. unfold str_len. reader_auto. Qed.
End str_len.
#[export] Hint Resolve str_len_returns safe_str_len shrinks_str_len eats1_str_len
  respects_str_len : reader.

Lemma ReadString_wb : well_behaved ReadString.
Proof.
  change ReadString with (Peek 1 ≫= λ p,
    str_len (isfixstr (at_ p 0)) (at_ p 0 =? mstr8) (at_ p 0 =? mstr16)
      (at_ p 0 =? mstr32) (at_ p 0) ≫= λ n,
    if n =? 0 then mret EmptyString else ReadFull n ≫= λ out, mret (bytes_str out)).
  split_and!.
  - apply safe_bind; [auto with reader|intros p].
    eapply safe_bind_returns; [auto with reader..|]. cbn; intros n Hn. reader_auto.
  - apply shrinks_bind; [auto with reader|intros p].
    eapply shrinks_bind_returns; [auto with reader..|]. cbn; intros n Hn. reader_auto.
  - apply eats_peek; intros p.
    eapply eats1_bind_returns; [auto with reader..|]. cbn; intros n Hn. reader_auto.
  - apply respects_bind; [auto with reader|intros p].
    eapply respects_bind_returns; [auto with reader..|]. cbn; intros n Hn. reader_auto.
Qed.

Lemma ReadMapKeyPtr_safe : safe ReadMapKeyPtr /\ shrinks ReadMapKeyPtr /\ eats ReadMapKeyPtr.
Proof.
  change ReadMapKeyPtr with (Peek 1 ≫= λ p,
    str_len (isfixstr (at_ p 0)) ((at_ p 0 =? mstr8) || (at_ p 0 =? mbin8))
      ((at_ p 0 =? mstr16) || (at_ p 0 =? mbin16))
      ((at_ p 0 =? mstr32) || (at_ p 0 =? mbin32)) (at_ p 0) ≫= λ n,
    if n =? 0 then throw ErrShortBytes else Next n).
  split_and!.
  - apply safe_bind; [auto with reader|intros p].
    eapply safe_bind_returns; [auto with reader..|]. cbn; intros n Hn. reader_auto.
  - apply shrinks_bind; [auto with reader|intros p].
    eapply shrinks_bind_returns; [auto with reader..|]. cbn; intros n Hn. reader_auto.
  - apply eats_peek; intros p.
    eapply eats1_bind_returns; [auto with reader..|]. cbn; intros n Hn. reader_auto.
Qed.

(** ** Skip and CopyNext terminate on every input *)

Lemma mode_size_pos sz mode b v o :
  1 <= sz -> mode_size sz mode b = Ok (v, o) -> 1 <= v.
Proof.
  unfold mode_size. intros Hs E. pose proof (be_nonneg b). pose proof (at1_nonneg b).
  repeat (break_match_hyp E; simplify_eq; try lia).
Qed.

Lemma mode_size_safe sz mode b e : mode_size sz mode b = Err e -> e = fatal.
Proof. unfold mode_size. intros E. repeat (break_match_hyp E; simplify_eq; try done). Qed.

Lemma sizes_pos lead : 0 <= lead < 256 -> bs_size (sizes lead) <> 0 -> 1 <= bs_size (sizes lead).
Proof. intros Hl Hn. destruct (sizes_table lead Hl) as (H & _). lia. Qed.

Lemma getNextSize_safe : safe getNextSize.
Proof.
  unfold getNextSize. apply safe_bind; [auto with reader|intros p]. cbv zeta.
  destruct (bs_size (sizes (at_ p 0)) =? 0) eqn:E0; [auto with reader|]. bool_prop.
  apply safe_if; [auto with reader|].
  pose proof (sizes_pos _ (at_range p 0) E0).
  apply safe_bind; [auto with reader|intros b r Hr]. unfold lift. cbn. split; [|done].
  intros E. by apply mode_size_safe in E.
Qed.

Lemma getNextSize_pos : returns (λ so, 1 <= so.1) getNextSize.
Proof.
  unfold getNextSize. apply returns_bind; intros p. cbv zeta.
  destruct (bs_size (sizes (at_ p 0)) =? 0) eqn:E0; [auto with reader|]. bool_prop.
  pose proof (sizes_pos _ (at_range p 0) E0).
  apply returns_if; [auto with reader|]. apply returns_bind; intros b r [v o] r' E.
  unfold lift in E. injection E as E <-. cbn. by eapply mode_size_pos.
Qed.

Lemma getSize_safe b : getSize b <> Err Diverged.
Proof.
  unfold getSize. cbv zeta. repeat (case_match; try done).
  intros E. by apply mode_size_safe in E.
Qed.

Lemma getSize_pos b v o : getSize b = Ok (v, o) -> 1 <= v.
Proof.
  unfold getSize. cbv zeta. intros E. repeat (break_match_hyp E; try done); bool_prop.
  - simplify_eq. by apply sizes_pos; [apply at_range|].
  - eapply mode_size_pos; [|done]. by apply sizes_pos; [apply at_range|].
Qed.

Lemma getNextSize_shrinks : shrinks getNextSize.
Proof.
  unfold getNextSize. apply shrinks_bind; [auto with reader|intros p]. cbv zeta.
  destruct (bs_size (sizes (at_ p 0)) =? 0) eqn:E0; [auto with reader|]. bool_prop.
  apply shrinks_if; [auto with reader|].
  pose proof (sizes_pos _ (at_range p 0) E0).
  apply shrinks_bind; [auto with reader|intros b r]. done.
Qed.

Lemma Skip_size_safe : safe Skip_size /\ shrinks Skip_size /\ returns (λ so, 1 <= so.1) Skip_size.
Proof.
  assert (F : safe Skip_fast /\ shrinks Skip_fast /\ returns (λ so, 1 <= so.1) Skip_fast).
  { unfold Skip_fast. split_and!.
    - apply safe_bind; [auto with reader|intros p r Hr]. split; [apply getSize_safe|done].
    - apply shrinks_bind; [auto with reader|intros p r]. done.
    - apply returns_bind; intros p r [v o] r' E. unfold lift in E. injection E as E <-.
      by eapply getSize_pos. }
  destruct F as (F1 & F2 & F3). unfold Skip_size. split_and!.
  - intros r Hr. destruct (5 <=? Buffered r); [by apply F1|by apply getNextSize_safe].
  - intros r. destruct (5 <=? Buffered r); [apply F2|apply getNextSize_shrinks].
  - intros r a r' E. destruct (5 <=? Buffered r); [by eapply F3|by eapply getNextSize_pos].
Qed.

Lemma eats_of_pos {A} (m : act Reader rerror (Z * Z)) (k : Z * Z -> act Reader rerror A) :
  safe m -> shrinks m -> returns (λ so, 1 <= so.1) m ->
  (forall so, 1 <= so.1 -> safe (k so) /\ shrinks (k so)) ->
  safe (m ≫= k) /\ shrinks (m ≫= k).
Proof.
  intros Hs Hh Hr Hk. split.
  - eapply safe_bind_returns; [done..|]. intros a Ha. by apply Hk.
  - eapply shrinks_bind_returns; [done..|]. intros a Ha. by apply Hk.
Qed.

Lemma Skip_prefix_safe : safe Skip_prefix /\ shrinks Skip_prefix.
Proof.
  destruct Skip_size_safe as (H1 & H2 & H3). unfold Skip_prefix.
  apply eats_of_pos; [done..|]. intros [v o] Hv. cbn [fst snd] in *. split; reader_auto.
Qed.

(** The lead byte is there when the size of an object is known. *)
Lemma getNextSize_some r so r' : getNextSize r = (Ok so, r') -> pending r' <> [] /\ pending r' = pending r.
Proof.
  unfold getNextSize. intros (p & r1 & E1 & E2)%act_bind_inv. cbv zeta in E2.
  destruct (Peek_spec 1 r ltac:(lia)) as (r2 & _ & P & E'). rewrite E' in E1.
  destruct (Z.ltb_spec (zlen (pending r)) 1) as [|Hl]; [done|]. injection E1 as <- <-.
  assert (pending r <> []) as Hne. { intros Hn. rewrite Hn, zlen_nil in Hl. lia. }
  destruct (bs_size (sizes (at_ (ztake 1 (pending r)) 0)) =? 0) eqn:E0; [done|]. bool_prop.
  pose proof (sizes_pos _ (at_range (ztake 1 (pending r)) 0) E0).
  destruct (0 <=? _).
  { unfold mret, act_ret in E2. simplify_eq. by rewrite P. }
  apply act_bind_inv in E2 as (b & r3 & E3 & E4). unfold lift in E4. injection E4 as _ <-.
  destruct (Peek_spec (bs_size (sizes (at_ (ztake 1 (pending r)) 0))) r2 ltac:(lia))
    as (r4 & _ & P4 & E5). rewrite E5 in E3.
  destruct (_ <? _); [done|]. injection E3 as _ <-. by rewrite P4, P.
Qed.

Lemma Skip_size_some r so r' : Skip_size r = (Ok so, r') -> pending r' <> [] /\ pending r' = pending r.
Proof.
  unfold Skip_size. destruct (5 <=? Buffered r); [|apply getNextSize_some].
  unfold Skip_fast. intros (p & r1 & E1 & E2)%act_bind_inv.
  destruct (Peek_spec 5 r ltac:(lia)) as (r2 & _ & P & E'). rewrite E' in E1.
  destruct (Z.ltb_spec (zlen (pending r)) 5) as [|Hl]; [done|]. injection E1 as <- <-.
  unfold lift in E2. injection E2 as _ <-. rewrite P. split; [|done].
  intros Hn. rewrite Hn, zlen_nil in Hl. lia.
Qed.

Lemma Skip_prefix_eats : eats Skip_prefix.
Proof.
  unfold Skip_prefix. intros r o r' ([v o'] & r1 & E1 & E2)%act_bind_inv.
  destruct (Skip_size_some _ _ _ E1) as [Hne Hp]. rewrite <- Hp.
  destruct Skip_size_safe as (_ & _ & H3). specialize (H3 _ _ _ E1). cbn [fst snd] in *.
  revert E2. apply eats1_bind_l; [auto with reader|reader_auto|done].
Qed.

Section objects.
Context {A : Type} (prefix : A -> act Reader rerror (A * Z)).
Context (Hs : forall a, safe (prefix a)) (He : forall a, eats (prefix a)).

(** The shape shared by the two flattened recursions. *)
Fixpoint objects (fuel : nat) (k : Z) (a : A) : act Reader rerror A :=
  if k <=? 0 then mret a
  else match fuel with
       | O => throw Diverged
       | S f => ao ← prefix a; objects f (k - 1 + ao.2) ao.1
       end.

Lemma objects_enough fuel k a r :
  R_end r <> Diverged -> (length (pending r) < fuel)%nat ->
  (objects fuel k a r).1 <> Err Diverged /\ R_end (objects fuel k a r).2 <> Diverged.
Proof.
  revert k a r. induction fuel as [|fuel IH]; intros k a r Hr Hf; [lia|].
  cbn [objects]. destruct (k <=? 0); [done|]. destruct (Hs a r Hr) as [H1 H2].
  unfold mbind, act_bind. destruct (prefix a r) as [[b|e] r'] eqn:E.
  - apply IH; [done|]. specialize (He a r b r' E). lia.
  - cbn in *. split; [congruence|done].
Qed.

Lemma objects_shrinks (Hh : forall a, shrinks (prefix a)) fuel k a : shrinks (objects fuel k a).
Proof.
  revert k a. induction fuel as [|fuel IH]; intros k a; cbn [objects];
    (apply shrinks_if; [apply shrinks_ret|]); [apply shrinks_throw|].
  apply shrinks_bind; auto.
Qed.
End objects.

Lemma Skip_objs_objects fuel k r :
  Skip_objs fuel k r = objects (λ _, o ← Skip_prefix; mret (tt, o)) fuel k tt r.
Proof.
  revert k r. induction fuel as [|fuel IH]; intros k r; cbn; [done|].
  destruct (k <=? 0); [done|]. unfold mbind, act_bind.
  destruct (Skip_prefix r) as [[o|e] r']; [|done]. cbn. apply IH.
Qed.

Lemma CopyNext_objs_objects fuel k w r :
  CopyNext_objs fuel k w r =
  objects (λ w, bo ← CopyNext_prefix; mret (w ++ bo.1, bo.2)) fuel k w r.
Proof.
  revert k w r. induction fuel as [|fuel IH]; intros k w r; cbn; [done|].
  destruct (k <=? 0); [done|]. unfold mbind, act_bind.
  destruct (CopyNext_prefix r) as [[o|e] r']; [|done]. cbn. apply IH.
Qed.

Lemma Skip_safe : safe Skip.
Proof.
  intros r Hr. unfold Skip. rewrite Skip_objs_objects. apply objects_enough; [| |done|lia].
  - intros _. apply safe_bind; [apply Skip_prefix_safe|auto with reader].
  - intros _. apply eats_bind_l; [apply Skip_prefix_eats|auto with reader].
Qed.

Lemma short_safe {A} (m : act Reader rerror A) : safe m -> safe (short m).
Proof.
  intros Hm r Hr. destruct (Hm r Hr) as [H1 H2]. unfold short.
  destruct (m r) as [[a|[]] r']; done.
Qed.
Lemma CopyN_safe n : 0 <= n -> safe (CopyN n).
Proof.
  intros Hn r Hr. destruct (safe_ReadFull n Hn r Hr) as [H1 H2]. unfold CopyN.
  destruct (ReadFull n r) as [[a|e] r']; cbn in *; [done|]. split; [congruence|done].
Qed.
Lemma CopyNext_buf_safe sz : 1 <= sz -> safe (CopyNext_buf sz).
Proof.
  intros Hz r Hr. unfold CopyNext_buf. destruct (sz <=? BufferSize r).
  - apply short_safe; [auto with reader|done].
  - apply short_safe; [apply CopyN_safe; lia|done].
Qed.
Lemma CopyNext_buf_eats sz : 1 <= sz -> eats1 (CopyNext_buf sz).
Proof.
  intros Hz r b r' Hne. unfold CopyNext_buf, short, CopyN. destruct (sz <=? BufferSize r).
  - destruct (Next_spec sz r ltac:(lia)) as (r1 & _ & P & ->).
    destruct (_ <? _); [by destruct (noEOF _)|]. intros E. simplify_eq.
    rewrite P. by apply length_zdrop_lt.
  - destruct (ReadFull_spec sz r ltac:(lia)) as (r1 & _ & _ & P & ->).
    intros E. repeat case_match; simplify_eq. rewrite P. by apply length_zdrop_lt.
Qed.

Lemma CopyNext_prefix_safe : safe CopyNext_prefix.
Proof.
  unfold CopyNext_prefix. eapply safe_bind_returns;
    [apply getNextSize_pos|apply getNextSize_safe|]. intros [v o] Hv. cbn [fst snd] in *.
  apply safe_bind; [by apply CopyNext_buf_safe|auto with reader].
Qed.
Lemma CopyNext_prefix_eats : eats CopyNext_prefix.
Proof.
  unfold CopyNext_prefix. intros r o r' ([v o'] & r1 & E1 & E2)%act_bind_inv.
  destruct (getNextSize_some _ _ _ E1) as [Hne Hp]. rewrite <- Hp.
  pose proof (getNextSize_pos _ _ _ E1) as H3. cbn [fst snd] in *.
  revert E2. apply eats1_bind_l; [by apply CopyNext_buf_eats|reader_auto|done].
Qed.

Lemma CopyNext_safe w : safe (CopyNext w).
Proof.
  intros r Hr. unfold CopyNext. rewrite CopyNext_objs_objects.
  apply objects_enough; [| |done|lia].
  - intros a. apply safe_bind; [apply CopyNext_prefix_safe|auto with reader].
  - intros a. apply eats_bind_l; [apply CopyNext_prefix_eats|auto with reader].
Qed.

Lemma peekExtensionType_safe : safe peekExtensionType.
Proof.
  unfold peekExtensionType. apply safe_bind; [auto with reader|intros p]. cbv zeta.
  destruct (decide _); [|auto with reader]. apply safe_if; [auto with reader|].
  destruct (sizes_table (at_ p 0) (at_range _ _)) as (H & _).
  apply safe_bind; auto with reader.
Qed.
Lemma NextType_safe : safe NextType.
Proof.
  unfold NextType. apply safe_bind; [auto with reader|intros p]. cbv zeta.
  repeat destruct (decide _); auto with reader.
  apply safe_bind; [apply peekExtensionType_safe|intros v]. reader_auto.
Qed.

(** ** Nothing read is given back *)

Lemma Skip_shrinks : shrinks Skip.
Proof.
  intros r. unfold Skip. rewrite Skip_objs_objects. apply objects_shrinks. intros _.
  apply shrinks_bind; [apply Skip_prefix_safe|auto with reader].
Qed.

Lemma CopyNext_buf_shrinks sz : 1 <= sz -> shrinks (CopyNext_buf sz).
Proof.
  intros Hz r. unfold CopyNext_buf, short, CopyN. destruct (sz <=? BufferSize r).
  - pose proof (shrinks_Next sz ltac:(lia) r) as H.
    by destruct (Next sz r) as [[b|[]] r'].
  - pose proof (shrinks_ReadFull sz ltac:(lia) r) as H.
    destruct (ReadFull sz r) as [[b|e] r']; [done|]. by destruct (R_end r').
Qed.

Lemma CopyNext_shrinks w : shrinks (CopyNext w).
Proof.
  intros r. unfold CopyNext. rewrite CopyNext_objs_objects. apply objects_shrinks. intros a.
  apply shrinks_bind; [|auto with reader]. unfold CopyNext_prefix.
  eapply shrinks_bind_returns; [apply getNextSize_pos|apply getNextSize_shrinks|].
  intros [v o] Hv. apply shrinks_bind; [by apply CopyNext_buf_shrinks|auto with reader].
Qed.

Lemma NextType_shrinks : shrinks NextType.
Proof.
  unfold NextType, peekExtensionType. apply shrinks_bind; [auto with reader|intros p]. cbv zeta.
  repeat destruct (decide _); auto with reader.
  apply shrinks_bind; [|intros v; reader_auto].
  apply shrinks_bind; [auto with reader|intros q].
  destruct (decide _); [|auto with reader]. apply shrinks_if; [auto with reader|].
  destruct (sizes_table (at_ q 0) (at_range _ _)) as (Hb & _).
  apply shrinks_bind; auto with reader.
Qed.
