(* ===== verification/MsgpBytes.v ===== *)
(** * The byte-slice decoders of msgpack against the stream decoders

    The functions of vendor/github.com/tinylib/msgp/msgp/read_bytes.go that the
    generated [UnmarshalMsg] methods call, and [agree]: a stream decoder and a
    byte-slice decoder compute the same value and leave the same bytes.  They part
    in one way only: the stream decoder refuses a map key of no bytes and an ext32
    object it finds buffered, both with [ErrShortBytes]. *)

From Stdlib Require Import ZArith Lia.
From S2P Require Import Prelude Fwd Msgp MsgpFacts MsgpSafe.

(** ** Functions on byte slices (read_bytes.go) *)

(** [if l < n { err = ErrShortBytes; return }; v = g(b); o = b[n:]] *)
Definition fixed {A} (n : Z) (g : list byte -> A) : parser A := λ b,
  if zlen b <? n then Err ErrShortBytes else Ok (g b, zdrop n b).

Definition ReadArrayHeaderBytes : parser Z := λ b,
  if zlen b <? 1 then Err ErrShortBytes
  else
    let lead := at_ b 0 in
    if isfixarray lead then Ok (rfixarray lead, zdrop 1 b)
    else if lead =? marray16 then fixed 3 be16 b
    else if lead =? marray32 then fixed 5 be32 b
    else Err (badPrefix ArrayType lead).

(** [readBytesBytes], zero-copy. *)
Definition ReadBytesZC : parser (list byte) := λ b,
  if zlen b <? 1 then Err ErrShortBytes
  else
    let lead := at_ b 0 in
    match (if lead =? mbin8 then fixed 2 (λ b, at_ b 1) b
           else if lead =? mbin16 then fixed 3 be16 b
           else if lead =? mbin32 then fixed 5 be32 b
           else Err (badPrefix BinType lead)) with
    | Err e => Err e
    | Ok (read, b) =>
        if zlen b <? read then Err ErrShortBytes
        else Ok (ztake read b, zdrop read b)
    end.

Definition ReadMapKeyZC : parser (list byte) := λ b,
  match ReadStringZC b with
  | Ok (o, x) => Ok (o, x)
  | Err (TypeError m BinType) => ReadBytesZC b
  | Err e => Err e
  end.

(** [v := int64(getMint..(b)); if v < 0 { err = UintBelowZero }; u = uint64(v)] *)
Definition fixed_nonneg (n : Z) (g : list byte -> Z) : parser Z := λ b,
  if zlen b <? n then Err ErrShortBytes
  else if g b <? 0 then Err (UintBelowZero (g b))
  else Ok (uint 64 (g b), zdrop n b).

Definition ReadUint64Bytes : parser Z := λ b,
  if zlen b <? 1 then Err ErrShortBytes
  else
    let lead := at_ b 0 in
    if isfixint lead then Ok (rfixint lead, zdrop 1 b)
    else if lead =? mint8 then fixed_nonneg 2 getMint8 b
    else if lead =? muint8 then fixed 2 getMuint8 b
    else if lead =? mint16 then fixed_nonneg 3 getMint16 b
    else if lead =? muint16 then fixed 3 getMuint16 b
    else if lead =? mint32 then fixed_nonneg 5 getMint32 b
    else if lead =? muint32 then fixed 5 getMuint32 b
    else if lead =? mint64 then fixed_nonneg 9 getMint64 b
    else if lead =? muint64 then fixed 9 getMuint64 b
    else if isnfixint lead then Err (UintBelowZero (rnfixint lead))
    else Err (badPrefix UintType lead).

(** On a 64-bit platform ([smallint] is false). *)
Definition ReadUintBytes : parser Z := ReadUint64Bytes.

Definition ReadInt64Bytes : parser Z := λ b,
  if zlen b <? 1 then Err ErrShortBytes
  else
    let lead := at_ b 0 in
    if isfixint lead then Ok (rfixint lead, zdrop 1 b)
    else if isnfixint lead then Ok (rnfixint lead, zdrop 1 b)
    else if lead =? mint8 then fixed 2 getMint8 b
    else if lead =? muint8 then fixed 2 getMuint8 b
    else if lead =? mint16 then fixed 3 getMint16 b
    else if lead =? muint16 then fixed 3 getMuint16 b
    else if lead =? mint32 then fixed 5 getMint32 b
    else if lead =? muint32 then fixed 5 getMuint32 b
    else if lead =? mint64 then fixed 9 getMint64 b
    else if lead =? muint64 then
      if zlen b <? 9 then Err ErrShortBytes
      else
        let u := getMuint64 b in
        if 2 ^ 63 - 1 <? u then Err (UintOverflow u) else Ok (u, zdrop 9 b)
    else Err (badPrefix IntType lead).

(** The package-level [Skip], which returns only the rest. *)
Definition skip_bytes : parser unit := λ b,
  match SkipBytes b with
  | Ok o => Ok (tt, o)
  | Err e => Err e
  end.

(** [for n > 0 { n--; ... }] over a slice; every body reads at least one byte or
    fails, so the fuel is enough: see [ploop_enough]. *)
Fixpoint ploop_fuel {A} (fuel : nat) (n : Z) (body : A -> parser A) (a : A) : parser A :=
  if n <=? 0 then mret a
  else match fuel with
       | O => pfail Diverged
       | S f => a' ← body a; ploop_fuel f (n - 1) body a'
       end.
Definition ploop {A} (n : Z) (body : A -> parser A) (a : A) : parser A := λ b,
  ploop_fuel (S (length b)) n body a b.

(** ** Agreement *)

(** [m], run on [r], and the outcome [x] of a slice function on the same bytes. *)
Definition agree_at {A} (r : Reader) (m : act Reader rerror A) (x : result rerror (A * list byte)) : Prop :=
  match m r, x with
  | (Ok a, r'), Ok (a', o) => a = a' /\ pending r' = o /\ R_seek r' = false
  | (Ok _, _), Err _ => False
  | (Err e, _), Ok _ => e = ErrShortBytes
  | (Err _, _), Err _ => True
  end.

(** The reader is not an [io.Seeker]: seeking past the end succeeds. *)
Definition agree {A} (m : act Reader rerror A) (f : parser A) : Prop :=
  forall r, R_seek r = false -> agree_at r m (f (pending r)).

Lemma agree_ret {A} (a : A) : agree (mret a) (mret a).
Proof. intros r Hs. done. Qed.

Lemma agree_at_bind {A B} r (m : act Reader rerror A) (k : A -> act Reader rerror B) x (g : A -> parser B) :
  agree_at r m x -> (forall a, agree (k a) (g a)) ->
  agree_at r (m ≫= k) (match x with Ok (a, o) => g a o | Err e => Err e end).
Proof.
  intros Hm Hk. unfold agree_at, mbind, act_bind in *.
  destruct (m r) as [[a|e] r'], x as [[a' o]|e']; [|done| |done].
  - destruct Hm as (<- & <- & Hs). by apply Hk.
  - destruct (g a' o) as [[??]|]; auto.
Qed.

Lemma agree_bind {A B} (m : act Reader rerror A) (k : A -> act Reader rerror B) (f : parser A) (g : A -> parser B) :
  agree m f -> (forall a, agree (k a) (g a)) -> agree (m ≫= k) (f ≫= g).
Proof. intros Hm Hk r Hs. apply agree_at_bind; [by apply Hm|done]. Qed.

Lemma agree_if {A} r (c : bool) (m1 m2 : act Reader rerror A) x1 x2 :
  agree_at r m1 x1 -> agree_at r m2 x2 -> agree_at r (if c then m1 else m2) (if c then x1 else x2).
Proof. by destruct c. Qed.

Lemma agree_throw {A} r e (e' : rerror) : agree_at r (throw e : act Reader rerror A) (Err e').
Proof. done. Qed.

Lemma agree_peek {A} r (k : list byte -> act Reader rerror A) x e :
  R_seek r = false ->
  (forall r1, R_seek r1 = false -> pending r1 = pending r -> 1 <= zlen (pending r) ->
     agree_at r1 (k (ztake 1 (pending r))) x) ->
  agree_at r (Peek 1 ≫= k) (if zlen (pending r) <? 1 then Err e else x).
Proof.
  intros Hs Hk. destruct (Peek_spec 1 r ltac:(lia)) as (r1 & (_ & S1 & _) & P1 & E1).
  destruct (Z.ltb_spec (zlen (pending r)) 1).
  - unfold agree_at. by rewrite (act_bind_err _ _ _ _ _ E1).
  - unfold agree_at. rewrite (act_bind_ok _ _ _ _ _ E1). apply Hk; [congruence|done|done].
Qed.

(** [g] looks at the first [n] bytes only. *)
Definition local_ {A} (n : Z) (g : list byte -> A) : Prop := forall b, g (ztake n b) = g b.

Section leaves.
Context (r : Reader) (Hs : R_seek r = false).

Lemma agree_Next {A} n (g : list byte -> A) :
  0 <= n -> local_ n g -> agree_at r (p ← Next n; mret (g p)) (fixed n g (pending r)).
Proof using Hs.
  intros Hn Hg. destruct (Next_spec n r Hn) as (r1 & (_ & S1 & _) & P1 & E1).
  unfold agree_at, fixed. destruct (zlen (pending r) <? n).
  - by rewrite (act_bind_err _ _ _ _ _ E1).
  - rewrite (act_bind_ok _ _ _ _ _ E1), Hg, <- Hs. done.
Qed.

Lemma agree_Next_nonneg n (g : list byte -> Z) :
  0 <= n -> local_ n g -> agree_at r (p ← Next n; nonneg (g p)) (fixed_nonneg n g (pending r)).
Proof using Hs.
  intros Hn Hg. destruct (Next_spec n r Hn) as (r1 & (_ & S1 & _) & P1 & E1).
  unfold agree_at, fixed_nonneg. destruct (zlen (pending r) <? n).
  - by rewrite (act_bind_err _ _ _ _ _ E1).
  - rewrite (act_bind_ok _ _ _ _ _ E1), Hg. unfold nonneg.
    destruct (g (pending r) <? 0); cbn; [done|]. by rewrite <- Hs.
Qed.

Lemma agree_skip {A} n (v : A) :
  0 <= n <= zlen (pending r) -> agree_at r (_ ← fwd_Skip n; mret v) (Ok (v, zdrop n (pending r))).
Proof using Hs.
  intros Hn. destruct (fwd_Skip_spec n r ltac:(lia)) as (r1 & (_ & S1 & _) & _ & P1 & E1).
  destruct (Z.leb_spec n (zlen (pending r))); [|lia].
  unfold agree_at. rewrite (act_bind_ok _ _ _ _ _ E1), <- Hs. done.
Qed.
Lemma agree_skip_ {A} n (v : A) :
  0 <= n <= zlen (pending r) -> agree_at r (_ ← fwd_Skip_ n; mret v) (Ok (v, zdrop n (pending r))).
Proof using Hs.
  intros Hn. pose proof (agree_skip n v Hn) as H. unfold agree_at, mbind, act_bind, fwd_Skip_ in *.
  destruct (fwd_Skip n r) as [[u|e] r1] eqn:E; [done|].
  destruct (fwd_Skip_spec n r ltac:(lia)) as (r2 & _ & _ & _ & E2).
  rewrite E2 in E. destruct (Z.leb_spec n (zlen (pending r))); [done|lia].
Qed.

(** The payload of a string: copied, or a view into the buffer. *)
Lemma agree_payload n :
  0 <= n -> agree_at r (if n =? 0 then mret EmptyString else out ← ReadFull n; mret (bytes_str out))
    (if zlen (pending r) <? n then Err ErrShortBytes
     else Ok (bytes_str (ztake n (pending r)), zdrop n (pending r))).
Proof using Hs.
  intros Hn. pose proof (zlen_nonneg (pending r)).
  destruct (ReadFull_spec n r Hn) as (r1 & (_ & S1 & _) & _ & P1 & E1). unfold agree_at.
  destruct (Z.eqb_spec n 0) as [->|Hn0].
  { destruct (Z.ltb_spec (zlen (pending r)) 0); [lia|]. done. }
  destruct (Z.leb_spec n (zlen (pending r))), (Z.ltb_spec (zlen (pending r)) n); try lia.
  - rewrite (act_bind_ok _ _ _ _ _ E1). cbn. by rewrite <- Hs.
  - by rewrite (act_bind_err _ _ _ _ _ E1).
Qed.

(** A key of no bytes is refused by the stream decoder only. *)
Lemma agree_key_payload n :
  0 <= n -> agree_at r (if n =? 0 then throw ErrShortBytes else Next n)
    (if zlen (pending r) <? n then Err ErrShortBytes
     else Ok (ztake n (pending r), zdrop n (pending r))).
Proof using Hs.
  intros Hn. destruct (Next_spec n r Hn) as (r1 & (_ & S1 & _) & P1 & E1). unfold agree_at.
  destruct (Z.eqb_spec n 0) as [->|Hn0].
  - cbn. destruct (Z.ltb_spec (zlen (pending r)) 0); done.
  - rewrite E1. destruct (zlen (pending r) <? n); [done|]. by rewrite <- Hs.
Qed.
End leaves.

(** The big-endian readers look at the bytes of their width. *)
Ltac solve_local :=
  intros ?b; unfold be16, be32, getMint8, getMint16, getMint32, getMint64,
    getMuint8, getMuint16, getMuint32, getMuint64;
  rewrite ?at_ztake by lia; reflexivity.
Lemma local_be16 : local_ 3 be16. Proof. solve_local. Qed.
Lemma local_be32 : local_ 5 be32. Proof. solve_local. Qed.
Lemma local_at1 : local_ 2 (λ b, at_ b 1). Proof. solve_local. Qed.
Lemma local_Mint8 : local_ 2 getMint8. Proof. solve_local. Qed.
Lemma local_Mint16 : local_ 3 getMint16. Proof. solve_local. Qed.
Lemma local_Mint32 : local_ 5 getMint32. Proof. solve_local. Qed.
Lemma local_Mint64 : local_ 9 getMint64. Proof. solve_local. Qed.
Lemma local_Muint8 : local_ 2 getMuint8. Proof. solve_local. Qed.
Lemma local_Muint16 : local_ 3 getMuint16. Proof. solve_local. Qed.
Lemma local_Muint32 : local_ 5 getMuint32. Proof. solve_local. Qed.
Lemma local_Muint64 : local_ 9 getMuint64. Proof. solve_local. Qed.

Create HintDb agree discriminated.
#[export] Hint Resolve local_be16 local_be32 local_at1 local_Mint8 local_Mint16 local_Mint32
  local_Mint64 local_Muint8 local_Muint16 local_Muint32 local_Muint64 agree_if agree_throw
  agree_Next agree_Next_nonneg agree_skip agree_skip_ agree_ret : agree.
#[export] Hint Extern 2 (_ <= _) => lia : agree.
#[export] Hint Extern 2 (_ <= _ <= _) => lia : agree.

(** Opens a stream decoder at its lead byte. *)
Ltac agree_lead r :=
  intros r ?Hs; cbv beta zeta; apply agree_peek; [done|];
  intros ?r1 ?S1 ?P1 ?Hl; cbv zeta; rewrite ?at_ztake by lia;
  match goal with P : pending _ = pending r |- _ => rewrite <- P in * end.

Lemma agree_ReadMapHeader : agree ReadMapHeader ReadMapHeaderBytes.
Proof.
  agree_lead r. apply agree_if; [auto with agree|].
  apply agree_if; [|apply agree_if; [|apply agree_throw]].
  - apply (agree_Next r1 S1 3 be16); auto with agree.
  - apply (agree_Next r1 S1 5 be32); auto with agree.
Qed.
Lemma agree_ReadArrayHeader : agree ReadArrayHeader ReadArrayHeaderBytes.
Proof. agree_lead r. auto 10 with agree. Qed.
Lemma agree_ReadUint64 : agree ReadUint64 ReadUint64Bytes.
Proof. agree_lead r. auto 30 with agree. Qed.
Lemma agree_ReadInt64 : agree ReadInt64 ReadInt64Bytes.
Proof.
  agree_lead r. do 9 (apply agree_if; [auto with agree|]). apply agree_if; [|apply agree_throw].
  destruct (Next_spec 9 r1 ltac:(lia)) as (r2 & (_ & S2 & _) & P2 & E2). unfold agree_at.
  destruct (zlen (pending r1) <? 9).
  - by rewrite (act_bind_err _ _ _ _ _ E2).
  - rewrite (act_bind_ok _ _ _ _ _ E2). rewrite local_Muint64.
    destruct (2 ^ 63 - 1 <? getMuint64 (pending r1)); cbn; [done|]. by rewrite <- S1.
Qed.

(** The length prefix of a string, as the slice functions read it. *)
Definition str_len_bytes (c1 c2 c3 c4 : bool) (lead : Z) (e : rerror) : parser Z := λ b,
  if c1 then Ok (rfixstr lead, zdrop 1 b)
  else if c2 then fixed 2 (λ b, at_ b 1) b
  else if c3 then fixed 3 be16 b
  else if c4 then fixed 5 be32 b
  else Err e.

Lemma agree_str_len r c1 c2 c3 c4 lead e :
  R_seek r = false -> 1 <= zlen (pending r) ->
  agree_at r (str_len c1 c2 c3 c4 lead) (str_len_bytes c1 c2 c3 c4 lead e (pending r)).
Proof.
  intros Hs Hl. unfold str_len, str_len_bytes. do 4 (apply agree_if; [auto with agree|]).
  apply agree_throw.
Qed.

(** A length, then a payload of that length. *)
Lemma agree_sized {A} r c1 c2 c3 c4 e (k : Z -> act Reader rerror A) (g : Z -> parser A) :
  R_seek r = false -> 1 <= zlen (pending r) ->
  (forall n, 0 <= n -> agree (k n) (g n)) ->
  agree_at r (str_len c1 c2 c3 c4 (at_ (pending r) 0) ≫= k)
    (match str_len_bytes c1 c2 c3 c4 (at_ (pending r) 0) e (pending r) with
     | Ok (n, o) => g n o | Err e => Err e end).
Proof.
  intros Hs Hl Hk.
  pose proof (agree_str_len r c1 c2 c3 c4 (at_ (pending r) 0) e Hs Hl) as Ha.
  pose proof (str_len_returns c1 c2 c3 c4 (at_ (pending r) 0) r) as Hr.
  unfold agree_at, mbind, act_bind in *.
  destruct (str_len _ _ _ _ _ r) as [[n|e1] r1], (str_len_bytes _ _ _ _ _ _ _) as [[n' o]|e2]; [|done| |done].
  - destruct Ha as (<- & <- & Hs1). apply (Hk n (Hr _ _ eq_refl)). done.
  - by destruct (g n' o) as [[??]|].
Qed.

Lemma agree_ReadString : agree ReadString ReadStringBytes.
Proof.
  change ReadString with (Peek 1 ≫= λ p,
    str_len (isfixstr (at_ p 0)) (at_ p 0 =? mstr8) (at_ p 0 =? mstr16)
      (at_ p 0 =? mstr32) (at_ p 0) ≫= λ n,
    if n =? 0 then mret EmptyString else ReadFull n ≫= λ out, mret (bytes_str out)).
  intros r Hs.
  set (x := match str_len_bytes (isfixstr (at_ (pending r) 0)) (at_ (pending r) 0 =? mstr8)
       (at_ (pending r) 0 =? mstr16) (at_ (pending r) 0 =? mstr32) (at_ (pending r) 0)
       (TypeError StrType (getType (at_ (pending r) 0))) (pending r) with
     | Ok (n, o) => if zlen o <? n then Err ErrShortBytes else Ok (bytes_str (ztake n o), zdrop n o)
     | Err e => Err e end).
  assert (ReadStringBytes (pending r) = if zlen (pending r) <? 1 then Err ErrShortBytes else x) as ->.
  { unfold ReadStringBytes, ReadStringZC, x, str_len_bytes, fixed. cbv zeta.
    destruct (zlen (pending r) <? 1); [done|].
    repeat (case_match; simplify_eq; try done). }
  apply agree_peek; [done|]. intros r1 S1 P1 Hl. cbv zeta. rewrite at_ztake by lia.
  unfold x. rewrite <- P1 in *. apply (agree_sized r1 _ _ _ _ _ _ (λ n o,
    if zlen o <? n then Err ErrShortBytes else Ok (bytes_str (ztake n o), zdrop n o))); [done|done|].
  intros n Hn r2 Hs2. by apply agree_payload.
Qed.

(** The leads [ReadMapKeyZC] passes on to [ReadBytesZC]. *)
Lemma bin_leads lead : 0 <= lead < 256 ->
  (getType lead = BinType <-> lead = mbin8 \/ lead = mbin16 \/ lead = mbin32) /\
  ((lead =? mbin8) || (lead =? mbin16) || (lead =? mbin32) = true -> isfixstr lead = false).
Proof.
  intros Hl. pose proof (Zrange_check (λ lead,
    eqb (bool_decide (getType lead = BinType)) ((lead =? mbin8) || (lead =? mbin16) || (lead =? mbin32)) &&
    (negb ((lead =? mbin8) || (lead =? mbin16) || (lead =? mbin32)) || negb (isfixstr lead)))
    256 eq_refl lead ltac:(lia)) as H. cbn beta in H. bool_prop.
  split.
  - rewrite eqb_true_iff in H. rewrite <- (bool_decide_eq_true (getType lead = BinType)), H.
    rewrite !orb_true_iff, !Z.eqb_eq. tauto.
  - intros E. rewrite E in H0. cbn in H0. by apply negb_true_iff.
Qed.

(** Splits all matches of an equation between two nested case analyses. *)
Ltac solve_cases := repeat (case_match; simplify_eq; try done).

Lemma ReadMapKeyZC_eq b : ReadMapKeyZC b =
  if zlen b <? 1 then Err ErrShortBytes
  else match str_len_bytes (isfixstr (at_ b 0)) ((at_ b 0 =? mstr8) || (at_ b 0 =? mbin8))
         ((at_ b 0 =? mstr16) || (at_ b 0 =? mbin16)) ((at_ b 0 =? mstr32) || (at_ b 0 =? mbin32))
         (at_ b 0) (TypeError StrType (getType (at_ b 0))) b with
       | Ok (n, o) => if zlen o <? n then Err ErrShortBytes else Ok (ztake n o, zdrop n o)
       | Err e => Err e
       end.
Proof.
  destruct (bin_leads (at_ b 0) (at_range b 0)) as [Hb _].
  unfold ReadMapKeyZC, ReadStringZC, ReadBytesZC, str_len_bytes, fixed. cbv zeta.
  destruct (zlen b <? 1); [done|]. set (lead := at_ b 0) in *.
  destruct (Z.eqb_spec lead mbin8) as [E|N1]; [rewrite E; lead_if; solve_cases|].
  destruct (Z.eqb_spec lead mbin16) as [E|N2]; [rewrite E; lead_if; solve_cases|].
  destruct (Z.eqb_spec lead mbin32) as [E|N3]; [rewrite E; lead_if; solve_cases|].
  rewrite !orb_false_r.
  destruct (isfixstr lead); [solve_cases|]. destruct (lead =? mstr8); [solve_cases|].
  destruct (lead =? mstr16); [solve_cases|]. destruct (lead =? mstr32); [solve_cases|].
  destruct (getType lead); try done. exfalso. destruct (proj1 Hb eq_refl) as [|[]]; done.
Qed.

Lemma agree_ReadMapKey : agree ReadMapKeyPtr ReadMapKeyZC.
Proof.
  change ReadMapKeyPtr with (Peek 1 ≫= λ p,
    str_len (isfixstr (at_ p 0)) ((at_ p 0 =? mstr8) || (at_ p 0 =? mbin8))
      ((at_ p 0 =? mstr16) || (at_ p 0 =? mbin16))
      ((at_ p 0 =? mstr32) || (at_ p 0 =? mbin32)) (at_ p 0) ≫= λ n,
    if n =? 0 then throw ErrShortBytes else Next n).
  intros r Hs. rewrite ReadMapKeyZC_eq. apply agree_peek; [done|]. intros r1 S1 P1 Hl.
  cbv zeta. rewrite at_ztake by lia. rewrite <- P1 in *.
  apply (agree_sized r1 _ _ _ _ _ _ (λ n o,
    if zlen o <? n then Err ErrShortBytes else Ok (ztake n o, zdrop n o))); [done|done|].
  intros n Hn r2 Hs2. by apply agree_key_payload.
Qed.

(** ** Skip *)

(** The size of the next object, from the slice and from the stream; the fast path
    of the stream decoder sees five bytes of it. *)
Lemma getSize_agree b :
  match getSize (ztake 5 b), getSize b with
  | Ok x, Ok y => x = y
  | Ok _, Err _ => False
  | Err e, Ok _ => e = ErrShortBytes
  | Err _, Err _ => True
  end.
Proof.
  unfold getSize. cbv zeta. pose proof (zlen_nonneg b).
  assert (zlen (ztake 5 b) = Z.min 5 (zlen b)) as Hz.
  { unfold zlen, ztake. rewrite length_take. lia. }
  rewrite Hz, at_ztake by lia.
  destruct (Z.eqb_spec (zlen b) 0) as [->|]; [done|].
  destruct (Z.eqb_spec (Z.min 5 (zlen b)) 0); [lia|].
  destruct (sizes_table (at_ b 0) (at_range b 0)) as (_ & Ht). set (s := sizes (at_ b 0)) in *.
  destruct (bs_size s =? 0); [done|]. destruct (Z.leb_spec 0 (bs_extra s)); [done|].
  destruct (Ht ltac:(lia)) as (_ & Hneed & _).
  destruct (Z.ltb_spec (Z.min 5 (zlen b)) (bs_size s)), (Z.ltb_spec (zlen b) (bs_size s)); try done; try lia.
  - by destruct (mode_size _ _ b).
  - rewrite (mode_size_ext _ _ (ztake 5 b) b); [by destruct (mode_size _ _ b)|].
    intros i Hi. apply at_ztake. unfold mode_need in Hneed, Hi. repeat case_match; lia.
Qed.

Lemma getNextSize_agree r : R_seek r = false ->
  match getNextSize r, getSize (pending r) with
  | (Ok x, r'), Ok y => x = y /\ pending r' = pending r /\ R_seek r' = false
  | (Err _, _), Err _ => True
  | _, _ => False
  end.
Proof.
  intros Hs. unfold getNextSize, getSize. cbv zeta. pose proof (zlen_nonneg (pending r)).
  destruct (Peek_spec 1 r ltac:(lia)) as (r1 & (_ & S1 & _) & P1 & E1).
  destruct (Z.ltb_spec (zlen (pending r)) 1).
  { rewrite (act_bind_err _ _ _ _ _ E1). destruct (Z.eqb_spec (zlen (pending r)) 0); [done|lia]. }
  destruct (Z.eqb_spec (zlen (pending r)) 0); [lia|].
  rewrite (act_bind_ok _ _ _ _ _ E1). rewrite at_ztake by lia.
  destruct (sizes_table (at_ (pending r) 0) (at_range _ _)) as (Hb & Ht).
  set (s := sizes (at_ (pending r) 0)) in *.
  destruct (bs_size s =? 0); [done|].
  destruct (Z.leb_spec 0 (bs_extra s)); [cbn; split_and!; congruence|].
  destruct (Ht ltac:(lia)) as (_ & Hneed & _).
  destruct (Peek_spec (bs_size s) r1 ltac:(lia)) as (r2 & (_ & S2 & _) & P2 & E2). rewrite P1 in E2.
  destruct (zlen (pending r) <? bs_size s); [by rewrite (act_bind_err _ _ _ _ _ E2)|].
  rewrite (act_bind_ok _ _ _ _ _ E2). unfold lift.
  rewrite (mode_size_ext _ _ (ztake (bs_size s) (pending r)) (pending r)).
  - destruct (mode_size _ _ _); [|done]. split_and!; congruence.
  - intros i Hi. apply at_ztake. lia.
Qed.

(** One object prefix. *)
Definition skip_prefix_bytes : parser Z := λ b,
  match getSize b with
  | Err e => Err e
  | Ok (sz, asz) => if zlen b <? sz then Err ErrShortBytes else Ok (asz, zdrop sz b)
  end.

Lemma agree_Skip_prefix : agree Skip_prefix skip_prefix_bytes.
Proof.
  intros r Hs.
  assert (match Skip_size r, getSize (pending r) with
    | (Ok x, r'), Ok y => x = y /\ pending r' = pending r /\ R_seek r' = false
    | (Ok _, _), Err _ => False
    | (Err e, _), Ok _ => e = ErrShortBytes
    | (Err _, _), Err _ => True
    end) as HS.
  { unfold Skip_size. destruct (Z.leb_spec 5 (Buffered r)).
    - unfold Skip_fast. destruct (Peek_spec 5 r ltac:(lia)) as (r1 & (_ & S1 & _) & P1 & E1).
      assert (5 <= zlen (pending r)).
      { unfold pending, Buffered in *. rewrite zlen_app. pose proof (zlen_nonneg (cat (R_rest r))). lia. }
      destruct (Z.ltb_spec (zlen (pending r)) 5); [lia|].
      rewrite (act_bind_ok _ _ _ _ _ E1). unfold lift.
      pose proof (getSize_agree (pending r)) as G.
      destruct (getSize (ztake 5 _)), (getSize (pending r)); try done. split_and!; congruence.
    - pose proof (getNextSize_agree r Hs) as G.
      by destruct (getNextSize r) as [[?|?] ?], (getSize (pending r)). }
  unfold agree_at, Skip_prefix, skip_prefix_bytes. unfold mbind, act_bind.
  destruct (Skip_size r) as [[[v o]|e] r1], (getSize (pending r)) as [[sz asz]|e'] eqn:E; try done.
  - destruct HS as ([= -> ->] & P1 & S1). cbn [fst snd]. pose proof (getSize_pos _ _ _ E).
    destruct (fwd_Skip_spec sz r1 ltac:(lia)) as (r2 & (_ & S2 & _) & _ & P2 & ->).
    rewrite P1, S1, orb_false_r.
    destruct (Z.leb_spec sz (zlen (pending r))), (Z.ltb_spec (zlen (pending r)) sz); try lia.
    cbn. split_and!; congruence.
  - subst. by destruct (zlen (pending r) <? sz).
Qed.

Lemma agree_Skip_objs fuel k r : R_seek r = false ->
  agree_at r (Skip_objs fuel k)
    (match SkipBytes_objs fuel k (pending r) with Ok o => Ok (tt, o) | Err e => Err e end).
Proof.
  revert k r. induction fuel as [|fuel IH]; intros k r Hs; cbn [Skip_objs SkipBytes_objs].
  { by destruct (k <=? 0). }
  destruct (k <=? 0); [done|].
  pose proof (agree_at_bind r Skip_prefix (λ o, Skip_objs fuel (k - 1 + o)) (skip_prefix_bytes (pending r))
    (λ o b, match SkipBytes_objs fuel (k - 1 + o) b with Ok b => Ok (tt, b) | Err e => Err e end)
    (agree_Skip_prefix r Hs)) as H.
  assert (forall o, agree (Skip_objs fuel (k - 1 + o))
    (λ b, match SkipBytes_objs fuel (k - 1 + o) b with Ok b => Ok (tt, b) | Err e => Err e end)) as Hk.
  { intros o r1 Hs1. by apply IH. }
  specialize (H Hk). unfold skip_prefix_bytes in H. revert H.
  destruct (getSize (pending r)) as [[sz asz]|]; [|done]. by destruct (zlen (pending r) <? sz).
Qed.

Lemma agree_Skip : agree Skip skip_bytes.
Proof.
  intros r Hs. unfold Skip, skip_bytes, SkipBytes, agree_at.
  apply (agree_Skip_objs (S (length (pending r))) 1 r Hs).
Qed.

Lemma agree_loop {A} n (body : A -> act Reader rerror A) (pbody : A -> parser A) a :
  (forall a, agree (body a) (pbody a)) -> agree (loop n body a) (ploop n pbody a).
Proof.
  intros Hb.
  assert (Hf : forall fuel n a, agree (loop_fuel fuel n body a) (ploop_fuel fuel n pbody a)).
  { induction fuel as [|fuel IH]; intros m b; cbn [loop_fuel ploop_fuel].
    - by destruct (m <=? 0).
    - destruct (m <=? 0); [apply agree_ret|]. apply agree_bind; auto. }
  intros r Hs. apply (Hf (S (length (pending r))) n a r Hs).
Qed.

#[export] Hint Resolve agree_ReadMapHeader agree_ReadArrayHeader agree_ReadUint64 agree_ReadInt64
  agree_ReadString agree_ReadMapKey agree_Skip : agree.

(** ** The slice functions end *)

(** [f] never runs out of fuel and returns a suffix no longer than its input. *)
Definition ptame {A} (f : parser A) : Prop := forall b,
  match f b with
  | Ok (_, o) => (length o <= length b)%nat
  | Err e => e <> Diverged
  end.
(** ... and a shorter one. *)
Definition peats {A} (f : parser A) : Prop := forall b a o, f b = Ok (a, o) -> (length o < length b)%nat.

Lemma ptame_ret {A} (a : A) : ptame (mret a).
Proof. intros b. cbn. lia. Qed.
Lemma ptame_bind {A B} (f : parser A) (g : A -> parser B) :
  ptame f -> (forall a, ptame (g a)) -> ptame (f ≫= g).
Proof.
  intros Hf Hg b. unfold mbind, parser_bind. specialize (Hf b). destruct (f b) as [[a o]|e]; [|done].
  specialize (Hg a o). destruct (g a o) as [[c o']|]; [lia|done].
Qed.
Lemma ptame_if {A} (P : Prop) `{Decision P} (f g : parser A) :
  ptame f -> ptame g -> ptame (if decide P then f else g).
Proof. by destruct (decide P). Qed.
Lemma peats_bind {A B} (f : parser A) (g : A -> parser B) :
  peats f -> (forall a, ptame (g a)) -> peats (f ≫= g).
Proof.
  intros Hf Hg b c o. unfold mbind, parser_bind. specialize (Hf b). destruct (f b) as [[a o']|]; [|done].
  intros E. specialize (Hg a o'). rewrite E in Hg. specialize (Hf a o' eq_refl). lia.
Qed.

Lemma ploop_enough {A} n (body : A -> parser A) a :
  (forall a, ptame (body a)) -> (forall a, peats (body a)) -> ptame (ploop n body a).
Proof.
  intros Ht He.
  assert (Hgo : forall fuel n a b, (length b < fuel)%nat ->
    match ploop_fuel fuel n body a b with Ok (_, o) => (length o <= length b)%nat | Err e => e <> Diverged end).
  { induction fuel as [|fuel IH]; intros m x b Hl; [lia|]. cbn [ploop_fuel].
    destruct (m <=? 0); [cbn; lia|]. unfold mbind, parser_bind. specialize (Ht x b).
    specialize (He x b). destruct (body x b) as [[x' o]|e]; [|done].
    specialize (He _ _ eq_refl). specialize (IH (m - 1) x' o ltac:(lia)).
    destruct (ploop_fuel fuel (m - 1) body x' o) as [[??]|]; [lia|done]. }
  intros b. apply Hgo. lia.
Qed.

(** What a slice function makes of a slice it has looked into: a value after at
    least a byte, or an error. *)
Definition taken {A} (b : list byte) (x : result rerror (A * list byte)) : Prop :=
  match x with Ok (_, o) => (length o < length b)%nat | Err e => e <> Diverged end.

Lemma taken_tame {A} (f : parser A) : (forall b, taken b (f b)) -> ptame f /\ peats f.
Proof.
  intros Hf. split.
  - intros b. specialize (Hf b). unfold taken in Hf. destruct (f b) as [[??]|]; [lia|done].
  - intros b a o E. specialize (Hf b). by rewrite E in Hf.
Qed.
Lemma taken_short {A} b e (x : result rerror (A * list byte)) :
  e <> Diverged -> (b <> [] -> taken b x) -> taken b (if zlen b <? 1 then Err e else x).
Proof.
  intros He Hx. destruct (Z.ltb_spec (zlen b) 1); [done|]. apply Hx. intros ->. rewrite zlen_nil in *. lia.
Qed.
Lemma taken_if {A} b (c : bool) (x y : result rerror (A * list byte)) :
  taken b x -> taken b y -> taken b (if c then x else y).
Proof. by destruct c. Qed.
Lemma taken_drop {A} b n (a : A) : 1 <= n -> b <> [] -> taken b (Ok (a, zdrop n b)).
Proof. intros. by apply length_zdrop_lt. Qed.
Lemma taken_fixed {A} b n (g : list byte -> A) : 1 <= n -> b <> [] -> taken b (fixed n g b).
Proof. intros. unfold fixed. apply taken_if; [done|by apply taken_drop]. Qed.
Lemma taken_fixed_nonneg b n (g : list byte -> Z) : 1 <= n -> b <> [] -> taken b (fixed_nonneg n g b).
Proof. intros. unfold fixed_nonneg. apply taken_if; [done|]. apply taken_if; [done|by apply taken_drop]. Qed.
Lemma taken_bad {A} b want lead : taken b (Err (badPrefix want lead) : result rerror (A * list byte)).
Proof. apply badPrefix_ok. Qed.
Lemma taken_err {A} b e : e <> Diverged -> taken b (Err e : result rerror (A * list byte)).
Proof. done. Qed.
#[export] Hint Resolve taken_if taken_drop taken_fixed taken_fixed_nonneg taken_bad taken_err : agree.
#[export] Hint Extern 1 (?e <> Diverged) => discriminate : agree.

(** A length, then the payload. *)
Lemma taken_sized {A} b x (g : list byte -> A) :
  taken b x ->
  taken b (match x with
           | Err e => Err e
           | Ok (read, o) => if zlen o <? read then Err ErrShortBytes else Ok (g (ztake read o), zdrop read o)
           end).
Proof.
  intros Hx. destruct x as [[n o]|e]; [|done]. apply taken_if; [done|]. unfold taken in *.
  pose proof (length_zdrop_le n o). lia.
Qed.

Lemma ReadMapHeaderBytes_tame : ptame ReadMapHeaderBytes /\ peats ReadMapHeaderBytes.
Proof. apply taken_tame. intros b. apply taken_short; [done|intros Hb]. cbv zeta. auto 10 with agree. Qed.
Lemma ReadArrayHeaderBytes_tame : ptame ReadArrayHeaderBytes /\ peats ReadArrayHeaderBytes.
Proof. apply taken_tame. intros b. apply taken_short; [done|intros Hb]. cbv zeta. auto 10 with agree. Qed.
Lemma ReadUintBytes_tame : ptame ReadUintBytes /\ peats ReadUintBytes.
Proof. apply taken_tame. intros b. apply taken_short; [done|intros Hb]. cbv zeta. auto 30 with agree. Qed.
Lemma ReadInt64Bytes_tame : ptame ReadInt64Bytes /\ peats ReadInt64Bytes.
Proof. apply taken_tame. intros b. apply taken_short; [done|intros Hb]. cbv zeta. auto 30 with agree. Qed.
Lemma ReadStringZC_taken b : taken b (ReadStringZC b).
Proof.
  apply taken_short; [done|intros Hb]. cbv zeta. apply (taken_sized b _ (λ x, x)). auto 12 with agree.
Qed.
Lemma ReadStringBytes_tame : ptame ReadStringBytes /\ peats ReadStringBytes.
Proof.
  apply taken_tame. intros b. unfold ReadStringBytes. pose proof (ReadStringZC_taken b).
  by destruct (ReadStringZC b) as [[??]|].
Qed.
Lemma ReadMapKeyZC_tame : ptame ReadMapKeyZC /\ peats ReadMapKeyZC.
Proof.
  apply taken_tame. intros b. unfold ReadMapKeyZC. pose proof (ReadStringZC_taken b).
  assert (taken b (ReadBytesZC b)).
  { apply taken_short; [done|intros Hb]. cbv zeta. apply (taken_sized b _ (λ x, x)). auto 12 with agree. }
  destruct (ReadStringZC b) as [[??]|e]; [done|]. by destruct e as [| | | | |m []| | | |].
Qed.

Lemma SkipBytes_objs_tame fuel k b : (length b < fuel)%nat ->
  match SkipBytes_objs fuel k b with Ok o => (length o <= length b)%nat | Err e => e <> Diverged end.
Proof.
  revert k b. induction fuel as [|fuel IH]; intros k b Hl; [lia|]. cbn [SkipBytes_objs].
  destruct (k <=? 0); [lia|]. destruct (getSize b) as [[sz asz]|e] eqn:E.
  - destruct (Z.ltb_spec (zlen b) sz); [done|].
    assert (1 <= sz) as Hsz by (by apply getSize_pos in E).
    assert (b <> []) as Hne by (intros ->; rewrite zlen_nil in *; lia).
    pose proof (length_zdrop_lt sz b Hsz Hne) as Hd.
    specialize (IH (k - 1 + asz) (zdrop sz b) ltac:(lia)). destruct (SkipBytes_objs _ _ _); [lia|done].
  - intros ->. by apply getSize_safe in E.
Qed.
Lemma skip_bytes_tame : ptame skip_bytes.
Proof.
  intros b. unfold skip_bytes, SkipBytes. pose proof (SkipBytes_objs_tame (S (length b)) 1 b ltac:(lia)).
  by destruct (SkipBytes_objs _ _ _).
Qed.
