(* ===== verification/Writer.v ===== *)
(** * The buffered msgpack writer

    [msgp.Writer] of vendor/github.com/tinylib/msgp/msgp/write.go, which the
    generated [EncodeMsg] methods write to, and [Encode].  The underlying
    [io.Writer] is what it has accepted so far and the answers it will give:
    success, or a failure after some bytes.

    [writes m bs]: [m] hands on exactly [bs], through the buffer; when it fails,
    what went out is a prefix of what should have. *)

From Stdlib Require Import ZArith Lia.
From S2P Require Import Prelude Fwd Msgp MsgpFacts.

Record Writer := mkWriter {
  mw_sink : list byte;                  (* what [mw.w] has accepted *)
  mw_answers : list (option (nat * Z)); (* its answers; success when exhausted *)
  mw_buf : list byte;                   (* mw.buf[:mw.wloc] *)
  mw_size : Z                           (* len(mw.buf) *)
}.

(** [mw.w.Write(p)], also behind [io.WriteString]: the bytes taken, and the error. *)
Definition sink_Write (p : list byte) (mw : Writer) : nat * option rerror * Writer :=
  let '(mkWriter out as_ buf sz) := mw in
  match as_ with
  | Some (n, code) :: as_ =>
      (n `min` length p, Some (IOError code), mkWriter (out ++ take n p) as_ buf sz)%nat
  | _ => (length p, None, mkWriter (out ++ p) (tail as_) buf sz)
  end.

Definition set_buf (buf : list byte) (mw : Writer) : Writer :=
  mkWriter (mw_sink mw) (mw_answers mw) buf (mw_size mw).

Definition flush : act Writer rerror unit := λ mw,
  match mw_buf mw with
  | [] => (Ok tt, mw)
  | buf =>
      let '(n, err, mw) := sink_Write buf mw in
      match err with
      | Some e => (Err e, if (0 <? n)%nat then set_buf (drop n buf) mw else mw)
      | None => (Ok tt, set_buf [] mw)
      end
  end.
Definition Flush : act Writer rerror unit := flush.

Definition avail (mw : Writer) : Z := mw_size mw - zlen (mw_buf mw).

(** [if mw.avail() < need { flush }] and [if mw.wloc == len(mw.buf) { flush }] *)
Definition flush_if (c : Writer -> bool) : act Writer rerror unit := λ mw,
  if c mw then flush mw else (Ok tt, mw).
Definition make_room (need : Z) : act Writer rerror unit := flush_if (λ mw, avail mw <? need).

(** [mw.wloc += copy(mw.buf[mw.wloc:], p)]: what does not fit is dropped. *)
Definition copy_in (p : list byte) : act Writer rerror unit := λ mw,
  (Ok tt, set_buf (mw_buf mw ++ ztake (avail mw) p) mw).

Definition Append (b : list byte) : act Writer rerror unit :=
  _ ← make_room (zlen b); copy_in b.

(** [mw.buf[mw.wloc] = ..; mw.wloc += ..], within the room that was made. *)
Definition put (bs : list byte) : act Writer rerror unit := λ mw,
  (Ok tt, set_buf (mw_buf mw ++ bs) mw).

Definition push (b : byte) : act Writer rerror unit :=
  _ ← flush_if (λ mw, zlen (mw_buf mw) =? mw_size mw); put [b].

(** The common body of [prefix8] .. [prefix64]. *)
Definition store (bs : list byte) : act Writer rerror unit :=
  _ ← make_room (zlen bs); put bs.

Definition prefixu64 (pre u : Z) : list byte :=
  [z2b pre; z2b (u ≫ 56); z2b (u ≫ 48); z2b (u ≫ 40); z2b (u ≫ 32);
   z2b (u ≫ 24); z2b (u ≫ 16); z2b (u ≫ 8); z2b u].
Definition prefix8 (b u : Z) : act Writer rerror unit := store (prefixu8 b u).
Definition prefix16 (b u : Z) : act Writer rerror unit := store (prefixu16 b u).
Definition prefix32 (b u : Z) : act Writer rerror unit := store (prefixu32 b u).
Definition prefix64 (b u : Z) : act Writer rerror unit := store (prefixu64 b u).

(** A string longer than the buffer goes to the underlying writer at once. *)
Definition write_through (s : list byte) : act Writer rerror unit := λ mw,
  let '(_, err, mw) := sink_Write s mw in
  (match err with Some e => Err e | None => Ok tt end, mw).
Definition write_flushed (s : list byte) : act Writer rerror unit := λ mw,
  if mw_size mw <? zlen s then write_through s mw else copy_in s mw.
Definition writeString (s : list byte) : act Writer rerror unit := λ mw,
  if avail mw <? zlen s then (_ ← flush; write_flushed s) mw else copy_in s mw.

Definition WriteMapHeader (sz : Z) : act Writer rerror unit :=
  if sz <=? 15 then push (wfixmap (uint 8 sz))
  else if sz <=? MaxUint16 then prefix16 mmap16 (uint 16 sz)
  else prefix32 mmap32 sz.

Definition WriteArrayHeader (sz : Z) : act Writer rerror unit :=
  if sz <=? 15 then push (wfixarray (uint 8 sz))
  else if sz <=? MaxUint16 then prefix16 marray16 (uint 16 sz)
  else prefix32 marray32 sz.

Definition WriteInt64 (i : Z) : act Writer rerror unit :=
  if 0 <=? i then
    if i <=? 2 ^ 7 - 1 then push (wfixint (uint 8 i))
    else if i <=? 2 ^ 15 - 1 then prefix16 mint16 (uint 16 i)
    else if i <=? 2 ^ 31 - 1 then prefix32 mint32 (uint 32 i)
    else prefix64 mint64 (uint 64 i)
  else
    if -32 <=? i then push (wnfixint (sint 8 i))
    else if - 2 ^ 7 <=? i then prefix8 mint8 (uint 8 i)
    else if - 2 ^ 15 <=? i then prefix16 mint16 (uint 16 i)
    else if - 2 ^ 31 <=? i then prefix32 mint32 (uint 32 i)
    else prefix64 mint64 (uint 64 i).

Definition WriteUint64 (u : Z) : act Writer rerror unit :=
  if u <=? (1 ≪ 7) - 1 then push (wfixint (uint 8 u))
  else if u <=? MaxUint8 then prefix8 muint8 (uint 8 u)
  else if u <=? MaxUint16 then prefix16 muint16 (uint 16 u)
  else if u <=? MaxUint32 then prefix32 muint32 (uint 32 u)
  else prefix64 muint64 u.
Definition WriteUint (u : Z) : act Writer rerror unit := WriteUint64 u.

(** Floats are given by their bits. *)
Definition WriteFloat64 (bits : Z) : act Writer rerror unit := prefix64 mfloat64 bits.
Definition WriteFloat32 (bits : Z) : act Writer rerror unit := prefix32 mfloat32 bits.

Definition WriteString (s : string) : act Writer rerror unit :=
  let sz := uint 32 (zlen (str_bytes s)) in
  _ ← (if sz <=? 31 then push (wfixstr (uint 8 sz))
       else if sz <=? MaxUint8 then prefix8 mstr8 (uint 8 sz)
       else if sz <=? MaxUint16 then prefix16 mstr16 (uint 16 sz)
       else prefix32 mstr32 sz);
  writeString (str_bytes s).

(** [NewWriter] over an [io.Writer] that has accepted [out]; pooled writers have a
    buffer of 2048 bytes. *)
Definition NewWriter (out : list byte) (answers : list (option (nat * Z))) : Writer :=
  mkWriter out answers [] 2048.

Definition Encode (EncodeMsg : act Writer rerror unit) : act Writer rerror unit :=
  _ ← EncodeMsg; Flush.

(** [for i := range l { err = f(l[i]); if err != nil { return } }] *)
Fixpoint each {A} (f : A -> act Writer rerror unit) (l : list A) : act Writer rerror unit :=
  match l with
  | [] => mret tt
  | x :: l => _ ← f x; each f l
  end.

(** ** What a writer hands on *)

(** Everything given to the writer so far. *)
Definition streamed (mw : Writer) : list byte := mw_sink mw ++ mw_buf mw.

(** The buffer holds what it should and is as large as the longest constant the
    generated code appends. *)
Definition writer_ok (mw : Writer) : Prop := zlen (mw_buf mw) <= mw_size mw /\ 22 <= mw_size mw.

Definition outcome (mw : Writer) (bs : list byte) (x : result rerror unit * Writer) : Prop :=
  match x with
  | (Ok _, mw') => streamed mw' = streamed mw ++ bs /\ writer_ok mw' /\
      (mw_answers mw = [] -> mw_answers mw' = [])
  | (Err _, mw') => mw_answers mw <> [] /\ exists rest, streamed mw ++ bs = mw_sink mw' ++ rest
  end.
Definition writes (m : act Writer rerror unit) (bs : list byte) : Prop :=
  forall mw, writer_ok mw -> outcome mw bs (m mw).

Lemma writes_ret : writes (mret tt) [].
Proof. intros mw Hok. cbn. by rewrite app_nil_r. Qed.

Lemma outcome_bind mw bs1 bs2 x (k : act Writer rerror unit) :
  outcome mw bs1 x -> writes k bs2 ->
  outcome mw (bs1 ++ bs2) (match x with (Ok _, mw') => k mw' | (Err e, mw') => (Err e, mw') end).
Proof.
  intros Hx Hk. destruct x as [[u|e] mw1]; cbn in Hx.
  - destruct Hx as (E & Hok & Ha). specialize (Hk mw1 Hok). unfold outcome in *.
    destruct (k mw1) as [[v|e] mw2].
    + destruct Hk as (E2 & Hok2 & Ha2). rewrite E2, E, <- app_assoc. auto.
    + destruct Hk as (Hne & rest & E2). rewrite E in E2. rewrite <- app_assoc in E2.
      split; [auto|eauto].
  - destruct Hx as (Hne & rest & E). cbn. split; [done|]. exists (rest ++ bs2).
    by rewrite !app_assoc, E.
Qed.

Lemma writes_bind (m k : act Writer rerror unit) bs1 bs2 :
  writes m bs1 -> writes k bs2 -> writes (_ ← m; k) (bs1 ++ bs2).
Proof. intros Hm Hk mw Hok. apply (outcome_bind mw bs1 bs2 (m mw) k); [by apply Hm|done]. Qed.

Lemma writes_if (c : bool) m1 m2 bs1 bs2 :
  writes m1 bs1 -> writes m2 bs2 -> writes (if c then m1 else m2) (if c then bs1 else bs2).
Proof. by destruct c. Qed.

(** Flushing moves bytes from the buffer to the sink; a success leaves it empty. *)
Lemma flush_outcome mw : writer_ok mw ->
  outcome mw [] (flush mw) /\
  ((flush mw).1 = Ok tt -> mw_buf (flush mw).2 = [] /\ mw_size (flush mw).2 = mw_size mw).
Proof.
  intros [Hb Hs]. unfold flush. destruct mw as [out as_ buf sz]; cbn in *.
  destruct buf as [|x buf]; [unfold streamed, writer_ok; cbn; rewrite !app_nil_r; split_and!; done || lia|].
  remember (x :: buf) as b eqn:Eb. clear Eb.
  unfold sink_Write. destruct as_ as [|[[n code]|] as_]; cbn.
  - unfold streamed, writer_ok; cbn. rewrite !app_nil_r, zlen_nil. split_and!; try done; lia.
  - split; [|done]. split; [done|]. exists (drop n b). unfold streamed. cbn. rewrite app_nil_r.
    case_match; cbn; by rewrite <- app_assoc, take_drop.
  - unfold streamed, writer_ok; cbn. rewrite !app_nil_r, zlen_nil. split_and!; try done; lia.
Qed.

Lemma put_outcome bs mw :
  writer_ok mw -> zlen bs <= avail mw -> outcome mw bs (put bs mw).
Proof.
  intros [Hb Hs] Hr. unfold avail in Hr. unfold outcome, put, streamed, writer_ok, set_buf; cbn.
  rewrite app_assoc, zlen_app. split_and!; try done; lia.
Qed.
Lemma copy_in_fits bs mw : zlen bs <= avail mw -> copy_in bs mw = put bs mw.
Proof.
  intros Hr. unfold copy_in, put. do 3 f_equal. unfold ztake, zlen in *. apply take_ge. lia.
Qed.

(** A conditional flush, then a store that fits the room it made. *)
Lemma writes_room c bs (k : act Writer rerror unit) :
  zlen bs <= 22 ->
  (forall mw, writer_ok mw -> c mw = false -> zlen bs <= avail mw) ->
  (forall mw, writer_ok mw -> zlen bs <= avail mw -> outcome mw bs (k mw)) ->
  writes (_ ← flush_if c; k) bs.
Proof.
  intros Hl Hc Hk mw Hok. unfold mbind, act_bind, flush_if. destruct (c mw) eqn:E; [|auto].
  destruct (flush_outcome mw Hok) as [Hf He]. destruct (flush mw) as [[[]|e] mw1]; cbn in *.
  - destruct Hf as (Ef & Hok1 & Ha). destruct (He eq_refl) as [Hb Hs].
    assert (zlen bs <= avail mw1) as Hr.
    { unfold avail. rewrite Hb, zlen_nil. destruct Hok1. lia. }
    specialize (Hk mw1 Hok1 Hr). unfold outcome in *. rewrite app_nil_r in Ef. rewrite Ef in Hk.
    destruct (k mw1) as [[]]; intuition.
  - destruct Hf as (Hne & rest & Er). split; [done|]. exists (rest ++ bs).
    by rewrite app_nil_r in Er; rewrite Er, <- app_assoc.
Qed.

Lemma writes_Append bs : zlen bs <= 22 -> writes (Append bs) bs.
Proof.
  intros Hl. apply writes_room; [done| |].
  - intros mw _ E. bool_prop. done.
  - intros mw Hok Hr. rewrite copy_in_fits by done. by apply put_outcome.
Qed.
Lemma writes_store bs : zlen bs <= 22 -> writes (store bs) bs.
Proof.
  intros Hl. apply writes_room; [done| |by intros; apply put_outcome].
  intros mw _ E. bool_prop. done.
Qed.
Lemma writes_push b : writes (push b) [b].
Proof.
  apply writes_room; [done| |by intros; apply put_outcome].
  intros mw [Hb _] E. bool_prop. unfold avail. rewrite zlen_cons, zlen_nil. lia.
Qed.

Lemma write_through_outcome s mw :
  writer_ok mw -> mw_buf mw = [] -> outcome mw s (write_through s mw).
Proof.
  intros [Hb Hs] He. destruct mw as [out as_ buf sz]; cbn in *; subst buf.
  unfold outcome, write_through, sink_Write, streamed, writer_ok; cbn.
  destruct as_ as [|[[n code]|] as_]; cbn; rewrite ?app_nil_r; try (split_and!; done || lia).
  split; [done|]. exists (drop n s). by rewrite <- app_assoc, take_drop.
Qed.

Lemma writes_writeString s : writes (writeString s) s.
Proof.
  intros mw Hok. unfold writeString. destruct (Z.ltb_spec (avail mw) (zlen s)) as [Hr|Hr].
  2: { rewrite copy_in_fits by done. by apply put_outcome. }
  destruct (flush_outcome mw Hok) as [Hf He]. unfold mbind, act_bind.
  destruct (flush mw) as [[[]|e] mw1]; cbn in *.
  - destruct Hf as (Ef & Hok1 & Ha). destruct (He eq_refl) as [Hb Hs].
    assert (outcome mw1 s (write_flushed s mw1)) as Hw.
    { unfold write_flushed. destruct (Z.ltb_spec (mw_size mw1) (zlen s)); [by apply write_through_outcome|].
      assert (zlen s <= avail mw1) by (unfold avail; rewrite Hb, zlen_nil; lia).
      rewrite copy_in_fits by done. by apply put_outcome. }
    unfold outcome in *. rewrite app_nil_r in Ef. rewrite Ef in Hw.
    destruct (write_flushed s mw1) as [[]]; intuition.
  - destruct Hf as (Hne & rest & Er). split; [done|]. exists (rest ++ s).
    by rewrite app_nil_r in Er; rewrite Er, <- app_assoc.
Qed.

(** ** The writing methods write what the appending functions append *)

(** A byte of a number cut to [w] bits, within those bits. *)
Lemma z2b_uint w u k : 0 <= k -> k + 8 <= w -> z2b (uint w u ≫ k) = z2b (u ≫ k).
Proof.
  intros Hk Hw. apply b2z_inj. rewrite !z2b_b2z_mod. change 256 with (2 ^ 8). unfold uint.
  apply Z.bits_inj'. intros n Hn. destruct (decide (n < 8)).
  - rewrite !Z.mod_pow2_bits_low by lia. rewrite !Z.shiftr_spec by lia.
    rewrite Z.mod_pow2_bits_low by lia. done.
  - rewrite !Z.mod_pow2_bits_high by lia. done.
Qed.
Lemma z2b_uint0 w u : 8 <= w -> z2b (uint w u) = z2b u.
Proof. intros. pose proof (z2b_uint w u 0 ltac:(lia) ltac:(lia)) as E. by rewrite !Z.shiftr_0_r in E. Qed.
Lemma uint_sint w u : 0 < w -> uint w (sint w u) = uint w u.
Proof.
  intros Hw. unfold uint, sint. rewrite Zminus_mod_idemp_l. f_equal. lia.
Qed.
Lemma z2b_sint w u k : 0 <= k -> k + 8 <= w -> z2b (sint w u ≫ k) = z2b (u ≫ k).
Proof. intros. rewrite <- (z2b_uint w (sint w u)), uint_sint, z2b_uint by lia. done. Qed.
Lemma z2b_sint0 w u : 8 <= w -> z2b (sint w u) = z2b u.
Proof. intros. pose proof (z2b_sint w u 0 ltac:(lia) ltac:(lia)) as E. by rewrite !Z.shiftr_0_r in E. Qed.

Create HintDb writes discriminated.
#[export] Hint Resolve writes_ret writes_if writes_push : writes.

Lemma writes_prefix8 b u : writes (prefix8 b u) (prefixu8 b u).
Proof. by apply writes_store. Qed.
Lemma writes_prefix16 b u : writes (prefix16 b u) (prefixu16 b u).
Proof. by apply writes_store. Qed.
Lemma writes_prefix32 b u : writes (prefix32 b u) (prefixu32 b u).
Proof. by apply writes_store. Qed.
Lemma writes_prefix64 b u : writes (prefix64 b u) (prefixu64 b u).
Proof. by apply writes_store. Qed.
#[export] Hint Resolve writes_prefix8 writes_prefix16 writes_prefix32 writes_prefix64 : writes.

Lemma writes_WriteMapHeader sz : writes (WriteMapHeader sz) (AppendMapHeader [] sz).
Proof. unfold WriteMapHeader, AppendMapHeader. cbn [app]. auto with writes. Qed.
Lemma writes_WriteArrayHeader sz : writes (WriteArrayHeader sz) (AppendArrayHeader [] sz).
Proof. unfold WriteArrayHeader, AppendArrayHeader. cbn [app]. auto with writes. Qed.

(** The signed and the unsigned spelling of the same bytes. *)
Ltac same_bytes :=
  unfold putMint8, putMint16, putMint32, putMint64, putMuint8, putMuint16, putMuint32, putMuint64,
    prefixu8, prefixu16, prefixu32, prefixu64;
  rewrite ?z2b_uint, ?z2b_uint0, ?z2b_sint, ?z2b_sint0 by lia; reflexivity.
Lemma AppendUint64_prefix u : AppendUint64 [] u =
  if u <=? (1 ≪ 7) - 1 then [wfixint (uint 8 u)]
  else if u <=? MaxUint8 then prefixu8 muint8 (uint 8 u)
  else if u <=? MaxUint16 then prefixu16 muint16 (uint 16 u)
  else if u <=? MaxUint32 then prefixu32 muint32 (uint 32 u)
  else prefixu64 muint64 u.
Proof. unfold AppendUint64. cbn [app]. repeat (case_match; [same_bytes|]). same_bytes. Qed.
Lemma AppendInt64_prefix i : AppendInt64 [] i =
  if 0 <=? i then
    if i <=? 2 ^ 7 - 1 then [wfixint (uint 8 i)]
    else if i <=? 2 ^ 15 - 1 then prefixu16 mint16 (uint 16 i)
    else if i <=? 2 ^ 31 - 1 then prefixu32 mint32 (uint 32 i)
    else prefixu64 mint64 (uint 64 i)
  else
    if -32 <=? i then [wnfixint (sint 8 i)]
    else if - 2 ^ 7 <=? i then prefixu8 mint8 (uint 8 i)
    else if - 2 ^ 15 <=? i then prefixu16 mint16 (uint 16 i)
    else if - 2 ^ 31 <=? i then prefixu32 mint32 (uint 32 i)
    else prefixu64 mint64 (uint 64 i).
Proof. unfold AppendInt64. cbn [app]. repeat case_match; same_bytes. Qed.

Lemma writes_WriteUint64 u : writes (WriteUint64 u) (AppendUint64 [] u).
Proof. rewrite AppendUint64_prefix. unfold WriteUint64. auto 10 with writes. Qed.
Lemma writes_WriteInt64 i : writes (WriteInt64 i) (AppendInt64 [] i).
Proof. rewrite AppendInt64_prefix. unfold WriteInt64. auto 10 with writes. Qed.

Lemma writes_WriteString s :
  zlen (str_bytes s) < 2 ^ 32 -> writes (WriteString s) (AppendString [] s).
Proof.
  intros Hs. pose proof (zlen_nonneg (str_bytes s)).
  unfold WriteString, AppendString, AppendStringFromBytes. cbv zeta. cbn [app].
  assert (uint 32 (zlen (str_bytes s)) = zlen (str_bytes s)) as E by (unfold uint; apply Z.mod_small; lia).
  rewrite !E. apply writes_bind; [|apply writes_writeString]. auto with writes.
Qed.

Lemma writes_each {A} (f : A -> act Writer rerror unit) (enc : A -> list byte) l :
  (forall x, x ∈ l -> writes (f x) (enc x)) -> writes (each f l) (concat (map enc l)).
Proof.
  induction l as [|x l IH]; intros Hf; cbn; [apply writes_ret|].
  apply writes_bind; [apply Hf; set_solver|]. apply IH. intros y Hy. apply Hf. set_solver.
Qed.

(** [Encode] on a fresh writer: the whole encoding, or an error and a prefix of it. *)
Lemma Encode_outcome (m : act Writer rerror unit) bs out answers :
  writes m bs ->
  match Encode m (NewWriter out answers) with
  | (Ok _, mw) => mw_sink mw = out ++ bs
  | (Err _, mw) => answers <> [] /\ exists rest, out ++ bs = mw_sink mw ++ rest
  end.
Proof.
  intros Hm. assert (writer_ok (NewWriter out answers)) as Hok.
  { unfold writer_ok; cbn. by rewrite zlen_nil. }
  assert (writes Flush []) as HF by (intros mw H; by apply flush_outcome).
  pose proof (writes_bind m Flush bs [] Hm HF _ Hok) as H.
  unfold Encode, outcome, streamed in *. cbn in H. rewrite !app_nil_r in H.
  unfold mbind, act_bind in *. specialize (Hm _ Hok). unfold outcome in Hm.
  destruct (m (NewWriter out answers)) as [[[]|e] mw1]; [|done].
  destruct Hm as (_ & Hok1 & _). destruct (flush_outcome mw1 Hok1) as [_ Hb].
  unfold Flush in *. destruct (flush mw1) as [[[]|e] mw2]; [|done].
  destruct (Hb eq_refl) as [Eb _]. destruct H as (E & _). cbn in Eb. by rewrite Eb, app_nil_r in E.
Qed.
