(* ===== verification/Stream.v ===== *)
(** * Reply streams, sessions and the message header (isolate/conn_handler.go,
      isolate/errors.go, and the output collector of isolate/initialdispatch.go)

    A response stream writes one msgpack message per call to the connection it
    shares with the other channels.  The connection and whatever the [onClose]
    callback changes is the state [St]; the operations are state transformers
    returning the error of the call, [None] for nil. *)

From Stdlib Require Import ZArith Lia.
From S2P Require Import Prelude Fwd Msgp MsgpFacts MsgpSafe.

(** ** Error codes *)

Definition systemCategory : Z := 1.
Definition isolateErrCategory : Z := 42.
(** [syscall.EAGAIN] on Linux. *)
Definition EAGAIN : Z := 11.

Definition codeSpawnEAGAIN : Z := EAGAIN + 0.
Definition codeBadMsg : Z := EAGAIN + 1.
Definition codeBadProfile : Z := EAGAIN + 2.
Definition codeUnknownIsolate : Z := EAGAIN + 3.
Definition codeSpoolingFailed : Z := EAGAIN + 4.
Definition codeSpawningFailed : Z := EAGAIN + 5.
Definition codeOutputError : Z := EAGAIN + 6.
Definition codeKillError : Z := EAGAIN + 7.
Definition codeSpoolCancellationError : Z := EAGAIN + 8.

(** [[2]int] *)
Definition errcode : Type := Z * Z.
Definition errBadMsg : errcode := (isolateErrCategory, codeBadMsg).
Definition errBadProfile : errcode := (isolateErrCategory, codeBadProfile).
Definition errUnknownIsolate : errcode := (isolateErrCategory, codeUnknownIsolate).
Definition errSpoolingFailed : errcode := (isolateErrCategory, codeSpoolingFailed).
Definition errSpawningFailed : errcode := (isolateErrCategory, codeSpawningFailed).
Definition errOutputError : errcode := (isolateErrCategory, codeOutputError).
Definition errKillError : errcode := (isolateErrCategory, codeKillError).
Definition errSpoolCancellationError : errcode :=
  (isolateErrCategory, codeSpoolCancellationError).
Definition errSpawnEAGAIN : errcode := (systemCategory, codeSpawnEAGAIN).

(** ** Messages *)

(** The bytes [responseStream.Write] hands to the connection. *)
Definition write_frame (channel num : Z) (data : list byte) : list byte :=
  let p := [] in
  let p := AppendArrayHeader p 3 in
  let p := AppendUint64 p channel in
  let p := AppendUint64 p num in
  let p := AppendArrayHeader p 1 in
  AppendStringFromBytes p data.

(** The bytes [responseStream.Error] hands to the connection. *)
Definition error_frame (channel num : Z) (code : errcode) (msg : string) : list byte :=
  let p := [] in
  let p := AppendArrayHeader p 3 in
  let p := AppendUint64 p channel in
  let p := AppendUint64 p num in
  let p := AppendArrayHeader p 2 in
  let p := AppendArrayHeader p 2 in
  let p := AppendInt p code.1 in
  let p := AppendInt p code.2 in
  AppendString p msg.

(** The bytes [responseStream.Close] hands to the connection. *)
Definition close_frame (channel num : Z) : list byte :=
  let p := [] in
  let p := AppendArrayHeader p 3 in
  let p := AppendUint64 p channel in
  let p := AppendUint64 p num in
  AppendArrayHeader p 0.

(** The messages of a stream. *)
Inductive reply :=
  | RWrite (num : Z) (data : list byte)
  | RError (num : Z) (code : errcode) (msg : string)
  | RClose (num : Z).

(** [r.wr.Write(p)]: the bytes of a message of a channel. *)
Definition reply_frame (cr : Z * reply) : list byte :=
  match cr.2 with
  | RWrite num data => write_frame cr.1 num data
  | RError num code msg => error_frame cr.1 num code msg
  | RClose num => close_frame cr.1 num
  end.

Section stream.
(** [St]: the world the stream acts on; [Er]: errors of [io.Writer.Write];
    [wr_Write m]: the connection's [Write] called with the bytes
    [reply_frame m]. *)
Context {St Er : Type}.
Context (wr_Write : Z * reply -> St -> option Er * St).

Inductive stream_error :=
  | errStreamIsClosed
  | WriteError (e : Er).

Record responseStream := {
  rs_channel : Z;
  rs_onClose : option (St -> St);
  rs_closed : bool;
}.

Definition newResponseStream (channel : Z) : responseStream :=
  {| rs_channel := channel; rs_onClose := None; rs_closed := false |}.

Definition OnClose (f : St -> St) (r : responseStream) : responseStream :=
  {| rs_channel := rs_channel r; rs_onClose := Some f; rs_closed := rs_closed r |}.

(** [responseStream.close]: runs the callback; [closed] is left as it is. *)
Definition rs_close (r : responseStream) (s : St) : St :=
  if rs_closed r then s
  else match rs_onClose r with Some f => f s | None => s end.

Definition wrote (x : option Er * St) : option stream_error * St :=
  match x with
  | (Some e, s) => (Some (WriteError e), s)
  | (None, s) => (None, s)
  end.

Definition rs_Write (r : responseStream) (num : Z) (data : list byte) (s : St)
  : option stream_error * St :=
  if rs_closed r then (Some errStreamIsClosed, s)
  else wrote (wr_Write (rs_channel r, RWrite num data) s).

(** [defer r.close(ctx)] runs whether the write succeeds or not. *)
Definition rs_Error (r : responseStream) (num : Z) (code : errcode) (msg : string) (s : St)
  : option stream_error * St :=
  if rs_closed r then (Some errStreamIsClosed, s)
  else
    let '(err, s) := wrote (wr_Write (rs_channel r, RError num code msg) s) in
    (err, rs_close r s).

Definition rs_Close (r : responseStream) (num : Z) (s : St)
  : option stream_error * St :=
  if rs_closed r then (Some errStreamIsClosed, s)
  else
    let '(err, s) := wrote (wr_Write (rs_channel r, RClose num) s) in
    (err, rs_close r s).

(** The output collector: [notified] is its atomic flag.  [Write] returns the
    count, the new flag and the world; stream errors are dropped. *)
Definition replySpawnWrite : Z := 0.
Definition notificationByte : list byte := [].

Definition OutputCollector_Write (r : responseStream) (p : list byte)
  (notified : bool) (s : St) : Z * bool * St :=
  if notified then
    let '(_, s) := rs_Write r replySpawnWrite p s in (zlen p, true, s)
  else
    let '(_, s) := rs_Write r replySpawnWrite notificationByte s in
    if zlen p =? 0 then (0, true, s)
    else let '(_, s) := rs_Write r replySpawnWrite p s in (zlen p, true, s).

(** [NotifyAboutStart(wr)] on an output collector. *)
Definition NotifyAboutStart (r : responseStream) (notified : bool) (s : St) : bool * St :=
  let '(_, n, s) := OutputCollector_Write r notificationByte notified s in (n, s).
End stream.
Arguments stream_error : clear implicits.
Arguments responseStream : clear implicits.

(** ** Sessions: the dispatcher of every open channel *)
Abbreviation sessions := (gmap Z).
Section sessions.
Context {D : Type}.
Definition newSessions : sessions D := ∅.
Definition Attach (channel : Z) (d : D) (s : sessions D) : sessions D := <[channel := d]> s.
Definition Detach (channel : Z) (s : sessions D) : sessions D := delete channel s.
Definition Get (channel : Z) (s : sessions D) : option D := s !! channel.
End sessions.

(** ** The message header *)

(** [ConnectionHandler.next]: (hasHeaders, channel, number). *)
Definition next : act Reader rerror (bool * Z * Z) :=
  sz ← ReadArrayHeader;
  let hasHeaders := sz =? 4 in
  channel ← ReadUint64;
  c ← ReadUint64;
  mret (hasHeaders, channel, c).

Lemma next_wb : well_behaved next.
Proof.
  destruct ReadArrayHeader_wb as (A1 & A2 & A3 & A4).
  destruct ReadUint64_wb as (U1 & U2 & U3 & U4).
  unfold next. split_and!.
  - reader_auto.
  - reader_auto.
  - apply eats_bind_l; [done|intros a]. reader_auto.
  - reader_auto.
Qed.

(** The peer's side: header, then the arguments by their number. *)
Definition read_reply : act Reader rerror (Z * reply) :=
  h ← next;
  let '(_, channel, num) := h in
  n ← ReadArrayHeader;
  if n =? 0 then mret (channel, RClose num)
  else if n =? 1 then
    s ← ReadString; mret (channel, RWrite num (str_bytes s))
  else
    _ ← ReadArrayHeader;
    c0 ← ReadInt64;
    c1 ← ReadInt64;
    msg ← ReadString;
    mret (channel, RError num (c0, c1) msg).

(** The values fit their Go types ([uint64], [int], 32-bit lengths). *)
Definition reply_ok (cr : Z * reply) : Prop :=
  0 <= cr.1 < 2 ^ 64 /\
  match cr.2 with
  | RWrite num data => 0 <= num < 2 ^ 64 /\ zlen data < 2 ^ 32
  | RError num code msg => 0 <= num < 2 ^ 64 /\ - 2 ^ 63 <= code.1 < 2 ^ 63 /\
      - 2 ^ 63 <= code.2 < 2 ^ 63 /\ zlen (str_bytes msg) < 2 ^ 32
  | RClose num => 0 <= num < 2 ^ 64
  end.

#[export] Instance reply_ok_dec cr : Decision (reply_ok cr).
Proof. destruct cr as [ch []]; unfold reply_ok; cbn [fst snd]; apply _. Defined.

(** ** Round trip of the messages *)

Definition header (n channel num : Z) : list byte :=
  AppendArrayHeader [] n ++ AppendUint64 [] channel ++ AppendUint64 [] num.

Lemma reads_next n channel num :
  0 <= n < 2 ^ 32 -> 0 <= channel < 2 ^ 64 -> 0 <= num < 2 ^ 64 ->
  reads next (header n channel num) (n =? 4, channel, num).
Proof.
  intros Hn Hc Hm. unfold next, header.
  eapply reads_bind; [by apply reads_array_header|]. cbv zeta.
  eapply reads_bind; [by apply reads_uint64|].
  eapply reads_bind_nil; [by apply reads_uint64|]. apply reads_ret.
Qed.

(** A frame is the header followed by the arguments. *)
Definition reply_args (r : reply) : list byte :=
  match r with
  | RWrite _ data => AppendArrayHeader [] 1 ++ AppendStringFromBytes [] data
  | RError _ code msg => AppendArrayHeader [] 2 ++ AppendArrayHeader [] 2 ++
      AppendInt64 [] code.1 ++ AppendInt64 [] code.2 ++ AppendString [] msg
  | RClose _ => AppendArrayHeader [] 0
  end.
Definition reply_num (r : reply) : Z :=
  match r with RWrite num _ | RError num _ _ | RClose num => num end.

Lemma reply_frame_split ch r :
  reply_frame (ch, r) = header 3 ch (reply_num r) ++ reply_args r.
Proof.
  unfold reply_frame, header. destruct r as [num data|num code msg|num]; cbn [fst snd];
    unfold write_frame, error_frame, close_frame, reply_args, reply_num; cbv zeta;
    unfold AppendInt.
  - rewrite AppendStringFromBytes_app, AppendArrayHeader_app, (AppendUint64_app _ num),
      AppendUint64_app. by rewrite <- !app_assoc.
  - rewrite AppendString_app, (AppendInt64_app _ code.2), (AppendInt64_app _ code.1).
    rewrite (AppendArrayHeader_app (AppendArrayHeader _ _)).
    rewrite (AppendArrayHeader_app (AppendUint64 _ _)), (AppendUint64_app _ num),
      (AppendUint64_app _ ch). by rewrite <- !app_assoc.
  - rewrite AppendArrayHeader_app, (AppendUint64_app _ num), AppendUint64_app.
    by rewrite <- !app_assoc.
Qed.

Lemma reads_reply cr : reply_ok cr -> reads read_reply (reply_frame cr) cr.
Proof.
  destruct cr as [ch r]. intros [Hc Hr]. rewrite reply_frame_split. cbn [fst snd] in *.
  assert (0 <= reply_num r < 2 ^ 64) as Hn by (destruct r; cbn in *; lia).
  unfold read_reply. eapply reads_bind; [by apply reads_next|]. cbv iota.
  destruct r as [num data|num code msg|num]; cbn [reply_args reply_num] in *.
  - destruct Hr as [_ Hl]. eapply reads_bind; [by apply reads_array_header|].
    cbn [Z.eqb Pos.eqb]. eapply reads_bind_nil; [by apply reads_string_bytes|].
    rewrite str_bytes_str. apply reads_ret.
  - destruct Hr as (_ & H0 & H1 & Hl).
    eapply reads_bind; [by apply reads_array_header|]. cbn [Z.eqb Pos.eqb].
    eapply reads_bind; [by apply reads_array_header|].
    eapply reads_bind; [by apply reads_int64|].
    eapply reads_bind; [by apply reads_int64|].
    eapply reads_bind_nil; [by apply reads_string|]. destruct code. apply reads_ret.
  - eapply reads_bind_nil; [by apply reads_array_header|]. apply reads_ret.
Qed.

Lemma reply_frame_nonempty cr : reply_frame cr <> [].
Proof.
  destruct cr as [ch r]. rewrite reply_frame_split. unfold header. by cbn.
Qed.

(** What the peer reads from the bytes of a sequence of replies. *)
Lemma replies_read (l : list (Z * reply)) (r : Reader) :
  Forall reply_ok l ->
  pending r = concat (map reply_frame l) ->
  exists r', loop (zlen l) (λ acc, x ← read_reply; mret (acc ++ [x])) [] r = (Ok l, r') /\
             pending r' = [].
Proof.
  intros Hl Hr.
  destruct (reads_loop (λ acc, x ← read_reply; mret (acc ++ [x])) (λ acc x, acc ++ [x])
    reply_frame l []) with (r := r) (rest := @nil byte) as (r' & E & P & _).
  - intros acc x Hx. rewrite Forall_forall in Hl.
    eapply reads_bind_nil; [by apply reads_reply, Hl|]. apply reads_ret.
  - apply reply_frame_nonempty.
  - by rewrite app_nil_r.
  - exists r'. split; [|done]. rewrite E. by rewrite fold_left_snoc.
Qed.

(** C16: whatever replies the channels of a connection write, in whatever order
    they are interleaved, the peer reads back exactly that sequence of replies
    from the concatenated bytes, however the transport cuts them into segments. *)
Theorem replies_roundtrip (l : list (Z * reply)) (r : Reader) :
  Forall reply_ok l ->
  pending r = concat (map reply_frame l) ->
  exists r', loop (zlen l) (λ acc, x ← read_reply; mret (acc ++ [x])) [] r = (Ok l, r') /\
             pending r' = [].
Proof. apply replies_read. Qed.

Lemma replies_roundtrip_witness :
  let l := [(7, RWrite 0 (str_bytes "out")); (3, RError 1 errKillError "no such process");
            (7, RClose 2)] in
  exists r', loop 3 (λ acc, x ← read_reply; mret (acc ++ [x])) []
    (NewReader DefaultReaderSize (map (λ b, (b, [])) (concat (map reply_frame l))) EOF false) = (Ok l, r') /\
  pending r' = [].
Proof.
  intros l. apply (replies_roundtrip l).
  - apply (bool_decide_eq_true_1 _). by vm_compute.
  - by vm_compute.
Defined.
