(* ===== verification/Dispatch.v ===== *)
(** * Decoding of requests (isolate/initialdispatch.go, isolate/profile.go)

    The part of the dispatchers that reads a request off the connection: the
    argument count, the raw profile, names and string maps, and the isolate type
    of a profile. *)

From Stdlib Require Import ZArith Lia.
From S2P Require Import Prelude Fwd Msgp MsgpFacts MsgpSafe Stream.

(** ** Errors of [Dispatcher.Handle] *)
Inductive derror :=
  | ReadError (e : rerror)
  | ErrInvalidArgsNum
  | ProfileMustBeMap (nt : Type_)
  | UnknownTransition (id : Z)
  | CorruptedProfile (buff : list byte)
  | IsolateNotAvailable (isolateType : string).

Definition spool : Z := 0.
Definition replySpoolOk : Z := 0.
Definition replySpoolError : Z := 1.
Definition spawn : Z := 1.
Definition replySpawnError : Z := 1.
Definition replySpawnClose : Z := 2.
Definition spawnKill : Z := 0.
Definition replyKillOk : Z := 2.
Definition replyKillError : Z := 1.
Definition spoolCancel : Z := 0.

(** The number of parameters of [onSpool] and [onSpawn], by reflection on the
    method values. *)
Definition _onSpoolArgsNum : Z := 2.
Definition _onSpawnArgsNum : Z := 5.

(** A reader call whose error is returned. *)
Definition rd {A} (m : act Reader rerror A) : act Reader derror A := λ r,
  match m r with
  | (Ok a, r') => (Ok a, r')
  | (Err e, r') => (Err (ReadError e), r')
  end.

Definition checkSize (num : Z) : act Reader derror unit :=
  size ← rd ReadArrayHeader;
  if negb (size =? num) then throw ErrInvalidArgsNum else mret tt.

Definition readMapStrStr (mp : gmap string string) : act Reader rerror (gmap string string) :=
  sz ← ReadMapHeader;
  loop sz (λ mp, key ← ReadString; val ← ReadString; mret (<[key := val]> mp)) mp.

(** ** Raw profiles *)

Definition typeKey : string := "type".

Inductive perror :=
  | ErrNoTypeField
  | TypeReadError (e : rerror).

(** [cocaineProfile.Type] *)
Definition profile_Type (buff : list byte) : result perror string :=
  let raw := Locate typeKey buff in
  if zlen raw =? 0 then Err ErrNoTypeField
  else match ReadStringBytes raw with
       | Ok (t, _) => Ok t
       | Err e => Err (TypeReadError e)
       end.

(** [cocaineProfile.DecodeTo]: [buff] is [None] once the profile was used. *)
Inductive decode_error := ErrTwiceDecodedTo | DecodeError (e : rerror).

Definition profile_DecodeTo {V} (decode : act Reader rerror V) (buff : option (list byte))
  : result decode_error V * option (list byte) :=
  match buff with
  | Some b =>
      let r := NewReader DefaultReaderSize
        (match b with [] => [] | x :: l => [(x, l)] end) EOF true in
      (match (decode r).1 with Ok v => Ok v | Err e => Err (DecodeError e) end, None)
  | None => (Err ErrTwiceDecodedTo, None)
  end.

(** ** The arguments of the first message of a channel *)

Inductive request :=
  | ReqSpool (opts : list byte) (name : string)
  | ReqSpawn (opts : list byte) (name executable : string) (args env : gmap string string).

(** [NextType], which must be a map, then [CopyNext(rawProfile)]. *)
Definition readProfile : act Reader derror (list byte) :=
  nt ← rd NextType;
  if decide (nt = MapType) then rd (CopyNext [])
  else throw (ProfileMustBeMap nt).

(** [initialDispatch.Handle] up to the call of [onSpool] or [onSpawn]. *)
Definition readRequest (id : Z) : act Reader derror request :=
  if id =? spool then
    _ ← checkSize _onSpoolArgsNum;
    opts ← readProfile;
    name ← rd ReadString;
    mret (ReqSpool opts name)
  else if id =? spawn then
    _ ← checkSize _onSpawnArgsNum;
    opts ← readProfile;
    name ← rd ReadString;
    executable ← rd ReadString;
    args ← rd (readMapStrStr ∅);
    env ← rd (readMapStrStr ∅);
    mret (ReqSpawn opts name executable args env)
  else throw (UnknownTransition id).

(** ** Termination *)

Lemma readMapStrStr_safe mp : safe (readMapStrStr mp).
Proof.
  destruct ReadMapHeader_wb as (M1 & _). destruct ReadString_wb as (S1 & S2 & S3 & _).
  unfold readMapStrStr. apply safe_bind; [done|intros sz]. apply loop_enough.
  - intros a. reader_auto.
  - intros a. apply eats_bind_l; [done|intros k]. reader_auto.
Qed.

(** The same progress notion under the dispatchers' error type. *)
Definition dsafe {A} (m : act Reader derror A) : Prop :=
  forall r, R_end r <> Diverged ->
  (m r).1 <> Err (ReadError Diverged) /\ R_end (m r).2 <> Diverged.

Lemma dsafe_rd {A} (m : act Reader rerror A) : safe m -> dsafe (rd m).
Proof.
  intros H r Hr. destruct (H r Hr) as [H1 H2]. unfold rd.
  destruct (m r) as [[a|e] r']; cbn in *; [done|]. split; [congruence|done].
Qed.
Lemma dsafe_ret {A} (a : A) : dsafe (mret a).
Proof. intros r Hr. done. Qed.
Lemma dsafe_throw {A} e : e <> ReadError Diverged -> dsafe (throw e : act Reader derror A).
Proof. intros He r Hr. split; [cbn; congruence|done]. Qed.
Lemma dsafe_bind {A B} (m : act Reader derror A) (k : A -> act Reader derror B) :
  dsafe m -> (forall a, dsafe (k a)) -> dsafe (m ≫= k).
Proof.
  intros Hm Hk r Hr. destruct (Hm r Hr) as [H1 H2]. unfold mbind, act_bind.
  destruct (m r) as [[a|e] r']; [by apply Hk|]. cbn in *. split; [congruence|done].
Qed.

Lemma checkSize_dsafe n : dsafe (checkSize n).
Proof.
  apply dsafe_bind; [apply dsafe_rd, ReadArrayHeader_wb|intros sz].
  destruct (negb _); [by apply dsafe_throw|apply dsafe_ret].
Qed.
Lemma readProfile_dsafe : dsafe readProfile.
Proof.
  apply dsafe_bind; [apply dsafe_rd, NextType_safe|intros nt].
  destruct (decide _); [apply dsafe_rd, CopyNext_safe|by apply dsafe_throw].
Qed.
Lemma ReadString_dsafe : dsafe (rd ReadString).
Proof. apply dsafe_rd, ReadString_wb. Qed.
#[export] Hint Resolve dsafe_ret checkSize_dsafe readProfile_dsafe ReadString_dsafe : stout.

(** Reading a request terminates on every input, hostile ones included: the
    loops over declared element counts stop at the end of the connection. *)
Theorem readRequest_total (id : Z) (r : Reader) :
  R_end r <> Diverged -> (readRequest id r).1 <> Err (ReadError Diverged).
Proof.
  intros Hr. eapply (proj1 (A := _)); apply (fun H : dsafe (readRequest id) => H r Hr).
  unfold readRequest. destruct (id =? spool); [|destruct (id =? spawn)].
  - repeat (apply dsafe_bind; [auto with stout|intros ?]); auto with stout.
  - do 4 (apply dsafe_bind; [auto with stout|intros ?]).
    do 2 (apply dsafe_bind; [apply dsafe_rd, readMapStrStr_safe|intros ?]). auto with stout.
  - by apply dsafe_throw.
Qed.

(** A spawn request that announces 2^32 - 1 environment variables and ends. *)
Lemma readRequest_total_witness :
  let bs := AppendMapHeader (AppendMapHeader (AppendString (AppendString
    (AppendMapHeader (AppendArrayHeader [] 5) 0) "app") "worker") 0) (2 ^ 32 - 1) in
  (readRequest spawn (NewReader DefaultReaderSize (map (λ b, (b, [])) bs) EOF false)).1
    <> Err (ReadError Diverged).
Proof. intros bs. apply (readRequest_total spawn). by cbn. Defined.

Definition dshrinks {A} (m : act Reader derror A) : Prop :=
  forall r, (length (pending (m r).2) <= length (pending r))%nat.

Lemma dshrinks_rd {A} (m : act Reader rerror A) : shrinks m -> dshrinks (rd m).
Proof. intros H r. specialize (H r). unfold rd. by destruct (m r) as [[a|e] r']. Qed.
Lemma dshrinks_ret {A} (a : A) : dshrinks (mret a).
Proof. intros r. done. Qed.
Lemma dshrinks_throw {A} e : dshrinks (throw e : act Reader derror A).
Proof. intros r. done. Qed.
Lemma dshrinks_bind {A B} (m : act Reader derror A) (k : A -> act Reader derror B) :
  dshrinks m -> (forall a, dshrinks (k a)) -> dshrinks (m ≫= k).
Proof.
  intros Hm Hk r. specialize (Hm r). unfold mbind, act_bind.
  destruct (m r) as [[a|e] r']; [|done]. specialize (Hk a r'). cbn in *. lia.
Qed.

Lemma readMapStrStr_shrinks mp : shrinks (readMapStrStr mp).
Proof.
  destruct ReadMapHeader_wb as (_ & M2 & _). destruct ReadString_wb as (_ & S2 & _).
  unfold readMapStrStr. apply shrinks_bind; [done|intros sz]. apply loop_shrinks.
  intros a. reader_auto.
Qed.

(** Reading a request gives nothing back to the connection. *)
Lemma readRequest_shrinks id : dshrinks (readRequest id).
Proof.
  assert (forall n, dshrinks (checkSize n)) as C.
  { intros n. apply dshrinks_bind; [apply dshrinks_rd, ReadArrayHeader_wb|intros sz].
    destruct (negb _); [apply dshrinks_throw|apply dshrinks_ret]. }
  assert (dshrinks readProfile) as P.
  { apply dshrinks_bind; [apply dshrinks_rd, NextType_shrinks|intros nt].
    destruct (decide _); [apply dshrinks_rd, CopyNext_shrinks|apply dshrinks_throw]. }
  assert (dshrinks (rd ReadString)) as S by apply dshrinks_rd, ReadString_wb.
  assert (forall mp, dshrinks (rd (readMapStrStr mp))) as M
    by (intros; apply dshrinks_rd, readMapStrStr_shrinks).
  unfold readRequest. repeat case_match; try apply dshrinks_throw;
    repeat (apply dshrinks_bind; [by auto|intros ?]); apply dshrinks_ret.
Qed.

(** ** Round trips *)

(** [rd m] succeeds where [m] does. *)
Definition dreads {A} (m : act Reader derror A) (bs : list byte) (a : A) : Prop :=
  forall r rest, pending r = bs ++ rest ->
  exists r', m r = (Ok a, r') /\ pending r' = rest /\ same_source r r'.

Lemma dreads_rd {A} (m : act Reader rerror A) bs a : reads m bs a -> dreads (rd m) bs a.
Proof.
  intros H r rest Hr. destruct (H r rest Hr) as (r' & E & ?). exists r'.
  unfold rd. by rewrite E.
Qed.
Lemma dreads_ret {A} (a : A) : dreads (mret a) [] a.
Proof. intros r rest H. exists r. auto with stout. Qed.
Lemma dreads_bind {A B} (m : act Reader derror A) (k : A -> act Reader derror B) bs1 bs2 a b :
  dreads m bs1 a -> dreads (k a) bs2 b -> dreads (m ≫= k) (bs1 ++ bs2) b.
Proof.
  intros Hm Hk r rest Hr. rewrite <- app_assoc in Hr.
  destruct (Hm r _ Hr) as (r1 & E1 & Hr1 & S1).
  destruct (Hk r1 _ Hr1) as (r2 & E2 & Hr2 & S2).
  exists r2. rewrite (act_bind_ok _ _ _ _ _ E1). eauto using same_source_trans.
Qed.
Lemma dreads_bind_nil {A B} (m : act Reader derror A) (k : A -> act Reader derror B) bs a b :
  dreads m bs a -> dreads (k a) [] b -> dreads (m ≫= k) bs b.
Proof. intros Hm Hk. rewrite <- (app_nil_r bs). by eapply dreads_bind. Qed.

Lemma dreads_checkSize n : 0 <= n < 2 ^ 32 -> dreads (checkSize n) (AppendArrayHeader [] n) tt.
Proof.
  intros Hn. eapply dreads_bind_nil; [by apply dreads_rd, reads_array_header|].
  rewrite Z.eqb_refl. apply dreads_ret.
Qed.

(** An encoded string map: pairs in any order, later pairs win. *)
Definition map_of (kvs : list (string * string)) : gmap string string :=
  fold_left (λ m kv, <[kv.1 := kv.2]> m) kvs ∅.

Definition strs_ok (kvs : list (string * string)) : Prop :=
  zlen kvs < 2 ^ 32 /\
  Forall (λ kv, zlen (str_bytes kv.1) < 2 ^ 32 /\ zlen (str_bytes kv.2) < 2 ^ 32) kvs.
#[export] Instance strs_ok_dec kvs : Decision (strs_ok kvs).
Proof. unfold strs_ok. apply _. Defined.

Definition str_pair (kv : string * string) : list byte :=
  AppendString [] kv.1 ++ AppendString [] kv.2.

Lemma AppendString_nonempty s : AppendString [] s <> [].
Proof. unfold AppendString, AppendStringFromBytes. by repeat case_match. Qed.

Lemma AppendMapStrStr_concat kvs :
  AppendMapStrStr [] kvs =
  AppendMapHeader [] (uint 32 (zlen kvs)) ++ concat (map str_pair kvs).
Proof.
  unfold AppendMapStrStr. generalize (AppendMapHeader [] (uint 32 (zlen kvs))) as b.
  induction kvs as [|[k v] kvs IH]; intros b; cbn [fold_left map concat]; [by rewrite app_nil_r|].
  rewrite IH, app_assoc. f_equal. unfold str_pair. cbn [fst snd].
  rewrite (AppendString_app (AppendString b k)), (AppendString_app b k).
  by rewrite <- app_assoc.
Qed.

Lemma reads_map_str_str kvs : strs_ok kvs -> reads (readMapStrStr ∅) (AppendMapStrStr [] kvs) (map_of kvs).
Proof.
  intros [Hn Hk]. pose proof (zlen_nonneg kvs). rewrite AppendMapStrStr_concat.
  unfold uint. rewrite Z.mod_small by lia. unfold readMapStrStr.
  eapply reads_bind; [apply reads_map_header; lia|].
  apply (reads_loop _ (λ m kv, <[kv.1 := kv.2]> m) str_pair).
  - intros m [k v] Hx. rewrite Forall_forall in Hk. destruct (Hk _ Hx) as [H1 H2].
    cbn [fst snd] in *. unfold str_pair. cbn [fst snd].
    eapply reads_bind; [by apply reads_string|].
    eapply reads_bind_nil; [by apply reads_string|]. apply reads_ret.
  - intros kv. unfold str_pair. pose proof (AppendString_nonempty kv.1).
    by destruct (AppendString [] kv.1).
Qed.

(** A profile on the wire: one object, whose lead byte is a map's. *)
Definition profile_obj (bs : list byte) : Prop :=
  objs true 1 bs /\ getType (at_ bs 0) = MapType.

Lemma profile_obj_cons bs : profile_obj bs -> exists b l, bs = b :: l.
Proof.
  intros [H _]. pose proof (objs_nonempty _ _ _ H ltac:(lia)). destruct bs; [done|eauto].
Qed.

Lemma dreads_profile bs : profile_obj bs -> dreads readProfile bs bs.
Proof.
  intros Hp. destruct (profile_obj_cons _ Hp) as (b & l & ->). destruct Hp as [Ho Ht].
  unfold readProfile. intros r rest Hr.
  destruct (Peek_spec 1 r ltac:(lia)) as (r1 & S1 & P1 & E1).
  rewrite Hr in E1. cbn [app] in E1. rewrite zlen_cons in E1.
  pose proof (zlen_nonneg (l ++ rest)).
  destruct (Z.ltb_spec (1 + zlen (l ++ rest)) 1); [lia|].
  change (ztake 1 (b :: l ++ rest)) with [b] in E1.
  assert (rd NextType r = (Ok MapType, r1)) as E2.
  { unfold rd, NextType. rewrite (act_bind_ok _ _ _ _ _ E1). cbv zeta.
    change (at_ [b] 0) with (at_ (b :: l) 0). rewrite Ht. done. }
  rewrite (act_bind_ok _ _ _ _ _ E2). rewrite decide_True by done.
  destruct (dreads_rd _ _ _ (reads_CopyNext true [] (b :: l) Ho) r1 rest) as (r2 & E3 & P3 & S3).
  - congruence.
  - exists r2. eauto using same_source_trans.
Qed.

(** The encoding of the arguments of a request, as a client sends them. *)
Definition spawn_args (opts : list byte) (name executable : string)
    (args env : list (string * string)) : list byte :=
  AppendArrayHeader [] 5 ++ opts ++ AppendString [] name ++ AppendString [] executable ++
  AppendMapStrStr [] args ++ AppendMapStrStr [] env.

Definition spool_args (opts : list byte) (name : string) : list byte :=
  AppendArrayHeader [] 2 ++ opts ++ AppendString [] name.

Lemma dreads_spawn_request opts name executable args env :
  profile_obj opts -> zlen (str_bytes name) < 2 ^ 32 -> zlen (str_bytes executable) < 2 ^ 32 ->
  strs_ok args -> strs_ok env ->
  dreads (readRequest spawn) (spawn_args opts name executable args env)
    (ReqSpawn opts name executable (map_of args) (map_of env)).
Proof.
  intros Ho Hn He Ha Hv. unfold readRequest, spawn_args. change (spawn =? spool) with false.
  change (spawn =? spawn) with true. cbv iota.
  eapply dreads_bind; [by apply dreads_checkSize|].
  eapply dreads_bind; [by apply dreads_profile|].
  eapply dreads_bind; [by apply dreads_rd, reads_string|].
  eapply dreads_bind; [by apply dreads_rd, reads_string|].
  eapply dreads_bind; [by apply dreads_rd, reads_map_str_str|].
  eapply dreads_bind_nil; [by apply dreads_rd, reads_map_str_str|]. apply dreads_ret.
Qed.

Lemma dreads_spool_request opts name : profile_obj opts -> zlen (str_bytes name) < 2 ^ 32 ->
  dreads (readRequest spool) (spool_args opts name) (ReqSpool opts name).
Proof.
  intros Ho Hn. unfold readRequest, spool_args. change (spool =? spool) with true. cbv iota.
  eapply dreads_bind; [by apply dreads_checkSize|].
  eapply dreads_bind; [by apply dreads_profile|].
  eapply dreads_bind_nil; [by apply dreads_rd, reads_string|]. apply dreads_ret.
Qed.

(** A spawn request is decoded to the very profile bytes, names and maps the
    client encoded, and nothing of the connection beyond it is consumed. *)
Theorem spawn_request_roundtrip opts name executable args env (r : Reader) rest :
  profile_obj opts -> zlen (str_bytes name) < 2 ^ 32 -> zlen (str_bytes executable) < 2 ^ 32 ->
  strs_ok args -> strs_ok env ->
  pending r = spawn_args opts name executable args env ++ rest ->
  exists r', readRequest spawn r =
    (Ok (ReqSpawn opts name executable (map_of args) (map_of env)), r') /\ pending r' = rest.
Proof.
  intros Ho Hn He Ha Hv Hr.
  destruct (dreads_spawn_request opts name executable args env Ho Hn He Ha Hv r rest Hr) as (r' & E & P & _).
  eauto.
Qed.

Definition demo_profile : list byte :=
  AppendString (AppendString (AppendMapHeader [] 1) "type") "process".

Lemma demo_profile_obj : profile_obj demo_profile.
Proof.
  split; [|by vm_compute]. unfold demo_profile.
  rewrite AppendString_app, (AppendString_app (AppendMapHeader _ _)), <- app_assoc.
  apply (objs_prefix _ _ 2); [apply (wire_map_header 1); lia|by vm_compute|].
  apply (objs_app _ 1 1); rewrite <- (app_nil_r (AppendString _ _)).
  - apply (objs_prefix _ _ 0); [apply wire_string; by vm_compute|by vm_compute|constructor].
  - apply (objs_prefix _ _ 0); [apply wire_string; by vm_compute|by vm_compute|constructor].
Qed.

Lemma spawn_request_roundtrip_witness :
  let env := [("A", "1"); ("B", "2"); ("A", "3")] in
  exists r', readRequest spawn (NewReader DefaultReaderSize
      (map (λ b, (b, [])) (spawn_args demo_profile "app" "worker" [] env)) EOF false) =
    (Ok (ReqSpawn demo_profile "app" "worker" (map_of []) (map_of env)), r') /\ pending r' = [].
Proof.
  intros env. apply (spawn_request_roundtrip demo_profile "app" "worker" [] env).
  - apply demo_profile_obj.
  - by vm_compute.
  - by vm_compute.
  - apply (bool_decide_eq_true_1 _). by vm_compute.
  - apply (bool_decide_eq_true_1 _). by vm_compute.
  - by vm_compute.
Defined.

(** [Type] of an encoded profile is the value of its first ["type"] key,
    wherever the key is and whatever objects the other keys have. *)
Theorem profile_Type_first pre t post :
  Forall (λ kv, zlen (str_bytes kv.1) < 2 ^ 32 /\ kv.1 <> typeKey /\ objs true 1 kv.2) pre ->
  zlen (str_bytes t) < 2 ^ 32 ->
  let kvs := pre ++ (typeKey, AppendString [] t) :: post in
  zlen kvs < 2 ^ 32 ->
  profile_Type (AppendMapHeader [] (zlen kvs) ++ concat (map map_pair kvs)) = Ok t.
Proof.
  intros Hpre Ht kvs Hn. unfold profile_Type. cbv zeta.
  assert (objs true 1 (AppendString [] t)) as Ho.
  { rewrite <- (app_nil_r (AppendString [] t)). destruct (wire_string t Ht) as [Hp Hx].
    eapply objs_prefix; [done|done|constructor]. }
  unfold kvs in *. rewrite (Locate_first pre typeKey _ post Hpre) by (done || by vm_compute).
  pose proof (objs_nonempty _ _ _ Ho ltac:(lia)) as Hne.
  destruct (Z.eqb_spec (zlen (AppendString [] t)) 0) as [E|_].
  { destruct (AppendString [] t); [done|]. rewrite zlen_cons in E.
    pose proof (zlen_nonneg l). lia. }
  pose proof (ReadStringBytes_ok t [] Ht) as E. rewrite app_nil_r in E. by rewrite E.
Qed.

Lemma profile_Type_first_witness :
  profile_Type (AppendString (AppendString (AppendArrayHeader (AppendString
    (AppendMapHeader [] 2) "cwd") 0) "type") "porto") = Ok "porto".
Proof.
  apply (profile_Type_first [("cwd", AppendArrayHeader [] 0)] "porto" []).
  - apply Forall_singleton. split_and!; [by vm_compute|done|].
    rewrite <- (app_nil_r (AppendArrayHeader _ _)).
    apply (objs_prefix _ _ 0); [apply (wire_array_header 0); lia|by vm_compute|constructor].
  - by vm_compute.
  - by vm_compute.
Defined.

(** A profile without a ["type"] key, or whose ["type"] is not a string, has none. *)
Example profile_Type_missing : profile_Type (AppendMapHeader [] 0) = Err ErrNoTypeField.
Proof. by vm_compute. Qed.
