(* ===== verification/Codec.v ===== *)
(** * The shapes of the generated codecs

    The methods that msgp generates for a struct ([DecodeMsg], [UnmarshalMsg],
    [EncodeMsg], [MarshalMsg], [Msgsize] in isolate/porto/profile_decodable.go,
    isolate/docker/profile_decodable.go and isolate/process/profile_encodable.go)
    are built from a few shapes: a map whose keys are switched on, slices refilled
    in place, maps of strings.  Each shape is defined once, with the lemmas that
    relate the five methods: decoding inverts encoding, both decoders agree, both
    encoders write the same bytes, sizes bound encodings, decoders end. *)

From Stdlib Require Import ZArith Lia Ascii String Strings.Byte.
From S2P Require Import Prelude Fwd Msgp MsgpFacts MsgpSafe MsgpBytes Writer Stream Dispatch.

(** ** Shared shapes of the generated code *)

(** [for n > 0 { n--; field, err = dc.ReadMapKeyPtr(); switch field ... }] *)
Definition decode_fields {V} (field : string -> V -> act Reader rerror V) (z : V) : act Reader rerror V :=
  n ← ReadMapHeader;
  loop n (λ z, key ← ReadMapKeyPtr; field (bytes_str key) z) z.

(** The [default] case. *)
Definition skip_field {V} (z : V) : act Reader rerror V := _ ← Skip; mret z.

(** A map field: cleared when it is not nil, then filled. *)
Definition decode_map : act Reader rerror (gmap string string) :=
  n ← ReadMapHeader;
  loop n (λ m, k ← ReadString; v ← ReadString; mret (<[k := v]> m)) ∅.

(** A slice: its backing array, whose length is the capacity, and its length. *)
Record slice (A : Type) := mkSlice { sl_arr : list A; sl_len : Z }.
Arguments mkSlice {A}.
Arguments sl_arr {A}.
Arguments sl_len {A}.
Definition elems {A} (s : slice A) : list A := ztake (sl_len s) (sl_arr s).
Definition nil_slice {A} : slice A := mkSlice [] 0.

(** [if cap(s) >= n { s = s[:n] } else { s = make([]A, n) }] *)
Definition resize {A} (zero : A) (n : Z) (s : slice A) : slice A :=
  if n <=? zlen (sl_arr s) then mkSlice (sl_arr s) n
  else mkSlice (replicate (Z.to_nat n) zero) n.

(** [for i := range s { s[i] <- dec }]; the state of the loop is the index and the
    backing array. *)
Definition decode_slice {A} (zero : A) (dec : A -> act Reader rerror A) (s : slice A)
  : act Reader rerror (slice A) :=
  n ← ReadArrayHeader;
  let s := resize zero n s in
  st ← loop n (λ st : nat * list A,
         x ← dec (default zero (st.2 !! st.1)); mret (S st.1, <[st.1 := x]> st.2)) (0%nat, sl_arr s);
  mret (mkSlice st.2 n).

(** *** [UnmarshalMsg] *)

(** [for n > 0 { n--; field, bts, err = msgp.ReadMapKeyZC(bts); switch field ... }] *)
Definition unmarshal_fields {V} (field : string -> V -> parser V) (z : V) : parser V :=
  n ← ReadMapHeaderBytes;
  ploop n (λ z, key ← ReadMapKeyZC; field (bytes_str key) z) z.
Definition skip_field_bytes {V} (z : V) : parser V := _ ← skip_bytes; mret z.
Definition unmarshal_map : parser (gmap string string) :=
  n ← ReadMapHeaderBytes;
  ploop n (λ m, k ← ReadStringBytes; v ← ReadStringBytes; mret (<[k := v]> m)) ∅.
Definition unmarshal_slice {A} (zero : A) (dec : A -> parser A) (s : slice A) : parser (slice A) :=
  n ← ReadArrayHeaderBytes;
  let s := resize zero n s in
  st ← ploop n (λ st : nat * list A,
         x ← dec (default zero (st.2 !! st.1)); mret (S st.1, <[st.1 := x]> st.2)) (0%nat, sl_arr s);
  mret (mkSlice st.2 n).

(** *** [Msgsize] (vendor/github.com/tinylib/msgp/msgp/size.go) *)

Definition Int64Size : Z := 9.
Definition UintSize : Z := Int64Size.
Definition Uint64Size : Z := Int64Size.
Definition Float64Size : Z := 9.
Definition Float32Size : Z := 5.
Definition MapHeaderSize : Z := 5.
Definition ArrayHeaderSize : Z := 5.
Definition StringPrefixSize : Z := 5.

Definition slen (s : string) : Z := zlen (str_bytes s).
(** [for i := range l { s += size(l[i]) }] *)
Definition add_sizes {A} (size : A -> Z) (l : list A) (s : Z) : Z := fold_left (λ s x, s + size x) l s.

Section ranges.
(** The order in which a map is ranged. *)
Context (range_ : gmap string string -> list (string * string)).

(** [AppendMapHeader] and the loop over the map. *)
Definition append_map (o : list byte) (m : gmap string string) : list byte :=
  fold_left (λ o kv, AppendString (AppendString o kv.1) kv.2) (range_ m)
    (AppendMapHeader o (uint 32 (zlen (range_ m)))).

(** [WriteMapHeader] and the loop over the map. *)
Definition encode_map (m : gmap string string) : act Writer rerror unit :=
  _ ← WriteMapHeader (uint 32 (zlen (range_ m)));
  each (λ kv, _ ← WriteString kv.1; WriteString kv.2) (range_ m).

(** The loop over the map in a [Msgsize]. *)
Definition add_map_sizes (m : gmap string string) (s : Z) : Z :=
  add_sizes (λ kv, StringPrefixSize + slen kv.1 + StringPrefixSize + slen kv.2) (range_ m) s.
End ranges.

(** [WriteArrayHeader] and the loop over the slice. *)
Definition encode_slice {A} (enc : A -> act Writer rerror unit) (l : list A) : act Writer rerror unit :=
  _ ← WriteArrayHeader (uint 32 (zlen l)); each enc l.

(** ** Reading back what was written *)

(** A member of an encoded struct: key, encoded value, effect on the value decoded. *)
Record entry (V : Type) := mkEntry { e_key : string; e_val : list byte; e_upd : V -> V }.
Arguments mkEntry {V}.
Arguments e_key {V}.
Arguments e_val {V}.
Arguments e_upd {V}.
Definition entry_bytes {V} (e : entry V) : list byte := AppendString [] (e_key e) ++ e_val e.

Definition key_ok (s : string) : bool := (0 <? zlen (str_bytes s)) && (zlen (str_bytes s) <? 2 ^ 32).

Lemma reads_fields {V} (field : string -> V -> act Reader rerror V) (es : list (entry V)) z :
  zlen es < 2 ^ 32 ->
  Forall (λ e, key_ok (e_key e) = true /\ forall z, reads (field (e_key e) z) (e_val e) (e_upd e z)) es ->
  reads (decode_fields field z) (AppendMapHeader [] (zlen es) ++ concat (map entry_bytes es))
    (fold_left (λ z e, e_upd e z) es z).
Proof.
  intros Hn Hes. pose proof (zlen_nonneg es). unfold decode_fields.
  eapply reads_bind; [apply reads_map_header; lia|].
  apply (reads_loop _ (λ z e, e_upd e z) entry_bytes).
  - intros v e He. rewrite Forall_forall in Hes. destruct (Hes e He) as [Hk Hr].
    unfold key_ok in Hk. bool_prop. unfold entry_bytes.
    eapply reads_bind; [by apply reads_map_key|]. rewrite bytes_str_bytes. apply Hr.
  - intros e. unfold entry_bytes. pose proof (AppendString_nonempty (e_key e)).
    by destruct (AppendString [] (e_key e)).
Qed.

(** The slice after [xs] was decoded into it. *)
Definition refill {A} (zero : A) (xs : list A) (s : slice A) : slice A :=
  mkSlice (xs ++ drop (length xs) (sl_arr (resize zero (zlen xs) s))) (zlen xs).

Lemma elems_refill {A} (zero : A) xs s : elems (refill zero xs s) = xs.
Proof. unfold elems, refill. cbn. apply ztake_app_len. Qed.

Lemma fold_refill {A} (xs pre post : list A) :
  (length xs <= length post)%nat ->
  fold_left (λ st x, (S st.1, <[st.1 := x]> st.2)) xs (length pre, pre ++ post) =
  ((length pre + length xs)%nat, pre ++ xs ++ drop (length xs) post).
Proof.
  revert pre post. induction xs as [|x xs IH]; intros pre post Hl; cbn.
  { by rewrite Nat.add_0_r. }
  destruct post as [|y post]; [cbn in Hl; lia|].
  rewrite insert_app_r_alt, Nat.sub_diag by lia. cbn.
  replace (pre ++ x :: post) with ((pre ++ [x]) ++ post) by (by rewrite <- app_assoc).
  replace (S (length pre)) with (length (pre ++ [x])) by (rewrite length_app; cbn; lia).
  rewrite IH by (cbn in Hl; lia). rewrite length_app. cbn. rewrite <- app_assoc. f_equal. lia.
Qed.

Lemma reads_slice {A} (zero : A) (dec : A -> act Reader rerror A) (enc : A -> list byte) xs s :
  zlen xs < 2 ^ 32 -> (forall x, enc x <> []) ->
  (forall z x, x ∈ xs -> reads (dec z) (enc x) x) ->
  reads (decode_slice zero dec s) (AppendArrayHeader [] (zlen xs) ++ concat (map enc xs)) (refill zero xs s).
Proof.
  intros Hn Hne Hdec. pose proof (zlen_nonneg xs). unfold decode_slice.
  eapply reads_bind; [apply reads_array_header; lia|]. cbv zeta.
  set (arr := sl_arr (resize zero (zlen xs) s)).
  assert (length xs <= length arr)%nat as Hl.
  { unfold arr, resize. destruct (Z.leb_spec (zlen xs) (zlen (sl_arr s))) as [L|L]; cbn.
    - unfold zlen in L. lia.
    - rewrite length_replicate. unfold zlen. lia. }
  eapply reads_bind_nil.
  - apply (reads_loop _ (λ st x, (S st.1, <[st.1 := x]> st.2)) enc); [|done].
    intros [i l] x Hx. eapply reads_bind_nil; [by apply Hdec|]. apply reads_ret.
  - pose proof (fold_refill xs [] arr Hl) as F. cbn [app length] in F. rewrite F. cbn [snd]. apply reads_ret.
Qed.

(** ** String maps *)

Lemma fold_insert_lookup (kvs : list (string * string)) m :
  NoDup kvs.*1 -> fold_left (λ m kv, <[kv.1 := kv.2]> m) kvs m = (list_to_map kvs : gmap string string) ∪ m.
Proof.
  revert m. induction kvs as [|[k v] kvs IH]; intros m Hnd; cbn.
  { by rewrite (left_id ∅ (∪)). }
  apply NoDup_cons in Hnd as [Hk Hnd]. rewrite IH by done. rewrite <- insert_union_l.
  rewrite insert_union_r; [done|]. by apply not_elem_of_list_to_map.
Qed.
Lemma map_of_range kvs (m : gmap string string) : kvs ≡ₚ map_to_list m -> map_of kvs = m.
Proof.
  intros Hp. assert (NoDup kvs.*1) as Hnd by (rewrite Hp; apply NoDup_fst_map_to_list).
  unfold map_of. rewrite fold_insert_lookup by done. rewrite (right_id ∅ (∪)).
  rewrite (list_to_map_proper kvs (map_to_list m)) by done. apply list_to_map_to_list.
Qed.

Definition str_ok (s : string) : bool := zlen (str_bytes s) <? 2 ^ 32.
Lemma reads_str s : str_ok s = true -> reads ReadString (AppendString [] s) s.
Proof. intros H. apply reads_string. unfold str_ok in H. by bool_prop. Qed.

Section string_maps.
Context (range_ : gmap string string -> list (string * string)).
Context (range_all : forall m, range_ m ≡ₚ map_to_list m).

Definition map_ok (m : gmap string string) : Prop := strs_ok (range_ m).

Lemma append_map_app o m : append_map range_ o m = o ++ AppendMapStrStr [] (range_ m).
Proof.
  unfold append_map, AppendMapStrStr. rewrite (AppendMapHeader_app o).
  generalize (AppendMapHeader [] (uint 32 (zlen (range_ m)))) as h.
  induction (range_ m) as [|[k v] kvs IH]; intros h; cbn; [done|].
  rewrite (AppendString_app (o ++ h)), <- app_assoc, <- (AppendString_app h).
  rewrite (AppendString_app (o ++ _)), <- app_assoc, <- (AppendString_app (AppendString h k)). apply IH.
Qed.

Lemma reads_decode_map m : map_ok m -> reads decode_map (AppendMapStrStr [] (range_ m)) m.
Proof.
  intros Hm. rewrite <- (map_of_range (range_ m) m) at 2 by apply range_all.
  by apply (reads_map_str_str (range_ m)).
Qed.
End string_maps.

(** Flattens an encoding into the pieces the encoder appends. *)
Ltac entry_form es :=
  unfold es; unfold entry_bytes; cbn [map concat e_key e_val]; rewrite ?app_nil_r, <- ?app_assoc.

(** One goal per member of the struct. *)
Ltac each_entry z :=
  repeat (apply Forall_cons_2; [split; [done|]; cbn [e_key e_val e_upd]; intros z|]).

(** Encoders append. *)
Lemma fold_append {A} (f : list byte -> A -> list byte) l o :
  (forall b x, f b x = b ++ f [] x) -> fold_left f l o = o ++ concat (map (f []) l).
Proof.
  intros Hf. revert o. induction l as [|x l IH]; intros o; cbn; [by rewrite app_nil_r|].
  by rewrite IH, Hf, <- app_assoc.
Qed.

Definition list_ok {A} (P : A -> Prop) (l : list A) : Prop := zlen l < 2 ^ 32 /\ Forall P l.
Definition array_bytes {A} (enc : A -> list byte) (l : list A) : list byte :=
  AppendArrayHeader [] (zlen l) ++ concat (map enc l).

(** [AppendArrayHeader] and the loop over the slice. *)
Lemma append_array {A} (f : list byte -> A -> list byte) l o :
  (forall b x, f b x = b ++ f [] x) -> zlen l < 2 ^ 32 ->
  fold_left f l (AppendArrayHeader o (uint 32 (zlen l))) = o ++ array_bytes (f []) l.
Proof.
  intros Hf Hl. pose proof (zlen_nonneg l). rewrite (fold_append f l) by done.
  unfold uint. rewrite Z.mod_small by lia. rewrite AppendArrayHeader_app, <- app_assoc. done.
Qed.
(** ** Every input is decoded or refused *)

(** [m] terminates and never gives bytes back. *)
Definition tame {A} (m : act Reader rerror A) : Prop := safe m /\ shrinks m.

Lemma tame_bind {A B} (m : act Reader rerror A) (k : A -> act Reader rerror B) :
  tame m -> (forall a, tame (k a)) -> tame (m ≫= k).
Proof. intros [] Hk. split; [apply safe_bind|apply shrinks_bind]; try done; apply Hk. Qed.
Lemma tame_ret {A} (a : A) : tame (mret a).
Proof. split; [apply safe_ret|apply shrinks_ret]. Qed.
Lemma tame_if {A} (P : Prop) `{Decision P} (m1 m2 : act Reader rerror A) :
  tame m1 -> tame m2 -> tame (if decide P then m1 else m2).
Proof. by destruct (decide P). Qed.
Lemma tame_wb {A} (m : act Reader rerror A) : well_behaved m -> tame m.
Proof. by intros (? & ? & _). Qed.
Lemma tame_skip {V} (z : V) : tame (skip_field z).
Proof. apply tame_bind; [split; [apply Skip_safe|apply Skip_shrinks]|intros; apply tame_ret]. Qed.

(** A counted loop whose body reads something. *)
Lemma tame_loop {A} n (body : A -> act Reader rerror A) a :
  (forall a, tame (body a)) -> (forall a, eats (body a)) -> tame (loop n body a).
Proof.
  intros Hb He. split; [apply loop_enough; [apply Hb|done]|apply loop_shrinks; apply Hb].
Qed.

Create HintDb tame discriminated.
#[export] Hint Resolve tame_bind tame_ret tame_if tame_skip : tame.

Lemma tame_ReadString : tame ReadString.
Proof. apply tame_wb, ReadString_wb. Qed.
Lemma tame_ReadUint : tame ReadUint.
Proof. apply (tame_wb ReadUint64), ReadUint64_wb. Qed.
Lemma tame_decode_map : tame decode_map.
Proof.
  unfold decode_map. apply tame_bind; [apply tame_wb, ReadMapHeader_wb|intros n].
  destruct ReadString_wb as (_ & S2 & S3 & _).
  apply tame_loop; intros m; [auto using tame_bind, tame_ReadString, tame_ret|].
  apply eats_bind_l; [done|intros k]. apply shrinks_bind; [done|intros v]. apply shrinks_ret.
Qed.
#[export] Hint Resolve tame_ReadString tame_ReadUint tame_decode_map : tame.

Lemma decode_fields_tame {V} (field : string -> V -> act Reader rerror V) z :
  (forall k z, tame (field k z)) -> tame (decode_fields field z) /\ eats (decode_fields field z).
Proof.
  intros Hf. destruct ReadMapKeyPtr_safe as (K1 & K2 & K3).
  assert (forall n z, tame (loop n (λ z, key ← ReadMapKeyPtr; field (bytes_str key) z) z)) as L.
  { intros n z'. apply tame_loop; intros z1.
    - apply tame_bind; [done|intros key; apply Hf].
    - apply eats_bind_l; [done|intros key; apply Hf]. }
  split; [apply tame_bind; [apply tame_wb, ReadMapHeader_wb|intros n; apply L]|].
  apply eats_bind_l; [apply ReadMapHeader_wb|intros n; apply L].
Qed.
Lemma decode_slice_tame {A} (zero : A) (dec : A -> act Reader rerror A) s :
  (forall z, tame (dec z)) -> (forall z, eats (dec z)) -> tame (decode_slice zero dec s).
Proof.
  intros Ht He. unfold decode_slice. apply tame_bind; [apply tame_wb, ReadArrayHeader_wb|intros n].
  apply tame_bind; [|intros; apply tame_ret].
  apply tame_loop; intros st; [apply tame_bind; [apply Ht|intros; apply tame_ret]|].
  apply eats_bind_l; [apply He|intros; apply shrinks_ret].
Qed.
