(* ===== verification/CodecFacts.v ===== *)
(** * How the generated methods relate

    For the shapes of [Codec]: the stream and the slice decoder agree, the slice
    decoder ends, the writing encoder writes what the appending one appends, the
    sizes bound the encodings, and what was decoded can be encoded. *)

From Stdlib Require Import ZArith Lia Ascii String Strings.Byte.
From S2P Require Import Prelude Fwd Msgp MsgpFacts MsgpSafe MsgpBytes Writer Stream Dispatch Codec.

(** ** Both decoders agree *)

Lemma agree_decide {A} (P : Prop) `{Decision P} (m1 m2 : act Reader rerror A) (f1 f2 : parser A) :
  agree m1 f1 -> agree m2 f2 -> agree (if decide P then m1 else m2) (if decide P then f1 else f2).
Proof. by destruct (decide P). Qed.
Lemma agree_skip_field {V} (z : V) : agree (skip_field z) (skip_field_bytes z).
Proof. apply agree_bind; [apply agree_Skip|intros; apply agree_ret]. Qed.
Lemma agree_fields {V} (field : string -> V -> act Reader rerror V) (pfield : string -> V -> parser V) z :
  (forall k z, agree (field k z) (pfield k z)) -> agree (decode_fields field z) (unmarshal_fields pfield z).
Proof.
  intros Hf. apply agree_bind; [apply agree_ReadMapHeader|intros n]. apply agree_loop. intros v.
  apply agree_bind; [apply agree_ReadMapKey|intros key; apply Hf].
Qed.
Lemma agree_map : agree decode_map unmarshal_map.
Proof.
  apply agree_bind; [apply agree_ReadMapHeader|intros n]. apply agree_loop. intros m.
  repeat (apply agree_bind; [apply agree_ReadString|intros ?]). apply agree_ret.
Qed.
Lemma agree_slice {A} (zero : A) (dec : A -> act Reader rerror A) (pdec : A -> parser A) s :
  (forall z, agree (dec z) (pdec z)) -> agree (decode_slice zero dec s) (unmarshal_slice zero pdec s).
Proof.
  intros Hd. apply agree_bind; [apply agree_ReadArrayHeader|intros n]. cbv zeta.
  apply agree_bind; [|intros st; apply agree_ret]. apply agree_loop. intros st.
  apply agree_bind; [apply Hd|intros x; apply agree_ret].
Qed.
#[export] Hint Resolve agree_bind agree_decide agree_skip_field agree_map : agree.

(** What the stream decoder reads back, the slice decoder reads back. *)
Lemma agree_reads {A} (m : act Reader rerror A) (f : parser A) bs a rest :
  agree m f -> reads m bs a -> f (bs ++ rest) = Ok (a, rest).
Proof.
  intros Ha Hr. set (r := NewReader DefaultReaderSize
    (match bs ++ rest with [] => [] | x :: l => [(x, l)] end) EOF false).
  assert (pending r = bs ++ rest) as Hp.
  { unfold r, pending, cat. destruct (bs ++ rest); [done|]. cbn. by rewrite app_nil_r. }
  specialize (Ha r eq_refl). destruct (Hr r rest Hp) as (r' & E & Hp' & _).
  unfold agree_at in Ha. rewrite E, Hp in Ha. destruct (f (bs ++ rest)) as [[a' o]|]; [|done].
  destruct Ha as (-> & <- & _). by rewrite Hp'.
Qed.

(** ** The slice decoders end *)

Lemma ptame_skip_field {V} (z : V) : ptame (skip_field_bytes z).
Proof. apply ptame_bind; [apply skip_bytes_tame|intros; apply ptame_ret]. Qed.
Lemma unmarshal_fields_tame {V} (field : string -> V -> parser V) z :
  (forall k z, ptame (field k z)) -> ptame (unmarshal_fields field z) /\ peats (unmarshal_fields field z).
Proof.
  intros Hf. destruct ReadMapKeyZC_tame as [K1 K2], ReadMapHeaderBytes_tame as [H1 H2].
  assert (forall n z, ptame (ploop n (λ z, key ← ReadMapKeyZC; field (bytes_str key) z) z)) as L.
  { intros n v. apply ploop_enough; intros v'.
    - apply ptame_bind; [done|intros key; apply Hf].
    - apply peats_bind; [done|intros key; apply Hf]. }
  split; [apply ptame_bind|apply peats_bind]; try done; intros n; apply L.
Qed.
Lemma unmarshal_map_tame : ptame unmarshal_map.
Proof.
  destruct ReadStringBytes_tame as [S1 S2].
  apply ptame_bind; [apply ReadMapHeaderBytes_tame|intros n].
  apply ploop_enough; intros m; [|apply peats_bind; [done|intros k]];
    repeat (apply ptame_bind; [done|intros ?]); apply ptame_ret.
Qed.
Lemma unmarshal_slice_tame {A} (zero : A) (dec : A -> parser A) s :
  (forall z, ptame (dec z)) -> (forall z, peats (dec z)) -> ptame (unmarshal_slice zero dec s).
Proof.
  intros Ht He. apply ptame_bind; [apply ReadArrayHeaderBytes_tame|intros n]. cbv zeta.
  apply ptame_bind; [|intros; apply ptame_ret].
  apply ploop_enough; intros st; [apply ptame_bind|apply peats_bind]; try done; intros; apply ptame_ret.
Qed.
Create HintDb ptame discriminated.
#[export] Hint Resolve ptame_ret ptame_bind ptame_if ptame_skip_field unmarshal_map_tame : ptame.
Lemma ptame_ReadStringBytes : ptame ReadStringBytes.
Proof. apply ReadStringBytes_tame. Qed.
Lemma ptame_ReadUintBytes : ptame ReadUintBytes.
Proof. apply ReadUintBytes_tame. Qed.
#[export] Hint Resolve ptame_ReadStringBytes ptame_ReadUintBytes : ptame.

(** ** Both encoders write the same bytes *)

Lemma writes_str s : str_ok s = true -> writes (WriteString s) (AppendString [] s).
Proof. intros H. apply writes_WriteString. unfold str_ok in H. by bool_prop. Qed.

Lemma writes_map range_ m :
  map_ok range_ m -> writes (encode_map range_ m) (AppendMapStrStr [] (range_ m)).
Proof.
  intros [Hl Hs]. pose proof (zlen_nonneg (range_ m)).
  rewrite AppendMapStrStr_concat. unfold encode_map, uint. rewrite Z.mod_small by lia.
  apply writes_bind; [apply writes_WriteMapHeader|]. apply writes_each. intros kv Hkv.
  rewrite Forall_forall in Hs. specialize (Hs kv Hkv). apply writes_bind; apply writes_WriteString; apply Hs.
Qed.

Lemma writes_slice {A} (enc : A -> act Writer rerror unit) (f : A -> list byte) l :
  zlen l < 2 ^ 32 -> (forall x, x ∈ l -> writes (enc x) (f x)) -> writes (encode_slice enc l) (array_bytes f l).
Proof.
  intros Hl Hx. pose proof (zlen_nonneg l). unfold encode_slice, uint. rewrite Z.mod_small by lia.
  apply writes_bind; [apply writes_WriteArrayHeader|by apply writes_each].
Qed.

Lemma writes_eq m bs bs' : writes m bs -> bs = bs' -> writes m bs'.
Proof. by intros ? <-. Qed.

(** Follows the calls of an [EncodeMsg]; the calls that are not library calls are left. *)
Ltac writes_seq :=
  repeat match goal with
  | |- writes (_ ≫= _) _ => eapply writes_bind
  | |- writes (Append _) _ => by apply writes_Append
  | |- writes (WriteString _) _ => by apply writes_str
  | |- writes (WriteUint _) _ => apply writes_WriteUint64
  | |- writes (encode_map _ _) _ => by apply writes_map
  end.

(** ** Sizes bound encodings *)

Lemma size_map_header n : zlen (AppendMapHeader [] n) <= MapHeaderSize.
Proof. unfold AppendMapHeader. repeat case_match; by vm_compute. Qed.
Lemma size_array_header n : zlen (AppendArrayHeader [] n) <= ArrayHeaderSize.
Proof. unfold AppendArrayHeader. repeat case_match; by vm_compute. Qed.
Lemma size_uint64 u : zlen (AppendUint64 [] u) <= Uint64Size.
Proof. unfold AppendUint64. repeat case_match; by vm_compute. Qed.
Lemma size_int64 i : zlen (AppendInt64 [] i) <= Int64Size.
Proof. unfold AppendInt64. repeat case_match; by vm_compute. Qed.
Lemma size_string s : zlen (AppendString [] s) <= StringPrefixSize + slen s.
Proof.
  unfold AppendString, AppendStringFromBytes, slen, StringPrefixSize. rewrite zlen_app.
  repeat case_match; cbn [app]; unfold prefixu8, prefixu16, prefixu32;
    rewrite ?zlen_cons, zlen_nil; lia.
Qed.

Lemma add_sizes_spec {A} (size : A -> Z) (enc : A -> list byte) l s :
  (forall x, x ∈ l -> zlen (enc x) <= size x) -> s + zlen (concat (map enc l)) <= add_sizes size l s.
Proof.
  unfold add_sizes. revert s. induction l as [|x l IH]; intros s Hx; cbn; [rewrite zlen_nil; lia|].
  rewrite zlen_app. specialize (IH (s + size x) ltac:(intros y Hy; apply Hx; set_solver)).
  specialize (Hx x ltac:(set_solver)). lia.
Qed.
Lemma add_sizes_shift {A} (size : A -> Z) l s : add_sizes size l s = s + add_sizes size l 0.
Proof.
  unfold add_sizes. revert s. induction l as [|x l IH]; intros s; cbn; [lia|].
  rewrite (IH (s + size x)), (IH (0 + size x)). lia.
Qed.
Lemma size_array {A} (size : A -> Z) (enc : A -> list byte) l s :
  (forall x, x ∈ l -> zlen (enc x) <= size x) ->
  s + zlen (array_bytes enc l) <= add_sizes size l (s + ArrayHeaderSize).
Proof.
  intros Hx. unfold array_bytes. rewrite zlen_app. pose proof (size_array_header (zlen l)).
  pose proof (add_sizes_spec size enc l (s + ArrayHeaderSize) Hx). lia.
Qed.
Lemma size_map range_ m s :
  s + zlen (AppendMapStrStr [] (range_ m)) <= add_map_sizes range_ m (s + MapHeaderSize).
Proof.
  rewrite AppendMapStrStr_concat, zlen_app. pose proof (size_map_header (uint 32 (zlen (range_ m)))).
  unfold add_map_sizes. etrans; [|apply (add_sizes_spec _ str_pair)].
  - lia.
  - intros kv _. unfold str_pair. rewrite zlen_app. pose proof (size_string kv.1). pose proof (size_string kv.2). lia.
Qed.

(** The sizes of the parts of a map or slice, added to a running total. *)
Lemma map_sizes_shift range_ m s : add_map_sizes range_ m s = s + add_map_sizes range_ m 0.
Proof. apply add_sizes_shift. Qed.

(** Replaces the length of each constant by its value. *)
Ltac const_sizes :=
  autorewrite with zlen;
  repeat match goal with |- context [zlen (?x :: ?l)] => let n := eval vm_compute in (zlen (x :: l)) in
    change (zlen (x :: l)) with n end.

(** ** Decoded values can be encoded again *)

Lemma returns_bind_P {A B} (P : A -> Prop) (Q : B -> Prop) (m : act Reader rerror A) (k : A -> act Reader rerror B) :
  returns P m -> (forall a, P a -> returns Q (k a)) -> returns Q (m ≫= k).
Proof. intros Hm Hk r b r' (a & r1 & E1 & E2)%act_bind_inv. eapply Hk; eauto. Qed.
Lemma returns_decide {A} (Q : A -> Prop) (P : Prop) `{Decision P} m1 m2 :
  returns Q m1 -> returns Q m2 -> returns Q (if decide P then m1 else m2).
Proof. by destruct (decide P). Qed.

(** A counted loop with an invariant that may speak of the rounds done. *)
Lemma returns_loop {A} (I : Z -> A -> Prop) n (body : A -> act Reader rerror A) a :
  0 <= n -> I 0 a -> (forall i a, 0 <= i < n -> I i a -> returns (I (i + 1)) (body a)) ->
  returns (I n) (loop n body a).
Proof.
  intros Hn H0 Hb.
  assert (Hgo : forall fuel i a, 0 <= i <= n -> I i a -> returns (I n) (loop_fuel fuel (n - i) body a)).
  { induction fuel as [|fuel IH]; intros i x Hi HI; cbn [loop_fuel];
      destruct (Z.leb_spec (n - i) 0).
    - replace i with n in HI by lia. by apply returns_ret.
    - apply returns_throw.
    - replace i with n in HI by lia. by apply returns_ret.
    - eapply returns_bind_P; [apply (Hb i x); [lia|done]|]. intros y Hy.
      replace (n - i - 1) with (n - (i + 1)) by lia. apply IH; [lia|done]. }
  intros r b r' E. apply (Hgo (S (length (pending r))) 0 a ltac:(lia) H0 r b r').
  rewrite Z.sub_0_r. done.
Qed.

(** Numbers built from bytes fit their width. *)
Lemma lor_bound k a b : 0 <= k -> 0 <= a < 2 ^ k -> 0 <= b < 2 ^ k -> 0 <= Z.lor a b < 2 ^ k.
Proof.
  intros Hk Ha Hb. split; [apply Z.lor_nonneg; lia|].
  rewrite <- (Z.mod_small a (2 ^ k)), <- (Z.mod_small b (2 ^ k)) by lia.
  rewrite <- !Z.land_ones, <- Z.land_lor_distr_l, Z.land_ones by lia. apply Z.mod_pos_bound. lia.
Qed.
Lemma at_shift_bound b i k w : 0 <= k -> k + 8 <= w -> 0 <= at_ b i ≪ k < 2 ^ w.
Proof.
  intros Hk Hw. pose proof (at_range b i). rewrite Z.shiftl_mul_pow2 by done.
  assert (0 < 2 ^ k) by lia. assert (2 ^ w = 2 ^ (w - k - 8) * 256 * 2 ^ k) as ->.
  { change 256 with (2 ^ 8). rewrite <- !Z.pow_add_r by lia. f_equal. lia. }
  assert (0 < 2 ^ (w - k - 8)) by (apply Z.pow_pos_nonneg; lia). split; [nia|].
  apply Z.mul_lt_mono_pos_r; [done|]. nia.
Qed.
Lemma at_bound b i w : 8 <= w -> 0 <= at_ b i < 2 ^ w.
Proof.
  intros Hw. pose proof (at_shift_bound b i 0 w ltac:(lia) ltac:(lia)) as H. by rewrite Z.shiftl_0_r in H.
Qed.
Create HintDb width discriminated.
#[export] Hint Resolve lor_bound at_shift_bound at_bound : width.
#[export] Hint Extern 2 (_ <= _) => lia : width.
Lemma be16_bound b : 0 <= be16 b < 2 ^ 16.
Proof. unfold be16. auto with width. Qed.
Lemma be32_bound b : 0 <= be32 b < 2 ^ 32.
Proof. unfold be32. auto 10 with width. Qed.
Lemma getMuint16_bound b : 0 <= getMuint16 b < 2 ^ 16.
Proof. unfold getMuint16. auto 10 with width. Qed.
Lemma getMuint32_bound b : 0 <= getMuint32 b < 2 ^ 32.
Proof. unfold getMuint32. auto 10 with width. Qed.
Lemma getMuint64_bound b : 0 <= getMuint64 b < 2 ^ 64.
Proof. unfold getMuint64. auto 20 with width. Qed.

Definition u32 (n : Z) : Prop := 0 <= n < 2 ^ 32.
Definition u64 (n : Z) : Prop := 0 <= n < 2 ^ 64.

(** Follows a reader method down to its returns. *)
Ltac returns_auto :=
  cbv zeta; repeat match goal with
  | |- returns _ (if _ then _ else _) => apply returns_if
  | |- returns _ (_ ≫= _) => apply returns_bind; intros ?
  | |- returns _ (throw _) => apply returns_throw
  | |- returns _ (mret _) => apply returns_ret
  | |- _ => progress cbv zeta
  end.
Lemma rfix_bound p w : 8 <= w ->
  0 <= rfixmap (at_ p 0) < 2 ^ w /\ 0 <= rfixarray (at_ p 0) < 2 ^ w /\ 0 <= rfixstr (at_ p 0) < 2 ^ w.
Proof.
  intros Hw. pose proof (Zrange_check (λ b, (0 <=? rfixmap b) && (rfixmap b <? 256) && (0 <=? rfixarray b) &&
    (rfixarray b <? 256) && (0 <=? rfixstr b) && (rfixstr b <? 256)) 256 eq_refl (at_ p 0) (at_range p 0)) as H.
  cbn beta in H. bool_prop. assert (2 ^ 8 <= 2 ^ w) by (apply Z.pow_le_mono_r; lia). lia.
Qed.
Lemma returns_ReadMapHeader : returns u32 ReadMapHeader.
Proof.
  unfold ReadMapHeader. apply returns_bind. intros p. returns_auto; unfold u32; [apply (rfix_bound p 32); lia| |apply be32_bound].
  pose proof (be16_bound a). lia.
Qed.
Lemma returns_ReadArrayHeader : returns u32 ReadArrayHeader.
Proof.
  unfold ReadArrayHeader. apply returns_bind. intros p. returns_auto; unfold u32; [apply (rfix_bound p 32); lia| |apply be32_bound].
  pose proof (be16_bound a). lia.
Qed.
Lemma returns_nonneg v : returns u64 (nonneg v).
Proof. unfold nonneg. returns_auto. unfold u64, uint. apply Z.mod_pos_bound. lia. Qed.
Lemma returns_ReadUint64 : returns u64 ReadUint64.
Proof.
  unfold ReadUint64. apply returns_bind. intros p. cbv zeta. unfold rfixint, getMuint8.
  pose proof (at_bound p 0 64 ltac:(lia)).
  repeat apply returns_if; try apply returns_throw; apply returns_bind; intros q;
    try apply returns_nonneg; apply returns_ret; unfold u64; try done.
  - apply at_bound. lia.
  - pose proof (getMuint16_bound q). lia.
  - pose proof (getMuint32_bound q). lia.
  - apply getMuint64_bound.
Qed.

Definition str_fits (s : string) : Prop := str_ok s = true.
Lemma returns_ReadString : returns str_fits ReadString.
Proof.
  unfold ReadString. apply returns_bind. intros p. cbv zeta.
  eapply (returns_bind_P u32).
  - returns_auto; unfold u32; [apply (rfix_bound p 32); lia|apply at_bound; lia| |apply be32_bound].
    pose proof (be16_bound a). lia.
  - intros n Hn. destruct (Z.eqb_spec n 0); [by apply returns_ret|].
    apply (returns_bind_P (λ out, zlen out = n)).
    + intros r out r' E. unfold u32 in Hn. destruct (ReadFull_spec n r ltac:(lia)) as (r1 & _ & _ & _ & E1).
      rewrite E1 in E. destruct (Z.leb_spec n (zlen (pending r))); [|done]. simplify_eq.
      apply zlen_ztake. lia.
    + intros out Ho. apply returns_ret. unfold str_fits, str_ok, u32 in *. rewrite str_bytes_str, Ho.
      apply Z.ltb_lt. lia.
Qed.

(** A map that can be encoded, whatever order it is ranged in. *)
Definition map_fits (m : gmap string string) : Prop :=
  Z.of_nat (size m) < 2 ^ 32 /\ map_Forall (λ k v, str_fits k /\ str_fits v) m.
Lemma map_fits_ok range_ m : range_ m ≡ₚ map_to_list m -> map_fits m -> map_ok range_ m.
Proof.
  intros Hp [Hs Hm]. split.
  - unfold zlen. rewrite Hp. by rewrite length_map_to_list.
  - rewrite Hp. apply map_Forall_to_list in Hm. eapply Forall_impl; [exact Hm|]. intros [k v]. cbn.
    unfold str_fits, str_ok. by rewrite !Z.ltb_lt.
Qed.
Lemma size_insert_le (m : gmap string string) k v : (size (<[k := v]> m) <= S (size m))%nat.
Proof. rewrite map_size_insert. case_match; cbn; lia. Qed.
Lemma returns_decode_map : returns map_fits decode_map.
Proof.
  unfold decode_map. eapply returns_bind_P; [apply returns_ReadMapHeader|]. intros n Hn. unfold u32 in Hn.
  pose (I := λ (i : Z) (m : gmap string string), Z.of_nat (size m) <= i /\ map_Forall (λ k v, str_fits k /\ str_fits v) m).
  assert (returns (I n) (loop n (λ m, k ← ReadString; v ← ReadString; mret (<[k := v]> m)) ∅)) as HL.
  { apply returns_loop; [lia|split; [by rewrite map_size_empty|apply map_Forall_empty]|].
    intros i m Hi [Hs Hm]. eapply returns_bind_P; [apply returns_ReadString|intros k Hk].
    eapply returns_bind_P; [apply returns_ReadString|intros v Hv]. apply returns_ret. split.
    - pose proof (size_insert_le m k v). lia.
    - by apply map_Forall_insert_2. }
  intros r m r' E. destruct (HL r m r' E) as [Hs Hm]. split; [lia|done].
Qed.

(** A slice all of whose elements, those beyond its length included, are fine. *)
Definition slice_fits {A} (P : A -> Prop) (s : slice A) : Prop :=
  Forall P (sl_arr s) /\ 0 <= sl_len s < 2 ^ 32 /\ sl_len s <= zlen (sl_arr s).
Lemma elems_fit {A} (P : A -> Prop) s : slice_fits P s -> list_ok P (elems s).
Proof.
  intros (H1 & H2 & H3). unfold elems. split; [rewrite zlen_ztake; lia|]. by apply Forall_take.
Qed.
Lemma nil_slice_fits {A} (P : A -> Prop) : slice_fits P nil_slice.
Proof. split; [constructor|]. cbn. change (zlen (@nil A)) with 0. lia. Qed.
Lemma resize_fits {A} (P : A -> Prop) zero n s :
  P zero -> 0 <= n < 2 ^ 32 -> slice_fits P s -> slice_fits P (resize zero n s).
Proof.
  intros Hz Hn (H1 & H2 & H3). unfold resize. destruct (Z.leb_spec n (zlen (sl_arr s))).
  - split_and!; cbn; try done; lia.
  - split_and!; cbn; [by apply Forall_replicate|lia|lia|]. unfold zlen. rewrite length_replicate. lia.
Qed.
Lemma returns_decode_slice {A} (P : A -> Prop) zero dec s :
  P zero -> (forall z, P z -> returns P (dec z)) -> slice_fits P s ->
  returns (slice_fits P) (decode_slice zero dec s).
Proof.
  intros Hz Hd Hs. unfold decode_slice. eapply returns_bind_P; [apply returns_ReadArrayHeader|].
  intros n Hn. cbv zeta. destruct (resize_fits P zero n s Hz Hn Hs) as (R1 & R2 & R3).
  assert (sl_len (resize zero n s) = n) as Rn by (unfold resize; by case_match).
  set (arr := sl_arr (resize zero n s)) in *.
  apply (returns_bind_P (λ st : nat * list A, Forall P st.2 /\ length st.2 = length arr)).
  - apply (returns_loop (λ _ st, Forall P st.2 /\ length st.2 = length arr)); [apply Hn|done|].
    intros i [j l] _ [Hl He]. cbn in *. eapply returns_bind_P; [apply Hd|].
    + destruct (l !! j) eqn:E; cbn; [|done]. by eapply Forall_lookup_1.
    + intros x Hx. apply returns_ret. cbn. rewrite length_insert. split; [by apply Forall_insert|done].
  - intros [j l] [Hl He]. apply returns_ret. cbn in *. split_and!; cbn; try done; [lia..|].
    rewrite Rn in R3. unfold zlen in *. rewrite He. done.
Qed.

Lemma returns_decode_fields {V} (P : V -> Prop) (field : string -> V -> act Reader rerror V) z :
  P z -> (forall k z, P z -> returns P (field k z)) -> returns P (decode_fields field z).
Proof.
  intros Hz Hf. unfold decode_fields. eapply returns_bind_P; [apply returns_ReadMapHeader|]. intros n Hn.
  apply (returns_loop (λ _, P)); [apply Hn|done|]. intros i v _ Hv. apply returns_bind. intros key. by apply Hf.
Qed.
Lemma returns_skip_field {V} (P : V -> Prop) z : P z -> returns P (skip_field z).
Proof. intros Hz. apply returns_bind. intros _. by apply returns_ret. Qed.
Lemma empty_fits : map_fits ∅.
Proof. split; [by rewrite map_size_empty|apply map_Forall_empty]. Qed.

(** One goal per member, each with the value decoded into it. *)
Ltac members :=
  repeat apply returns_decide;
  try (eapply returns_bind_P;
       [solve [eauto using returns_ReadString, returns_ReadUint64, returns_decode_map]|];
       intros ?v ?Hv; apply returns_ret);
  try by apply returns_skip_field.
