(* ===== verification/Number.v ===== *)
(** * Numbers of any width (vendor/github.com/tinylib/msgp/msgp/number.go)

    [msgp.Number], the type of the resource limits of a Docker profile: 64 bits and
    the type they were read as.  Floating-point numbers are kept as their bits, as
    [Number] itself does.  A small unsigned number comes back signed, so a number read
    back is [wire n]: the same number in the type the wire gives it. *)

From Stdlib Require Import ZArith Lia.
From S2P Require Import Prelude Fwd Msgp MsgpFacts MsgpSafe MsgpBytes Writer Codec CodecFacts.

Record Number := mkNumber { n_bits : Z; n_typ : Type_ }.

Definition AsInt (i : Z) : Number :=
  if i =? 0 then mkNumber 0 InvalidType else mkNumber (uint 64 i) IntType.
Definition AsUint (u : Z) : Number := mkNumber u UintType.
Definition AsFloat32 (bits : Z) : Number := mkNumber bits Float32Type.
Definition AsFloat64 (bits : Z) : Number := mkNumber bits Float64Type.

(** [Int]: the bits as an int64, and whether they are one. *)
Definition Int (n : Number) : Z * bool :=
  (sint 64 (n_bits n), match n_typ n with IntType | InvalidType => true | _ => false end).
Definition Uint (n : Number) : Z * bool :=
  (n_bits n, match n_typ n with UintType => true | _ => false end).
Definition Type_of (n : Number) : Type_ :=
  match n_typ n with InvalidType => IntType | t => t end.

(** ** Floating-point numbers, by their bits (read.go, read_bytes.go, write_bytes.go) *)

(** [float64(f)] of a float32: infinities, NaNs (made quiet), zeros, subnormals and
    normal numbers. *)
Definition widen (f : Z) : Z :=
  let s := (f ≫ 31) ≪ 63 in
  let e := Z.land (f ≫ 23) 255 in
  let m := Z.land f (2 ^ 23 - 1) in
  if e =? 255 then
    Z.lor (Z.lor s (2047 ≪ 52)) (if m =? 0 then 0 else Z.lor (m ≪ 29) (1 ≪ 51))
  else if e =? 0 then
    if m =? 0 then s
    else Z.lor (Z.lor s ((Z.log2 m - 149 + 1023) ≪ 52)) ((m - 2 ^ Z.log2 m) ≪ (52 - Z.log2 m))
  else Z.lor (Z.lor s ((e - 127 + 1023) ≪ 52)) (m ≪ 29).

Definition ReadFloat32 : act Reader rerror Z :=
  p ← Peek 5;
  if at_ p 0 =? mfloat32 then _ ← fwd_Skip 5; mret (getMuint32 p)
  else throw (badPrefix Float32Type (at_ p 0)).

(** A float32 is taken for a float64, also when fewer than nine bytes are left. *)
Definition ReadFloat64 : act Reader rerror Z := λ r,
  match Peek 9 r with
  | (Err e, r) =>
      if decide (e = EOF) then
        if (0 <? Buffered r) && (at_ (R_data r) 0 =? mfloat32) then (f ← ReadFloat32; mret (widen f)) r
        else (Err e, r)
      else (Err e, r)
  | (Ok p, r) =>
      (if at_ p 0 =? mfloat64 then _ ← fwd_Skip 9; mret (getMuint64 p)
       else if at_ p 0 =? mfloat32 then f ← ReadFloat32; mret (widen f)
       else throw (badPrefix Float64Type (at_ p 0))) r
  end.

Definition ReadFloat32Bytes : parser Z := λ b,
  if zlen b <? 5 then Err ErrShortBytes
  else if at_ b 0 =? mfloat32 then Ok (getMuint32 b, zdrop 5 b)
  else Err (TypeError Float32Type (getType (at_ b 0))).

Definition ReadFloat64Bytes : parser Z := λ b,
  if zlen b <? 9 then
    if (5 <=? zlen b) && (at_ b 0 =? mfloat32) then (f ← ReadFloat32Bytes; mret (widen f)) b
    else Err ErrShortBytes
  else if at_ b 0 =? mfloat64 then Ok (getMuint64 b, zdrop 9 b)
  else if at_ b 0 =? mfloat32 then (f ← ReadFloat32Bytes; mret (widen f)) b
  else Err (badPrefix Float64Type (at_ b 0)).

Definition AppendFloat64 (b : list byte) (bits : Z) : list byte := b ++ prefixu64 mfloat64 bits.
Definition AppendFloat32 (b : list byte) (bits : Z) : list byte := b ++ prefixu32 mfloat32 bits.

(** [NextType] of a slice. *)
Definition NextTypeBytes (b : list byte) : Type_ :=
  if zlen b =? 0 then InvalidType
  else
    let s := sizes (at_ b 0) in
    if decide (bs_typ s = ExtensionType) then
      if bs_size s <? zlen b then
        let tp := if bs_extra s =? constsize then sint 8 (at_ b 1)
                  else sint 8 (at_ b (Z.to_nat (bs_size s - 1))) in
        if tp =? TimeExtension then TimeType
        else if tp =? Complex128Extension then Complex128Type
        else if tp =? Complex64Extension then Complex64Type
        else ExtensionType
      else bs_typ s
    else bs_typ s.

(** ** The methods of [Number] *)

Definition Number_DecodeMsg : act Reader rerror Number :=
  typ ← NextType;
  match typ with
  | Float32Type => f ← ReadFloat32; mret (AsFloat32 f)
  | Float64Type => f ← ReadFloat64; mret (AsFloat64 f)
  | IntType => i ← ReadInt64; mret (AsInt i)
  | UintType => u ← ReadUint64; mret (AsUint u)
  | _ => throw (TypeError IntType typ)
  end.

Definition Number_UnmarshalMsg : parser Number := λ b,
  match NextTypeBytes b with
  | IntType => (i ← ReadInt64Bytes; mret (AsInt i)) b
  | UintType => (u ← ReadUint64Bytes; mret (AsUint u)) b
  | Float64Type => (f ← ReadFloat64Bytes; mret (AsFloat64 f)) b
  | Float32Type => (f ← ReadFloat32Bytes; mret (AsFloat32 f)) b
  | typ => Err (TypeError IntType typ)
  end.

Definition Number_MarshalMsg (b : list byte) (n : Number) : list byte :=
  match n_typ n with
  | IntType => AppendInt64 b (sint 64 (n_bits n))
  | UintType => AppendUint64 b (n_bits n)
  | Float64Type => AppendFloat64 b (n_bits n)
  | Float32Type => AppendFloat32 b (uint 32 (n_bits n))
  | _ => AppendInt64 b 0
  end.

Definition Number_EncodeMsg (n : Number) : act Writer rerror unit :=
  match n_typ n with
  | IntType => WriteInt64 (sint 64 (n_bits n))
  | UintType => WriteUint64 (n_bits n)
  | Float64Type => WriteFloat64 (n_bits n)
  | Float32Type => WriteFloat32 (uint 32 (n_bits n))
  | _ => WriteInt64 0
  end.

Definition Number_Msgsize (n : Number) : Z :=
  match n_typ n with
  | Float32Type => Float32Size
  | Float64Type => Float64Size
  | IntType => Int64Size
  | UintType => Uint64Size
  | _ => 1
  end.

(** 1.5f as a float64; the smallest subnormal; minus infinity. *)
Example widen_normal : widen 0x3fc00000 = 0x3ff8000000000000. Proof. reflexivity. Qed.
Example widen_subnormal : widen 1 = 0x36a0000000000000. Proof. reflexivity. Qed.
Example widen_inf : widen 0xff800000 = 0xfff0000000000000. Proof. reflexivity. Qed.

(** ** Well-formed numbers *)

Definition number_ok (n : Number) : Prop :=
  match n_typ n with
  | InvalidType => n_bits n = 0
  | IntType => u64 (n_bits n) /\ n_bits n <> 0
  | UintType | Float64Type => u64 (n_bits n)
  | Float32Type => u32 (n_bits n)
  | _ => False
  end.

#[export] Instance number_ok_dec n : Decision (number_ok n).
Proof. unfold number_ok, u64, u32. destruct (n_typ n); apply _. Defined.

(** The number read back: an unsigned one below 128 is written like a signed one. *)
Definition wire (n : Number) : Number :=
  match n_typ n with
  | UintType => if n_bits n <=? 127 then AsInt (n_bits n) else n
  | _ => n
  end.

Lemma AsInt_sint b : u64 b -> b <> 0 -> AsInt (sint 64 b) = mkNumber b IntType.
Proof.
  intros Hb Hn. unfold AsInt, u64 in *. assert (uint 64 (sint 64 b) = b) as E.
  { rewrite uint_sint by lia. unfold uint. apply Z.mod_small. lia. }
  destruct (Z.eqb_spec (sint 64 b) 0) as [E0|]; [|by rewrite E].
  rewrite E0 in E. unfold uint in E. rewrite Z.mod_0_l in E by lia. lia.
Qed.
Lemma sint_range b : - 2 ^ 63 <= sint 64 b < 2 ^ 63.
Proof. unfold sint. pose proof (Z.mod_pos_bound (b + 2 ^ (64 - 1)) (2 ^ 64) ltac:(lia)). lia. Qed.

(** What the daemon makes of a limit is not changed by the trip. *)
Lemma wire_Int n : number_ok n -> (Int (wire n)).1 = (Int n).1.
Proof.
  unfold number_ok, wire, Int. destruct n as [b []]; cbn; try done. unfold u64. intros Hb.
  destruct (Z.leb_spec b 127); [|done]. unfold AsInt. destruct (Z.eqb_spec b 0) as [->|]; [done|].
  cbn. unfold uint. by rewrite Z.mod_small by lia.
Qed.
Lemma wire_ok n : number_ok n -> number_ok (wire n).
Proof.
  unfold number_ok, wire. destruct n as [b []]; cbn; try done. unfold u64. intros Hb.
  destruct (Z.leb_spec b 127); [|done]. unfold AsInt. destruct (Z.eqb_spec b 0); [done|].
  cbn. unfold uint. rewrite Z.mod_small by lia. lia.
Qed.
Lemma wire_wire n : wire (wire n) = wire n.
Proof.
  unfold wire. destruct n as [b []]; cbn; try done. destruct (Z.leb_spec b 127) as [|Hb]; cbn.
  - unfold AsInt. by destruct (b =? 0).
  - destruct (Z.leb_spec b 127); [lia|done].
Qed.

(** ** Reading back *)

(** The type of an object that is not an extension is that of its lead byte. *)
Lemma reads_NextType {A} (k : Type_ -> act Reader rerror A) b bs t a :
  getType (b2z b) = t -> t <> InvalidType -> t <> ExtensionType ->
  reads (k t) (b :: bs) a -> reads (NextType ≫= k) (b :: bs) a.
Proof.
  intros Ht H1 H2 Hk r rest Hr.
  assert (exists r1, NextType r = (Ok t, r1) /\ pending r1 = pending r /\ same_source r r1) as (r1 & E & P & S).
  { unfold NextType. destruct (Peek_spec 1 r ltac:(lia)) as (r1 & S1 & P1 & E1).
    rewrite Hr in E1. cbn [app] in E1. rewrite zlen_cons in E1. pose proof (zlen_nonneg (bs ++ rest)).
    destruct (Z.ltb_spec (1 + zlen (bs ++ rest)) 1); [lia|].
    change (ztake 1 (b :: bs ++ rest)) with [b] in E1. rewrite (act_bind_ok _ _ _ _ _ E1). cbv zeta.
    change (at_ [b] 0) with (b2z b). rewrite Ht, !decide_False by done. eauto. }
  rewrite (act_bind_ok _ _ _ _ _ E). rewrite Hr in P. destruct (Hk r1 rest P) as (r2 & E2 & P2 & S2).
  exists r2. eauto using same_source_trans.
Qed.

Lemma int_lead i : - 2 ^ 63 <= i < 2 ^ 63 ->
  exists b l, AppendInt64 [] i = b :: l /\ getType (b2z b) = IntType.
Proof.
  intros Hi. unfold AppendInt64. cbn [app].
  destruct (Z.leb_spec 0 i).
  - destruct (Z.leb_spec i (2 ^ 7 - 1)); [|repeat case_match; eauto].
    do 2 eexists. split; [done|]. destruct (fixint_ok i ltac:(lia)) as [-> _].
    unfold getType, sizes. destruct (Z.ltb_spec i 0x80); [done|lia].
  - destruct (Z.leb_spec (-32) i); [|repeat case_match; eauto].
    do 2 eexists. split; [done|].
    pose proof (Zrange_check (λ k, bool_decide (getType (b2z (wnfixint (sint 8 (k - 32)))) = IntType)) 32 eq_refl
      (i + 32) ltac:(lia)) as HC. cbn beta in HC. rewrite bool_decide_eq_true in HC.
    by replace (i + 32 - 32) with i in HC by lia.
Qed.
Lemma uint_lead u : 0 <= u ->
  exists b l, AppendUint64 [] u = b :: l /\ getType (b2z b) = if u <=? 127 then IntType else UintType.
Proof.
  intros Hu. unfold AppendUint64. cbn [app]. change ((1 ≪ 7) - 1) with 127.
  destruct (Z.leb_spec u 127); [|repeat case_match; eauto].
  do 2 eexists. split; [done|]. destruct (fixint_ok u ltac:(lia)) as [-> _].
  unfold getType, sizes. destruct (Z.ltb_spec u 0x80); [done|lia].
Qed.

Lemma reads_peek_skip {A} n bs (k : list byte -> act Reader rerror A) a :
  zlen bs = n -> 0 <= n -> reads (k bs) bs a -> reads (Peek n ≫= k) bs a.
Proof.
  intros Hn Hn0 Hk r rest Hr. destruct (Peek_spec n r ltac:(lia)) as (r1 & S1 & P1 & E1).
  rewrite Hr, zlen_app in E1. pose proof (zlen_nonneg rest).
  destruct (Z.ltb_spec (zlen bs + zlen rest) n); [lia|].
  rewrite <- Hn, ztake_app_len in E1. rewrite Hn in E1. rewrite (act_bind_ok _ _ _ _ _ E1).
  rewrite Hr in P1. destruct (Hk r1 rest P1) as (r2 & E2 & P2 & S2). exists r2. eauto using same_source_trans.
Qed.

Lemma reads_float32 f : u32 f -> reads ReadFloat32 (prefixu32 mfloat32 f) f.
Proof.
  intros Hf. unfold u32 in Hf. unfold ReadFloat32. apply reads_peek_skip; [done|lia|].
  change (at_ (prefixu32 mfloat32 f) 0) with mfloat32. rewrite Z.eqb_refl.
  assert (getMuint32 (prefixu32 mfloat32 f) = f) as ->.
  { pose proof (getMuint32_put f) as E. rewrite Z.mod_small in E by lia.
    unfold getMuint32, putMuint32, prefixu32, at_ in *. cbn [lookup list_lookup] in *. exact E. }
  eapply reads_bind_nil; [by apply reads_fwd_Skip|apply reads_ret].
Qed.
Lemma reads_float64 f : u64 f -> reads ReadFloat64 (prefixu64 mfloat64 f) f.
Proof.
  intros Hf r rest Hr. unfold u64 in Hf. unfold ReadFloat64.
  destruct (Peek_spec 9 r ltac:(lia)) as (r1 & S1 & P1 & E1).
  assert (ztake 9 (pending r) = prefixu64 mfloat64 f) as Et by (rewrite Hr; apply (ztake_app_len (prefixu64 mfloat64 f))).
  assert (9 <= zlen (pending r)) as Hl.
  { rewrite Hr, zlen_app. change (zlen (prefixu64 mfloat64 f)) with 9. pose proof (zlen_nonneg rest). lia. }
  destruct (Z.ltb_spec (zlen (pending r)) 9); [lia|]. rewrite E1, Et.
  change (at_ (prefixu64 mfloat64 f) 0) with mfloat64. rewrite Z.eqb_refl.
  assert (getMuint64 (prefixu64 mfloat64 f) = f) as ->.
  { pose proof (getMuint64_put f) as E. rewrite Z.mod_small in E by lia.
    unfold getMuint64, putMuint64, prefixu64, at_ in *. cbn [lookup list_lookup] in *. exact E. }
  rewrite Hr in P1. destruct (reads_fwd_Skip 9 (prefixu64 mfloat64 f) eq_refl r1 rest P1) as (r2 & E2 & P2 & S2).
  rewrite (act_bind_ok _ _ _ _ _ E2). exists r2. eauto using same_source_trans.
Qed.

(** A number is read back as the wire carries it. *)
Lemma reads_Number n : number_ok n -> reads Number_DecodeMsg (Number_MarshalMsg [] n) (wire n).
Proof.
  intros Hn. unfold number_ok in Hn. unfold Number_MarshalMsg, Number_DecodeMsg, wire.
  destruct n as [b t]. cbn [n_typ n_bits] in *. destruct t; try done.
  - subst. apply (reads_NextType _ _ _ IntType); [done..|].
    eapply reads_bind_nil; [by apply (reads_int64 0)|apply reads_ret].
  - unfold AppendFloat64. cbn [app]. apply (reads_NextType _ _ _ Float64Type); [done..|].
    eapply reads_bind_nil; [by apply reads_float64|apply reads_ret].
  - unfold AppendFloat32. cbn [app]. apply (reads_NextType _ _ _ Float32Type); [done..|].
    unfold u32 in Hn. unfold uint. rewrite Z.mod_small by lia.
    eapply reads_bind_nil; [by apply reads_float32|apply reads_ret].
  - destruct Hn as [Hb H0]. pose proof (sint_range b) as Hr.
    destruct (int_lead _ Hr) as (x & l & E & T). pose proof (reads_int64 _ Hr) as R. rewrite E in *.
    apply (reads_NextType _ _ _ IntType); [done..|]. rewrite <- (AsInt_sint b Hb H0).
    eapply reads_bind_nil; [exact R|apply reads_ret].
  - unfold u64 in Hn. destruct (uint_lead b ltac:(lia)) as (x & l & E & T).
    pose proof (reads_uint64 b Hn) as R.
    destruct (Z.leb_spec b 127) as [Hs|Hs].
    + assert (AppendUint64 [] b = AppendInt64 [] b) as EI.
      { unfold AppendUint64, AppendInt64. change ((1 ≪ 7) - 1) with 127. change (2 ^ 7 - 1) with 127.
        destruct (Z.leb_spec b 127), (Z.leb_spec 0 b); (done || lia). }
      pose proof (reads_int64 b ltac:(lia)) as RI. rewrite <- EI in RI. rewrite E in *.
      apply (reads_NextType _ _ _ IntType); [done..|]. eapply reads_bind_nil; [exact RI|apply reads_ret].
    + rewrite E in *. apply (reads_NextType _ _ _ UintType); [done..|].
      eapply reads_bind_nil; [exact R|apply reads_ret].
Qed.

(** ** Both decoders agree *)

Lemma agree_ReadFloat32 : agree ReadFloat32 ReadFloat32Bytes.
Proof.
  intros r Hs. unfold agree_at, ReadFloat32, ReadFloat32Bytes.
  destruct (Peek_spec 5 r ltac:(lia)) as (r1 & (_ & S1 & _) & P1 & E1).
  destruct (Z.ltb_spec (zlen (pending r)) 5).
  { by rewrite (act_bind_err _ _ _ _ _ E1). }
  rewrite (act_bind_ok _ _ _ _ _ E1). rewrite at_ztake by lia.
  destruct (at_ (pending r) 0 =? mfloat32); [|done].
  pose proof (agree_skip r1 ltac:(congruence) 5 (getMuint32 (ztake 5 (pending r))) ltac:(rewrite P1; lia)) as HA.
  unfold agree_at in HA. rewrite P1, local_Muint32 in HA. rewrite local_Muint32. exact HA.
Qed.

(** On an object that is a float64; the widening of a float32 depends on how the
    stream ends. *)
Lemma agree_ReadFloat64 r : R_seek r = false -> at_ (pending r) 0 = mfloat64 ->
  agree_at r ReadFloat64 (ReadFloat64Bytes (pending r)).
Proof.
  intros Hs Hm. unfold agree_at, ReadFloat64, ReadFloat64Bytes.
  destruct (Peek_spec 9 r ltac:(lia)) as (r1 & (_ & S1 & _) & P1 & E1). rewrite E1, Hm.
  assert ((mfloat64 =? mfloat32) = false) as E32 by done. rewrite E32, Z.eqb_refl.
  destruct (Z.ltb_spec (zlen (pending r)) 9) as [Hl|Hl].
  - rewrite andb_false_r. cbn [fst snd].
    assert (forall x, at_ (R_data r1) 0 = x -> x = mfloat32 -> R_data r1 = [] \/ False) as Hd.
    { intros x <- Ex. destruct (R_data r1) as [|y l] eqn:Ed; [by left|]. exfalso.
      rewrite <- P1 in Hm. unfold pending in Hm. rewrite Ed in Hm. cbn [app] in Hm.
      change (at_ (y :: l) 0) with (b2z y) in Ex. change (at_ (y :: l ++ cat (R_rest r1)) 0) with (b2z y) in Hm.
      rewrite Hm in Ex. done. }
    destruct (decide (R_end r = EOF)); [|done]. unfold Buffered.
    destruct (Z.eqb_spec (at_ (R_data r1) 0) mfloat32) as [Ee|]; [|by rewrite andb_false_r].
    destruct (Hd _ eq_refl Ee) as [->|[]]. done.
  - rewrite at_ztake, Hm, Z.eqb_refl by lia.
    pose proof (agree_skip r1 ltac:(congruence) 9 (getMuint64 (ztake 9 (pending r))) ltac:(rewrite P1; lia)) as HA.
    unfold agree_at in HA. rewrite P1, local_Muint64 in HA. rewrite local_Muint64. exact HA.
Qed.

Lemma float64_lead lead : 0 <= lead < 256 -> getType lead = Float64Type -> lead = mfloat64.
Proof.
  intros Hl T. pose proof (Zrange_check (λ b, negb (bool_decide (getType b = Float64Type)) || (b =? mfloat64))
    256 eq_refl lead ltac:(lia)) as H. cbn beta in H. rewrite T in H.
  apply orb_true_iff in H as [H|H]; [by rewrite bool_decide_true in H|by apply Z.eqb_eq].
Qed.
Definition is_num (t : Type_) : bool :=
  match t with IntType | UintType | Float32Type | Float64Type => true | _ => false end.

(** The lead byte says whether a number follows, to both [NextType]s. *)
Lemma NextType_num r : R_seek r = false -> 1 <= zlen (pending r) -> is_num (getType (at_ (pending r) 0)) = true ->
  exists r1, NextType r = (Ok (getType (at_ (pending r) 0)), r1) /\ pending r1 = pending r /\ R_seek r1 = false.
Proof.
  intros Hs Hl Hn. unfold NextType. destruct (Peek_spec 1 r ltac:(lia)) as (r1 & (_ & S1 & _) & P1 & E1).
  destruct (Z.ltb_spec (zlen (pending r)) 1); [lia|].
  rewrite (act_bind_ok _ _ _ _ _ E1). cbv zeta. rewrite at_ztake by lia.
  destruct (decide (getType (at_ (pending r) 0) = InvalidType)) as [E|_]; [by rewrite E in Hn|].
  destruct (decide (getType (at_ (pending r) 0) = ExtensionType)) as [E|_]; [by rewrite E in Hn|].
  exists r1. split_and!; [done|done|congruence].
Qed.
Lemma NextType_no_num r t r1 : NextType r = (Ok t, r1) -> is_num t = true ->
  1 <= zlen (pending r) /\ getType (at_ (pending r) 0) = t.
Proof.
  unfold NextType. destruct (Peek_spec 1 r ltac:(lia)) as (r2 & _ & P1 & E1).
  destruct (Z.ltb_spec (zlen (pending r)) 1); [by rewrite (act_bind_err _ _ _ _ _ E1)|].
  rewrite (act_bind_ok _ _ _ _ _ E1). cbv zeta. rewrite at_ztake by lia. intros E Hn. split; [lia|].
  destruct (decide (getType (at_ (pending r) 0) = InvalidType)); [done|].
  destruct (decide (getType (at_ (pending r) 0) = ExtensionType)) as [Ex|_]; [|by injection E].
  apply act_bind_inv in E as (v & r3 & _ & E). rewrite Ex in E. repeat case_match; injection E as <- <-; done.
Qed.
Lemma NextTypeBytes_num b : is_num (getType (at_ b 0)) = true -> 1 <= zlen b -> NextTypeBytes b = getType (at_ b 0).
Proof.
  intros Hn Hl. unfold NextTypeBytes. destruct (Z.eqb_spec (zlen b) 0); [lia|]. cbv zeta.
  fold (getType (at_ b 0)). rewrite decide_False; [done|]. intros E. by rewrite E in Hn.
Qed.
Lemma NextTypeBytes_no_num b : is_num (NextTypeBytes b) = true -> 1 <= zlen b /\ getType (at_ b 0) = NextTypeBytes b.
Proof.
  unfold NextTypeBytes. pose proof (zlen_nonneg b). destruct (Z.eqb_spec (zlen b) 0); [done|]. cbv zeta.
  fold (getType (at_ b 0)). destruct (decide (getType (at_ b 0) = ExtensionType)) as [E|]; [|split; [lia|done]].
  rewrite E. repeat case_match; done.
Qed.

Lemma agree_Number : agree Number_DecodeMsg Number_UnmarshalMsg.
Proof.
  intros r Hs. destruct (decide (1 <= zlen (pending r) /\ is_num (getType (at_ (pending r) 0)) = true)) as [[Hl Hn]|Hno].
  - destruct (NextType_num r Hs Hl Hn) as (r1 & E & P & S1).
    unfold agree_at, Number_DecodeMsg. rewrite (act_bind_ok _ _ _ _ _ E).
    unfold Number_UnmarshalMsg. rewrite (NextTypeBytes_num _ Hn Hl). rewrite <- P.
    destruct (getType (at_ (pending r1) 0)) eqn:T; try (by rewrite P in T; rewrite T in Hn).
    + assert (at_ (pending r1) 0 = mfloat64) as Hm by (apply float64_lead; [apply at_range|done]).
      pose proof (agree_at_bind r1 ReadFloat64 (λ f, mret (AsFloat64 f)) _ (λ f, mret (AsFloat64 f))
        (agree_ReadFloat64 r1 S1 Hm) (λ f, agree_ret _)) as HA. exact HA.
    + apply (agree_bind _ _ _ _ agree_ReadFloat32 (λ f, agree_ret (AsFloat32 f)) r1 S1).
    + apply (agree_bind _ _ _ _ agree_ReadInt64 (λ f, agree_ret (AsInt f)) r1 S1).
    + apply (agree_bind _ _ _ _ agree_ReadUint64 (λ f, agree_ret (AsUint f)) r1 S1).
  - unfold agree_at, Number_DecodeMsg, Number_UnmarshalMsg.
    assert (is_num (NextTypeBytes (pending r)) = false) as Hb.
    { apply not_true_is_false. intros H. destruct (NextTypeBytes_no_num _ H) as [? E]. rewrite <- E in H. auto. }
    destruct (NextType r) as [[t|e] r1] eqn:E.
    + assert (is_num t = false) as Ht.
      { apply not_true_is_false. intros H. destruct (NextType_no_num _ _ _ E H) as [? E']. rewrite <- E' in H. auto. }
      rewrite (act_bind_ok _ _ _ _ _ E). destruct t; try done; by destruct (NextTypeBytes (pending r)).
    + rewrite (act_bind_err _ _ _ _ _ E). by destruct (NextTypeBytes (pending r)).
Qed.

(** ** Encoders, sizes, termination and typing *)

Lemma writes_Number n : writes (Number_EncodeMsg n) (Number_MarshalMsg [] n).
Proof.
  unfold Number_EncodeMsg, Number_MarshalMsg, WriteFloat32, WriteFloat64, AppendFloat32, AppendFloat64. cbn [app].
  destruct (n_typ n); auto using writes_WriteInt64, writes_WriteUint64, writes_prefix32, writes_prefix64.
Qed.
Lemma Number_app b n : Number_MarshalMsg b n = b ++ Number_MarshalMsg [] n.
Proof.
  unfold Number_MarshalMsg. destruct (n_typ n); try apply AppendInt64_app; try apply AppendUint64_app; done.
Qed.
Lemma size_Number n : zlen (Number_MarshalMsg [] n) <= Number_Msgsize n.
Proof.
  unfold Number_MarshalMsg, Number_Msgsize.
  destruct (n_typ n); first [apply size_int64 | apply size_uint64 | done].
Qed.

Lemma safe_ReadFloat32 : safe ReadFloat32.
Proof. unfold ReadFloat32. reader_auto. Qed.
Lemma shrinks_ReadFloat32 : shrinks ReadFloat32.
Proof. unfold ReadFloat32. reader_auto. Qed.
Lemma safe_ReadFloat64 : safe ReadFloat64.
Proof.
  intros r Hr. unfold ReadFloat64. pose proof (safe_Peek 9 ltac:(lia) r Hr) as [H1 H2].
  destruct (Peek 9 r) as [[p|e] r1]; cbn [fst snd] in *.
  - pose proof safe_ReadFloat32. assert (safe (if at_ p 0 =? mfloat64 then _ ← fwd_Skip 9; mret (getMuint64 p)
       else if at_ p 0 =? mfloat32 then f ← ReadFloat32; mret (widen f)
       else throw (badPrefix Float64Type (at_ p 0)))) as HS by reader_auto. by apply HS.
  - assert (safe (f ← ReadFloat32; mret (widen f))) as HS.
    { apply safe_bind; [apply safe_ReadFloat32|intros; apply safe_ret]. }
    repeat case_match; try (by apply HS); cbn; split; congruence.
Qed.
Lemma shrinks_ReadFloat64 : shrinks ReadFloat64.
Proof.
  intros r. unfold ReadFloat64. pose proof (shrinks_Peek 9 ltac:(lia) r) as H.
  destruct (Peek 9 r) as [[p|e] r1]; cbn [fst snd] in *.
  - pose proof shrinks_ReadFloat32. assert (shrinks (if at_ p 0 =? mfloat64 then _ ← fwd_Skip 9; mret (getMuint64 p)
       else if at_ p 0 =? mfloat32 then f ← ReadFloat32; mret (widen f)
       else throw (badPrefix Float64Type (at_ p 0)))) as HS by reader_auto. specialize (HS r1). lia.
  - assert (shrinks (f ← ReadFloat32; mret (widen f))) as HS.
    { apply shrinks_bind; [apply shrinks_ReadFloat32|intros; apply shrinks_ret]. }
    specialize (HS r1). repeat case_match; cbn; lia.
Qed.
Lemma tame_Number : tame Number_DecodeMsg.
Proof.
  apply tame_bind; [split; [apply NextType_safe|apply NextType_shrinks]|intros t].
  destruct t; try (split; [by apply safe_throw|apply shrinks_throw]);
    (apply tame_bind; [|intros; apply tame_ret]).
  - split; [apply safe_ReadFloat64|apply shrinks_ReadFloat64].
  - split; [apply safe_ReadFloat32|apply shrinks_ReadFloat32].
  - apply tame_wb, ReadInt64_wb.
  - apply tame_wb, ReadUint64_wb.
Qed.

(** The slice decoders end, and read at least a byte. *)
Lemma ptame_Number : ptame Number_UnmarshalMsg.
Proof.
  intros b. unfold Number_UnmarshalMsg.
  assert (ptame ReadFloat32Bytes) as H32.
  { intros c. unfold ReadFloat32Bytes. repeat case_match; simplify_eq; try done. apply length_zdrop_le. }
  assert (ptame (f ← ReadFloat32Bytes; mret (widen f))) as HW.
  { apply ptame_bind; [done|intros; apply ptame_ret]. }
  assert (ptame ReadFloat64Bytes) as H64.
  { intros c. unfold ReadFloat64Bytes.
    destruct (zlen c <? 9); [destruct ((5 <=? zlen c) && _); [apply HW|done]|].
    destruct (at_ c 0 =? mfloat64); [apply length_zdrop_le|].
    destruct (at_ c 0 =? mfloat32); [apply HW|apply badPrefix_ok]. }
  destruct (NextTypeBytes b); try done;
    apply ptame_bind; try (intros; apply ptame_ret); auto; [apply ReadInt64Bytes_tame|apply ReadUintBytes_tame].
Qed.

(** What is decoded is well formed. *)
Lemma returns_ReadInt64 : returns (λ i, - 2 ^ 63 <= i < 2 ^ 63) ReadInt64.
Proof.
  assert (forall w b, 0 < w <= 64 -> - 2 ^ 63 <= sint w b < 2 ^ 63) as HS.
  { intros w b Hw. unfold sint. pose proof (Z.mod_pos_bound (b + 2 ^ (w - 1)) (2 ^ w) ltac:(lia)).
    assert (2 ^ w = 2 * 2 ^ (w - 1)) by (rewrite <- Z.pow_succ_r by lia; f_equal; lia).
    assert (2 ^ (w - 1) <= 2 ^ 63) by (apply Z.pow_le_mono_r; lia). lia. }
  unfold ReadInt64. apply returns_bind. intros p. cbv zeta.
  unfold rfixint, rnfixint, getMint8, getMint16, getMint32, getMint64, getMuint8.
  pose proof (at_bound p 0 8 ltac:(lia)).
  repeat apply returns_if; try apply returns_throw; apply returns_bind; intros q.
  all: try (apply returns_ret; first [lia | apply HS; lia | pose proof (at_bound q 1 8 ltac:(lia)); lia
    | pose proof (getMuint16_bound q); lia | pose proof (getMuint32_bound q); lia]).
  all: cbv zeta; destruct (Z.ltb_spec (2 ^ 63 - 1) (getMuint64 q)); [apply returns_throw|apply returns_ret].
  all: pose proof (getMuint64_bound q); lia.
Qed.
Lemma returns_ReadFloat32 : returns u32 ReadFloat32.
Proof.
  unfold ReadFloat32. apply returns_bind. intros p. apply returns_if; [|apply returns_throw].
  apply returns_bind. intros _. apply returns_ret, getMuint32_bound.
Qed.
Lemma shift_bound x k w : 0 <= k -> 0 <= x < 2 ^ w -> 0 <= x ≪ k < 2 ^ (w + k).
Proof.
  intros Hk Hx. assert (0 <= w) as Hw.
  { destruct (Z.leb_spec 0 w); [done|]. rewrite Z.pow_neg_r in Hx by done. lia. }
  rewrite Z.shiftl_mul_pow2, Z.pow_add_r by done. assert (0 < 2 ^ k) by lia. nia.
Qed.
Lemma widen_bound f : u32 f -> u64 (widen f).
Proof.
  unfold u32, u64, widen. intros Hf. cbv zeta.
  assert (0 <= f ≫ 31 < 2 ^ 1) as Hs.
  { rewrite Z.shiftr_div_pow2 by lia. split; [apply Z.div_pos; lia|apply Z.div_lt_upper_bound; lia]. }
  assert (0 <= Z.land (f ≫ 23) 255 < 2 ^ 8) as He.
  { change 255 with (Z.ones 8). rewrite Z.land_ones by lia. apply Z.mod_pos_bound. lia. }
  assert (0 <= Z.land f (2 ^ 23 - 1) < 2 ^ 23) as Hm.
  { change (2 ^ 23 - 1) with (Z.ones 23). rewrite Z.land_ones by lia. apply Z.mod_pos_bound. lia. }
  set (s := f ≫ 31) in *. set (e := Z.land _ 255) in *. set (m := Z.land f _) in *.
  pose proof (shift_bound s 63 1 ltac:(lia) Hs) as S63. change (1 + 63) with 64 in S63.
  pose proof (shift_bound m 29 23 ltac:(lia) Hm) as M29.
  destruct (e =? 255).
  - change (23 + 29) with 52 in M29. change (2047 ≪ 52) with 9218868437227405312.
    change (1 ≪ 51) with 2251799813685248. repeat apply lor_bound; try lia.
    destruct (m =? 0); [lia|]. apply lor_bound; lia.
  - destruct (e =? 0).
    + destruct (Z.eqb_spec m 0); [lia|].
      assert (0 <= Z.log2 m < 23) as Hlog by (split; [apply Z.log2_nonneg|apply Z.log2_lt_pow2; lia]).
      pose proof (Z.log2_spec m ltac:(lia)) as [L1 L2].
      pose proof (shift_bound (Z.log2 m - 149 + 1023) 52 12 ltac:(lia) ltac:(lia)) as E52.
      assert (0 <= m - 2 ^ Z.log2 m < 2 ^ Z.log2 m) as Hr by (rewrite Z.pow_succ_r in L2 by lia; lia).
      pose proof (shift_bound _ (52 - Z.log2 m) (Z.log2 m) ltac:(lia) Hr) as R.
      replace (Z.log2 m + (52 - Z.log2 m)) with 52 in R by lia.
      change (12 + 52) with 64 in E52. repeat apply lor_bound; lia.
    + pose proof (shift_bound (e - 127 + 1023) 52 12 ltac:(lia) ltac:(lia)) as E52.
      change (12 + 52) with 64 in E52. change (23 + 29) with 52 in M29. repeat apply lor_bound; lia.
Qed.
Lemma returns_ReadFloat64 : returns u64 ReadFloat64.
Proof.
  assert (returns u64 (f ← ReadFloat32; mret (widen f))) as HW.
  { eapply returns_bind_P; [apply returns_ReadFloat32|]. intros f Hf. by apply returns_ret, widen_bound. }
  intros r f r' E. unfold ReadFloat64 in E. destruct (Peek 9 r) as [[p|e] r1].
  - assert (returns u64 (if at_ p 0 =? mfloat64 then _ ← fwd_Skip 9; mret (getMuint64 p)
       else if at_ p 0 =? mfloat32 then f ← ReadFloat32; mret (widen f)
       else throw (badPrefix Float64Type (at_ p 0)))) as HR.
    { repeat apply returns_if; [|done|apply returns_throw]. apply returns_bind. intros _.
      apply returns_ret, getMuint64_bound. }
    by apply HR in E.
  - repeat case_match; try done. by apply HW in E.
Qed.

Lemma returns_Number : returns number_ok Number_DecodeMsg.
Proof.
  unfold Number_DecodeMsg. apply returns_bind. intros t.
  destruct t; try apply returns_throw; eapply returns_bind_P;
    try apply returns_ReadFloat64; try apply returns_ReadFloat32; try apply returns_ReadInt64;
    try apply returns_ReadUint64; intros x Hx; apply returns_ret; try exact Hx.
  unfold number_ok, AsInt. destruct (Z.eqb_spec x 0) as [->|Hn]; cbn; [done|]. unfold u64, uint.
  pose proof (Z.mod_pos_bound x (2 ^ 64) ltac:(lia)). split; [done|]. intros E.
  apply Z.mod_divide in E as [c Hc]; [|lia]. cbv beta in Hx. lia.
Qed.
