(* ===== verification/SpawnOp.v ===== *)
(** * One spawn request: the spawning goroutine and the killers
      (isolate/initialdispatch.go onSpawn, isolate/spawndispatch.go)

    [onSpawn] starts a goroutine that runs [box.Spawn] and then offers the process
    on the unbuffered channel [prCh]; every kill request of the client starts an
    [asyncKill] goroutine.  They share [prCh], the flag [flagKilled], the spawn
    context and the reply stream.  The model interleaves their atomic actions; an
    [event] says which goroutine moves and what the box or the process answered. *)

From Stdlib Require Import ZArith Lia.
From S2P Require Import Prelude Fwd Msgp MsgpSafe Stream Dispatch.

(** Where the spawning goroutine is. *)
Inductive spc :=
  | SpSpawning    (* in box.Spawn *)
  | SpOffer       (* in the select: prCh <- pr, or ctx.Done() *)
  | SpKill        (* in pr.Kill() *)
  | SpClosing     (* about to run the deferred close(prCh) *)
  | SpDone.       (* prCh is closed *)

(** Where an [asyncKill] goroutine is. *)
Inductive kpc :=
  | KSelect       (* before the select *)
  | KCas          (* received pr *)
  | KKill         (* in pr.Kill() *)
  | KDone.

#[export] Instance spc_eq_dec : EqDecision spc.
Proof. solve_decision. Defined.
#[export] Instance kpc_eq_dec : EqDecision kpc.
Proof. solve_decision. Defined.

Record spawn_op := mkSpawn {
  so_pc : spc;
  so_cancelled : bool;      (* cancelSpawn was called *)
  so_killed : bool;         (* flagKilled *)
  so_killers : list kpc;    (* the asyncKill goroutines *)
  so_notified : bool;       (* OutputCollector.notified *)
  so_process : bool;        (* box.Spawn returned a process *)
  so_kills : nat;           (* how many times pr.Kill() was called *)
  so_sent : list reply      (* what was written to the stream *)
}.

Definition new_spawn : spawn_op := mkSpawn SpSpawning false false [] false false 0 [].

(** The answers of [box.Spawn]. *)
Inductive spawn_res :=
  | SpawnOk
  | SpawnCancelled          (* ErrSpawningCancelled or context.Canceled *)
  | SpawnAgain (msg : string)       (* syscall.EAGAIN *)
  | SpawnFailed (msg : string).

Inductive event :=
  | SpawnReturn (res : spawn_res)
  | Output (p : list byte)
  | Hand (i : nat)
  | SpawnerCancelled
  | SpawnerKillReturn (err : option string)
  | SpawnerClose
  | KillerClosed (i : nat)
  | KillerCtx (i : nat)
  | KillerDefault (i : nat)
  | KillerCas (i : nat)
  | KillerKillReturn (i : nat) (err : option string).

Definition set_pc (pc : spc) (o : spawn_op) : spawn_op :=
  mkSpawn pc (so_cancelled o) (so_killed o) (so_killers o) (so_notified o) (so_process o)
    (so_kills o) (so_sent o).
Definition set_killers (ks : list kpc) (o : spawn_op) : spawn_op :=
  mkSpawn (so_pc o) (so_cancelled o) (so_killed o) ks (so_notified o) (so_process o)
    (so_kills o) (so_sent o).
Definition set_cancelled (o : spawn_op) : spawn_op :=
  mkSpawn (so_pc o) true (so_killed o) (so_killers o) (so_notified o) (so_process o)
    (so_kills o) (so_sent o).
Definition set_process (o : spawn_op) : spawn_op :=
  mkSpawn (so_pc o) (so_cancelled o) (so_killed o) (so_killers o) (so_notified o) true
    (so_kills o) (so_sent o).
(** Past a successful CompareAndSwap on the flag: Kill is called. *)
Definition call_kill (o : spawn_op) : spawn_op :=
  mkSpawn (so_pc o) (so_cancelled o) true (so_killers o) (so_notified o) (so_process o)
    (S (so_kills o)) (so_sent o).
Definition say (rs : list reply) (o : spawn_op) : spawn_op :=
  mkSpawn (so_pc o) (so_cancelled o) (so_killed o) (so_killers o) (so_notified o)
    (so_process o) (so_kills o) (so_sent o ++ rs).
Definition set_notified (n : bool) (o : spawn_op) : spawn_op :=
  mkSpawn (so_pc o) (so_cancelled o) (so_killed o) (so_killers o) n (so_process o)
    (so_kills o) (so_sent o).

(** The reply to a kill that was carried out. *)
Definition kill_reply (err : option string) : reply :=
  match err with
  | Some msg => RError replyKillError errKillError msg
  | None => RClose replyKillOk
  end.

(** The output collector over the list of replies it writes. *)
Definition collect (notified : bool) (p : list byte) : bool * list reply :=
  let '(_, n, s) := OutputCollector_Write (Er := unit) (λ cr s, (None, s ++ [cr.2]))
    (newResponseStream 0) p notified [] in (n, s).

Definition killer (i : nat) (pc : kpc) (o : spawn_op) : bool :=
  bool_decide (so_killers o !! i = Some pc).
Definition move (i : nat) (pc : kpc) (o : spawn_op) : spawn_op :=
  set_killers (<[i := pc]> (so_killers o)) o.

(** The body of the goroutine started by [onSpawn]; [done]: the connection's
    context is cancelled ([d.ctx.Done()]). *)
Definition spawner_exec (done : bool) (e : event) (o : spawn_op) : option spawn_op :=
  match e, so_pc o with
  | SpawnReturn SpawnOk, SpSpawning => Some (set_pc SpOffer (set_process o))
  | SpawnReturn SpawnCancelled, SpSpawning => Some (set_pc SpClosing o)
  | SpawnReturn (SpawnAgain msg), SpSpawning =>
      Some (set_pc SpClosing (say [RError replySpawnError errSpawnEAGAIN msg] o))
  | SpawnReturn (SpawnFailed msg), SpSpawning =>
      Some (set_pc SpClosing (say [RError replySpawnError errSpawningFailed msg] o))
  | Hand i, SpOffer =>
      if killer i KSelect o then Some (set_pc SpClosing (move i KCas o)) else None
  | SpawnerCancelled, SpOffer =>
      if done || so_cancelled o then
        if so_killed o then Some (set_pc SpClosing o)
        else Some (set_pc SpKill (call_kill o))
      else None
  | SpawnerKillReturn err, SpKill => Some (set_pc SpClosing (say [kill_reply err] o))
  | SpawnerClose, SpClosing => Some (set_pc SpDone o)
  | _, _ => None
  end.

(** [asyncKill].  The [default] branch of the select is taken only when no other
    case is ready: no process is offered, [prCh] is open, the context is alive. *)
Definition killer_exec (done : bool) (e : event) (o : spawn_op) : option spawn_op :=
  match e with
  | KillerClosed i =>
      if killer i KSelect o && bool_decide (so_pc o = SpDone) then Some (move i KDone o)
      else None
  | KillerCtx i =>
      if killer i KSelect o && done then Some (move i KDone o) else None
  | KillerDefault i =>
      if killer i KSelect o && negb done && bool_decide (so_pc o <> SpOffer)
         && bool_decide (so_pc o <> SpDone)
      then Some (set_cancelled (move i KDone o)) else None
  | KillerCas i =>
      if killer i KCas o then
        if so_killed o then Some (move i KDone o)
        else Some (call_kill (move i KKill o))
      else None
  | KillerKillReturn i err =>
      if killer i KKill o then Some (say [kill_reply err] (move i KDone o)) else None
  | _ => None
  end.

(** The box writes through the output collector at any time. *)
Definition output_exec (e : event) (o : spawn_op) : option spawn_op :=
  match e with
  | Output p =>
      let '(n, rs) := collect (so_notified o) p in Some (say rs (set_notified n o))
  | _ => None
  end.

Definition spawn_exec (done : bool) (e : event) (o : spawn_op) : option spawn_op :=
  match spawner_exec done e o with
  | Some o' => Some o'
  | None => match killer_exec done e o with
            | Some o' => Some o'
            | None => output_exec e o
            end
  end.

(** [spawnDispatch.Handle]: [go d.asyncKill()]. *)
Definition ask_kill (o : spawn_op) : spawn_op := set_killers (so_killers o ++ [KSelect]) o.

(** ** Counting *)

Definition terminal (r : reply) : bool :=
  match r with RWrite _ _ => false | _ => true end.
Definition terminals (rs : list reply) : nat := length (filter (λ r, terminal r = true) rs).
Definition count (k : kpc) (ks : list kpc) : nat := length (filter (λ x, x = k) ks).

#[local] Arguments count : simpl never.
#[local] Arguments terminals : simpl never.

Lemma count_app k l1 l2 : count k (l1 ++ l2) = (count k l1 + count k l2)%nat.
Proof. unfold count. by rewrite filter_app, length_app. Qed.
Lemma count_cons k x l : count k (x :: l) = ((if decide (x = k) then 1 else 0) + count k l)%nat.
Proof. unfold count. rewrite filter_cons. by destruct (decide _). Qed.
Lemma count_insert k ks i a b :
  ks !! i = Some a ->
  (count k (<[i := b]> ks) + (if decide (a = k) then 1 else 0) =
   count k ks + (if decide (b = k) then 1 else 0))%nat.
Proof.
  revert i. induction ks as [|x ks IH]; intros [|i] H; simplify_eq/=; rewrite ?count_cons.
  - lia.
  - specialize (IH _ H). lia.
Qed.
Lemma terminals_app l1 l2 : terminals (l1 ++ l2) = (terminals l1 + terminals l2)%nat.
Proof. unfold terminals. by rewrite filter_app, length_app. Qed.
Lemma terminals_kill err : terminals [kill_reply err] = 1%nat.
Proof. by destruct err. Qed.
Lemma terminals_error n c m : terminals [RError n c m] = 1%nat.
Proof. done. Qed.
Lemma collect_terminals n p : terminals (collect n p).2 = 0%nat.
Proof. unfold collect, OutputCollector_Write. destruct n; [done|]. by destruct (zlen p =? 0). Qed.

(** ** The invariant *)

Definition holding (o : spawn_op) : nat :=
  ((if decide (so_pc o = SpOffer) then 1 else 0) + count KCas (so_killers o))%nat.
Definition killing (o : spawn_op) : nat :=
  ((if decide (so_pc o = SpKill) then 1 else 0) + count KKill (so_killers o))%nat.

(** A process is held by exactly one goroutine until it is killed; the flag is set
    by the one call of Kill; a call of Kill is in progress or was answered.  A
    request without a process was refused at most once.  A killer that gave up
    left the spawning cancelled or over. *)
Record Inv (done : bool) (o : spawn_op) : Prop := {
  inv_hold : (holding o + so_kills o = Nat.b2n (so_process o))%nat;
  inv_flag : so_killed o = negb (Nat.eqb (so_kills o) 0);
  inv_answer : so_process o = true -> (killing o + terminals (so_sent o) = so_kills o)%nat;
  inv_refused : so_process o = false -> (killing o = 0 /\ terminals (so_sent o) <= 1)%nat;
  inv_spawning : so_pc o = SpSpawning -> so_process o = false /\ terminals (so_sent o) = 0%nat;
  inv_gave_up : Exists (λ k, k <> KSelect) (so_killers o) ->
    done = true \/ so_cancelled o = true \/ (so_pc o <> SpSpawning /\ so_pc o <> SpOffer)
}.

Lemma Inv_new done : Inv done new_spawn.
Proof. split; cbn; try done; [auto with lia|]. by intros H%Exists_nil. Qed.

Lemma Inv_done done o : Inv done o -> Inv true o.
Proof. intros []. split; auto. Qed.

Ltac spawn_unfold :=
  unfold holding, killing, move, say, call_kill, set_pc, set_process, set_killers,
    set_cancelled, set_notified in *; cbn [so_pc so_killers so_kills so_process so_killed
    so_sent so_cancelled so_notified] in *.

Lemma Inv_ask done o : Inv done o -> Inv done (ask_kill o).
Proof.
  intros [I1 I2 I3 I4 I5 I6]. unfold ask_kill.
  split; spawn_unfold; rewrite ?count_app;
    change (count KCas [KSelect]) with 0%nat; change (count KKill [KSelect]) with 0%nat; auto.
  - lia.
  - intros H. specialize (I3 H). lia.
  - intros H. specialize (I4 H). lia.
  - intros [H|H]%Exists_app; [auto|].
    apply Exists_cons in H as [H|H]; [done|]. by apply Exists_nil in H.
Qed.

Lemma killer_true i k o : killer i k o = true -> so_killers o !! i = Some k.
Proof. apply bool_decide_eq_true_1. Qed.

Lemma Exists_lookup {A} (P : A -> Prop) l i x : l !! i = Some x -> P x -> Exists P l.
Proof. intros H HP. apply Exists_exists. exists x. split; [|done]. by eapply list_elem_of_lookup_2. Qed.

Lemma Exists_insert_inv {A} (P : A -> Prop) l i x :
  Exists P (<[i := x]> l) -> P x \/ Exists P l.
Proof.
  revert i. induction l as [|y l IH]; intros [|i] H; cbn in *; auto.
  - apply Exists_cons in H as [H|H]; auto using Exists_cons_tl.
  - apply Exists_cons in H as [H|H]; [auto using Exists_cons_hd|].
    destruct (IH _ H); auto using Exists_cons_tl.
Qed.

(** What moving one killer does to the counters. *)
Lemma move_counts i a b ks :
  ks !! i = Some a ->
  (count KCas (<[i := b]> ks) + (if decide (a = KCas) then 1 else 0) =
   count KCas ks + (if decide (b = KCas) then 1 else 0))%nat /\
  (count KKill (<[i := b]> ks) + (if decide (a = KKill) then 1 else 0) =
   count KKill ks + (if decide (b = KKill) then 1 else 0))%nat.
Proof. intros H. split; by apply count_insert. Qed.

(** Evaluates comparisons of known program counters. *)
Ltac eval_decide :=
  repeat match goal with
  | H : context [if decide (?a = ?b) then 1%nat else 0%nat] |- _ =>
      let t := constr:(if decide (a = b) then 1%nat else 0%nat) in
      let v := eval vm_compute in t in
      lazymatch v with O => idtac | S O => idtac end; change t with v in H
  | |- context [if decide (?a = ?b) then 1%nat else 0%nat] =>
      let t := constr:(if decide (a = b) then 1%nat else 0%nat) in
      let v := eval vm_compute in t in
      lazymatch v with O => idtac | S O => idtac end; change t with v
  end.

Ltac inv_solve :=
  repeat match goal with
  | H : killer _ _ _ = true |- _ => apply killer_true in H
  | H : (_ && _)%bool = true |- _ => apply andb_true_iff in H as [??]
  end;
  spawn_unfold; rewrite ?terminals_app, ?terminals_kill, ?terminals_error in *; eval_decide.

(** The counting part of the invariant. *)
Definition counts (o : spawn_op) : Prop :=
  (holding o + so_kills o = Nat.b2n (so_process o))%nat /\
  so_killed o = negb (Nat.eqb (so_kills o) 0) /\
  (so_process o = true -> (killing o + terminals (so_sent o) = so_kills o)%nat) /\
  (so_process o = false -> (killing o = 0 /\ terminals (so_sent o) <= 1)%nat) /\
  (so_pc o = SpSpawning -> so_process o = false /\ terminals (so_sent o) = 0%nat).

Ltac use_hyps :=
  repeat match goal with
  | H : ?x = ?x -> _ |- _ => specialize (H eq_refl)
  | H : _ /\ _ |- _ => destruct H
  end.
Ltac counts_done :=
  cbn [Nat.b2n negb Nat.eqb] in *; simplify_eq; use_hyps;
  repeat split; intros; simplify_eq; use_hyps; try done; try lia.

Lemma spawner_counts done e o o' :
  counts o -> spawner_exec done e o = Some o' -> counts o'.
Proof.
  intros (I1 & I2 & I3 & I4 & I5). unfold spawner_exec, counts.
  destruct o as [pc canc kd ks nt pr kn sent]. cbn [so_pc so_killed so_cancelled].
  destruct e as [[]| | | | | | | | | |]; try done; destruct pc; try done.
  1-4: intros [= <-]; inv_solve; destruct (I5 eq_refl) as [-> Ht]; counts_done.
  - destruct (killer _ _ _) eqn:Hk; [|done]. intros [= <-]. inv_solve.
    destruct (move_counts i KSelect KCas _ Hk) as [C1 C2]. eval_decide.
    destruct pr; counts_done.
  - destruct (_ || _); [|done]. destruct kd; intros [= <-]; inv_solve.
    + destruct kn; [done|]. destruct pr; cbn in *; lia.
    + destruct kn; [|done]. destruct pr; counts_done.
  - intros [= <-]. inv_solve. destruct pr; counts_done.
  - intros [= <-]. inv_solve. destruct pr; counts_done.
Qed.

Lemma killer_counts done e o o' :
  counts o -> killer_exec done e o = Some o' -> counts o'.
Proof.
  intros (I1 & I2 & I3 & I4 & I5). unfold killer_exec, counts.
  destruct o as [pc canc kd ks nt pr kn sent]. cbn [so_pc so_killed so_cancelled].
  destruct e as [| | | | | |i|i|i|i|i err]; try done.
  1-3: destruct (_ && _) eqn:Hk; [|done]; intros [= <-]; inv_solve;
    edestruct (move_counts i KSelect KDone ks) as [C1 C2]; [done|]; eval_decide;
    destruct pr; counts_done.
  - destruct (killer _ _ _) eqn:Hk; [|done]. destruct kd; intros [= <-]; inv_solve.
    + destruct (move_counts i KCas KDone _ Hk) as [C1 C2]. eval_decide.
      destruct kn; [done|]. destruct pr; cbn in *; lia.
    + destruct (move_counts i KCas KKill _ Hk) as [C1 C2]. eval_decide.
      destruct kn; [|done]. destruct pr; counts_done.
  - destruct (killer _ _ _) eqn:Hk; [|done]. intros [= <-]. inv_solve.
    destruct (move_counts i KKill KDone _ Hk) as [C1 C2]. eval_decide.
    destruct pr; counts_done.
Qed.

Lemma output_counts e o o' : counts o -> output_exec e o = Some o' -> counts o'.
Proof.
  intros (I1 & I2 & I3 & I4 & I5). unfold output_exec, counts. destruct e as [|p| | | | | | | | |]; try done.
  destruct (collect (so_notified o) p) as [n rs] eqn:E.
  pose proof (collect_terminals (so_notified o) p) as Ht. rewrite E in Ht. cbn in Ht.
  intros [= <-]. spawn_unfold. by rewrite terminals_app, Ht, Nat.add_0_r.
Qed.

(** The killers that gave up. *)
Definition gave_up (done : bool) (o : spawn_op) : Prop :=
  Exists (λ k, k <> KSelect) (so_killers o) ->
  done = true \/ so_cancelled o = true \/ (so_pc o <> SpSpawning /\ so_pc o <> SpOffer).

Lemma spawner_gave_up done e o o' :
  gave_up done o -> spawner_exec done e o = Some o' -> gave_up done o'.
Proof.
  unfold gave_up, spawner_exec. intros G.
  destruct o as [pc canc kd ks nt pr kn sent]. cbn [so_pc so_killed so_cancelled so_killers] in *.
  destruct e as [[]| | | | | | | | | |]; try done; destruct pc; try done; intros H;
    repeat (break_match_hyp H; try done); simplify_eq; spawn_unfold; intros Hx; auto.
  destruct (G Hx) as [?|[?|[??]]]; auto.
Qed.

Lemma killer_gave_up done e o o' :
  gave_up done o -> counts o -> killer_exec done e o = Some o' -> gave_up done o'.
Proof.
  unfold gave_up, killer_exec. intros G (I1 & I2 & I3 & I4 & I5).
  destruct o as [pc canc kd ks nt pr kn sent]. cbn [so_pc so_killed so_cancelled so_killers] in *.
  destruct e as [| | | | | |i|i|i|i|i err]; try done.
  - destruct (_ && _) eqn:Hk; [|done]. intros [= <-] _. apply andb_true_iff in Hk as [_ Hk].
    apply bool_decide_eq_true_1 in Hk. cbn in Hk. subst pc. spawn_unfold. auto.
  - destruct (_ && _) eqn:Hk; [|done]. intros [= <-] _. apply andb_true_iff in Hk as [_ Hk].
    spawn_unfold. auto.
  - destruct (_ && _) eqn:Hk; [|done]. intros [= <-] _. spawn_unfold. auto.
  - destruct (killer _ _ _) eqn:Hk; [|done]. apply killer_true in Hk.
    pose proof (Exists_lookup (λ k, k <> KSelect) _ _ _ Hk ltac:(done)) as Hx.
    destruct kd; intros [= <-] _; spawn_unfold; auto.
  - destruct (killer _ _ _) eqn:Hk; [|done]. apply killer_true in Hk.
    pose proof (Exists_lookup (λ k, k <> KSelect) _ _ _ Hk ltac:(done)) as Hx.
    intros [= <-] _. spawn_unfold. auto.
Qed.

Lemma Inv_split done o : Inv done o <-> counts o /\ gave_up done o.
Proof.
  split.
  - intros [I1 I2 I3 I4 I5 I6]. exact (conj (conj I1 (conj I2 (conj I3 (conj I4 I5)))) I6).
  - intros [(I1 & I2 & I3 & I4 & I5) I6]. exact (Build_Inv _ _ I1 I2 I3 I4 I5 I6).
Qed.

Lemma Inv_exec done e o o' : Inv done o -> spawn_exec done e o = Some o' -> Inv done o'.
Proof.
  rewrite !Inv_split. intros [C G]. unfold spawn_exec.
  destruct (spawner_exec done e o) as [o1|] eqn:E1.
  { intros [= <-]. eauto using spawner_counts, spawner_gave_up. }
  destruct (killer_exec done e o) as [o1|] eqn:E2.
  { intros [= <-]. eauto using killer_counts, killer_gave_up. }
  intros E3. split; [by eapply output_counts|]. unfold output_exec in E3.
  destruct e; try done. destruct (collect _ _). simplify_eq. done.
Qed.

(** ** Executions *)

Inductive spawn_reach : bool -> spawn_op -> Prop :=
  | reach_new done : spawn_reach done new_spawn
  | reach_exec done e o o' :
      spawn_reach done o -> spawn_exec done e o = Some o' -> spawn_reach done o'
  | reach_ask done o : spawn_reach done o -> spawn_reach done (ask_kill o)
  | reach_ctx done o : spawn_reach done o -> spawn_reach true o.

Lemma reach_Inv done o : spawn_reach done o -> Inv done o.
Proof. induction 1; eauto using Inv_new, Inv_exec, Inv_ask, Inv_done. Qed.

Lemma Inv_once done o : Inv done o -> (so_kills o <= 1 /\ terminals (so_sent o) <= 1)%nat.
Proof.
  intros [I1 _ I3 I4 _ _]. destruct (so_process o); cbn in *.
  - specialize (I3 eq_refl). lia.
  - specialize (I4 eq_refl). lia.
Qed.

(** C4: whatever the interleaving of the spawner, any number of kill requests, the
    end of the connection and the output of the worker, the process is killed at
    most once and the client gets at most one terminal reply. *)
Theorem spawn_kill_once done o :
  spawn_reach done o -> (so_kills o <= 1)%nat /\ (terminals (so_sent o) <= 1)%nat.
Proof. intros H. by eapply Inv_once, reach_Inv. Qed.

(** Two kill requests race with the end of the connection. *)
Definition race : list event :=
  [SpawnReturn SpawnOk; Output []; Hand 0; KillerCas 0; KillerCtx 1; SpawnerClose;
   KillerKillReturn 0 None].
Definition run (done : bool) (es : list event) (o : spawn_op) : option spawn_op :=
  fold_left (λ x e, x ≫= spawn_exec done e) es (Some o).

Lemma run_reach done es o o' : spawn_reach done o -> run done es o = Some o' -> spawn_reach done o'.
Proof.
  unfold run. revert o. induction es as [|e es IH]; cbn; intros o Ho H; [by simplify_eq|].
  destruct (spawn_exec done e o) as [o1|] eqn:E.
  - eapply IH; [by eapply reach_exec|done].
  - exfalso. clear - H. induction es; [done|]. by apply IHes.
Qed.

Definition race_end : spawn_op :=
  Eval vm_compute in default new_spawn (run true race (ask_kill (ask_kill new_spawn))).

Lemma race_reach : spawn_reach true race_end.
Proof.
  apply (run_reach true race (ask_kill (ask_kill new_spawn))).
  - apply reach_ask, reach_ask, reach_new.
  - by vm_compute.
Qed.

Lemma spawn_kill_once_witness :
  so_process race_end = true /\ (so_kills race_end <= 1)%nat /\
  (terminals (so_sent race_end) <= 1)%nat.
Proof. split; [reflexivity|]. apply (spawn_kill_once true), race_reach. Defined.

(** No goroutine of the request can move. *)
Definition quiet (done : bool) (o : spawn_op) : Prop :=
  forall e, (forall p, e <> Output p) -> spawn_exec done e o = None.

Lemma quiet_at done o e : quiet done o -> (forall p, e <> Output p) ->
  spawner_exec done e o = None /\ killer_exec done e o = None.
Proof.
  intros Q He. specialize (Q e He). unfold spawn_exec in Q.
  destruct (spawner_exec done e o); [done|]. by destruct (killer_exec done e o).
Qed.

Lemma quiet_killers done o : quiet done o ->
  Forall (λ k, k = KSelect \/ k = KDone) (so_killers o).
Proof.
  intros Q. apply Forall_lookup. intros i k Hk. destruct k; auto; exfalso.
  - destruct (quiet_at _ _ (KillerCas i) Q ltac:(done)) as [_ E]. cbn in E.
    unfold killer in E. rewrite bool_decide_eq_true_2 in E by done. by destruct (so_killed o).
  - destruct (quiet_at _ _ (KillerKillReturn i None) Q ltac:(done)) as [_ E]. cbn in E.
    unfold killer in E. by rewrite bool_decide_eq_true_2 in E.
Qed.

Lemma quiet_pc done o : quiet done o -> so_pc o = SpOffer \/ so_pc o = SpDone.
Proof.
  intros Q. destruct (so_pc o) eqn:Hpc; auto; exfalso.
  - destruct (quiet_at _ _ (SpawnReturn SpawnOk) Q ltac:(done)) as [E _].
    cbn in E. by rewrite Hpc in E.
  - destruct (quiet_at _ _ (SpawnerKillReturn None) Q ltac:(done)) as [E _].
    cbn in E. by rewrite Hpc in E.
  - destruct (quiet_at _ _ SpawnerClose Q ltac:(done)) as [E _]. cbn in E. by rewrite Hpc in E.
Qed.

(** An offered process finds a taker when anyone asks for it. *)
Lemma quiet_offer done o :
  Inv done o -> quiet done o -> so_pc o = SpOffer -> done = false /\ so_killers o = [].
Proof.
  intros I Q Hpc. pose proof (quiet_killers _ _ Q) as HF.
  assert (done || so_cancelled o = false) as Hd.
  { destruct (quiet_at _ _ SpawnerCancelled Q ltac:(done)) as [E _]. cbn in E.
    rewrite Hpc in E. destruct (_ || _); [|done]. by destruct (so_killed o). }
  apply orb_false_iff in Hd as [-> Hc]. split; [done|].
  destruct (so_killers o) as [|k ks] eqn:Hks; [done|]. exfalso.
  apply Forall_cons in HF as [[->| ->] _].
  - destruct (quiet_at _ _ (Hand 0) Q ltac:(done)) as [E _]. cbn in E. rewrite Hpc in E.
    unfold killer in E. rewrite Hks in E. done.
  - destruct (inv_gave_up _ _ I) as [?|[?|[_ ?]]]; [|congruence..|done].
    rewrite Hks. by apply Exists_cons_hd.
Qed.

Lemma count_quiet k ks :
  Forall (λ k, k = KSelect \/ k = KDone) ks -> k <> KSelect -> k <> KDone -> count k ks = 0%nat.
Proof.
  intros H ??. induction H as [|x ks Hx _ IH]; [done|]. rewrite count_cons, IH.
  rewrite decide_False; [done|]. destruct Hx; congruence.
Qed.

Lemma quiet_killed done o :
  Inv done o -> quiet done o -> done = true \/ so_killers o <> [] ->
  so_pc o = SpDone /\
  (so_process o = true -> so_kills o = 1%nat /\ terminals (so_sent o) = 1%nat).
Proof.
  intros I Q Ha. destruct (quiet_pc _ _ Q) as [Hpc|Hpc].
  - destruct (quiet_offer _ _ I Q Hpc) as [-> Hk]. by destruct Ha.
  - split; [done|]. intros Hp. pose proof (quiet_killers _ _ Q) as HF.
    destruct I as [I1 _ I3 _ _ _]. specialize (I3 Hp). unfold holding, killing in *.
    rewrite Hpc, Hp, !count_quiet in * by done. eval_decide. cbn in *. lia.
Qed.

(** No worker outlives its client.  When the client asked for a kill, or its
    connection ended, and the goroutines of the request came to rest, a process
    that was spawned has been killed exactly once and exactly one terminal reply
    was written. *)
Theorem spawn_no_orphan done o :
  spawn_reach done o -> quiet done o -> done = true \/ so_killers o <> [] ->
  so_pc o = SpDone /\
  (so_process o = true -> so_kills o = 1%nat /\ terminals (so_sent o) = 1%nat).
Proof. intros H. apply quiet_killed. by apply reach_Inv. Qed.

Lemma race_quiet : quiet true race_end.
Proof.
  intros e He. destruct e as [[]|p|i| | | |i|i|i|i|i err]; try reflexivity.
  - by destruct (He p).
  - destruct i as [|[|i]]; reflexivity.
  - destruct i as [|[|i]]; reflexivity.
  - destruct i as [|[|i]]; reflexivity.
  - destruct i as [|[|i]]; reflexivity.
  - destruct i as [|[|i]]; reflexivity.
Qed.

Lemma spawn_no_orphan_witness :
  so_process race_end = true /\ so_kills race_end = 1%nat /\
  terminals (so_sent race_end) = 1%nat.
Proof.
  split; [reflexivity|].
  apply (spawn_no_orphan true race_end race_reach race_quiet (or_introl eq_refl)).
  reflexivity.
Defined.

(** ** Termination *)

Definition spc_weight (pc : spc) : nat :=
  match pc with SpSpawning => 4 | SpOffer => 3 | SpKill => 2 | SpClosing => 1 | SpDone => 0 end.
Definition kpc_weight (k : kpc) : nat :=
  match k with KSelect => 3 | KCas => 2 | KKill => 1 | KDone => 0 end.
Definition weight (o : spawn_op) : nat :=
  (spc_weight (so_pc o) + sum_list_with kpc_weight (so_killers o))%nat.


