(* ===== verification/Conn.v ===== *)
(** * The connection handler (isolate/conn_handler.go HandleConn and the
      dispatchers' Handle methods)

    One connection: the handler goroutine reads messages and drives the
    dispatcher of each channel; requests run in goroutines of their own, which
    write replies and detach their channel.  A dispatcher holds no data but the
    objects of its request, so the session map keeps its kind and the requests
    are in [c_ops], by channel. *)

From Stdlib Require Import ZArith Lia.
From S2P Require Import Prelude Fwd Msgp MsgpFacts MsgpSafe Stream Dispatch SpawnOp.

Inductive Dispatcher := initialDispatch | spoolCancelationDispatch | spawnDispatch.
#[export] Instance Dispatcher_eq_dec : EqDecision Dispatcher.
Proof. solve_decision. Defined.

(** A spool request: its goroutine runs [box.Spool]. *)
Record spool_op := mkSpool {
  sp_running : bool;
  sp_cancelled : bool;
  sp_sent : list reply
}.
Definition new_spool : spool_op := mkSpool true false [].

Inductive op := OpSpool (o : spool_op) | OpSpawn (o : spawn_op).

Definition op_sent (o : op) : list reply :=
  match o with OpSpool o => sp_sent o | OpSpawn o => so_sent o end.

(** Where the handler goroutine is. *)
Inductive hpc :=
  | HRecv                                        (* at the top of LOOP *)
  | HHandle (hasHeaders : bool) (channel c : Z) (d : Dispatcher)
  | HAttach (channel : Z) (d : Dispatcher)       (* Handle returned a dispatcher *)
  | HDetach (channel : Z)                        (* Handle returned nil or an error *)
  | HClosed.                                     (* HandleConn returned *)

Record conn := mkConn {
  c_rd : Reader;
  c_sess : sessions Dispatcher;
  c_highest : Z;
  c_pc : hpc;
  c_done : bool;                 (* the connection's context is cancelled *)
  c_ops : gmap Z op;
  c_out : list (Z * reply);      (* the messages handed to conn.Write *)
  c_jobs : gmap Z (string * request)  (* the calls of Spool and Spawn: the box and the arguments *)
}.

Definition newConnection (r : Reader) : conn := mkConn r newSessions 0 HRecv false ∅ [] ∅.

Definition with_rd r s := mkConn r (c_sess s) (c_highest s) (c_pc s) (c_done s) (c_ops s) (c_out s) (c_jobs s).
Definition with_sess m s := mkConn (c_rd s) m (c_highest s) (c_pc s) (c_done s) (c_ops s) (c_out s) (c_jobs s).
Definition with_highest h s := mkConn (c_rd s) (c_sess s) h (c_pc s) (c_done s) (c_ops s) (c_out s) (c_jobs s).
Definition goto pc s := mkConn (c_rd s) (c_sess s) (c_highest s) pc (c_done s) (c_ops s) (c_out s) (c_jobs s).
Definition with_op ch o s :=
  mkConn (c_rd s) (c_sess s) (c_highest s) (c_pc s) (c_done s) (<[ch := o]> (c_ops s)) (c_out s) (c_jobs s).
Definition ctx_cancel s := mkConn (c_rd s) (c_sess s) (c_highest s) (c_pc s) true (c_ops s) (c_out s) (c_jobs s).
Definition with_job ch j s :=
  mkConn (c_rd s) (c_sess s) (c_highest s) (c_pc s) (c_done s) (c_ops s) (c_out s) (<[ch := j]> (c_jobs s)).

(** The connection as the writer of the streams.  The callers drop the error of a
    failed write and the callback runs all the same, so its outcome is not kept. *)
Definition conn_Write (m : Z * reply) (s : conn) : option unit * conn :=
  (None, mkConn (c_rd s) (c_sess s) (c_highest s) (c_pc s) (c_done s) (c_ops s) (c_out s ++ [m]) (c_jobs s)).

(** [newResponseStream], with [OnClose] detaching the channel. *)
Definition conn_stream (ch : Z) : responseStream conn :=
  OnClose (λ s, with_sess (Detach ch (c_sess s)) s) (newResponseStream ch).

Definition send (ch : Z) (r : reply) (s : conn) : conn :=
  match r with
  | RWrite num data => (rs_Write conn_Write (conn_stream ch) num data s).2
  | RError num code msg => (rs_Error conn_Write (conn_stream ch) num code msg s).2
  | RClose num => (rs_Close conn_Write (conn_stream ch) num s).2
  end.

Section handler.
(** The names under which boxes are configured. *)
Context (boxes : gset string).

(** [corrupted profile: %v] prints the raw bytes. *)
Definition corrupted_msg (opts : list byte) : string :=
  String.append "corrupted profile: " (bytes_str opts).
Definition not_available_msg (t : string) : string :=
  String.append "isolate type " (String.append t " is not available").

(** The checks shared by [onSpool] and [onSpawn]: the isolate type, and a box for it. *)
Definition find_box (ch replyError : Z) (opts : list byte) (s : conn)
  : result derror string * conn :=
  match profile_Type opts with
  | Err _ =>
      (Err (CorruptedProfile opts), send ch (RError replyError errBadProfile (corrupted_msg opts)) s)
  | Ok t =>
      if decide (t ∈ boxes) then (Ok t, s)
      else (Err (IsolateNotAvailable t),
            send ch (RError replyError errUnknownIsolate (not_available_msg t)) s)
  end.

Definition onSpool (ch : Z) (opts : list byte) (name : string) (s : conn)
  : result derror (option Dispatcher) * conn :=
  match find_box ch replySpoolError opts s with
  | (Err e, s) => (Err e, s)
  | (Ok t, s) => (Ok (Some spoolCancelationDispatch),
      with_op ch (OpSpool new_spool) (with_job ch (t, ReqSpool opts name) s))
  end.

Definition onSpawn (ch : Z) (opts : list byte) (name executable : string)
    (args env : gmap string string) (s : conn)
  : result derror (option Dispatcher) * conn :=
  match find_box ch replySpawnError opts s with
  | (Err e, s) => (Err e, s)
  | (Ok t, s) => (Ok (Some spawnDispatch),
      with_op ch (OpSpawn new_spawn) (with_job ch (t, ReqSpawn opts name executable args env) s))
  end.

(** [initialDispatch.Handle] *)
Definition initial_Handle (ch id : Z) (s : conn) : result derror (option Dispatcher) * conn :=
  match readRequest id (c_rd s) with
  | (Err e, r) => (Err e, with_rd r s)
  | (Ok (ReqSpool opts name), r) => onSpool ch opts name (with_rd r s)
  | (Ok (ReqSpawn opts name executable args env), r) =>
      onSpawn ch opts name executable args env (with_rd r s)
  end.

(** [r.Skip()], its error dropped. *)
Definition skip (s : conn) : conn := with_rd (Skip (c_rd s)).2 s.

(** [s.cancel()] on the spool request. *)
Definition cancel_spool (ch : Z) (s : conn) : conn :=
  match c_ops s !! ch with
  | Some (OpSpool o) => with_op ch (OpSpool (mkSpool (sp_running o) true (sp_sent o))) s
  | _ => s
  end.

(** A reply of a request: written, and kept with the request. *)
Definition op_send (ch : Z) (r : reply) (s : conn) : conn :=
  let s := match c_ops s !! ch with
           | Some (OpSpool o) =>
               with_op ch (OpSpool (mkSpool (sp_running o) (sp_cancelled o) (sp_sent o ++ [r]))) s
           | _ => s
           end in
  send ch r s.

Definition spoolCancelation_Handle (ch id : Z) (s : conn)
  : result derror (option Dispatcher) * conn :=
  if id =? spoolCancel then
    (Ok None, op_send ch (RClose replySpoolOk) (cancel_spool ch (skip s)))
  else (Err (UnknownTransition id), s).

Definition spawn_Handle (ch id : Z) (s : conn)
  : result derror (option Dispatcher) * conn :=
  if id =? spawnKill then
    let s := skip s in
    (Ok None, match c_ops s !! ch with
              | Some (OpSpawn o) => with_op ch (OpSpawn (ask_kill o)) s
              | _ => s
              end)
  else (Err (UnknownTransition id), s).

Definition Handle (d : Dispatcher) (ch id : Z) (s : conn)
  : result derror (option Dispatcher) * conn :=
  match d with
  | initialDispatch => initial_Handle ch id s
  | spoolCancelationDispatch => spoolCancelation_Handle ch id s
  | spawnDispatch => spawn_Handle ch id s
  end.

(** The deferred [cancel()] and [conn.Close()]. *)
Definition hangup (s : conn) : conn := goto HClosed (ctx_cancel s).

(** The body of LOOP up to the lookup of the dispatcher. *)
Definition recv (s : conn) : conn :=
  match next (c_rd s) with
  | (Err _, r) => hangup (with_rd r s)
  | (Ok (hasHeaders, channel, c), r) =>
      let s := with_rd r s in
      match Get channel (c_sess s) with
      | Some d => goto (HHandle hasHeaders channel c d) s
      | None =>
          if channel <=? c_highest s then
            let s := skip s in
            goto HRecv (if hasHeaders then skip s else s)
          else goto (HHandle hasHeaders channel c initialDispatch) (with_highest channel s)
      end
  end.

(** [dispatcher.Handle], the headers, and the branch on the result. *)
Definition dispatch (hasHeaders : bool) (channel c : Z) (d : Dispatcher) (s : conn) : conn :=
  let '(res, s) := Handle d channel c s in
  let s := if hasHeaders then skip s else s in
  match res with
  | Err ErrInvalidArgsNum => hangup s
  | Err _ => goto (HDetach channel) s
  | Ok None => goto (HDetach channel) s
  | Ok (Some d) => goto (HAttach channel d) s
  end.

(** One move of the handler goroutine. *)
Definition handler (s : conn) : option conn :=
  match c_pc s with
  | HRecv => Some (recv s)
  | HHandle hh ch c d => Some (dispatch hh ch c d s)
  | HAttach ch d => Some (goto HRecv (with_sess (Attach ch d (c_sess s)) s))
  | HDetach ch => Some (goto HRecv (with_sess (Detach ch (c_sess s)) s))
  | HClosed => None
  end.

(** ** Moves of the connection *)
Inductive cevent :=
  | EHandler
  | ECtxDone                              (* the daemon's context is cancelled *)
  | ESpoolReturn (ch : Z) (err : option string)
  | ESpawn (ch : Z) (e : event).

(** The end of the goroutine of [onSpool]. *)
Definition spool_return (ch : Z) (err : option string) (s : conn) : option conn :=
  match c_ops s !! ch with
  | Some (OpSpool o) =>
      if sp_running o then
        Some (op_send ch
          (match err with
           | Some msg => RError replySpoolError errSpoolingFailed msg
           | None => RClose replySpoolOk
           end)
          (with_op ch (OpSpool (mkSpool false (sp_cancelled o) (sp_sent o))) s))
      else None
  | _ => None
  end.

(** What a move of a spawn request wrote goes out on its stream. *)
Definition spawn_move (ch : Z) (e : event) (s : conn) : option conn :=
  match c_ops s !! ch with
  | Some (OpSpawn o) =>
      match spawn_exec (c_done s) e o with
      | Some o' =>
          let rs := drop (length (so_sent o)) (so_sent o') in
          Some (fold_left (λ s r, send ch r s) rs (with_op ch (OpSpawn o') s))
      | None => None
      end
  | _ => None
  end.

Definition exec (e : cevent) (s : conn) : option conn :=
  match e with
  | EHandler => handler s
  | ECtxDone => Some (ctx_cancel s)
  | ESpoolReturn ch err => spool_return ch err s
  | ESpawn ch e => spawn_move ch e s
  end.

Inductive creach (r : Reader) : conn -> Prop :=
  | creach_init : creach r (newConnection r)
  | creach_exec e s s' : creach r s -> exec e s = Some s' -> creach r s'.
End handler.

(** ** What a reply does *)

(** The replies written on a channel. *)
Definition on (ch : Z) (out : list (Z * reply)) : list reply :=
  (filter (λ m, m.1 = ch) out).*2.

Lemma on_app ch l1 l2 : on ch (l1 ++ l2) = on ch l1 ++ on ch l2.
Proof. unfold on. by rewrite filter_app, fmap_app. Qed.
Lemma on_same ch rs : on ch (map (pair ch) rs) = rs.
Proof.
  unfold on. induction rs as [|r rs IH]; [done|]. cbn [map].
  rewrite filter_cons_True by done. cbn. by rewrite IH.
Qed.
Lemma on_other ch ch' rs : ch <> ch' -> on ch (map (pair ch') rs) = [].
Proof.
  intros H. unfold on. induction rs as [|r rs IH]; [done|]. cbn [map].
  by rewrite filter_cons_False by (cbn; congruence).
Qed.

Definition closes (rs : list reply) : bool := existsb terminal rs.

Lemma sends_eq ch rs s :
  fold_left (λ s r, send ch r s) rs s =
  mkConn (c_rd s) (if closes rs then delete ch (c_sess s) else c_sess s) (c_highest s)
    (c_pc s) (c_done s) (c_ops s) (c_out s ++ map (pair ch) rs) (c_jobs s).
Proof.
  revert s. induction rs as [|r rs IH]; intros s; cbn [fold_left map].
  { destruct s. cbn. by rewrite app_nil_r. }
  rewrite IH. unfold closes. cbn [existsb].
  destruct r as [num data|num code msg|num]; cbn -[delete]; rewrite <- app_assoc; [done|..];
    unfold Detach; (destruct (existsb terminal rs); [|done]); f_equal;
    apply delete_delete_eq.
Qed.

Lemma send_eq ch r s :
  send ch r s = mkConn (c_rd s) (if terminal r then delete ch (c_sess s) else c_sess s)
    (c_highest s) (c_pc s) (c_done s) (c_ops s) (c_out s ++ [(ch, r)]) (c_jobs s).
Proof.
  change (send ch r s) with (fold_left (λ s r, send ch r s) [r] s). rewrite sends_eq.
  unfold closes. cbn. by rewrite orb_false_r.
Qed.

Lemma spawn_exec_sent done e o o' :
  spawn_exec done e o = Some o' -> exists rs, so_sent o' = so_sent o ++ rs.
Proof.
  unfold spawn_exec, spawner_exec, killer_exec, output_exec. intros H.
  repeat (break_match_hyp H; simplify_eq); cbn; eauto; exists []; by rewrite app_nil_r.
Qed.

#[local] Arguments on : simpl never.
#[local] Arguments terminals : simpl never.

(** ** The invariant *)

Definition disp_for (d : Dispatcher) (o : op) : Prop :=
  match d, o with
  | spoolCancelationDispatch, OpSpool _ => True
  | spawnDispatch, OpSpawn _ => True
  | _, _ => False
  end.
Definition op_ok (done : bool) (o : op) : Prop :=
  match o with OpSpool _ => True | OpSpawn so => Inv done so end.
Definition serves (s : conn) (ch : Z) (d : Dispatcher) : Prop :=
  exists o, c_ops s !! ch = Some o /\ disp_for d o.

Definition pc_ok (s : conn) : Prop :=
  match c_pc s with
  | HHandle _ ch _ d => 0 < ch <= c_highest s /\
      (if decide (d = initialDispatch)
       then c_ops s !! ch = None /\ c_sess s !! ch = None /\ on ch (c_out s) = []
       else serves s ch d)
  | HAttach ch d => serves s ch d
  | HClosed => c_done s = true
  | _ => True
  end.

Record CInv (s : conn) : Prop := {
  ci_pos : 0 <= c_highest s;
  ci_ops : forall ch o, c_ops s !! ch = Some o ->
    0 < ch <= c_highest s /\ op_ok (c_done s) o /\ on ch (c_out s) = op_sent o;
  ci_sess : forall ch d, c_sess s !! ch = Some d -> serves s ch d;
  ci_out : forall ch, on ch (c_out s) <> [] -> 0 < ch <= c_highest s;
  ci_refused : forall ch, c_ops s !! ch = None -> (terminals (on ch (c_out s)) <= 1)%nat;
  ci_pc : pc_ok s
}.

Lemma CInv_init r : CInv (newConnection r).
Proof. split; cbn; try done. intros. unfold terminals, on. cbn. lia. Qed.

(** Replies of the request of a channel. *)
Lemma CInv_op s ch o o' rs :
  CInv s -> c_ops s !! ch = Some o -> op_ok (c_done s) o' -> op_sent o' = op_sent o ++ rs ->
  (forall d, disp_for d o -> disp_for d o') ->
  CInv (fold_left (λ s r, send ch r s) rs (with_op ch o' s)).
Proof.
  intros [P O S U F PC] Ho Hok Hs Hd. rewrite sends_eq.
  assert (forall c d, serves s c d -> serves (with_op ch o' s) c d) as Hserv.
  { intros c d (x & Hx & Hdx). unfold serves. cbn. destruct (decide (c = ch)) as [->|].
    - rewrite lookup_insert_eq. exists o'. split; [done|]. apply Hd. congruence.
    - rewrite lookup_insert_ne by done. eauto. }
  destruct (O _ _ Ho) as (Hch & _ & Hon). split; cbn; auto.
  - intros c x. destruct (decide (c = ch)) as [->|Hne].
    + rewrite lookup_insert_eq. intros [= <-]. rewrite on_app, on_same, Hon. auto.
    + rewrite lookup_insert_ne by done. rewrite on_app, on_other, app_nil_r by done. auto.
  - intros c d Hc. apply Hserv, S. by destruct (closes rs); [apply lookup_delete_Some in Hc as []|].
  - intros c. rewrite on_app. destruct (decide (c = ch)) as [->|Hne]; [auto|].
    rewrite on_other, app_nil_r by done. auto.
  - intros c. destruct (decide (c = ch)) as [->|Hne]; [by rewrite lookup_insert_eq|].
    rewrite lookup_insert_ne by done. rewrite on_app, on_other, app_nil_r by done. auto.
  - unfold pc_ok in *. cbn. destruct (c_pc s) as [|hh c n d|c d| |]; auto; [|exact (Hserv _ _ PC)].
    destruct PC as [Hc PC]. split; [done|].
    destruct (decide (d = initialDispatch)); [|exact (Hserv _ _ PC)].
    destruct PC as (P1 & P2 & P3).
    assert (c <> ch) as Hne by congruence. rewrite lookup_insert_ne by done.
    rewrite on_app, on_other, app_nil_r by done. split_and!; auto.
    destruct (closes rs); [|done]. by rewrite lookup_delete_ne.
Qed.

Lemma CInv_refuse s ch r hh c :
  CInv s -> c_pc s = HHandle hh ch c initialDispatch -> terminal r = true ->
  CInv (goto (HDetach ch) (send ch r s)).
Proof.
  intros [P O S U F PC] Hpc Hr. unfold pc_ok in PC. rewrite Hpc in PC.
  destruct PC as [Hc PC]. rewrite decide_True in PC by done. destruct PC as (P1 & P2 & P3).
  rewrite send_eq, Hr. change [(ch, r)] with (map (pair ch) [r]).
  split; cbn [goto c_rd c_sess c_highest c_pc c_done c_ops c_out]; auto.
  - intros c' x Hx. assert (c' <> ch) by congruence.
    rewrite on_app, on_other, app_nil_r by done. auto.
  - intros c' d Hc'. apply lookup_delete_Some in Hc' as [_ Hc']. by apply S.
  - intros c'. rewrite on_app. destruct (decide (c' = ch)) as [->|]; [auto|].
    rewrite on_other, app_nil_r by done. auto.
  - intros c' Hx. rewrite on_app. destruct (decide (c' = ch)) as [->|].
    + rewrite P3, on_same. by destruct r; cbn.
    + rewrite on_other, app_nil_r by done. auto.
  - done.
Qed.

(** Moves of the handler that change neither requests nor replies. *)
Lemma CInv_frame s s' :
  CInv s -> c_highest s <= c_highest s' -> c_ops s' = c_ops s -> c_out s' = c_out s ->
  (c_done s = true -> c_done s' = true) ->
  (forall ch d, c_sess s' !! ch = Some d -> serves s ch d) ->
  pc_ok s' -> CInv s'.
Proof.
  intros [P O S U F PC] Hh Ho Hu Hd Hs Hp.
  assert (forall o, op_ok (c_done s) o -> op_ok (c_done s') o) as Hok.
  { intros [|o] H; [done|]. cbn in *. destruct (c_done s'); [by eapply Inv_done|].
    by destruct (c_done s); [specialize (Hd eq_refl)|]. }
  split; [lia| | | | |done].
  - rewrite Ho, Hu. intros ch o H. destruct (O _ _ H) as (? & ? & ?). split_and!; auto; lia.
  - intros ch d H. destruct (Hs ch d H) as (o & H1 & H2). exists o. by rewrite Ho.
  - rewrite Hu. intros ch H. specialize (U ch H). lia.
  - by rewrite Ho, Hu.
Qed.

Lemma CInv_ctx s : CInv s -> CInv (ctx_cancel s).
Proof.
  intros H. apply (CInv_frame s); try done; [apply (ci_sess _ H)|].
  pose proof (ci_pc _ H) as Hp. unfold pc_ok in *. cbn. by destruct (c_pc s).
Qed.

Lemma CInv_hangup s : CInv s -> CInv (hangup s).
Proof. intros H. by apply (CInv_frame s); [..|apply (ci_sess _ H)|]. Qed.

Lemma CInv_rd s r : CInv s -> CInv (with_rd r s).
Proof. intros H. apply (CInv_frame s); try done; [apply (ci_sess _ H)|apply (ci_pc _ H)]. Qed.

Lemma CInv_skip s : CInv s -> CInv (skip s).
Proof. apply CInv_rd. Qed.

Lemma CInv_goto s pc : CInv s -> pc_ok (goto pc s) -> CInv (goto pc s).
Proof. intros H Hp. by apply (CInv_frame s); [..|apply (ci_sess _ H)|]. Qed.

Lemma CInv_recv s : CInv s -> c_pc s = HRecv -> CInv (recv s).
Proof.
  intros H Hpc. unfold recv. destruct (next (c_rd s)) as [[[[hh ch] c]|e] r].
  2: by apply CInv_hangup, CInv_rd.
  unfold Get. cbn [with_rd c_sess c_highest].
  pose proof (CInv_rd s r H) as H1. destruct (c_sess s !! ch) as [d|] eqn:Hs.
  - apply CInv_goto; [done|]. destruct (ci_sess _ H _ _ Hs) as (o & Ho & Hd).
    destruct (ci_ops _ H _ _ Ho) as (Hr & _). cbn. split; [done|].
    rewrite decide_False; [by exists o|]. by intros ->.
  - destruct (Z.leb_spec ch (c_highest s)) as [Hle|Hgt].
    + apply CInv_goto; [|done]. destruct hh; by repeat apply CInv_skip.
    + pose proof (ci_pos _ H). apply (CInv_frame s); cbn; try done; [lia|apply (ci_sess _ H)|].
      unfold pc_ok. cbn. split; [lia|]. split_and!; [|done|].
      * apply eq_None_not_Some. intros [o Ho]. apply (ci_ops _ H) in Ho as (? & _). lia.
      * pose proof (ci_out _ H ch) as Hne. destruct (on ch (c_out s)); [done|].
        specialize (Hne ltac:(done)). lia.
Qed.

(** Headers are skipped after [Handle]; this touches the reader only. *)
Lemma skip_goto pc s : goto pc (skip s) = skip (goto pc s).
Proof. done. Qed.
Lemma skip_hangup s : hangup (skip s) = skip (hangup s).
Proof. done. Qed.

Definition settle (channel : Z) (res : result derror (option Dispatcher)) (s : conn) : conn :=
  match res with
  | Err ErrInvalidArgsNum => hangup s
  | Err _ => goto (HDetach channel) s
  | Ok None => goto (HDetach channel) s
  | Ok (Some d) => goto (HAttach channel d) s
  end.

Lemma dispatch_settle boxes hh ch c d s :
  let hs := Handle boxes d ch c s in
  dispatch boxes hh ch c d s =
  (if hh then skip else λ s, s) (settle ch hs.1 hs.2).
Proof.
  cbv zeta. unfold dispatch. destruct (Handle boxes d ch c s) as [res s1]. cbn.
  destruct hh; [|done]. by destruct res as [[d'|]|[]].
Qed.

Section dispatch.
Context (boxes : gset string) (s : conn) (hh : bool) (ch c : Z).
Context (H : CInv s).

Lemma CInv_detach_goto : CInv (goto (HDetach ch) s).
Proof using H. by apply CInv_goto. Qed.

Lemma CInv_start d o j :
  c_pc s = HHandle hh ch c initialDispatch -> op_sent o = [] -> op_ok (c_done s) o ->
  disp_for d o -> CInv (goto (HAttach ch d) (with_op ch o (with_job ch j s))).
Proof using H.
  intros Hpc Hs Ho Hd. destruct H as [P O S U F PC]. unfold pc_ok in PC. rewrite Hpc in PC.
  destruct PC as [Hc PC]. rewrite decide_True in PC by done. destruct PC as (P1 & P2 & P3).
  assert (forall c' d', serves s c' d' -> serves (goto (HAttach ch d) (with_op ch o (with_job ch j s))) c' d')
    as Hserv.
  { intros c' d' (x & Hx & Hdx). exists x. split; [|done]. cbn.
    rewrite lookup_insert_ne; [done|congruence]. }
  split; cbn; auto.
  - intros c' x. destruct (decide (c' = ch)) as [->|].
    + rewrite lookup_insert_eq. intros [= <-]. by rewrite P3, Hs.
    + rewrite lookup_insert_ne by done. auto.
  - intros c'. destruct (decide (c' = ch)) as [->|]; [by rewrite lookup_insert_eq|].
    rewrite lookup_insert_ne by done. auto.
  - exists o. cbn. by rewrite lookup_insert_eq.
Qed.

Lemma CInv_find_box n opts (k : string -> op * Dispatcher) req :
  c_pc s = HHandle hh ch c initialDispatch ->
  (forall t, op_sent (k t).1 = [] /\ op_ok (c_done s) (k t).1 /\ disp_for (k t).2 (k t).1) ->
  let res := find_box boxes ch n opts s in
  CInv (match res with
        | (Err e, s1) => settle ch (Err e) s1
        | (Ok t, s1) => settle ch (Ok (Some (k t).2)) (with_op ch (k t).1 (with_job ch (t, req) s1))
        end).
Proof using H.
  intros Hpc Hk. unfold find_box. cbv zeta.
  destruct (profile_Type opts) as [t|e]; [destruct (decide (t ∈ boxes))|].
  - destruct (Hk t) as (? & ? & ?). by apply CInv_start.
  - by eapply CInv_refuse.
  - by eapply CInv_refuse.
Qed.

Lemma CInv_settle_err e : CInv (settle ch (Err e) s).
Proof using H. destruct e; first [by apply CInv_detach_goto | by apply CInv_hangup]. Qed.
End dispatch.

Lemma CInv_initial boxes s hh ch c :
  CInv s -> c_pc s = HHandle hh ch c initialDispatch ->
  let hs := initial_Handle boxes ch c s in CInv (settle ch hs.1 hs.2).
Proof.
  intros H Hpc. cbv zeta. unfold initial_Handle.
  destruct (readRequest c (c_rd s)) as [[[opts name|opts name exe args env]|e] r].
  - pose proof (CInv_find_box boxes (with_rd r s) hh ch c (CInv_rd s r H) replySpoolError opts
      (λ _, (OpSpool new_spool, spoolCancelationDispatch)) (ReqSpool opts name) Hpc ltac:(done)) as G.
    cbv zeta in G. unfold onSpool. by destruct (find_box _ _ _ _ _) as [[t|e] s1].
  - pose proof (CInv_find_box boxes (with_rd r s) hh ch c (CInv_rd s r H) replySpawnError opts
      (λ _, (OpSpawn new_spawn, spawnDispatch)) (ReqSpawn opts name exe args env) Hpc) as G.
    cbv zeta in G. unfold onSpawn. specialize (G ltac:(intros; split_and!; try done; apply Inv_new)).
    by destruct (find_box _ _ _ _ _) as [[t|e] s1].
  - by apply CInv_settle_err, CInv_rd.
Qed.

(** Replies kept by a spool request. *)
Lemma CInv_op_send s ch r o :
  CInv s -> c_ops s !! ch = Some (OpSpool o) -> CInv (op_send ch r s).
Proof.
  intros H Ho. unfold op_send. cbv zeta. rewrite Ho.
  apply (CInv_op s ch (OpSpool o) _ [r]); try done.
Qed.

Lemma CInv_spool_set s ch o o' :
  CInv s -> c_ops s !! ch = Some (OpSpool o) -> sp_sent o' = sp_sent o ->
  CInv (with_op ch (OpSpool o') s).
Proof.
  intros H Ho Hs. apply (CInv_op s ch (OpSpool o) (OpSpool o') []); try done.
  cbn. by rewrite app_nil_r.
Qed.

Lemma CInv_spool_handle s ch c o :
  CInv s -> c_ops s !! ch = Some (OpSpool o) ->
  let hs := spoolCancelation_Handle ch c s in CInv (settle ch hs.1 hs.2).
Proof.
  intros H Ho. cbv zeta. unfold spoolCancelation_Handle.
  destruct (c =? spoolCancel); [|by apply CInv_settle_err].
  cbn [fst snd settle]. apply CInv_detach_goto.
  unfold cancel_spool, skip. cbn [with_rd c_ops]. rewrite Ho.
  eapply CInv_op_send; [|cbn; by rewrite lookup_insert_eq].
  eapply CInv_spool_set; [by apply CInv_rd|done|done].
Qed.

Lemma CInv_spawn_handle s ch c o :
  CInv s -> c_ops s !! ch = Some (OpSpawn o) ->
  let hs := spawn_Handle ch c s in CInv (settle ch hs.1 hs.2).
Proof.
  intros H Ho. cbv zeta. unfold spawn_Handle.
  destruct (c =? spawnKill); [|by apply CInv_settle_err].
  cbn [fst snd settle]. apply CInv_detach_goto. unfold skip. cbn [with_rd c_ops]. rewrite Ho.
  destruct (ci_ops _ H _ _ Ho) as (_ & Hi & _).
  apply (CInv_op (with_rd (Skip (c_rd s)).2 s) ch (OpSpawn o) (OpSpawn (ask_kill o)) []); try done.
  - by apply CInv_rd.
  - by apply Inv_ask.
  - cbn. by rewrite app_nil_r.
Qed.

Lemma CInv_dispatch boxes s hh ch c d :
  CInv s -> c_pc s = HHandle hh ch c d -> CInv (dispatch boxes hh ch c d s).
Proof.
  intros H Hpc. rewrite dispatch_settle. pose proof (ci_pc _ H) as Hp. unfold pc_ok in Hp.
  rewrite Hpc in Hp. destruct Hp as [_ Hp].
  assert (CInv (settle ch (Handle boxes d ch c s).1 (Handle boxes d ch c s).2)) as G.
  { destruct (decide (d = initialDispatch)) as [->|Hd]; [by eapply CInv_initial|].
    destruct Hp as ([o|o] & Ho & Hdo); destruct d; try done.
    - by eapply CInv_spool_handle.
    - by eapply CInv_spawn_handle. }
  destruct hh; [by apply CInv_skip|done].
Qed.

Lemma CInv_handler boxes s s' : CInv s -> handler boxes s = Some s' -> CInv s'.
Proof.
  intros H. unfold handler. destruct (c_pc s) as [|hh ch c d|ch d|ch|] eqn:Hpc; intros E;
    simplify_eq.
  - by apply CInv_recv.
  - by apply CInv_dispatch.
  - pose proof (ci_pc _ H) as Hp. unfold pc_ok in Hp. rewrite Hpc in Hp.
    apply (CInv_frame s); try done. cbn. unfold Attach. intros ch' d' [[-> ->]|[_ Hs]]%lookup_insert_Some.
    + done.
    + by apply (ci_sess _ H).
  - apply (CInv_frame s); try done. cbn. unfold Detach. intros ch' d' [_ Hs]%lookup_delete_Some.
    by apply (ci_sess _ H).
Qed.

Lemma CInv_exec boxes e s s' : CInv s -> exec boxes e s = Some s' -> CInv s'.
Proof.
  intros H. destruct e as [| |ch err|ch e]; cbn [exec].
  - by apply CInv_handler.
  - intros [= <-]. by apply CInv_ctx.
  - unfold spool_return. destruct (c_ops s !! ch) as [[o|o]|] eqn:Ho; try done.
    destruct (sp_running o); [|done]. intros [= <-].
    eapply CInv_op_send; [|cbn; by rewrite lookup_insert_eq]. by eapply CInv_spool_set.
  - unfold spawn_move. destruct (c_ops s !! ch) as [[o|o]|] eqn:Ho; try done.
    destruct (spawn_exec (c_done s) e o) as [o'|] eqn:E; [|done]. intros [= <-].
    destruct (spawn_exec_sent _ _ _ _ E) as [rs Hrs].
    destruct (ci_ops _ H _ _ Ho) as (_ & Hi & _).
    rewrite Hrs, drop_app_length. apply (CInv_op s ch (OpSpawn o)); try done.
    by eapply Inv_exec.
Qed.

Lemma creach_CInv boxes r s : creach boxes r s -> CInv s.
Proof. induction 1; eauto using CInv_init, CInv_exec. Qed.

(** ** What the connection guarantees *)

Definition crun (boxes : gset string) (es : list cevent) (s : conn) : option conn :=
  fold_left (λ x e, x ≫= exec boxes e) es (Some s).

Lemma crun_reach boxes r es s s' :
  creach boxes r s -> crun boxes es s = Some s' -> creach boxes r s'.
Proof.
  unfold crun. revert s. induction es as [|e es IH]; cbn; intros s Hs H; [by simplify_eq|].
  destruct (exec boxes e s) as [s1|] eqn:E.
  - eapply IH; [by eapply creach_exec|done].
  - exfalso. clear - H. induction es; [done|]. by apply IHes.
Qed.

(** A client that asks for a worker on channel 1 and hangs up. *)
Definition demo_input : Reader :=
  NewReader DefaultReaderSize (map (λ b, (b, []))
    (header 3 1 spawn ++ spawn_args demo_profile "app" "worker" [] [])) EOF false.
Definition demo_events : list cevent :=
  [EHandler; EHandler; EHandler; ESpawn 1 (SpawnReturn SpawnOk); ESpawn 1 (Output []);
   EHandler; ESpawn 1 SpawnerCancelled; ESpawn 1 (SpawnerKillReturn None); ESpawn 1 SpawnerClose].
Definition demo_boxes : gset string := {["process"]}.
Definition demo_end : conn :=
  default (newConnection demo_input) (crun demo_boxes demo_events (newConnection demo_input)).

Lemma demo_reach : creach demo_boxes demo_input demo_end.
Proof.
  eapply (crun_reach _ _ demo_events (newConnection demo_input)); [constructor|].
  unfold demo_end. destruct (crun _ _ _) eqn:E; [done|].
  exfalso. apply (f_equal (λ x, match x with Some _ => true | None => false end)) in E.
  vm_compute in E. done.
Qed.

(** C9: the messages on the channel of a spawn request are exactly what the request
    wrote, in that order, and at most one of them is terminal; a refused request
    got at most one reply; no message goes out on a channel the client did not
    open. *)
Theorem conn_replies boxes r s ch :
  creach boxes r s ->
  (forall o, c_ops s !! ch = Some (OpSpawn o) ->
     on ch (c_out s) = so_sent o /\ (terminals (on ch (c_out s)) <= 1)%nat) /\
  (c_ops s !! ch = None -> (terminals (on ch (c_out s)) <= 1)%nat) /\
  (on ch (c_out s) <> [] -> 0 < ch <= c_highest s).
Proof.
  intros H%creach_CInv. split_and!.
  - intros o Ho. destruct (ci_ops _ H _ _ Ho) as (_ & Hi & Hon). split; [done|].
    rewrite Hon. by apply (Inv_once (c_done s)).
  - apply (ci_refused _ H).
  - apply (ci_out _ H).
Qed.

Lemma conn_replies_witness :
  on 1 (c_out demo_end) = [RWrite 0 []; RClose 2] /\
  (on 1 (c_out demo_end) <> [] -> 0 < 1 <= c_highest demo_end).
Proof. split; [by vm_compute|]. apply (conn_replies _ _ _ 1 demo_reach). Defined.

(** The goroutines of every request are at rest. *)
Definition conn_quiet (s : conn) : Prop :=
  forall ch o, c_ops s !! ch = Some (OpSpawn o) -> quiet (c_done s) o.

(** C1: when a connection has ended, for whatever reason, and its goroutines came to
    rest, every process that was spawned over it has been killed exactly once. *)
Theorem conn_no_orphans boxes r s ch o :
  creach boxes r s -> c_pc s = HClosed -> conn_quiet s ->
  c_ops s !! ch = Some (OpSpawn o) -> so_process o = true -> so_kills o = 1%nat.
Proof.
  intros H%creach_CInv Hpc Q Ho Hp. pose proof (ci_pc _ H) as Hd. unfold pc_ok in Hd.
  rewrite Hpc in Hd. destruct (ci_ops _ H _ _ Ho) as (_ & Hi & _).
  destruct (quiet_killed _ _ Hi (Q _ _ Ho) (or_introl Hd)) as [_ K]. by apply K.
Qed.

Definition demo_op : spawn_op :=
  mkSpawn SpDone false true [] true true 1 [RWrite 0 []; RClose 2].

Lemma demo_ops : c_ops demo_end = {[ 1 := OpSpawn demo_op ]} /\ c_done demo_end = true.
Proof. by vm_compute. Qed.

Lemma demo_quiet : conn_quiet demo_end.
Proof.
  intros ch o. destruct demo_ops as [-> ->]. intros [<- [= <-]]%lookup_singleton_Some.
  intros e He. destruct e as [[]|p|i| | | |i|i|i|i|i err]; try reflexivity. by destruct (He p).
Qed.

Lemma conn_no_orphans_witness : so_process demo_op = true /\ so_kills demo_op = 1%nat.
Proof.
  split; [reflexivity|]. apply (conn_no_orphans demo_boxes demo_input demo_end 1).
  - apply demo_reach.
  - vm_compute. reflexivity.
  - apply demo_quiet.
  - vm_compute. reflexivity.
  - reflexivity.
Defined.

(** ** Requests are never replaced *)

Definition grows (o o' : op) : Prop :=
  (forall d, disp_for d o -> disp_for d o') /\ op_sent o `prefix_of` op_sent o'.
Definition ops_grow (s s' : conn) : Prop :=
  forall ch o, c_ops s !! ch = Some o -> exists o', c_ops s' !! ch = Some o' /\ grows o o'.

#[export] Instance ops_grow_preorder : PreOrder ops_grow.
Proof.
  split.
  - intros s ch o Ho. exists o. by repeat split.
  - intros s1 s2 s3 H12 H23 ch o Ho. destruct (H12 _ _ Ho) as (o2 & H2 & G1 & P1).
    destruct (H23 _ _ H2) as (o3 & H3 & G2 & P2). exists o3. split; [done|].
    split; [auto|by etrans].
Qed.

Lemma ops_grow_same s s' : c_ops s' = c_ops s -> ops_grow s s'.
Proof. intros E ch o Ho. exists o. rewrite E. by repeat split. Qed.

Lemma ops_grow_set s ch o o' : c_ops s !! ch = Some o -> grows o o' -> ops_grow s (with_op ch o' s).
Proof.
  intros Ho G c x Hx. cbn. destruct (decide (c = ch)) as [->|].
  - rewrite lookup_insert_eq. simplify_eq. eauto.
  - rewrite lookup_insert_ne by done. exists x. by repeat split.
Qed.

Lemma ops_grow_fresh s ch o' : c_ops s !! ch = None -> ops_grow s (with_op ch o' s).
Proof.
  intros Ho c x Hx. cbn. rewrite lookup_insert_ne by congruence. exists x. by repeat split.
Qed.

Lemma ops_grow_send ch r s : ops_grow s (send ch r s).
Proof. apply ops_grow_same. by rewrite send_eq. Qed.

Lemma ops_grow_op_send ch r s : ops_grow s (op_send ch r s).
Proof.
  unfold op_send. etrans; [|apply ops_grow_send].
  destruct (c_ops s !! ch) as [[o|o]|] eqn:Ho; try done.
  eapply ops_grow_set; [done|]. split; [done|]. cbn. by apply prefix_app_r.
Qed.

Lemma ops_grow_initial boxes ch id s :
  c_ops s !! ch = None -> ops_grow s (initial_Handle boxes ch id s).2.
Proof.
  intros Hn. unfold initial_Handle.
  assert (forall n opts s, ops_grow s (find_box boxes ch n opts s).2 /\
    c_ops (find_box boxes ch n opts s).2 = c_ops s) as F.
  { intros n opts s0. unfold find_box. repeat case_match; cbn [snd]; split;
      try apply ops_grow_send; rewrite ?send_eq; try done. }
  destruct (readRequest id (c_rd s)) as [[[opts name|opts name exe args env]|e] r];
    [| |by apply ops_grow_same].
  - unfold onSpool. destruct (F replySpoolError opts (with_rd r s)) as [F1 F2].
    destruct (find_box _ _ _ _ _) as [[t|e] s1]; cbn [snd] in *; [|done].
    etrans; [exact F1|]. apply (ops_grow_fresh (with_job _ _ s1)). cbn. by rewrite F2.
  - unfold onSpawn. destruct (F replySpawnError opts (with_rd r s)) as [F1 F2].
    destruct (find_box _ _ _ _ _) as [[t|e] s1]; cbn [snd] in *; [|done].
    etrans; [exact F1|]. apply (ops_grow_fresh (with_job _ _ s1)). cbn. by rewrite F2.
Qed.

Lemma ops_grow_Handle boxes d ch id s :
  (d = initialDispatch -> c_ops s !! ch = None) -> ops_grow s (Handle boxes d ch id s).2.
Proof.
  intros Hi. destruct d; cbn [Handle]; [by apply ops_grow_initial, Hi|..].
  - unfold spoolCancelation_Handle. destruct (_ =? _); [|done]. cbn [snd].
    etrans; [|apply ops_grow_op_send]. unfold cancel_spool.
    destruct (c_ops (skip s) !! ch) as [[o|o]|] eqn:Ho; [|by apply ops_grow_same..].
    apply (ops_grow_set (skip s) ch (OpSpool o)); [done|]. by repeat split.
  - unfold spawn_Handle. destruct (_ =? _); [|done]. cbn [snd].
    destruct (c_ops (skip s) !! ch) as [[o|o]|] eqn:Ho; [by apply ops_grow_same| |by apply ops_grow_same].
    apply (ops_grow_set (skip s) ch (OpSpawn o)); [done|]. by repeat split.
Qed.

Lemma ops_grow_handler boxes s s' : CInv s -> handler boxes s = Some s' -> ops_grow s s'.
Proof.
  intros H. unfold handler. destruct (c_pc s) as [|hh ch c d|ch d|ch|] eqn:Hpc; intros E;
    simplify_eq; try by apply ops_grow_same.
  - apply ops_grow_same. unfold recv. repeat case_match; done.
  - rewrite dispatch_settle. etrans; [apply (ops_grow_Handle boxes d ch c)|].
    + intros ->. pose proof (ci_pc _ H) as Hp. unfold pc_ok in Hp. rewrite Hpc in Hp.
      by destruct Hp as [_ (? & _)].
    + apply ops_grow_same. destruct hh; by destruct (Handle boxes d ch c s).1 as [[]|[]].
Qed.

(** A channel serves one request in its life: no later message or goroutine
    replaces the request, changes its kind or takes back what it wrote. *)
Theorem channel_one_request boxes r e s s' ch o :
  creach boxes r s -> exec boxes e s = Some s' -> c_ops s !! ch = Some o ->
  exists o', c_ops s' !! ch = Some o' /\ (forall d, disp_for d o -> disp_for d o') /\
             op_sent o `prefix_of` op_sent o'.
Proof.
  intros H%creach_CInv E. revert ch o. change (ops_grow s s').
  destruct e as [| |ch err|ch e]; cbn [exec] in E.
  - by eapply ops_grow_handler.
  - simplify_eq. by apply ops_grow_same.
  - unfold spool_return in E. destruct (c_ops s !! ch) as [[o|o]|] eqn:Ho; try done.
    destruct (sp_running o); [|done]. simplify_eq. etrans; [|apply ops_grow_op_send].
    eapply ops_grow_set; [done|]. by repeat split.
  - unfold spawn_move in E. destruct (c_ops s !! ch) as [[o|o]|] eqn:Ho; try done.
    destruct (spawn_exec (c_done s) e o) as [o'|] eqn:Ex; [|done]. simplify_eq.
    rewrite sends_eq. destruct (spawn_exec_sent _ _ _ _ Ex) as [rs Hrs].
    etrans; [apply (ops_grow_set s ch (OpSpawn o) (OpSpawn o') Ho)|by apply ops_grow_same].
    split; [done|]. cbn. rewrite Hrs. by apply prefix_app_r.
Qed.

Lemma channel_one_request_witness :
  exists o', c_ops (ctx_cancel demo_end) !! 1 = Some o' /\
    (forall d, disp_for d (OpSpawn demo_op) -> disp_for d o') /\
    op_sent (OpSpawn demo_op) `prefix_of` op_sent o'.
Proof.
  apply (channel_one_request demo_boxes demo_input ECtxDone demo_end).
  - apply demo_reach.
  - reflexivity.
  - vm_compute. reflexivity.
Defined.

(** ** The handler terminates *)

Definition pc_weight (pc : hpc) : nat :=
  match pc with HRecv => 1 | HHandle _ _ _ _ => 3 | HAttach _ _ | HDetach _ => 2 | HClosed => 0 end.
Definition left_ (s : conn) : nat := length (pending (c_rd s)).
Definition hweight (s : conn) : nat := (3 * left_ s + pc_weight (c_pc s))%nat.

Lemma left_skip s : (left_ (skip s) <= left_ s)%nat.
Proof. apply Skip_shrinks. Qed.
Lemma left_send ch r s : left_ (send ch r s) = left_ s.
Proof. by rewrite send_eq. Qed.
Lemma left_op_send ch r s : left_ (op_send ch r s) = left_ s.
Proof. unfold op_send. rewrite left_send. by repeat case_match. Qed.

Lemma left_Handle boxes d ch id s : (left_ (Handle boxes d ch id s).2 <= left_ s)%nat.
Proof.
  assert (forall n opts s, left_ (find_box boxes ch n opts s).2 = left_ s) as F.
  { intros n opts s0. unfold find_box. repeat case_match; cbn [snd]; rewrite ?left_send; done. }
  destruct d; cbn [Handle].
  - unfold initial_Handle. pose proof (readRequest_shrinks id (c_rd s)) as R.
    destruct (readRequest id (c_rd s)) as [[[opts name|opts name exe args env]|e] r]; [| |done].
    + unfold onSpool. specialize (F replySpoolError opts (with_rd r s)).
      destruct (find_box _ _ _ _ _) as [[t|e] s1]; cbn in *; unfold left_ in *; cbn in *; lia.
    + unfold onSpawn. specialize (F replySpawnError opts (with_rd r s)).
      destruct (find_box _ _ _ _ _) as [[t|e] s1]; cbn in *; unfold left_ in *; cbn in *; lia.
  - unfold spoolCancelation_Handle. destruct (_ =? _); [|done]. cbn [snd].
    rewrite left_op_send. etrans; [|apply left_skip]. unfold cancel_spool. by repeat case_match.
  - unfold spawn_Handle. destruct (_ =? _); [|done]. cbn [snd].
    etrans; [|apply left_skip]. by repeat case_match.
Qed.

(** C21: the handler of a connection terminates whatever the client sends: every
    move of it decreases a measure over the bytes the client has left to send, so a
    finite input ends in [HClosed]. *)
Theorem handler_terminates boxes s s' :
  handler boxes s = Some s' -> (hweight s' < hweight s)%nat.
Proof.
  unfold handler, hweight. destruct (c_pc s) as [|hh ch c d|ch d|ch|]; intros E; simplify_eq;
    cbn [pc_weight].
  - destruct next_wb as (_ & N1 & N2 & _). specialize (N1 (c_rd s)). unfold recv.
    destruct (next (c_rd s)) as [[[[hh ch] c]|e] r] eqn:En.
    + specialize (N2 _ _ _ En). unfold left_ in *. repeat case_match; cbn; try lia.
      * pose proof (Skip_shrinks r). pose proof (Skip_shrinks (Skip r).2). cbn in *. lia.
      * pose proof (Skip_shrinks r). cbn in *. lia.
    + unfold left_. cbn in *. lia.
  - rewrite dispatch_settle. pose proof (left_Handle boxes d ch c s) as L.
    set (h := Handle boxes d ch c s) in *.
    assert (left_ (settle ch h.1 h.2) = left_ h.2 /\
            (pc_weight (c_pc (settle ch h.1 h.2)) <= 2)%nat) as [S1 S2].
    { destruct h as [[[]|[]] s1]; cbn; unfold left_; cbn; lia. }
    destruct hh; [|lia]. pose proof (left_skip (settle ch h.1 h.2)). cbn in *. lia.
  - unfold left_; cbn; lia.
  - unfold left_; cbn; lia.
Qed.

Lemma handler_terminates_witness :
  (hweight (recv (newConnection demo_input)) < hweight (newConnection demo_input))%nat.
Proof. apply (handler_terminates demo_boxes). reflexivity. Defined.

(** A message on a channel that was already served and is detached (a kill that
    crossed the reply) has no effect: it is consumed whole, headers included, and
    the next message is read from the byte after it. *)
Theorem late_message_ignored s n ch c args headers rest :
  c_pc s = HRecv -> c_sess s !! ch = None -> 0 <= ch <= c_highest s ->
  c_highest s < 2 ^ 64 -> 0 <= c < 2 ^ 64 -> n = 3 /\ headers = [] \/ n = 4 /\ objs false 1 headers ->
  objs false 1 args -> pending (c_rd s) = header n ch c ++ args ++ headers ++ rest ->
  exists r', recv s = with_rd r' s /\ pending r' = rest.
Proof.
  intros Hpc Hs Hch Hh Hc Hn Ha Hp.
  destruct (reads_next n ch c ltac:(lia) ltac:(lia) ltac:(lia) _ _ Hp) as (r1 & E1 & P1 & _).
  destruct (reads_Skip args Ha _ _ P1) as (r2 & E2 & P2 & _).
  unfold recv. rewrite E1. unfold Get, skip. cbn [with_rd c_sess c_highest c_rd]. rewrite Hs.
  destruct (Z.leb_spec ch (c_highest s)); [|lia]. rewrite E2. cbn [snd c_rd].
  destruct s as [rd se hi pc dn ops out jobs]. cbn in Hpc. subst pc.
  destruct Hn as [[-> ->]|[-> Hx]]; cbn [Z.eqb Pos.eqb].
  - by exists r2.
  - destruct (reads_Skip headers Hx _ _ P2) as (r3 & E3 & P3 & _). exists r3.
    split; [|done]. cbn [with_rd c_rd]. by rewrite E3.
Qed.

(** The client of [demo_end] had sent one more kill of its request. *)
Definition late_state : conn := goto HRecv (with_rd
  (NewReader DefaultReaderSize (map (λ b, (b, [])) (header 3 1 0 ++ AppendArrayHeader [] 0)) EOF false)
  demo_end).

Lemma late_message_ignored_witness :
  exists r', recv late_state = with_rd r' late_state /\ pending r' = [].
Proof.
  apply (late_message_ignored late_state 3 1 0 (AppendArrayHeader [] 0) [] []).
  - reflexivity.
  - vm_compute. reflexivity.
  - vm_compute. split; discriminate.
  - vm_compute. reflexivity.
  - lia.
  - by left.
  - apply objs_scalar, (wire_array_header 0). lia.
  - vm_compute. reflexivity.
Defined.

(** ** Behaviours worth knowing *)

(** A client that spools and cancels on channel 1. *)
Definition spool_input : Reader :=
  NewReader DefaultReaderSize (map (λ b, (b, []))
    (header 3 1 spool ++ spool_args demo_profile "app" ++
     header 3 1 spoolCancel ++ AppendArrayHeader [] 0)) EOF false.

(** A cancelled spool answers twice: the cancellation closes the channel and the
    interrupted [box.Spool] still reports its error on it. *)
Lemma spool_cancel_answers_twice :
  let s := crun demo_boxes [EHandler; EHandler; EHandler; EHandler; EHandler; EHandler;
    ESpoolReturn 1 (Some "context canceled")] (newConnection spool_input) in
  option_map (λ s, terminals (on 1 (c_out s))) s = Some 2%nat.
Proof. by vm_compute. Qed.

(** A request that ends between [Handle] and [Attach] leaves its dispatcher in the
    session map: the reply detaches the channel before it is attached. *)
Lemma attach_after_detach :
  let s := crun demo_boxes [EHandler; EHandler; ESpoolReturn 1 None; EHandler]
    (newConnection spool_input) in
  option_map (λ s, (on 1 (c_out s), c_sess s !! 1)) s =
  Some ([RClose replySpoolOk], Some spoolCancelationDispatch).
Proof. by vm_compute. Qed.

(** A message whose number the dispatcher does not know is refused without reading
    its arguments: the handler takes them for the next message. *)
Lemma unknown_transition_unread boxes hh ch id s :
  id <> spool -> id <> spawn ->
  dispatch boxes hh ch id initialDispatch s =
  (if hh then skip else λ s, s) (goto (HDetach ch) (with_rd (c_rd s) s)).
Proof.
  intros H0 H1. rewrite dispatch_settle. unfold Handle, initial_Handle, readRequest.
  destruct (Z.eqb_spec id spool); [done|]. by destruct (Z.eqb_spec id spawn).
Qed.
