(* ===== verification/Json.v ===== *)
(** * JSON texts

    The texts that encoding/json writes and reads for the daemon: the configuration file,
    the journal file, the records of the address pool and the messages of its service.
    [parse_value] is the grammar the decoder accepts and what it makes of strings,
    [print] what [json.Marshal] writes; the round trip is [parse_print].  Other files work
    on documents; [parse] and [print] connect them with bytes. *)

From Stdlib Require Import ZArith Lia Ascii String Strings.Byte.
From S2P Require Import Prelude.

(** ** Documents *)

#[warnings="-register-all"]
Inductive json :=
  | JNull
  | JBool (b : bool)
  | JNum (literal : string)             (* as written *)
  | JStr (s : string)
  | JArr (elements : list json)
  | JObj (fields : list (string * json)).

(** ** Strings *)

Definition between (lo hi : Z) (b : byte) : bool := (lo <=? b2z b) && (b2z b <=? hi).
Definition cont (b : byte) : bool := between 128 191 b.

(** Whether two, three or four bytes are the UTF-8 form of a code point. *)
Definition utf8_2 (a b : byte) : bool := between 194 223 a && cont b.
Definition utf8_3 (a b c : byte) : bool :=
  (between 224 224 a && between 160 191 b || between 225 236 a && cont b ||
   between 237 237 a && between 128 159 b || between 238 239 a && cont b) && cont c.
Definition utf8_4 (a b c d : byte) : bool :=
  (between 240 240 a && between 144 191 b || between 241 243 a && cont b ||
   between 244 244 a && between 128 143 b) && cont c && cont d.

(** [utf8.EncodeRune] of a code point that is not a surrogate. *)
Definition EncodeRune (r : Z) : list byte :=
  if r <=? 127 then [z2b r]
  else if r <=? 2047 then [z2b (192 + r / 64); z2b (128 + r mod 64)]
  else if r <=? 65535 then [z2b (224 + r / 4096); z2b (128 + r / 64 mod 64); z2b (128 + r mod 64)]
  else [z2b (240 + r / 262144); z2b (128 + r / 4096 mod 64); z2b (128 + r / 64 mod 64); z2b (128 + r mod 64)].

Definition RuneError : list byte := [xef; xbf; xbd].

Definition hex_digit (b : byte) : option Z :=
  if between 48 57 b then Some (b2z b - 48)
  else if between 97 102 b then Some (b2z b - 87)
  else if between 65 70 b then Some (b2z b - 55)
  else None.

(** The four digits after [\u]. *)
Definition u4 (a b c d : byte) : option Z :=
  a ← hex_digit a; b ← hex_digit b; c ← hex_digit c; d ← hex_digit d;
  Some (((a * 16 + b) * 16 + c) * 16 + d).

Definition surrogate (r : Z) : bool := (55296 <=? r) && (r <? 57344).

(** [utf16.DecodeRune] on a high and a low surrogate. *)
Definition pair_rune (hi lo : Z) : option Z :=
  if (55296 <=? hi) && (hi <? 56320) && (56320 <=? lo) && (lo <? 57344)
  then Some ((hi - 55296) * 1024 + (lo - 56320) + 65536) else None.

Definition escape (b : byte) : option byte :=
  match b with
  | x22 => Some x22 | x5c => Some x5c | x2f => Some x2f | x62 => Some x08 | x66 => Some x0c
  | x6e => Some x0a | x72 => Some x0d | x74 => Some x09 | _ => None
  end.

(** [\u], what follows it already read as [r], and the text after it: the bytes it stands
    for and how many bytes more it takes.  Half of a pair becomes U+FFFD. *)
Definition unicode (r : Z) (l : list byte) : list byte * nat :=
  if surrogate r then
    match l with
    | x :: y :: a :: b :: c :: d :: _ =>
        if decide (x = x5c /\ y = x75) then
          match (r' ← u4 a b c d; pair_rune r r') with
          | Some rr => (EncodeRune rr, 6%nat)
          | None => (RuneError, 0%nat)
          end
        else (RuneError, 0%nat)
    | _ => (RuneError, 0%nat)
    end
  else (EncodeRune r, 0%nat).

(** What follows a backslash: the bytes it stands for and how many it takes. *)
Definition escaped (l : list byte) : option (list byte * nat) :=
  match l with
  | e :: l1 =>
      if decide (e = x75) then
        match l1 with
        | a :: b :: c :: d :: l' => r ← u4 a b c d; let '(bs, n) := unicode r l' in Some (bs, (5 + n)%nat)
        | _ => None
        end
      else b ← escape e; Some ([b], 1%nat)
  | [] => None
  end.

(** A byte above ASCII and what follows it: the text taken, and how many bytes more.  A
    byte that does not start a code point becomes U+FFFD. *)
Definition multibyte (a : byte) (l : list byte) : list byte * nat :=
  match l with
  | b :: l =>
      if utf8_2 a b then ([a; b], 1%nat)
      else match l with
           | c :: l =>
               if utf8_3 a b c then ([a; b; c], 2%nat)
               else match l with
                    | d :: _ => if utf8_4 a b c d then ([a; b; c; d], 3%nat) else (RuneError, 0%nat)
                    | [] => (RuneError, 0%nat)
                    end
           | [] => (RuneError, 0%nat)
           end
  | [] => (RuneError, 0%nat)
  end.

(** What follows the opening quote: the text of the string and the rest; [skip] bytes
    belong to the code point before. *)
Fixpoint parse_str (skip : nat) (l : list byte) : option (list byte * list byte) :=
  match l, skip with
  | [], _ => None
  | _ :: l, S skip => parse_str skip l
  | a :: l, O =>
      if decide (a = x22) then Some ([], l)
      else
        '(bs, n) ← (if decide (a = x5c) then escaped l
                    else if between 0 31 a then None
                    else if between 32 127 a then Some ([a], 0%nat)
                    else Some (multibyte a l));
        '(s, rest) ← parse_str n l; Some (bs ++ s, rest)
  end.

Definition hexc (n : Z) : byte := z2b (if n <? 10 then 48 + n else 87 + n).

(** A byte of a string that is not UTF-8 of several bytes. *)
Definition print_ascii (b : byte) : list byte :=
  match b with
  | x22 => [x5c; x22] | x5c => [x5c; x5c]
  | x0a => [x5c; x6e] | x0d => [x5c; x72] | x09 => [x5c; x74]
  | x3c | x3e | x26 => [x5c; x75; x30; x30; hexc (b2z b / 16); hexc (b2z b mod 16)]
  | _ => if between 0 31 b then [x5c; x75; x30; x30; hexc (b2z b / 16); hexc (b2z b mod 16)] else [b]
  end.

(** U+2028 and U+2029 are escaped. *)
Definition print_3 (a b c : byte) : list byte :=
  match a, b, c with
  | xe2, x80, xa8 => [x5c; x75; x32; x30; x32; x38]
  | xe2, x80, xa9 => [x5c; x75; x32; x30; x32; x39]
  | _, _, _ => [a; b; c]
  end.

Definition print_bad : list byte := [x5c; x75; x66; x66; x66; x64].

Definition print_multi (a : byte) (l : list byte) : list byte * nat :=
  match multibyte a l with
  | ([a; b; c], 2%nat) => (print_3 a b c, 2%nat)
  | (_, O) => (print_bad, 0%nat)
  | r => r
  end.

Fixpoint print_str (skip : nat) (l : list byte) : list byte :=
  match l, skip with
  | [], _ => []
  | _ :: l, S skip => print_str skip l
  | a :: l, O =>
      if between 0 127 a then print_ascii a ++ print_str 0 l
      else let '(bs, n) := print_multi a l in bs ++ print_str n l
  end.

Definition quoted (s : string) : list byte := [x22] ++ print_str 0 (str_bytes s) ++ [x22].

(** Texts that are UTF-8. *)
Inductive utf8 : list byte -> Prop :=
  | utf8_nil : utf8 []
  | utf8_ascii a l : between 0 127 a = true -> utf8 l -> utf8 (a :: l)
  | utf8_two a b l : utf8_2 a b = true -> utf8 l -> utf8 (a :: b :: l)
  | utf8_three a b c l : utf8_3 a b c = true -> utf8 l -> utf8 (a :: b :: c :: l)
  | utf8_four a b c d l : utf8_4 a b c d = true -> utf8 l -> utf8 (a :: b :: c :: d :: l).

(** ** Numbers *)

Definition digit (b : byte) : bool := between 48 57 b.

Fixpoint digits (l : list byte) : list byte * list byte :=
  match l with
  | b :: l' => if digit b then let '(ds, r) := digits l' in (b :: ds, r) else ([], l)
  | [] => ([], [])
  end.

(** At least one digit. *)
Definition digits1 (l : list byte) : option (list byte * list byte) :=
  match digits l with ([], _) => None | r => Some r end.

(** A character that may be absent. *)
Definition opt_char (p : byte -> bool) (l : list byte) : list byte * list byte :=
  match l with b :: l' => if p b then ([b], l') else ([], l) | [] => ([], []) end.

Definition is_byte (c b : byte) : bool := bool_decide (b = c).
Definition is_exp (b : byte) : bool := is_byte x65 b || is_byte x45 b.
Definition is_sign (b : byte) : bool := is_byte x2b b || is_byte x2d b.

Definition scan_int (l : list byte) : option (list byte * list byte) :=
  match opt_char (is_byte x30) l with ([], _) => digits1 l | r => Some r end.
Definition scan_frac (l : list byte) : option (list byte * list byte) :=
  match opt_char (is_byte x2e) l with
  | ([], _) => Some ([], l)
  | (dot, l) => '(ds, l) ← digits1 l; Some (dot ++ ds, l)
  end.
Definition scan_exp (l : list byte) : option (list byte * list byte) :=
  match opt_char is_exp l with
  | ([], _) => Some ([], l)
  | (e, l) => let '(sign, l) := opt_char is_sign l in '(ds, l) ← digits1 l; Some (e ++ sign ++ ds, l)
  end.
Definition scan_num (l : list byte) : option (list byte * list byte) :=
  let '(minus, l) := opt_char (is_byte x2d) l in
  '(int, l) ← scan_int l; '(frac, l) ← scan_frac l; '(exp, l) ← scan_exp l;
  Some (minus ++ int ++ frac ++ exp, l).

(** ** Values *)

Definition is_space (b : byte) : bool := is_byte x20 b || is_byte x09 b || is_byte x0d b || is_byte x0a b.
Fixpoint skip_ws (l : list byte) : list byte :=
  match l with b :: l' => if is_space b then skip_ws l' else l | [] => [] end.

Fixpoint strip (p l : list byte) : option (list byte) :=
  match p, l with
  | [], _ => Some l
  | a :: p, b :: l => if decide (a = b) then strip p l else None
  | _, [] => None
  end.

Definition literals : list (list byte * json) :=
  [(str_bytes "true", JBool true); (str_bytes "false", JBool false); (str_bytes "null", JNull)].
Fixpoint scan_literal (ls : list (list byte * json)) (l : list byte) : option (json * list byte) :=
  match ls with
  | [] => None
  | (p, v) :: ls => match strip p l with Some r => Some (v, r) | None => scan_literal ls l end
  end.

Fixpoint parse_value (fuel : nat) (l : list byte) : option (json * list byte) :=
  match fuel, skip_ws l with
  | S fuel, b :: l' =>
      if decide (b = x22) then '(s, r) ← parse_str 0 l'; Some (JStr (bytes_str s), r)
      else if decide (b = x7b) then
        match strip [x7d] (skip_ws l') with
        | Some r => Some (JObj [], r)
        | None => '(ms, r) ← parse_members fuel l'; Some (JObj ms, r)
        end
      else if decide (b = x5b) then
        match strip [x5d] (skip_ws l') with
        | Some r => Some (JArr [], r)
        | None => '(vs, r) ← parse_elements fuel l'; Some (JArr vs, r)
        end
      else match scan_literal literals (b :: l') with
           | Some r => Some r
           | None => '(n, r) ← scan_num (b :: l'); Some (JNum (bytes_str n), r)
           end
  | _, _ => None
  end
with parse_members (fuel : nat) (l : list byte) : option (list (string * json) * list byte) :=
  match fuel with
  | O => None
  | S fuel =>
      l ← strip [x22] (skip_ws l); '(k, l) ← parse_str 0 l;
      l ← strip [x3a] (skip_ws l); '(v, l) ← parse_value fuel l;
      match strip [x2c] (skip_ws l) with
      | Some l => '(ms, l) ← parse_members fuel l; Some ((bytes_str k, v) :: ms, l)
      | None => l ← strip [x7d] (skip_ws l); Some ([(bytes_str k, v)], l)
      end
  end
with parse_elements (fuel : nat) (l : list byte) : option (list json * list byte) :=
  match fuel with
  | O => None
  | S fuel =>
      '(v, l) ← parse_value fuel l;
      match strip [x2c] (skip_ws l) with
      | Some l => '(vs, l) ← parse_elements fuel l; Some (v :: vs, l)
      | None => l ← strip [x5d] (skip_ws l); Some ([v], l)
      end
  end.

(** A whole text: one value and white space. *)
Definition parse (l : list byte) : option json :=
  '(v, r) ← parse_value (S (2 * length l)) l;
  match skip_ws r with [] => Some v | _ => None end.

(** ** [json.Marshal] *)

Fixpoint join (l : list (list byte)) : list byte :=
  match l with
  | [] => []
  | [x] => x
  | x :: l => x ++ [x2c] ++ join l
  end.

Fixpoint print (j : json) : list byte :=
  match j with
  | JNull => str_bytes "null"
  | JBool true => str_bytes "true"
  | JBool false => str_bytes "false"
  | JNum n => str_bytes n
  | JStr s => quoted s
  | JArr l => [x5b] ++ join (map print l) ++ [x5d]
  | JObj fs => [x7b] ++ join (map (λ kv : string * json, quoted kv.1 ++ [x3a] ++ print kv.2) fs) ++ [x7d]
  end.

(** ** Strings survive *)

Lemma between_bounds lo hi b : between lo hi b = true <-> lo <= b2z b <= hi.
Proof. unfold between. rewrite andb_true_iff, !Z.leb_le. tauto. Qed.
Lemma between_false lo hi b : b2z b < lo \/ hi < b2z b -> between lo hi b = false.
Proof. intros H. apply not_true_iff_false. rewrite between_bounds. lia. Qed.

Lemma utf8_2_lead a b : utf8_2 a b = true -> 194 <= b2z a <= 223.
Proof. unfold utf8_2. rewrite andb_true_iff, !between_bounds. tauto. Qed.
Lemma utf8_3_lead a b c : utf8_3 a b c = true -> 224 <= b2z a <= 239.
Proof. unfold utf8_3. rewrite !andb_true_iff, !orb_true_iff, !andb_true_iff, !between_bounds. lia. Qed.
Lemma utf8_4_lead a b c d : utf8_4 a b c d = true -> 240 <= b2z a <= 244.
Proof. unfold utf8_4. rewrite !andb_true_iff, !orb_true_iff, !andb_true_iff, !between_bounds. lia. Qed.

Lemma not_utf8_2 a b : 224 <= b2z a -> utf8_2 a b = false.
Proof. intros H. apply not_true_iff_false. intros E%utf8_2_lead. lia. Qed.
Lemma not_utf8_3 a b c : 240 <= b2z a -> utf8_3 a b c = false.
Proof. intros H. apply not_true_iff_false. intros E%utf8_3_lead. lia. Qed.

(** The lead byte of a code point of several bytes, as [parse_str] sees it. *)
Lemma parse_str_lead a l : 128 <= b2z a ->
  parse_str 0 (a :: l) = ('(s, rest) ← parse_str (multibyte a l).2 l; Some ((multibyte a l).1 ++ s, rest)).
Proof.
  intros H. cbn [parse_str]. rewrite decide_False by (intros ->; by vm_compute in H).
  rewrite decide_False by (intros ->; by vm_compute in H).
  rewrite !between_false by lia. by destruct (multibyte a l).
Qed.

Lemma print_str_lead a l : 128 <= b2z a ->
  print_str 0 (a :: l) = (print_multi a l).1 ++ print_str (print_multi a l).2 l.
Proof. intros H. cbn [print_str]. rewrite between_false by lia. by destruct (print_multi a l). Qed.

Lemma parse_print_ascii a k : between 0 127 a = true ->
  parse_str 0 (print_ascii a ++ k) = ('(s, rest) ← parse_str 0 k; Some (a :: s, rest)).
Proof. by destruct a. Qed.

Lemma parse_print_3 a b c k : utf8_3 a b c = true ->
  parse_str 0 (print_3 a b c ++ k) = ('(s, rest) ← parse_str 0 k; Some (a :: b :: c :: s, rest)).
Proof.
  intros H. pose proof (utf8_3_lead a b c H).
  assert (print_3 a b c = [a; b; c] \/ (a = xe2 /\ b = x80 /\ (c = xa8 \/ c = xa9))) as [->|(-> & -> & [->| ->])];
    [|cbn [app]; rewrite parse_str_lead by lia; cbn [multibyte]; by rewrite not_utf8_2, H by lia|done|done].
  destruct (decide (a = xe2)) as [->|]; [|left; by destruct a].
  destruct (decide (b = x80)) as [->|]; [|left; by destruct b].
  destruct (decide (c = xa8)) as [->|]; [by auto|]. destruct (decide (c = xa9)) as [->|]; [by auto|].
  left. by destruct c.
Qed.

Lemma parse_print_str s rest : utf8 s -> parse_str 0 (print_str 0 s ++ x22 :: rest) = Some (s, rest).
Proof.
  induction 1 as [|a l Ha _ IH|a b l H _ IH|a b c l H _ IH|a b c d l H _ IH]; [done|..].
  - cbn [print_str]. rewrite Ha, <- app_assoc, parse_print_ascii by done. by rewrite IH.
  - pose proof (utf8_2_lead a b H). rewrite print_str_lead by lia. unfold print_multi. cbn [multibyte].
    rewrite H. cbn [fst snd print_str app]. rewrite parse_str_lead by lia. cbn [multibyte]. rewrite H.
    cbn [fst snd parse_str]. by rewrite IH.
  - pose proof (utf8_3_lead a b c H). rewrite print_str_lead by lia. unfold print_multi. cbn [multibyte].
    rewrite not_utf8_2, H by lia. cbn [fst snd print_str]. rewrite <- app_assoc, parse_print_3 by done. by rewrite IH.
  - pose proof (utf8_4_lead a b c d H). rewrite print_str_lead by lia. unfold print_multi. cbn [multibyte].
    rewrite not_utf8_2, not_utf8_3, H by lia. cbn [fst snd print_str app]. rewrite parse_str_lead by lia.
    cbn [multibyte]. rewrite not_utf8_2, not_utf8_3, H by lia. cbn [fst snd parse_str]. by rewrite IH.
Qed.

#[local] Arguments strip : simpl never.

(** ** Every value takes bytes, so the fuel never matters *)

Lemma skip_ws_len l : (length (skip_ws l) <= length l)%nat.
Proof. induction l as [|b l IH]; cbn; [done|]. destruct (is_space b); cbn; lia. Qed.
Lemma strip_len p l r : strip p l = Some r -> length l = (length p + length r)%nat.
Proof.
  revert l. induction p as [|a p IH]; intros [|b l]; cbn -[strip]; [by intros [= <-]..|done|].
  change (strip (a :: p) (b :: l)) with (if decide (a = b) then strip p l else None).
  destruct (decide (a = b)); [|done]. intros H. rewrite (IH l H). lia.
Qed.
Lemma parse_str_len n l s r : parse_str n l = Some (s, r) -> (length r < length l)%nat.
Proof.
  revert n s. induction l as [|a l IH]; intros n s; [by destruct n|].
  destruct n as [|n]; cbn [parse_str].
  - destruct (decide (a = x22)); [intros [= _ <-]; cbn; lia|].
    destruct (if decide (a = x5c) then _ else _) as [[bs m]|]; cbn; [|done].
    destruct (parse_str m l) as [[s' r']|] eqn:E; cbn; [|done]. intros [= _ <-]. specialize (IH _ _ E). lia.
  - intros H. specialize (IH _ _ H). cbn. lia.
Qed.
Lemma digits_len l ds r : digits l = (ds, r) -> length l = (length ds + length r)%nat.
Proof.
  revert ds. induction l as [|b l IH]; intros ds; cbn; [by intros [= <- <-]|].
  destruct (digit b); [|by intros [= <- <-]]. destruct (digits l) as [ds' r'].
  intros [= <- <-]. cbn. by rewrite (IH ds').
Qed.
Lemma digits1_len l ds r : digits1 l = Some (ds, r) -> (length r < length l)%nat.
Proof.
  unfold digits1. destruct (digits l) as [[|d ds'] r'] eqn:E; [done|]. intros [= <- <-].
  rewrite (digits_len _ _ _ E). cbn. lia.
Qed.
Lemma opt_char_len p l c r : opt_char p l = (c, r) -> length l = (length c + length r)%nat.
Proof. destruct l as [|b l]; cbn; [by intros [= <- <-]|]. destruct (p b); by intros [= <- <-]. Qed.
Lemma scan_int_len l x r : scan_int l = Some (x, r) -> (length r < length l)%nat.
Proof.
  unfold scan_int. destruct (opt_char _ l) as [[|c cs] r'] eqn:E; [apply digits1_len|].
  intros [= <- <-]. rewrite (opt_char_len _ _ _ _ E). cbn. lia.
Qed.
Lemma scan_frac_len l x r : scan_frac l = Some (x, r) -> (length r <= length l)%nat.
Proof.
  unfold scan_frac. destruct (opt_char _ l) as [[|c cs] r'] eqn:E; [by intros [= <- <-]|].
  destruct (digits1 r') as [[ds r'']|] eqn:D; cbn; [|done]. intros [= <- <-].
  rewrite (opt_char_len _ _ _ _ E). apply digits1_len in D. cbn. lia.
Qed.
Lemma scan_exp_len l x r : scan_exp l = Some (x, r) -> (length r <= length l)%nat.
Proof.
  unfold scan_exp. destruct (opt_char is_exp l) as [[|c cs] r'] eqn:E; [by intros [= <- <-]|].
  destruct (opt_char is_sign r') as [sg r2] eqn:G.
  destruct (digits1 r2) as [[ds r'']|] eqn:D; cbn; [|done]. intros [= <- <-].
  rewrite (opt_char_len _ _ _ _ E), (opt_char_len _ _ _ _ G). apply digits1_len in D. cbn. lia.
Qed.
Lemma scan_num_len l x r : scan_num l = Some (x, r) -> (length r < length l)%nat.
Proof.
  unfold scan_num. destruct (opt_char _ l) as [m l0] eqn:E. rewrite (opt_char_len _ _ _ _ E).
  destruct (scan_int l0) as [[i l1]|] eqn:E1; cbn; [|done]. destruct (scan_frac l1) as [[f l2]|] eqn:E2; cbn; [|done].
  destruct (scan_exp l2) as [[e l3]|] eqn:E3; cbn; [|done]. intros [= <- <-].
  apply scan_int_len in E1. apply scan_frac_len in E2. apply scan_exp_len in E3. lia.
Qed.
Lemma scan_literal_len ls l v r : Forall (λ p, p.1 <> []) ls -> scan_literal ls l = Some (v, r) -> (length r < length l)%nat.
Proof.
  induction 1 as [|[p j] ls Hp _ IH]; cbn; [done|]. destruct (strip p l) as [r'|] eqn:E; [|done].
  intros [= <- <-]. rewrite (strip_len _ _ _ E). cbn in Hp. destruct p; [done|]. cbn. lia.
Qed.
Lemma literals_ok : Forall (λ p : list byte * json, p.1 <> []) literals.
Proof. by repeat constructor. Qed.

(** Sizes along the steps of a parser. *)
Ltac sizes :=
  repeat match goal with
  | H : strip _ (skip_ws ?l) = Some _ |- _ => apply strip_len in H; pose proof (skip_ws_len l); cbn [length] in H
  | H : parse_str _ _ = Some _ |- _ => apply parse_str_len in H
  end.

Lemma parse_shrinks fuel :
  (forall l v r, parse_value fuel l = Some (v, r) -> (length r < length l)%nat) /\
  (forall l ms r, parse_members fuel l = Some (ms, r) -> (length r < length l)%nat) /\
  (forall l vs r, parse_elements fuel l = Some (vs, r) -> (length r < length l)%nat).
Proof.
  induction fuel as [|fuel (IHv & IHm & IHe)]; [done|]. split_and!.
  - intros l v r. cbn [parse_value]. pose proof (skip_ws_len l) as Hl.
    destruct (skip_ws l) as [|b l'] eqn:El; [done|]. cbn [length] in Hl.
    destruct (decide (b = x22)).
    { destruct (parse_str 0 l') as [[s r']|] eqn:E; cbn; [|done]. intros [= <- <-]. sizes. lia. }
    destruct (decide (b = x7b)).
    { destruct (strip [x7d] (skip_ws l')) as [r'|] eqn:E; [intros [= <- <-]; sizes; lia|].
      destruct (parse_members fuel l') as [[ms r']|] eqn:E'; cbn; [|done]. intros [= <- <-].
      apply IHm in E'. lia. }
    destruct (decide (b = x5b)).
    { destruct (strip [x5d] (skip_ws l')) as [r'|] eqn:E; [intros [= <- <-]; sizes; lia|].
      destruct (parse_elements fuel l') as [[vs r']|] eqn:E'; cbn; [|done]. intros [= <- <-].
      apply IHe in E'. lia. }
    destruct (scan_literal literals (b :: l')) as [[v' r']|] eqn:E.
    { intros [= <- <-]. apply (scan_literal_len _ _ _ _ literals_ok) in E. cbn in E. lia. }
    destruct (scan_num (b :: l')) as [[lit r']|] eqn:E'; cbn; [|done]. intros [= <- <-].
    apply scan_num_len in E'. cbn in E'. lia.
  - intros l ms r. cbn [parse_members].
    destruct (strip [x22] (skip_ws l)) as [l1|] eqn:E1; cbn; [|done].
    destruct (parse_str 0 l1) as [[k l2]|] eqn:E2; cbn; [|done].
    destruct (strip [x3a] (skip_ws l2)) as [l3|] eqn:E3; cbn; [|done].
    destruct (parse_value fuel l3) as [[v l4]|] eqn:E4; cbn; [|done]. apply IHv in E4.
    destruct (strip [x2c] (skip_ws l4)) as [l5|] eqn:E5.
    + destruct (parse_members fuel l5) as [[ms' r']|] eqn:E6; cbn; [|done]. intros [= <- <-].
      apply IHm in E6. sizes. lia.
    + destruct (strip [x7d] (skip_ws l4)) as [l6|] eqn:E6; cbn; [|done]. intros [= <- <-]. sizes. lia.
  - intros l vs r. cbn [parse_elements].
    destruct (parse_value fuel l) as [[v l4]|] eqn:E4; cbn; [|done]. apply IHv in E4.
    destruct (strip [x2c] (skip_ws l4)) as [l5|] eqn:E5.
    + destruct (parse_elements fuel l5) as [[ms' r']|] eqn:E6; cbn; [|done]. intros [= <- <-].
      apply IHe in E6. sizes. lia.
    + destruct (strip [x5d] (skip_ws l4)) as [l6|] eqn:E6; cbn; [|done]. intros [= <- <-]. sizes. lia.
Qed.

Lemma parse_fuel f1 f2 :
  (forall l, (2 * length l < f1)%nat -> (2 * length l < f2)%nat -> parse_value f1 l = parse_value f2 l) /\
  (forall l, (2 * length l < f1)%nat -> (2 * length l < f2)%nat -> parse_members f1 l = parse_members f2 l) /\
  (forall l, (2 * length l + 1 < f1)%nat -> (2 * length l + 1 < f2)%nat -> parse_elements f1 l = parse_elements f2 l).
Proof.
  revert f2. induction f1 as [|f1 IH]; intros f2; [split_and!; intros; lia|].
  destruct f2 as [|f2]; [split_and!; intros; lia|]. destruct (IH f2) as (IHv & IHm & IHe).
  destruct (parse_shrinks f2) as (Sv & _ & _). split_and!.
  - intros l H1 H2. cbn [parse_value]. pose proof (skip_ws_len l) as Hl.
    destruct (skip_ws l) as [|b l'] eqn:El; [done|]. cbn [length] in Hl.
    by rewrite (IHm l'), (IHe l') by lia.
  - intros l H1 H2. cbn [parse_members].
    destruct (strip [x22] (skip_ws l)) as [l1|] eqn:E1; cbn; [|done].
    destruct (parse_str 0 l1) as [[k l2]|] eqn:E2; cbn; [|done].
    destruct (strip [x3a] (skip_ws l2)) as [l3|] eqn:E3; cbn; [|done].
    sizes. rewrite IHv by lia. destruct (parse_value f2 l3) as [[v l4]|] eqn:E4; cbn; [|done]. apply Sv in E4.
    destruct (strip [x2c] (skip_ws l4)) as [l5|] eqn:E5; [|done]. sizes. by rewrite (IHm l5) by lia.
  - intros l H1 H2. cbn [parse_elements]. rewrite IHv by lia.
    destruct (parse_value f2 l) as [[v l4]|] eqn:E4; cbn; [|done]. apply Sv in E4.
    destruct (strip [x2c] (skip_ws l4)) as [l5|] eqn:E5; [|done]. sizes. by rewrite (IHe l5) by lia.
Qed.

(** ** Numbers and what follows them *)

Definition stops (l : list byte) : bool :=
  match l with [] => true | b :: _ => negb (digit b || is_byte x2e b || is_exp b) end.

Lemma digits_app l k : stops k = true -> digits (l ++ k) = ((digits l).1, (digits l).2 ++ k).
Proof.
  intros Hk. induction l as [|b l IH]; cbn.
  - destruct k as [|b k]; [done|]. cbn in *. apply negb_true_iff, orb_false_iff in Hk as [Hk _].
    apply orb_false_iff in Hk as [-> _]. done.
  - destruct (digit b); [|done]. rewrite IH. by destruct (digits l).
Qed.
Lemma digits1_app l k x r : stops k = true -> digits1 l = Some (x, r) -> digits1 (l ++ k) = Some (x, r ++ k).
Proof.
  intros Hk. unfold digits1. rewrite digits_app by done. destruct (digits l) as [[|d ds] r']; [done|].
  by intros [= <- <-].
Qed.
Lemma opt_char_app p l k : (match k with [] => true | b :: _ => negb (p b) end) = true \/ l <> [] ->
  opt_char p (l ++ k) = ((opt_char p l).1, (opt_char p l).2 ++ k).
Proof.
  destruct l as [|b l]; cbn; [|by destruct (p b)]. intros [Hk|]; [|done]. destruct k as [|b k]; [done|]. cbn.
  by destruct (p b).
Qed.
Lemma stops_char p k : stops k = true -> (forall b, p b = true -> is_byte x2e b || is_exp b = true) ->
  (match k with [] => true | b :: _ => negb (p b) end) = true.
Proof.
  destruct k as [|b k]; [done|]. cbn. rewrite !negb_true_iff, !orb_false_iff. intros [[_ H1] H2] Hp.
  apply not_true_iff_false. intros E%Hp. rewrite H1, H2 in E. done.
Qed.

Lemma scan_num_app l k x r : stops k = true -> scan_num l = Some (x, r) -> scan_num (l ++ k) = Some (x, r ++ k).
Proof.
  intros Hk. unfold scan_num. destruct (decide (l = [])) as [->|Hl]; [done|].
  rewrite (opt_char_app _ l k) by auto. destruct (opt_char (is_byte x2d) l) as [m l0]. cbn [fst snd].
  assert (forall l x r, scan_int l = Some (x, r) -> scan_int (l ++ k) = Some (x, r ++ k)) as Hi.
  { intros l1 x1 r1. unfold scan_int. destruct (decide (l1 = [])) as [->|Hn]; [done|]. rewrite opt_char_app by auto.
    destruct (opt_char _ l1) as [[|c cs] r2]; cbn [fst snd]; [by apply digits1_app|]. by intros [= <- <-]. }
  assert (forall l x r, scan_frac l = Some (x, r) -> scan_frac (l ++ k) = Some (x, r ++ k)) as Hf.
  { intros l1 x1 r1. unfold scan_frac. rewrite opt_char_app by (left; apply stops_char; [done|intros ? ->; done]).
    destruct (opt_char _ l1) as [[|c cs] r2]; cbn [fst snd]; [by intros [= <- <-]|].
    destruct (digits1 r2) as [[ds r3]|] eqn:D; cbn; [|done]. intros [= <- <-]. by rewrite (digits1_app _ _ _ _ Hk D). }
  assert (forall l x r, scan_exp l = Some (x, r) -> scan_exp (l ++ k) = Some (x, r ++ k)) as He.
  { intros l1 x1 r1. unfold scan_exp.
    rewrite opt_char_app by (left; apply stops_char; [done|intros ? ->; apply orb_true_r]).
    destruct (opt_char _ l1) as [[|c cs] r2]; cbn [fst snd]; [by intros [= <- <-]|].
    destruct (decide (r2 = [])) as [->|Hn]; [done|]. rewrite opt_char_app by auto.
    destruct (opt_char is_sign r2) as [sg r3]. cbn [fst snd].
    destruct (digits1 r3) as [[ds r4]|] eqn:D; cbn; [|done]. intros [= <- <-]. by rewrite (digits1_app _ _ _ _ Hk D). }
  destruct (scan_int l0) as [[i l1]|] eqn:E1; cbn; [|done]. rewrite (Hi _ _ _ E1). cbn.
  destruct (scan_frac l1) as [[f l2]|] eqn:E2; cbn; [|done]. rewrite (Hf _ _ _ E2). cbn.
  destruct (scan_exp l2) as [[e l3]|] eqn:E3; cbn; [|done]. rewrite (He _ _ _ E3). cbn. by intros [= <- <-].
Qed.

(** The first byte of a number. *)
Lemma scan_num_head b l x r : scan_num (b :: l) = Some (x, r) -> is_byte x2d b || digit b = true.
Proof.
  unfold scan_num. cbn [opt_char]. destruct (is_byte x2d b) eqn:Em; [done|]. cbn.
  unfold scan_int. cbn [opt_char]. destruct (is_byte x30 b) eqn:E0.
  { unfold is_byte in E0. apply bool_decide_eq_true in E0 as ->. done. }
  unfold digits1. cbn. by destruct (digit b).
Qed.

(** ** The round trip *)

(** Documents that [json.Marshal] writes and that come back: UTF-8 strings, numbers as
    the grammar has them. *)
Fixpoint json_ok (j : json) : Prop :=
  match j with
  | JNull | JBool _ => True
  | JNum n => scan_num (str_bytes n) = Some (str_bytes n, [])
  | JStr s => utf8 (str_bytes s)
  | JArr l => fold_right (λ x P, json_ok x /\ P) True l
  | JObj fs => fold_right (λ (kv : string * json) P, (utf8 (str_bytes kv.1) /\ json_ok kv.2) /\ P) True fs
  end.

Lemma skip_ws_other b l : is_space b = false -> skip_ws (b :: l) = b :: l.
Proof. intros H. cbn. by rewrite H. Qed.

Lemma strip_same b l : strip [b] (b :: l) = Some l.
Proof. change (strip [b] (b :: l)) with (if decide (b = b) then Some l else None). by rewrite decide_True. Qed.
Lemma strip_other a b l : a <> b -> strip [a] (b :: l) = None.
Proof.
  intros H. change (strip [a] (b :: l)) with (if decide (a = b) then Some l else None). by rewrite decide_False.
Qed.

(** The text of a value starts with a byte that is neither space nor a closing bracket. *)
Lemma print_head j : json_ok j -> exists b l, print j = b :: l /\ is_space b = false /\ b <> x5d /\ b <> x7d.
Proof.
  destruct j as [|[]|n|s|l|fs]; cbn [print json_ok]; intros H; try (by eexists _, _; split; [reflexivity|]).
  destruct (str_bytes n) as [|b l] eqn:E; [done|]. exists b, l. split; [done|].
  apply scan_num_head in H. clear - H. by destruct b.
Qed.

Lemma json_induction (P : json -> Prop) :
  P JNull -> (forall b, P (JBool b)) -> (forall n, P (JNum n)) -> (forall s, P (JStr s)) ->
  (forall l, Forall P l -> P (JArr l)) -> (forall fs, Forall (λ kv, P kv.2) fs -> P (JObj fs)) -> forall j, P j.
Proof.
  intros Hn Hb Hm Hs Ha Ho. fix IH 1. intros [|b|n|s|l|fs]; [done|done|done|done| |].
  - apply Ha. induction l as [|x l IHl]; [constructor|]. constructor; [apply IH|exact IHl].
  - apply Ho. induction fs as [|kv fs IHl]; [constructor|]. constructor; [apply IH|exact IHl].
Qed.

Definition reads_back (j : json) : Prop := json_ok j -> forall rest f, stops rest = true ->
  (2 * length (print j ++ rest) < f)%nat -> parse_value f (print j ++ rest) = Some (j, rest).

Lemma join_cons x y l : join (x :: y :: l) = x ++ [x2c] ++ join (y :: l).
Proof. done. Qed.

Lemma elements_back l rest f : Forall reads_back l -> json_ok (JArr l) -> l <> [] ->
  (2 * length (join (map print l) ++ x5d :: rest) + 1 < f)%nat ->
  parse_elements f (join (map print l) ++ x5d :: rest) = Some (l, rest).
Proof.
  intros H. revert f. induction H as [|x l Hx Hl IH]; [done|]. cbn [json_ok fold_right]. intros f [Ok1 Ok2] _ Hf.
  destruct f as [|f]; [lia|]. cbn [parse_elements]. destruct l as [|y l].
  - cbn [map join] in *. rewrite Hx by (done || lia). cbn [mbind option_bind].
    rewrite skip_ws_other by done. rewrite strip_other by done. by rewrite strip_same.
  - cbn [map] in *. rewrite join_cons in *. rewrite <- !app_assoc in *.
    rewrite Hx by (done || lia). cbn [mbind option_bind app] in *.
    rewrite skip_ws_other by done. rewrite strip_same. rewrite IH; [done|done|done|].
    rewrite !length_app in *. cbn [map length] in *. rewrite ?length_app in *. cbn [length] in *. lia.
Qed.

Definition member (kv : string * json) : list byte := quoted kv.1 ++ [x3a] ++ print kv.2.

(** The text of the members of an object: the first one and what follows it. *)
Lemma members_text k v fs rest :
  exists k', join (map member ((k, v) :: fs)) ++ x7d :: rest = quoted k ++ [x3a] ++ print v ++ k' /\
    stops k' = true /\ (if decide (fs = []) then k' = x7d :: rest
                        else k' = x2c :: join (map member fs) ++ x7d :: rest).
Proof.
  destruct fs as [|m fs]; cbn [map join]; unfold member at 1; cbn [fst snd]; eexists; rewrite <- !app_assoc; by split.
Qed.

Lemma members_back fs rest f : Forall (λ kv, reads_back kv.2) fs -> json_ok (JObj fs) -> fs <> [] ->
  (2 * length (join (map member fs) ++ x7d :: rest) < f)%nat ->
  parse_members f (join (map member fs) ++ x7d :: rest) = Some (fs, rest).
Proof.
  intros H. revert f. induction H as [|[k v] fs Hv Hl IH]; [done|]. cbn [json_ok fold_right fst snd].
  intros f [[Okk Okv] Ok2] _ Hf. destruct f as [|f]; [lia|]. cbn [parse_members].
  destruct (members_text k v fs rest) as (k' & E & Hk & Ek).
  rewrite E in *. unfold quoted in *. rewrite <- !app_assoc in *. cbn [app] in *.
  rewrite skip_ws_other by done. rewrite strip_same. cbn [mbind option_bind].
  rewrite parse_print_str by done. cbn [mbind option_bind]. rewrite skip_ws_other by done. rewrite strip_same.
  cbn [mbind option_bind]. cbn [length] in Hf. rewrite length_app in Hf. cbn [length] in Hf.
  cbn [snd] in Hv. rewrite Hv by (done || lia). cbn [mbind option_bind]. rewrite bytes_str_bytes.
  destruct (decide (fs = [])) as [->|Hne]; subst k'.
  - rewrite skip_ws_other by done. rewrite strip_other by done. by rewrite strip_same.
  - rewrite skip_ws_other by done. rewrite strip_same, IH; [done|done|done|].
    rewrite !length_app in *. cbn [length] in *. rewrite ?length_app in *. cbn [length] in *. lia.
Qed.

Lemma parse_print_value j : reads_back j.
Proof.
  induction j as [|b|n|s|l Hl|fs Hl] using json_induction; intros Hok rest f Hr Hf;
    (destruct f as [|f]; [cbn in Hf; lia|]); cbn [parse_value].
  - done.
  - by destruct b.
  - cbn [json_ok print] in *. destruct (str_bytes n) as [|b l] eqn:E; [done|].
    pose proof (scan_num_head _ _ _ _ Hok) as Hh. pose proof (scan_num_app _ rest _ _ Hr Hok) as Hs.
    cbn [app] in *. rewrite skip_ws_other by (clear - Hh; by destruct b).
    rewrite !decide_False by (intros ->; by vm_compute in Hh).
    assert (scan_literal literals (b :: l ++ rest) = None) as ->.
    { clear - Hh. by destruct b. }
    rewrite Hs. cbn [mbind option_bind]. by rewrite <- E, bytes_str_bytes.
  - cbn [json_ok print] in *. unfold quoted. rewrite <- !app_assoc. cbn [app]. rewrite skip_ws_other by done.
    rewrite decide_True by done. rewrite parse_print_str by done. cbn. by rewrite bytes_str_bytes.
  - cbn [print] in *. rewrite <- !app_assoc in *. cbn [app] in *. rewrite skip_ws_other by done.
    destruct l as [|x l]; [done|].
    assert (strip [x5d] (skip_ws (join (map print (x :: l)) ++ x5d :: rest)) = None) as ->.
    { destruct (print_head x ltac:(apply Hok)) as (b & k & E & Hb & Hb5 & _). 
      assert (exists k', join (map print (x :: l)) ++ x5d :: rest = b :: k') as [k' ->].
      { destruct l; cbn [map join]; rewrite E; eexists; reflexivity. }
      rewrite skip_ws_other by done. by apply strip_other. }
    rewrite elements_back; [done|done|done|done|]. cbn [length] in Hf. lia.
  - cbn [print] in *. rewrite <- !app_assoc in *. cbn [app] in *. rewrite skip_ws_other by done.
    change (map (λ kv : string * json, quoted kv.1 ++ x3a :: print kv.2) fs) with (map member fs) in *.
    destruct fs as [|m fs]; [done|].
    assert (strip [x7d] (skip_ws (join (map member (m :: fs)) ++ x7d :: rest)) = None) as ->.
    { destruct fs; done. }
    rewrite members_back; [done|done|done|done|]. cbn [length] in Hf. lia.
Qed.

Lemma parse_print_id j : json_ok j -> parse (print j) = Some j.
Proof.
  intros Hok. unfold parse. rewrite <- (app_nil_r (print j)) at 2.
  rewrite parse_print_value; [done|done|done|]. rewrite app_nil_r. lia.
Qed.

(** What [json.Marshal] writes is read back: the text of a document whose strings are
    UTF-8, whatever characters it has to escape, parses to that document, and so it does
    with white space around it. *)
Lemma parse_print j ws ws' : json_ok j -> forallb is_space ws = true -> forallb is_space ws' = true ->
  parse (ws ++ print j ++ ws') = Some j.
Proof.
  intros Hok H1 H2. unfold parse.
  assert (forall w l, forallb is_space w = true -> skip_ws (w ++ l) = skip_ws l) as Hskip.
  { intros w l. induction w as [|b w IH]; cbn; [done|]. intros [-> Hw]%andb_true_iff. by apply IH. }
  assert (parse_value (S (2 * length (ws ++ print j ++ ws'))) (ws ++ print j ++ ws') =
    parse_value (S (2 * length (ws ++ print j ++ ws'))) (print j ++ ws')) as ->.
  { cbn [parse_value]. by rewrite Hskip. }
  rewrite parse_print_value; [|done| |rewrite !length_app; lia].
  - cbn. rewrite <- (app_nil_r ws'), Hskip by done. done.
  - destruct ws' as [|b ws']; [done|]. cbn in H2 |- *. clear - H2. by destruct b.
Qed.

Definition demo_json : json :=
  JObj [("uuid", JStr "a<b>"); ("n", JNum "-1.5e3"); ("l", JArr [JNull; JBool true; JObj []])]%string.
Example demo_json_reads : parse ([x20] ++ print demo_json ++ [x0a]) = Some demo_json.
Proof. vm_compute. reflexivity. Qed.

(** [json.NewDecoder(r).Decode]: the first value of the input; what follows it stays
    unread. *)
Definition Decode (l : list byte) : option json :=
  '(v, _) ← parse_value (S (2 * length l)) l; Some v.

Lemma Decode_print j rest : json_ok j -> stops rest = true -> Decode (print j ++ rest) = Some j.
Proof. intros Hok Hr. unfold Decode. rewrite parse_print_value; [done|done|done|lia]. Qed.

(** ** Documents in general *)

Lemma json_ok_obj fs : Forall (λ kv : string * json, utf8 (str_bytes kv.1) /\ json_ok kv.2) fs -> json_ok (JObj fs).
Proof. induction 1; cbn in *; auto. Qed.
Lemma json_ok_arr l : Forall json_ok l -> json_ok (JArr l).
Proof. induction 1; cbn in *; auto. Qed.

Definition str_ok (s : string) : Prop := utf8 (str_bytes s).

(** Text of letters and digits is written as it is. *)
Lemma print_plain l : forallb (λ b, digit b || between 97 122 b) l = true -> print_str 0 l = l /\ utf8 l.
Proof.
  induction l as [|b l IH]; [split; constructor|]. cbn [forallb]. intros [Hb Hl]%andb_true_iff.
  destruct (IH Hl) as [E U]. assert (between 0 127 b = true /\ print_ascii b = [b]) as [B P].
  { clear - Hb. by destruct b. }
  cbn [print_str]. rewrite B, P, E. split; [done|]. by constructor.
Qed.

(** The keys of the documents here are plain. *)
Lemma plain_ok s : forallb (λ b, digit b || between 97 122 b) (str_bytes s) = true -> str_ok s.
Proof. apply print_plain. Qed.
Lemma ascii_ok s : forallb (between 0 127) (str_bytes s) = true -> str_ok s.
Proof.
  unfold str_ok. induction (str_bytes s) as [|b l IH]; [constructor|]. cbn [forallb]. intros [Hb Hl]%andb_true_iff.
  constructor; auto.
Qed.
Ltac obj_ok :=
  apply json_ok_obj; repeat (apply Forall_cons; split; [split; [apply plain_ok; reflexivity|cbn [snd]]|]);
  try apply Forall_nil; try done.

(** A map built member by member. *)
Lemma fold_insert {B} (l : list (string * B)) (m0 : gmap string B) : NoDup l.*1 ->
  fold_left (λ m kv, <[kv.1 := kv.2]> m) l m0 = list_to_map l ∪ m0.
Proof.
  revert m0. induction l as [|[k v] l IH]; intros m0; cbn; [by rewrite (left_id_L ∅ _)|].
  intros [Hk Hn]%NoDup_cons. rewrite IH by done. rewrite <- insert_union_l, insert_union_r; [done|].
  by apply not_elem_of_list_to_map_1.
Qed.
Lemma fold_insert_all {B} (m : gmap string B) : fold_left (λ m kv, <[kv.1 := kv.2]> m) (map_to_list m) ∅ = m.
Proof.
  rewrite fold_insert by apply NoDup_fst_map_to_list. by rewrite (right_id_L ∅ _), list_to_map_to_list.
Qed.
