(* ===== verification/Duration.v ===== *)
(** * Durations

    [time.ParseDuration], with which the daemon reads the period of its metrics and the
    unit of the Graphite report (isolate/isolate.go, pkg/exportmetrics/graphite.go). *)

From Stdlib Require Import ZArith Lia Ascii String Strings.Byte Floats.SpecFloat.
From stdpp Require Import pretty.
From S2P Require Import Prelude Json.

Inductive duration_error := InvalidDuration | MissingUnit | UnknownUnit (u : list byte).

Definition maxInt64 : Z := 2 ^ 63 - 1.

(** [leadingInt]: [None] on overflow. *)
Fixpoint leadingInt (x : Z) (l : list byte) : option (Z * list byte) :=
  match l with
  | b :: l' =>
      if digit b then
        if maxInt64 / 10 <? x then None
        else
          let y := x * 10 + (b2z b - 48) in
          if maxInt64 <? y then None else leadingInt y l'
      else Some (x, l)
  | [] => Some (x, [])
  end.

Definition float64 (n : Z) : spec_float := binary_normalize 53 1024 n 0 false.

(** [leadingFraction]: digits that do not fit are dropped. *)
Fixpoint leadingFraction (x : Z) (scale : spec_float) (overflow : bool) (l : list byte)
  : Z * spec_float * list byte :=
  match l with
  | b :: l' =>
      if digit b then
        if overflow || (maxInt64 / 10 <? x) then leadingFraction x scale true l'
        else
          let y := x * 10 + (b2z b - 48) in
          if maxInt64 <? y then leadingFraction x scale true l'
          else leadingFraction y (SFmul 53 1024 scale (float64 10)) false l'
      else (x, scale, l)
  | [] => (x, scale, [])
  end.

(** [int64(f)] of a float in range: truncation. *)
Definition trunc (f : spec_float) : Z :=
  match f with
  | S754_finite s m e =>
      let n := if 0 <=? e then Zpos m * 2 ^ e else Zpos m / 2 ^ (- e) in if s then - n else n
  | _ => 0
  end.

(** The unit: what precedes the next digit or point. *)
Fixpoint span_unit (l : list byte) : list byte * list byte :=
  match l with
  | b :: l' => if is_byte x2e b || digit b then ([], l) else let '(u, r) := span_unit l' in (b :: u, r)
  | [] => ([], [])
  end.

Definition Nanosecond : Z := 1.
Definition Microsecond : Z := 1000 * Nanosecond.
Definition Millisecond : Z := 1000 * Microsecond.
Definition Second : Z := 1000 * Millisecond.
Definition Minute : Z := 60 * Second.
Definition Hour : Z := 60 * Minute.

Definition unitMap : list (list byte * Z) :=
  [([x6e; x73], Nanosecond); ([x75; x73], Microsecond); ([xc2; xb5; x73], Microsecond);
   ([xce; xbc; x73], Microsecond); ([x6d; x73], Millisecond); ([x73], Second); ([x6d], Minute); ([x68], Hour)].
Definition unit_of (u : list byte) : option Z :=
  match list_find (λ p, p.1 = u) unitMap with Some (_, (_, n)) => Some n | None => None end.

(** One round of the loop: a number and its unit. *)
Definition component (l : list byte) : result duration_error (Z * list byte) :=
  match leadingInt 0 l with
  | None => Err InvalidDuration
  | Some (v, l1) =>
      let pre := negb (length l =? length l1)%nat in
      let '(f, scale, l2, post) :=
        match l1 with
        | x2e :: l2 => let '(f, scale, l3) := leadingFraction 0 (float64 1) false l2 in
                       (f, scale, l3, negb (length l2 =? length l3)%nat)
        | _ => (0, float64 1, l1, false)
        end in
      if negb pre && negb post then Err InvalidDuration
      else
        let '(u, l3) := span_unit l2 in
        match u with
        | [] => Err MissingUnit
        | _ =>
            match unit_of u with
            | None => Err (UnknownUnit u)
            | Some unit =>
                if maxInt64 / unit <? v then Err InvalidDuration
                else
                  let v := v * unit in
                  let v := if 0 <? f
                           then v + trunc (SFmul 53 1024 (float64 f) (SFdiv 53 1024 (float64 unit) scale)) else v in
                  if maxInt64 <? v then Err InvalidDuration else Ok (v, l3)
            end
        end
  end.

(** The loop; a round takes at least one byte, so the length of the text is fuel enough. *)
Fixpoint components (fuel : nat) (d : Z) (l : list byte) : result duration_error Z :=
  match l, fuel with
  | [], _ => Ok d
  | _, O => Err InvalidDuration
  | _, S fuel =>
      match component l with
      | Err e => Err e
      | Ok (v, l) => if maxInt64 <? d + v then Err InvalidDuration else components fuel (d + v) l
      end
  end.

Definition ParseDuration (s : string) : result duration_error Z :=
  let l := str_bytes s in
  let '(neg, l) := match l with
                   | x2d :: l => (true, l)
                   | x2b :: l => (false, l)
                   | _ => (false, l)
                   end in
  if decide (l = [x30]) then Ok 0
  else if decide (l = []) then Err InvalidDuration
  else match components (length l) 0 l with
       | Ok d => Ok (if neg then - d else d)
       | Err e => Err e
       end.

(** ** Decimal numbers *)

Lemma digit_char n : (n < 10)%N ->
  exists b, str_bytes (String (pretty_N_char n) "") = [b] /\ digit b = true /\ b2z b = 48 + Z.of_N n.
Proof.
  intros H. destruct n as [|p]; [by eexists|].
  destruct p as [p|p|]; [| |by eexists]; (destruct p as [p|p|]; [| |by eexists]);
    (destruct p as [p|p|]; [lia|destruct p; first [lia|by eexists]|by eexists]).
Qed.

Lemma str_bytes_cons c s : str_bytes (String c s) = str_bytes (String c "") ++ str_bytes s.
Proof. done. Qed.
Lemma str_bytes_app s t : str_bytes (s +:+ t) = str_bytes s ++ str_bytes t.
Proof. induction s as [|c s IH]; [done|]. change (String c s +:+ t) with (String c (s +:+ t)). cbn. by f_equal. Qed.

Lemma pretty_N_go_app x s : pretty_N_go x s = pretty_N_go x "" +:+ s.
Proof.
  revert s. induction (N.lt_wf_0 x) as [x _ IH]; intros s. destruct (decide (0 < x)%N) as [Hx|Hx].
  - rewrite !(pretty_N_go_step x) by done.
    assert (x `div` 10 < x)%N as Hlt by (apply N.div_lt; lia).
    rewrite (IH _ Hlt (String _ s)), (IH _ Hlt (String _ "")). generalize (pretty_N_go (x `div` 10) ""). intros t.
    induction t as [|a t IHt]; [done|]. change (String a t +:+ ?z) with (String a (t +:+ z)). by rewrite IHt.
  - assert (x = 0%N) as -> by lia. by rewrite !pretty_N_go_0.
Qed.

(** [leadingInt] of the decimal digits of a number. *)
Lemma leadingInt_go x l : Z.of_N x <= maxInt64 ->
  leadingInt 0 (str_bytes (pretty_N_go x "") ++ l) = leadingInt (Z.of_N x) l.
Proof.
  revert l. induction (N.lt_wf_0 x) as [x _ IH]; intros l Hm. destruct (decide (0 < x)%N) as [Hx|Hx].
  - rewrite pretty_N_go_step by done. rewrite pretty_N_go_app, str_bytes_app, <- app_assoc.
    assert (x `div` 10 < x)%N as Hlt by (apply N.div_lt; lia).
    rewrite IH by lia. destruct (digit_char (x mod 10)%N) as (b & -> & Hd & Hb); [by apply N.mod_lt|].
    cbn [app leadingInt]. rewrite Hd. rewrite N2Z.inj_div. change (Z.of_N 10) with 10.
    destruct (Z.ltb_spec (maxInt64 / 10) (Z.of_N x / 10)) as [H1|H1].
    { pose proof (Z.div_le_mono _ _ 10 ltac:(lia) Hm). lia. }
    assert (Z.of_N x / 10 * 10 + (b2z b - 48) = Z.of_N x) as ->.
    { rewrite Hb, N2Z.inj_mod. change (Z.of_N 10) with 10. pose proof (Z.div_mod (Z.of_N x) 10). lia. }
    destruct (Z.ltb_spec maxInt64 (Z.of_N x)); [lia|done].
  - assert (x = 0%N) as -> by lia. by rewrite pretty_N_go_0.
Qed.

Lemma leadingInt_pretty n l : 0 <= n <= maxInt64 -> leadingInt 0 (str_bytes (pretty n) ++ l) = leadingInt n l.
Proof.
  intros Hn. destruct n as [|p|p]; [done| |lia]. change (pretty (Zpos p)) with (pretty (Npos p)).
  unfold pretty, pretty_N. rewrite decide_False by done. by rewrite (leadingInt_go (Npos p)) by (cbn; lia).
Qed.

Lemma go_digits x : forallb digit (str_bytes (pretty_N_go x "")) = true.
Proof.
  induction (N.lt_wf_0 x) as [x _ IH]. destruct (decide (0 < x)%N) as [Hx|Hx].
  - rewrite pretty_N_go_step by done. rewrite pretty_N_go_app, str_bytes_app, forallb_app.
    rewrite IH by (apply N.div_lt; lia).
    destruct (digit_char (x mod 10)%N) as (b & -> & Hd & Hb); [by apply N.mod_lt|]. cbn. by rewrite Hd.
  - assert (x = 0%N) as -> by lia. by rewrite pretty_N_go_0.
Qed.

Lemma go_head x : (0 < x)%N -> exists b l, str_bytes (pretty_N_go x "") = b :: l /\ b <> x30.
Proof.
  induction (N.lt_wf_0 x) as [x _ IH]. intros Hx.
  rewrite pretty_N_go_step by done. rewrite pretty_N_go_app, str_bytes_app.
  destruct (digit_char (x mod 10)%N) as (b & -> & Hd & Hb); [by apply N.mod_lt|].
  destruct (decide (0 < x `div` 10)%N) as [Hq|Hq].
  - destruct (IH (x `div` 10)%N ltac:(apply N.div_lt; lia) Hq) as (c & l & -> & Hc). by exists c, (l ++ [b]).
  - assert (x `div` 10 = 0)%N as E by (apply N.le_0_r, N.le_ngt, Hq). rewrite E, pretty_N_go_0. exists b, []. split; [done|].
    intros ->. change (b2z x30) with 48 in Hb. pose proof (N.div_mod x 10 ltac:(done)) as Hdm. rewrite E in Hdm. lia.
Qed.

Lemma digits_all l : forallb digit l = true -> digits l = (l, []).
Proof. induction l as [|b l IH]; cbn; [done|]. intros [-> H]%andb_true_iff. by rewrite (IH H). Qed.

(** The decimal form of an integer is a number of the JSON grammar. *)
Lemma scan_pretty (n : Z) : scan_num (str_bytes (pretty n)) = Some (str_bytes (pretty n), []).
Proof.
  assert (forall p, scan_int (str_bytes (pretty_N_go (Npos p) "")) = Some (str_bytes (pretty_N_go (Npos p) ""), [])) as Hp.
  { intros p. destruct (go_head (Npos p)) as (b & l & E & Hb); [lia|]. pose proof (go_digits (Npos p)) as Hd.
    rewrite E in *. unfold scan_int. cbn [opt_char]. unfold is_byte at 1. rewrite bool_decide_eq_false_2 by done.
    unfold digits1. by rewrite (digits_all _ Hd). }
  destruct n as [|p|p]; [done| |].
  - change (str_bytes (pretty (Zpos p))) with (str_bytes (pretty_N_go (Npos p) "")).
    destruct (go_head (Npos p)) as (b & l & E & Hb); [lia|]. pose proof (go_digits (Npos p)) as Hd.
    specialize (Hp p). rewrite E in *. unfold scan_num. cbn [opt_char].
    assert (is_byte x2d b = false) as ->.
    { cbn in Hd. apply andb_true_iff in Hd as [Hd _]. clear - Hd. by destruct b. }
    rewrite Hp. cbn. by rewrite !app_nil_r.
  - change (str_bytes (pretty (Zneg p))) with (x2d :: str_bytes (pretty_N_go (Npos p) "")).
    unfold scan_num. cbn [opt_char]. change (is_byte x2d x2d) with true. cbv iota. rewrite Hp. cbn. by rewrite !app_nil_r.
Qed.

Lemma pretty_head (n : Z) : 0 <= n -> exists b l, str_bytes (pretty n) = b :: l /\ digit b = true.
Proof.
  intros Hn. destruct n as [|p|p]; [by eexists _, _| |lia].
  change (str_bytes (pretty (Zpos p))) with (str_bytes (pretty_N_go (Npos p) "")).
  destruct (go_head (Npos p)) as (b & l & E & Hb); [lia|]. pose proof (go_digits (Npos p)) as Hd.
  rewrite E in *. cbn in Hd. apply andb_true_iff in Hd as [Hd _]. eauto.
Qed.

(** A number of seconds, written as the configuration has it, is read back, as long as it
    fits 64 bits. *)
Lemma ParseDuration_seconds n : 0 <= n -> n * Second <= maxInt64 ->
  ParseDuration (pretty n +:+ "s") = Ok (n * Second).
Proof.
  intros Hn Hm. assert (n <= maxInt64) as Hn' by (unfold Second, Millisecond, Microsecond, Nanosecond in Hm; lia).
  unfold ParseDuration. rewrite str_bytes_app. change (str_bytes "s") with [x73].
  pose proof (leadingInt_pretty n [x73] (conj Hn Hn')) as Hl. cbn [leadingInt] in Hl. change (digit x73) with false in Hl.
  destruct (pretty_head n Hn) as (b & l & E & Hb). rewrite E in *. cbn [app] in *.
  assert (component (b :: l ++ [x73]) = Ok (n * Second, [])) as Hc.
  { unfold component. rewrite Hl. cbn [length]. rewrite length_app. cbn [length].
    destruct (Nat.eqb_spec (S (length l + 1)) 1) as [|_]; [lia|]. cbv beta iota zeta. cbn [negb andb].
    change (span_unit [x73]) with ([x73], @nil byte). cbv iota. change (unit_of [x73]) with (Some Second). cbv iota.
    change (0 <? 0) with false. cbv iota.
    destruct (Z.ltb_spec (maxInt64 / Second) n) as [Hlt|_].
    { assert (n <= maxInt64 / Second) by (apply Z.div_le_lower_bound; unfold Second, Millisecond, Microsecond, Nanosecond in *; lia). lia. }
    destruct (Z.ltb_spec maxInt64 (n * Second)); [lia|done]. }
  assert (match b :: l ++ [x73] with x2d :: l => (true, l) | x2b :: l => (false, l) | _ => (false, b :: l ++ [x73]) end
    = (false, b :: l ++ [x73])) as ->.
  { clear - Hb. by destruct b. }
  rewrite !decide_False by (by destruct l). cbn [length components]. rewrite Hc.
  destruct (Z.ltb_spec maxInt64 (0 + n * Second)); [lia|]. destruct (length (l ++ [x73])); done.
Qed.

Example duration_10s : ParseDuration "10s" = Ok (10 * Second).
Proof. by vm_compute. Qed.
Example duration_90m : ParseDuration "1.5h" = Ok (90 * Minute).
Proof. by vm_compute. Qed.
Example duration_mixed : ParseDuration "-1h2m3.004s" = Ok (- (Hour + 2 * Minute + 3 * Second + 4 * Millisecond)).
Proof. by vm_compute. Qed.
Example duration_overflow : ParseDuration "9223372036855s" = Err InvalidDuration.
Proof. by vm_compute. Qed.
