(* ===== verification/MtnStore.v ===== *)
(** * What the MTN allocator stores: the database and its records (isolate/mtn.go)

    go.etcd.io/bbolt is not part of the repository: [Bolt] lists the operations
    mtn.go calls and the documented behaviour it relies on, and [mem_bolt] is an
    in-memory database that has it.  Values are JSON texts; they are kept as
    documents, [None] for a text that does not parse. *)

From Stdlib Require Import ZArith Lia Ascii String.
From S2P Require Import Prelude Json.

(** ** [encoding/json] on [Allocation] *)

Definition value : Type := option json.

Record Allocation := mkAlloc {
  Net : string;
  Hostname : string;
  Ip : string;
  Id : string;
  NetId : string;
  Box : string;
  Used : bool
}.
Definition no_alloc : Allocation := mkAlloc "" "" "" "" "" "" false.

#[export] Instance Allocation_eq_dec : EqDecision Allocation.
Proof. solve_decision. Defined.

(** [json.Marshal(a)]: the exported fields in declaration order. *)
Definition Marshal (a : Allocation) : value :=
  Some (JObj [("Net", JStr (Net a)); ("Hostname", JStr (Hostname a)); ("Ip", JStr (Ip a));
    ("Id", JStr (Id a)); ("NetId", JStr (NetId a)); ("Box", JStr (Box a));
    ("Used", JBool (Used a))]).

Definition lower_ascii (c : ascii) : ascii :=
  let n := nat_of_ascii c in
  if ((65 <=? n) && (n <=? 90))%nat then ascii_of_nat (n + 32) else c.
Fixpoint lower (s : string) : string :=
  match s with
  | EmptyString => EmptyString
  | String c s => String (lower_ascii c) (lower s)
  end.

(** Storing a field value: [None] is an UnmarshalTypeError, after which decoding
    goes on; [null] leaves the field. *)
Definition set_str (j : json) (set : string -> Allocation) (a : Allocation) : option Allocation :=
  match j with JStr s => Some (set s) | JNull => Some a | _ => None end.

(** One member of the object: keys match field names up to ASCII case; unknown
    keys are ignored. *)
Definition set_field (kv : string * json) (a : Allocation) : option Allocation :=
  let k := lower kv.1 in
  let j := kv.2 in
  if decide (k = "net"%string) then
    set_str j (λ s, mkAlloc s (Hostname a) (Ip a) (Id a) (NetId a) (Box a) (Used a)) a
  else if decide (k = "hostname"%string) then
    set_str j (λ s, mkAlloc (Net a) s (Ip a) (Id a) (NetId a) (Box a) (Used a)) a
  else if decide (k = "ip"%string) then
    set_str j (λ s, mkAlloc (Net a) (Hostname a) s (Id a) (NetId a) (Box a) (Used a)) a
  else if decide (k = "id"%string) then
    set_str j (λ s, mkAlloc (Net a) (Hostname a) (Ip a) s (NetId a) (Box a) (Used a)) a
  else if decide (k = "netid"%string) then
    set_str j (λ s, mkAlloc (Net a) (Hostname a) (Ip a) (Id a) s (Box a) (Used a)) a
  else if decide (k = "box"%string) then
    set_str j (λ s, mkAlloc (Net a) (Hostname a) (Ip a) (Id a) (NetId a) s (Used a)) a
  else if decide (k = "used"%string) then
    match j with
    | JBool b => Some (mkAlloc (Net a) (Hostname a) (Ip a) (Id a) (NetId a) (Box a) b)
    | JNull => Some a
    | _ => None
    end
  else Some a.

Inductive json_error := SyntaxError | UnmarshalTypeError.

(** [json.Unmarshal(v, &a)] into a zero [Allocation]: the error and what was stored. *)
Definition Unmarshal_into (v : value) : option json_error * Allocation :=
  match v with
  | None => (Some SyntaxError, no_alloc)
  | Some JNull => (None, no_alloc)
  | Some (JObj fields) =>
      fold_left (λ ea kv, match set_field kv ea.2 with
                          | Some a => (ea.1, a)
                          | None => (Some UnmarshalTypeError, ea.2)
                          end) fields (None, no_alloc)
  | Some _ => (Some UnmarshalTypeError, no_alloc)
  end.

Definition Unmarshal (v : value) : result json_error Allocation :=
  match Unmarshal_into v with
  | (None, a) => Ok a
  | (Some e, _) => Err e
  end.

Lemma Unmarshal_Marshal a : Unmarshal (Marshal a) = Ok a.
Proof. by destruct a. Qed.

(** The bytes of a record, and the value they are read as. *)
Definition Marshal_bytes (a : Allocation) : list byte :=
  match Marshal a with Some j => print j | None => [] end.
Lemma Marshal_bytes_read a : Forall str_ok [Net a; Hostname a; Ip a; Id a; NetId a; Box a] ->
  parse (Marshal_bytes a) = Marshal a.
Proof.
  rewrite !Forall_cons. intros (H1 & H2 & H3 & H4 & H5 & H6 & _). apply parse_print_id.
  apply json_ok_obj. repeat (apply Forall_cons_2; [split; [by apply ascii_ok|done]|]). constructor.
Qed.

(** ** The database *)

(** Bucket, then key. *)
Abbreviation store := (gmap string (gmap string value)).

Class Bolt (Db Tx Er : Type) := {
  db_data : Db -> store;
  tx_data : Tx -> store;
  Begin : Db -> result Er Tx;
  Commit : Tx -> Db -> result Er Db;
  CreateBucketIfNotExists : string -> Tx -> result Er Tx;
  Put : string -> string -> value -> Tx -> result Er Tx;
  (** the keys of a bucket and the buckets, in the order a cursor visits them *)
  Items : string -> Tx -> list (string * value);
  Buckets : Tx -> list string;
}.

(** What the documentation of bbolt promises of them: a transaction starts from the
    committed data and commit publishes its data; a rolled back transaction changes
    nothing, which is why it has no operation here. *)
Class BoltLaws (Db Tx Er : Type) `{Bolt Db Tx Er} : Prop := {
  Begin_ok d t : Begin d = Ok t -> tx_data t = db_data d;
  Commit_ok t d d' : Commit t d = Ok d' -> db_data d' = tx_data t;
  CreateBucket_ok n t t' : CreateBucketIfNotExists n t = Ok t' ->
    tx_data t' = match tx_data t !! n with Some _ => tx_data t | None => <[n := ∅]> (tx_data t) end;
  Put_ok n k v t t' b : tx_data t !! n = Some b -> Put n k v t = Ok t' ->
    tx_data t' = <[n := <[k := v]> b]> (tx_data t);
  Items_ok n t b : tx_data t !! n = Some b -> Items n t ≡ₚ map_to_list b;
  Buckets_ok t : Buckets t ≡ₚ (map_to_list (tx_data t)).*1;
}.

(** [tx.Bucket(n)] and [b.Get(k)]. *)
Definition Bucket `{Bolt Db Tx Er} (n : string) (t : Tx) : option (gmap string value) :=
  tx_data t !! n.

(** *** An in-memory database

    Refuses what bbolt refuses: an empty bucket name or key. *)
Inductive mem_error := ErrBucketNameRequired | ErrKeyRequired | ErrBucketNotFound.

#[export] Instance mem_bolt : Bolt store store mem_error := {|
  db_data d := d;
  tx_data t := t;
  Begin d := Ok d;
  Commit t d := Ok t;
  CreateBucketIfNotExists n t :=
    if decide (n = ""%string) then Err ErrBucketNameRequired
    else match t !! n with Some _ => Ok t | None => Ok (<[n := ∅]> t) end;
  Put n k v t :=
    match t !! n with
    | None => Err ErrBucketNotFound
    | Some b => if decide (k = ""%string) then Err ErrKeyRequired
                else Ok (<[n := <[k := v]> b]> t)
    end;
  Items n t := match t !! n with Some b => map_to_list b | None => [] end;
  Buckets t := (map_to_list t).*1;
|}.

#[export] Instance mem_bolt_laws : BoltLaws store store mem_error.
Proof.
  split; cbn.
  - intros d t H. by simplify_eq.
  - intros t d d' H. by simplify_eq.
  - intros n t t'. destruct (decide _); [done|]. destruct (t !! n); intros H; by simplify_eq.
  - intros n k v t t' b -> H. destruct (decide _); by simplify_eq.
  - by intros n t b ->.
  - done.
Qed.
