(* ===== verification/Mtn.v ===== *)
(** * The MTN address allocator (isolate/mtn.go)

    Addresses come from an HTTP allocator in batches and are kept in a bbolt
    database, one bucket per network.  [UseAlloc] hands an address to a container,
    [UnuseAlloc] takes it back, [BindAllocs] refills the pool, [PoolInit] loads it at
    start.  Every operation runs in one transaction.  The allocator service is an
    argument: [post i] is its answer to the [i]-th request of a refill. *)

From Stdlib Require Import ZArith Lia String.
From S2P Require Import Prelude Json MtnStore.

Record RawPorto := { rp_Hostname : string; rp_Ip : string; rp_Net : string }.
Record RawAlloc := { ra_Id : string; ra_Porto : RawPorto; ra_Network : string }.
Record AllocError := { ae_Message : list string; ae_Cause_Message : list string }.

(** The outcome of building and doing an HTTP request whose body is decoded to [A].
    [DoErr None]: the client returned an error and, as it does then, no response. *)
Inductive http_resp (A : Type) :=
  | NewRequestErr
  | DoErr (resp : option (Z * (option json_error * AllocError)))
  | DoOk (body : result json_error A).
Arguments NewRequestErr {A}.
Arguments DoErr {A} resp.
Arguments DoOk {A} body.

Record MtnCfg := mkCfg {
  Enable : bool;
  Allocbuffer : Z;
  Url : string;
  Ident : string;
  SchedLabel : string;
  Headers : gmap string string;
  DbPath : string
}.

Record AllocsStat := mkStat { Total : Z; Free : Z; UsedN : Z; MtnEnabled : bool }.

Section mtn.
Context {Db Tx Er : Type} `{Bolt Db Tx Er}.

Inductive merror :=
  | DbError (e : Er)
  | JsonError (e : json_error)
  | HttpError
  | Bug (msg : string)
  | Panic.

(** A database call of a transaction. *)
Definition dbcall (f : Tx -> result Er Tx) : act Tx merror unit := λ t,
  match f t with
  | Ok t' => (Ok tt, t')
  | Err e => (Err (DbError e), t)
  end.
Definition unmarshal (v : value) : act Tx merror Allocation := λ t,
  match Unmarshal v with
  | Ok a => (Ok a, t)
  | Err e => (Err (JsonError e), t)
  end.

Definition reading {A} (f : Tx -> A) : act Tx merror A := λ t, (Ok (f t), t).
Definition returning {A} (x : result merror A) : act Tx merror A := λ t, (x, t).

(** [Db.Begin], the body, and [tx.Commit]; the deferred [tx.Rollback] drops the
    transaction on every other path. *)
Definition in_tx {A} (body : act Tx merror A) : act Db merror A := λ d,
  match Begin d with
  | Err e => (Err (DbError e), d)
  | Ok t =>
      match body t with
      | (Err e, _) => (Err e, d)
      | (Ok a, t) =>
          match Commit t d with
          | Err e => (Err (DbError e), d)
          | Ok d' => (Ok a, d')
          end
      end
  end.

(** ** The allocator service *)

(** The loop of [RequestAllocs]; [n] requests are left, the next one is the [i]-th. *)
Fixpoint request_loop (post : nat -> http_resp RawAlloc) (netid : string) (n i : nat)
    (r : gmap string Allocation) : result merror (gmap string Allocation) :=
  match n with
  | O => Ok r
  | S n =>
      match post i with
      | NewRequestErr => Err HttpError
      | DoErr None => Err Panic                (* reqHttp.Body of a nil response *)
      | DoErr (Some _) => Err HttpError
      | DoOk (Err e) => Err (JsonError e)
      | DoOk (Ok j) =>
          request_loop post netid n (S i)
            (<[ra_Id j := mkAlloc (rp_Net (ra_Porto j)) (rp_Hostname (ra_Porto j))
                 (rp_Ip (ra_Porto j)) (ra_Id j) netid "" false]> r)
      end
  end.

Definition RequestAllocs (c : MtnCfg) (post : nat -> http_resp RawAlloc) (netid : string)
  : result merror (gmap string Allocation) :=
  request_loop post netid (Z.to_nat (Allocbuffer c)) 0 ∅.

(** [GetAllocations]: the allocations of the scheduler, by network. *)
Definition group (jresp : list RawAlloc) : gmap string (list Allocation) :=
  fold_left (λ r a,
    <[ra_Network a := default [] (r !! ra_Network a) ++
        [mkAlloc (rp_Net (ra_Porto a)) (rp_Hostname (ra_Porto a)) (rp_Ip (ra_Porto a))
           (ra_Id a) (ra_Network a) "" false]]> r) jresp ∅.

Definition GetAllocations (get : http_resp (list RawAlloc))
  : result merror (gmap string (list Allocation)) :=
  match get with
  | NewRequestErr => Err HttpError
  | DoErr None => Err Panic                    (* rh.Body of a nil response *)
  | DoErr (Some (status, (errDecode, errResp))) =>
      if status =? 400 then
        match errDecode with
        | Some _ =>                            (* indexes Message of a failed decode *)
            match ae_Message errResp, ae_Cause_Message errResp with
            | _ :: _, _ :: _ => Err HttpError
            | _, _ => Err Panic
            end
        | None => Err HttpError
        end
      else Err HttpError
  | DoOk (Err e) => Err (JsonError e)
  | DoOk (Ok jresp) => Ok (group jresp)
  end.

(** ** The pool *)

Definition DbAllocIsFree (v : value) : bool :=
  match Unmarshal v with
  | Err _ => false
  | Ok a => if Used a then false else true
  end.

Fixpoint count_free (items : list (string * value)) : Z :=
  match items with
  | [] => 0
  | (_, v) :: items => if DbAllocIsFree v then 1 + count_free items else count_free items
  end.

(** [CountFreeAllocs]: creates the bucket, counts its free records. *)
Definition CountFreeAllocs (netId : string) : act Tx merror Z :=
  _ ← dbcall (CreateBucketIfNotExists netId);
  reading (λ t, count_free (Items netId t)).

(** The first free record the cursor meets. *)
Fixpoint first_free (items : list (string * value)) : option value :=
  match items with
  | [] => None
  | (_, v) :: items => if DbAllocIsFree v then Some v else first_free items
  end.

Definition take_alloc (box : string) (a : Allocation) : Allocation :=
  mkAlloc (Net a) (Hostname a) (Ip a) (Id a) (NetId a) box true.

(** [b.Put(id, json.Marshal(alloc))] for every pair of the range. *)
Fixpoint put_all (netId : string) (kvs : list (string * Allocation)) : act Tx merror unit :=
  match kvs with
  | [] => mret tt
  | (id, a) :: kvs => _ ← dbcall (Put netId id (Marshal a)); put_all netId kvs
  end.

(** The refill of [GetDbAlloc]: the first allocation of the range is taken. *)
Definition take_first (netId box : string) (kvs : list (string * Allocation))
  : act Tx merror Allocation :=
  match kvs with
  | [] => throw (Bug "Cant get allocation from DB and cant request more")
  | (id, a) :: kvs =>
      _ ← put_all netId ((id, take_alloc box a) :: kvs);
      mret (take_alloc box a)
  end.

(** [range_]: the order in which [range allocs] visits the map. *)
Definition GetDbAlloc (c : MtnCfg) (post : nat -> http_resp RawAlloc)
    (range_ : gmap string Allocation -> list (string * Allocation)) (netId box : string)
  : act Tx merror Allocation := λ t,
  match Bucket netId t with
  | None => (Err (Bug "Backet not exist"), t)
  | Some _ =>
      match first_free (Items netId t) with
      | Some v =>
          (a ← unmarshal v;
           let a := take_alloc box a in
           _ ← dbcall (Put netId (Id a) (Marshal a));
           mret a) t
      | None =>
          (* CountFreeAllocs is called for the log only; its error is dropped *)
          let t := (CountFreeAllocs netId t).2 in
          (allocs ← returning (RequestAllocs c post netId);
           _ ← dbcall (CreateBucketIfNotExists netId);
           take_first netId box (range_ allocs)) t
      end
  end.

Definition UseAlloc (c : MtnCfg) (post : nat -> http_resp RawAlloc)
    (range_ : gmap string Allocation -> list (string * Allocation)) (netId box : string)
  : act Db merror Allocation := in_tx (GetDbAlloc c post range_ netId box).

(** [b.Get(id)] of a missing key is nil, which is no JSON text. *)
Definition FreeDbAlloc (netId id : string) : act Db merror unit :=
  in_tx (λ t,
    match Bucket netId t with
    | None => (Err (Bug "Bucket not exist"), t)
    | Some b =>
        (a ← unmarshal (default None (b !! id));
         dbcall (Put netId id (Marshal (mkAlloc (Net a) (Hostname a) (Ip a) (Id a) (NetId a)
           (Box a) false)))) t
    end).

(** [UnuseAlloc] logs the error. *)
Definition UnuseAlloc (netId id : string) (d : Db) : Db := (FreeDbAlloc netId id d).2.

Definition BindAllocs (c : MtnCfg) (post : nat -> http_resp RawAlloc)
    (range_ : gmap string Allocation -> list (string * Allocation)) (netId : string)
  : act Db merror unit :=
  if decide (netId = ""%string) then throw (Bug "Len(netId) is zero.")
  else in_tx
    (fCount ← CountFreeAllocs netId;
     if fCount <? Allocbuffer c then
       allocs ← returning (RequestAllocs c post netId);
       _ ← dbcall (CreateBucketIfNotExists netId);
       put_all netId (range_ allocs)
     else mret tt).

(** [PoolInit]: [nets] is the range over the networks. *)
Definition pool_put (netId : string) (a : Allocation) : act Tx merror unit := λ t,
  match Bucket netId t with
  | Some b =>
      match b !! Id a with
      | Some _ => (Ok tt, t)
      | None => dbcall (Put netId (Id a) (Marshal
          (mkAlloc (Net a) (Hostname a) (Ip a) (Id a) netId "" false))) t
      end
  | None => (Ok tt, t)
  end.
Fixpoint pool_net (netId : string) (allocs : list Allocation) : act Tx merror unit :=
  match allocs with
  | [] => mret tt
  | a :: allocs =>
      _ ← dbcall (CreateBucketIfNotExists netId);
      _ ← pool_put netId a;
      pool_net netId allocs
  end.
Fixpoint pool_nets (nets : list (string * list Allocation)) : act Tx merror unit :=
  match nets with
  | [] => mret tt
  | (netId, allocs) :: nets => _ ← pool_net netId allocs; pool_nets nets
  end.

Definition PoolInit (c : MtnCfg) (get : http_resp (list RawAlloc))
    (range_ : gmap string (list Allocation) -> list (string * list Allocation))
  : act Db merror unit :=
  if negb (Enable c) then mret tt
  else match GetAllocations get with
       | Err e => throw e
       | Ok all => in_tx (pool_nets (range_ all))
       end.

(** [UsedAllocations]: a fold over all buckets, stopped by the first record that is
    not free and does not parse. *)
Definition visit (v : value) (x : list Allocation * AllocsStat)
  : result merror (list Allocation * AllocsStat) :=
  let '(allocs, st) := x in
  if DbAllocIsFree v then
    Ok (allocs, mkStat (Total st + 1) (Free st + 1) (UsedN st) (MtnEnabled st))
  else match Unmarshal v with
       | Err e => Err (JsonError e)
       | Ok a => Ok (allocs ++ [a], mkStat (Total st + 1) (Free st) (UsedN st + 1) (MtnEnabled st))
       end.
Fixpoint visit_all (vs : list value) (x : list Allocation * AllocsStat)
  : result merror (list Allocation * AllocsStat) :=
  match vs with
  | [] => Ok x
  | v :: vs => match visit v x with Ok x => visit_all vs x | Err e => Err e end
  end.
Definition all_values (t : Tx) : list value := concat (map (λ n, (Items n t).*2) (Buckets t)).

Definition UsedAllocations (c : MtnCfg) : act Db merror (list Allocation * AllocsStat) :=
  let stat := mkStat 0 0 0 (Enable c) in
  if negb (Enable c) then mret ([], stat)
  else in_tx (λ t, (visit_all (all_values t) ([], stat), t)).
End mtn.
Arguments merror : clear implicits.

(** ** Start-up: [SaveRename] and [CfgInit] *)

(** Files by path. *)
Abbreviation files := (gmap string (list byte)).

Inductive fs_error := ErrNotExist | ErrCreate | ErrRemove.

(** [io.Copy(dst, src)]: appends what [src] has left to what [dst] had written. *)
Definition io_Copy (dst src : list byte) : list byte := dst ++ src.

(** [SaveRename(src, dst)].  [os.Create] truncates [dst]; the copy then runs with
    [ioSrcDb] as the destination and [ioDstDb], which is empty, as the source. *)
Definition SaveRename (can_create can_remove : bool) (src dst : string) (fs : files)
  : option fs_error * files :=
  match fs !! src with
  | None => (Some ErrNotExist, fs)
  | Some _ =>
      if can_create then
        let fs := <[dst := []]> fs in
        let written := io_Copy [] (default [] (fs !! dst)) in
        let fs := <[src := written ++ zdrop (zlen written) (default [] (fs !! src))]> fs in
        if can_remove then (None, delete src fs) else (Some ErrRemove, fs)
      else (Some ErrCreate, fs)
  end.

(** The [mtn] section of the configuration. *)
Record MtnSection := {
  s_Enable : bool;
  s_Allocbuffer : Z;
  s_Url : string;
  s_Label : string;
  s_Ident : string;
  s_DbPath : string;
  s_Headers : gmap string string
}.

Inductive stat_result := StatNotExist | StatErr | StatSize (n : Z).

(** What the system answers during [CfgInit]. *)
Record boot (Db : Type) := {
  b_hostname : option string;            (* os.Hostname() *)
  b_open1 : option Db;                   (* bolt.Open(DbPath), nil on error *)
  b_stat : stat_result;                  (* os.Stat(DbPath) *)
  b_backup_exists : bool;                (* os.Stat(corruptedBackupPath) *)
  b_can_create : bool;
  b_can_remove : bool;
  b_open2 : option Db;                   (* the second bolt.Open *)
  b_check : bool                         (* tx.Check() reported no error *)
}.
Arguments b_hostname {Db}.
Arguments b_open1 {Db}.
Arguments b_stat {Db}.
Arguments b_backup_exists {Db}.
Arguments b_can_create {Db}.
Arguments b_can_remove {Db}.
Arguments b_open2 {Db}.
Arguments b_check {Db}.

Definition corruptedBackupPath : string := "/var/tmp/isolate.mtn.db.corrupted".

(** The recovery when the database cannot be opened: [inl false] is [return false],
    [inl true] a nil dereference, [inr db] goes on. *)
Definition reopen {Db} (b : boot Db) (path : string) (fs : files) : (bool + Db) * files :=
  let checked (db : option Db) fs :=
    match db with
    | None => (inl true, fs)                         (* db.Update on a nil database *)
    | Some db => if b_check b then (inr db, fs) else (inl false, fs)
    end in
  match b_stat b with
  | StatNotExist => (inl false, fs)
  | StatErr => checked None fs
  | StatSize n =>
      let '(moved, fs) :=
        if 0 <? n then
          if b_backup_exists b then (false, fs)
          else match SaveRename (b_can_create b) (b_can_remove b) path corruptedBackupPath fs with
               | (None, fs) => (true, fs)
               | (Some _, fs) => (false, fs)
               end
        else if b_can_remove b then (true, delete path fs) else (false, fs) in
      if moved then
        match b_open2 b with
        | None => (inl false, fs)
        | Some db => checked (Some db) fs
        end
      else (inl false, fs)
  end.

(** [CfgInit]: [None] is a panic; otherwise the result, the configuration and the
    database of the state, and the files. *)
Definition CfgInit {Db} (b : boot Db) (s : MtnSection) (c : MtnCfg) (db0 : option Db) (fs : files)
  : option (bool * MtnCfg * option Db * files) :=
  let c := mkCfg (s_Enable s) (Allocbuffer c) (Url c) (Ident c) (SchedLabel c) (Headers c) (DbPath c) in
  if negb (s_Enable s) then Some (true, c, db0, fs)
  else
    let buf := if s_Allocbuffer s <? 1 then 4 else s_Allocbuffer s in
    let c := mkCfg true buf (Url c) (Ident c) (SchedLabel c) (Headers c) (DbPath c) in
    match (if decide (s_Label s = ""%string) then b_hostname b else Some (s_Label s)) with
    | None => Some (false, c, db0, fs)
    | Some label =>
        let ident := if decide (s_Ident s = ""%string) then label else s_Ident s in
        let path := if (1 <? String.length (s_DbPath s))%nat then s_DbPath s
                    else "/run/isolate.mtn.db"%string in
        let c := mkCfg true buf (s_Url s) ident label (s_Headers s) path in
        match b_open1 b with
        | Some db => Some (true, c, Some db, fs)
        | None =>
            match reopen b path fs with
            | (inl true, _) => None
            | (inl false, fs) => Some (false, c, db0, fs)
            | (inr db, fs) => Some (true, c, Some db, fs)
            end
        end
    end.

(** A successful [CfgInit] of an enabled allocator has opened a database, asks
    for at least one address per refill, and names itself by the configured ident,
    or its label, which defaults to the host name. *)
Theorem CfgInit_ok {Db} (b : boot Db) s c db0 fs c' db' fs' :
  CfgInit b s c db0 fs = Some (true, c', db', fs') -> s_Enable s = true ->
  1 <= Allocbuffer c' /\ is_Some db' /\
  Some (SchedLabel c') = (if decide (s_Label s = ""%string) then b_hostname b else Some (s_Label s)) /\
  Ident c' = (if decide (s_Ident s = ""%string) then SchedLabel c' else s_Ident s).
Proof.
  unfold CfgInit. intros E Hen. rewrite Hen in E. cbn [negb] in E.
  assert (1 <= (if s_Allocbuffer s <? 1 then 4 else s_Allocbuffer s)) as Hb.
  { destruct (Z.ltb_spec (s_Allocbuffer s) 1); lia. }
  destruct (if decide (s_Label s = ""%string) then b_hostname b else Some (s_Label s)) as [l|]; [|done].
  destruct (b_open1 b) as [db|].
  - injection E as <- <- <-. cbn. by eauto.
  - destruct (reopen b _ fs) as [[[]|db] fs1]; [done..|]. injection E as <- <- <-. cbn. by eauto.
Qed.

Lemma CfgInit_ok_witness :
  let b := {| b_hostname := Some "host"%string; b_open1 := Some tt; b_stat := StatErr;
              b_backup_exists := false; b_can_create := true; b_can_remove := true;
              b_open2 := None; b_check := true |} in
  let s := {| s_Enable := true; s_Allocbuffer := 0; s_Url := "u"; s_Label := ""; s_Ident := "";
              s_DbPath := ""; s_Headers := ∅ |} in
  exists c', CfgInit b s (mkCfg true 1 "http://allocator" "id" "label" ∅ "/run/db") None ∅ = Some (true, c', Some tt, ∅) /\ 1 <= Allocbuffer c'.
Proof.
  intros b s. eexists. split; [reflexivity|].
  apply (CfgInit_ok b s (mkCfg true 1 "http://allocator" "id" "label" ∅ "/run/db") None ∅ _ (Some tt) ∅); reflexivity.
Defined.
