(* ===== verification/MtnFacts.v ===== *)
(** * Correctness of the MTN allocator

    The database is read through [rec_at]: the record of an address, if it parses.
    The theorems hold for every database that satisfies [BoltLaws] and every
    allocator service that hands out addresses it has not handed out before
    ([fresh]). *)

From Stdlib Require Import ZArith Lia String.
From S2P Require Import Prelude MtnStore Mtn.

(** ** Records *)

Definition parse (v : value) : option Allocation :=
  match Unmarshal v with Ok a => Some a | Err _ => None end.
Definition rec_at (s : store) (n k : string) : option Allocation :=
  match s !! n with
  | Some b => match b !! k with Some v => parse v | None => None end
  | None => None
  end.
Definition used (s : store) (n k : string) : Prop :=
  exists a, rec_at s n k = Some a /\ Used a = true.

(** Every record parses and is stored under its own id. *)
Definition wf (s : store) : Prop :=
  forall n b k v, s !! n = Some b -> b !! k = Some v -> exists a, parse v = Some a /\ Id a = k.

Lemma parse_Marshal a : parse (Marshal a) = Some a.
Proof. unfold parse. by rewrite Unmarshal_Marshal. Qed.

Lemma rec_at_put s n b k a n' k' :
  s !! n = Some b ->
  rec_at (<[n := <[k := Marshal a]> b]> s) n' k' =
  if decide (n' = n /\ k' = k) then Some a else rec_at s n' k'.
Proof.
  intros Hb. unfold rec_at. destruct (decide (n' = n)) as [->|Hn].
  - rewrite lookup_insert_eq, Hb. destruct (decide (k' = k)) as [->|Hk].
    + rewrite lookup_insert_eq, parse_Marshal. by rewrite decide_True.
    + rewrite lookup_insert_ne by done. rewrite decide_False; [done|]. by intros [].
  - rewrite lookup_insert_ne by done. rewrite decide_False; [done|]. by intros [].
Qed.

Lemma rec_at_bucket s n n' k' :
  s !! n = None -> rec_at (<[n := ∅]> s) n' k' = rec_at s n' k'.
Proof.
  intros Hb. unfold rec_at. destruct (decide (n' = n)) as [->|Hn].
  - by rewrite lookup_insert_eq, Hb, lookup_empty.
  - by rewrite lookup_insert_ne.
Qed.

Lemma wf_put s n b k a : wf s -> s !! n = Some b -> Id a = k -> wf (<[n := <[k := Marshal a]> b]> s).
Proof.
  intros W Hb Hk n' b' k' v Hb' Hv. destruct (decide (n' = n)) as [->|Hn].
  - rewrite lookup_insert_eq in Hb'. simplify_eq. destruct (decide (k' = Id a)) as [->|Hk'].
    + rewrite lookup_insert_eq in Hv. simplify_eq. exists a. by rewrite parse_Marshal.
    + rewrite lookup_insert_ne in Hv by done. by eapply W.
  - rewrite lookup_insert_ne in Hb' by done. by eapply W.
Qed.

Lemma wf_bucket s n : wf s -> s !! n = None -> wf (<[n := ∅]> s).
Proof.
  intros W Hb n' b' k' v Hb' Hv. destruct (decide (n' = n)) as [->|Hn].
  - rewrite lookup_insert_eq in Hb'. by simplify_map_eq.
  - rewrite lookup_insert_ne in Hb' by done. by eapply W.
Qed.

Lemma rec_at_Id s n k a : wf s -> rec_at s n k = Some a -> Id a = k.
Proof.
  intros W. unfold rec_at. destruct (s !! n) as [b|] eqn:Hb; [|done].
  destruct (b !! k) as [v|] eqn:Hv; [|done]. intros Hp.
  destruct (W _ _ _ _ Hb Hv) as (a' & Ha & Hi). congruence.
Qed.

Lemma free_parse v : DbAllocIsFree v = true <-> exists a, parse v = Some a /\ Used a = false.
Proof.
  unfold DbAllocIsFree, parse. destruct (Unmarshal v) as [a|e]; [|split; [done|by intros (? & ? & _)]].
  split.
  - intros H. exists a. by destruct (Used a).
  - intros (a' & [= <-] & ->). done.
Qed.

Lemma first_free_in items v :
  first_free items = Some v -> exists k, (k, v) ∈ items /\ DbAllocIsFree v = true.
Proof.
  induction items as [|[k w] items IH]; cbn; [done|].
  destruct (DbAllocIsFree w) eqn:E.
  - intros [= <-]. exists k. split; [apply list_elem_of_here|done].
  - intros H. destruct (IH H) as (k' & Hk & Hf). exists k'. split; [by apply list_elem_of_further|done].
Qed.

Section laws.
Context {Db Tx Er : Type} `{BoltLaws Db Tx Er}.

(** ** Transactions *)

Lemma in_tx_ok {A} (body : act Tx (merror Er) A) d a d' :
  in_tx body d = (Ok a, d') ->
  exists t t', tx_data t = db_data d /\ body t = (Ok a, t') /\ db_data d' = tx_data t'.
Proof.
  unfold in_tx. intros E. destruct (Begin d) as [t|] eqn:Eb; [|done].
  destruct (body t) as [[x|] t'] eqn:Ex; [|done]. destruct (Commit t' d) as [d1|] eqn:Ec; [|done].
  simplify_eq. exists t, t'. eauto using Begin_ok, Commit_ok.
Qed.

Lemma in_tx_err {A} (body : act Tx (merror Er) A) d e d' :
  in_tx body d = (Err e, d') -> d' = d.
Proof. unfold in_tx. intros E. repeat (break_match_hyp E; simplify_eq); done. Qed.

Lemma dbcall_create n t t' :
  dbcall (CreateBucketIfNotExists n) t = (Ok tt, t') ->
  (forall n' k', rec_at (tx_data t') n' k' = rec_at (tx_data t) n' k') /\
  (wf (tx_data t) -> wf (tx_data t')) /\ is_Some (tx_data t' !! n).
Proof.
  unfold dbcall. destruct (CreateBucketIfNotExists n t) as [t1|] eqn:E; [|done].
  intros [= <-]. rewrite (CreateBucket_ok _ _ _ E). destruct (tx_data t !! n) as [b|] eqn:Hb.
  - rewrite Hb. by eauto.
  - rewrite lookup_insert_eq. split_and!; [|by intros; apply wf_bucket|by eauto].
    intros. by apply rec_at_bucket.
Qed.

Lemma dbcall_create_err n t e t' : dbcall (CreateBucketIfNotExists n) t = (Err e, t') -> t' = t.
Proof. unfold dbcall. by destruct (CreateBucketIfNotExists n t); intros; simplify_eq. Qed.

Lemma dbcall_put n k a t t' :
  is_Some (tx_data t !! n) -> dbcall (Put n k (Marshal a)) t = (Ok tt, t') ->
  (forall n' k', rec_at (tx_data t') n' k' =
     if decide (n' = n /\ k' = k) then Some a else rec_at (tx_data t) n' k') /\
  (Id a = k -> wf (tx_data t) -> wf (tx_data t')) /\ is_Some (tx_data t' !! n).
Proof.
  intros [b Hb]. unfold dbcall. destruct (Put n k (Marshal a) t) as [t1|] eqn:E; [|done].
  intros [= <-]. rewrite (Put_ok _ _ _ _ _ _ Hb E). split_and!.
  - intros. by apply rec_at_put.
  - intros. by apply wf_put.
  - rewrite lookup_insert_eq. eauto.
Qed.

(** Writing a list of records: each one is stored under its key, the others stay. *)
Lemma put_all_ok n kvs t t' :
  is_Some (tx_data t !! n) -> NoDup kvs.*1 -> Forall (λ kv, Id kv.2 = kv.1) kvs ->
  put_all n kvs t = (Ok tt, t') ->
  (forall n' k', (n' = n /\ k' ∈ kvs.*1) \/ rec_at (tx_data t') n' k' = rec_at (tx_data t) n' k') /\
  (forall k a, (k, a) ∈ kvs -> rec_at (tx_data t') n k = Some a) /\
  (wf (tx_data t) -> wf (tx_data t')).
Proof.
  intros Hb Hnd Hid. revert t Hb. induction kvs as [|[k a] kvs IH]; intros t Hb; cbn.
  { intros [= <-]. split_and!; auto. intros k a Hx. by apply elem_of_nil in Hx. }
  intros ([] & t1 & E1 & E2)%act_bind_inv. apply Forall_cons in Hid as [Hi Hid]. cbn in Hi.
  apply NoDup_cons in Hnd as [Hni Hnd].
  destruct (dbcall_put _ _ _ _ _ Hb E1) as (R1 & W1 & B1).
  destruct (IH Hnd Hid t1 B1 E2) as (R2 & P2 & W2). split_and!.
  - intros n' k'. rewrite elem_of_cons. destruct (R2 n' k') as [[-> ?]|E]; [auto|].
    rewrite E, R1. destruct (decide _) as [[-> ->]|]; auto.
  - intros k' a' [[= -> ->]|Hx]%elem_of_cons; [|by apply P2].
    destruct (R2 n k) as [[_ Hk]|E]; [done|]. rewrite E, R1. by rewrite decide_True.
  - auto.
Qed.

(** ** The allocator service *)

Lemma request_loop_ok post netid n i r m :
  request_loop (Er := Er) post netid n i r = Ok m ->
  (size m <= size r + n)%nat /\
  forall k a, m !! k = Some a -> r !! k = Some a \/
    (Id a = k /\ Used a = false /\ NetId a = netid /\
     exists x j, post x = DoOk (Ok j) /\ ra_Id j = k).
Proof.
  revert i r. induction n as [|n IH]; intros i r; cbn.
  { intros [= <-]. split; [lia|auto]. }
  destruct (post i) as [|[]|[j|]] eqn:Ep; try done. intros E.
  destruct (IH _ _ E) as [Hs Hk]. split.
  - rewrite map_size_insert in Hs. destruct (r !! ra_Id j); cbn in Hs; lia.
  - intros k a Ha. destruct (Hk k a Ha) as [Hr|]; [|by auto].
    apply lookup_insert_Some in Hr as [[<- <-]|[_ Hr]]; [|by auto]. right. split_and!; eauto.
Qed.

(** The service hands out addresses the pool does not have. *)
Definition fresh (post : nat -> http_resp RawAlloc) (s : store) (n : string) : Prop :=
  forall i j, post i = DoOk (Ok j) -> rec_at s n (ra_Id j) = None.

Context (range_ : gmap string Allocation -> list (string * Allocation)).
Context (range_ok : forall m, range_ m ≡ₚ map_to_list m).

Lemma range_in m k a : (k, a) ∈ range_ m <-> m !! k = Some a.
Proof. rewrite range_ok. apply elem_of_map_to_list. Qed.
Lemma range_nodup m : NoDup (range_ m).*1.
Proof. rewrite range_ok. apply NoDup_fst_map_to_list. Qed.

(** What a batch from the service looks like in the range. *)
Lemma request_range c post n m :
  RequestAllocs (Er := Er) c post n = Ok m ->
  Forall (λ kv, Id kv.2 = kv.1 /\ Used kv.2 = false /\
    exists x j, post x = DoOk (Ok j) /\ ra_Id j = kv.1) (range_ m).
Proof.
  intros E. apply Forall_forall. intros [k a] Hx%range_in.
  destruct (request_loop_ok _ _ _ _ _ _ E) as [_ Hk].
  destruct (Hk k a Hx) as [Hr|(? & ? & ? & ?)]; [by rewrite lookup_empty in Hr|done].
Qed.

Lemma CountFreeAllocs_rec n t :
  let t' := (CountFreeAllocs n t).2 in
  (forall n' k', rec_at (tx_data t') n' k' = rec_at (tx_data t) n' k') /\
  (wf (tx_data t) -> wf (tx_data t')) /\
  (is_Some (tx_data t !! n) -> is_Some (tx_data t' !! n)).
Proof.
  cbv zeta. unfold CountFreeAllocs, mbind, act_bind.
  destruct (dbcall (CreateBucketIfNotExists n) t) as [[[]|e] t1] eqn:E; cbn.
  - destruct (dbcall_create _ _ _ E) as (? & ? & ?). auto.
  - apply dbcall_create_err in E as ->. auto.
Qed.

(** ** Handing out an address *)

Lemma take_used box a : Used (take_alloc box a) = true /\ Id (take_alloc box a) = Id a /\
  Box (take_alloc box a) = box.
Proof. done. Qed.

(** The effect of handing out an address: it was not in use and is now; no other
    address changes its state. *)
Definition handed (s s' : store) (n box : string) (a : Allocation) : Prop :=
  Used a = true /\ Box a = box /\ rec_at s' n (Id a) = Some a /\ ~ used s n (Id a) /\
  (forall n' k', (n', k') <> (n, Id a) -> used s' n' k' <-> used s n' k') /\ wf s'.

Lemma handed_free n box t t' v :
  wf (tx_data t) -> is_Some (tx_data t !! n) -> first_free (Items n t) = Some v ->
  forall a, (a ← unmarshal v; let a := take_alloc box a in
     _ ← dbcall (Put n (Id a) (Marshal a)); mret a) t = (Ok a, t') ->
  handed (tx_data t) (tx_data t') n box a.
Proof.
  intros W [b Hb] Hf a. destruct (first_free_in _ _ Hf) as (k & Hin & Hfree).
  rewrite (Items_ok _ _ _ Hb) in Hin. apply elem_of_map_to_list in Hin.
  destruct (W _ _ _ _ Hb Hin) as (a0 & Hp & Hid).
  apply free_parse in Hfree as (a0' & Hp' & Hu). rewrite Hp in Hp'. injection Hp' as <-.
  intros (a1 & t1 & E1 & E2)%act_bind_inv. cbv zeta in E2.
  apply act_bind_inv in E2 as ([] & t2 & E2 & E3). unfold mret, act_ret in E3. simplify_eq.
  unfold unmarshal in E1. unfold parse in Hp. destruct (Unmarshal v) as [a2|] eqn:Ev; [|done].
  simplify_eq. destruct (dbcall_put _ _ _ _ _ (ex_intro _ b Hb) E2) as (R & W' & _).
  assert (rec_at (tx_data t1) n (Id a1) = Some a1) as Hr.
  { unfold rec_at. rewrite Hb, Hin. unfold parse. by rewrite Ev. }
  unfold handed. split_and!; try done.
  - rewrite R, decide_True by done. done.
  - cbn. intros (a' & Ha' & Hu'). congruence.
  - intros n' k' Hne. unfold used. rewrite R.
    rewrite decide_False; [done|]. cbn. intros [-> ->]. done.
  - by apply W'.
Qed.

Lemma handed_new n box t t' kvs a :
  wf (tx_data t) -> is_Some (tx_data t !! n) -> NoDup kvs.*1 ->
  Forall (λ kv, Id kv.2 = kv.1 /\ Used kv.2 = false /\ rec_at (tx_data t) n kv.1 = None) kvs ->
  take_first n box kvs t = (Ok a, t') -> handed (tx_data t) (tx_data t') n box a.
Proof.
  intros W Hb Hnd Hall E. destruct kvs as [|[k a0] kvs]; [done|].
  unfold take_first in E. apply act_bind_inv in E as ([] & t1 & E1 & E2).
  unfold mret, act_ret in E2. simplify_eq. apply Forall_cons in Hall as [(Hi & Hu & Hn) Hall].
  cbn in Hi, Hu, Hn. subst k.
  destruct (put_all_ok n ((Id a0, take_alloc box a0) :: kvs) t t' Hb Hnd) as (R & P & W'); [|done|].
  { constructor; [done|]. eapply Forall_impl; [exact Hall|]. by intros ? (? & ? & ?). }
  unfold handed. cbn. split_and!; auto.
  - apply P. apply list_elem_of_here.
  - intros (x & Hx & _). cbn in Hx. congruence.
  - intros n' k' Hne. destruct (R n' k') as [[-> Hk]|E]; [|unfold used; by rewrite E].
    cbn in Hk. apply elem_of_cons in Hk as [->|Hk]; [done|].
    apply list_elem_of_fmap in Hk as ([k a] & -> & Hx). cbn in *.
    rewrite Forall_forall in Hall. destruct (Hall _ Hx) as (_ & Hu' & Hn').
    pose proof (P k a ltac:(by apply list_elem_of_further)) as Pk. split.
    + intros (y & Hy & Hyu). cbn in *. congruence.
    + intros (y & Hy & _). cbn in *. congruence.
Qed.

Lemma handed_use c post netId box d a d' :
  wf (db_data d) -> fresh post (db_data d) netId ->
  UseAlloc c post range_ netId box d = (Ok a, d') -> handed (db_data d) (db_data d') netId box a.
Proof.
  intros W F E. destruct (in_tx_ok _ _ _ _ E) as (t & t' & Ht & Eg & Hd). rewrite Hd, <- Ht.
  rewrite <- Ht in W, F. clear E Hd Ht. unfold GetDbAlloc, Bucket in Eg.
  destruct (tx_data t !! netId) as [b|] eqn:Hb; [|done].
  destruct (first_free (Items netId t)) as [v|] eqn:Hf.
  { eapply handed_free; [done|by eauto|done|done]. }
  destruct (CountFreeAllocs_rec netId t) as (R0 & W0 & B0).
  set (t0 := (CountFreeAllocs netId t).2) in *.
  apply act_bind_inv in Eg as (m & t1 & E1 & E2). unfold returning in E1.
  destruct (RequestAllocs c post netId) as [m'|] eqn:Erq; [|done]. simplify_eq.
  apply act_bind_inv in E2 as ([] & t2 & E2 & E3).
  destruct (dbcall_create _ _ _ E2) as (R2 & W2 & B2).
  assert (handed (tx_data t2) (tx_data t') netId box a) as HH.
  { eapply handed_new; [auto|done|apply range_nodup| |done].
    eapply Forall_impl; [by eapply request_range|]. cbn. intros [k x] (H1 & H2 & y & j & H3 & H4).
    cbn in *. split_and!; try done. rewrite R2, R0, <- H4. by eapply F. }
  destruct HH as (H1 & H2 & H3 & H4 & H5 & H6). unfold handed. split_and!; try done.
  - unfold used in *. by rewrite R2, R0 in H4.
  - intros n' k' Hne. rewrite H5 by done. unfold used. by rewrite R2, R0.
Qed.

(** ** The other operations *)

Lemma UseAlloc_err c post netId box d e d' :
  UseAlloc c post range_ netId box d = (Err e, d') -> d' = d.
Proof. apply in_tx_err. Qed.

(** [UnuseAlloc] either frees exactly the address it is given or changes nothing. *)
Lemma UnuseAlloc_rec netId id d :
  wf (db_data d) ->
  let d' := UnuseAlloc netId id d in
  wf (db_data d') /\
  (d' = d \/
   (~ used (db_data d') netId id /\
    forall n k, (n, k) <> (netId, id) -> rec_at (db_data d') n k = rec_at (db_data d) n k)).
Proof.
  intros W. cbv zeta. unfold UnuseAlloc, FreeDbAlloc.
  match goal with |- context [in_tx ?b d] => destruct (in_tx b d) as [[[]|e] d'] eqn:E end; cbn [snd].
  2: { apply in_tx_err in E as ->. auto. }
  destruct (in_tx_ok _ _ _ _ E) as (t & t' & Ht & Eg & Hd). rewrite Hd. rewrite <- Ht in W |- *.
  unfold Bucket in Eg. destruct (tx_data t !! netId) as [b|] eqn:Hb; [|done].
  apply act_bind_inv in Eg as (a & t1 & E1 & E2). unfold unmarshal in E1.
  destruct (Unmarshal (default None (b !! id))) as [a'|] eqn:Eu; [|done]. simplify_eq.
  destruct (dbcall_put _ _ _ _ _ (ex_intro _ b Hb) E2) as (R & W' & _). split.
  - apply W'; [|done]. cbn. destruct (b !! id) as [v|] eqn:Hv; [|done].
    destruct (W _ _ _ _ Hb Hv) as (x & Hp & Hi). unfold parse in Hp. cbn in Eu.
    rewrite Eu in Hp. by simplify_eq.
  - right. split.
    + intros (x & Hx & Hu). rewrite R, decide_True in Hx by done. by simplify_eq.
    + intros n k Hne. rewrite R. rewrite decide_False; [done|]. by intros [-> ->].
Qed.

Lemma put_new_used n kvs t t' :
  is_Some (tx_data t !! n) -> NoDup kvs.*1 ->
  Forall (λ kv, Id kv.2 = kv.1 /\ Used kv.2 = false /\ rec_at (tx_data t) n kv.1 = None) kvs ->
  put_all n kvs t = (Ok tt, t') ->
  (forall n' k', used (tx_data t') n' k' <-> used (tx_data t) n' k') /\
  (wf (tx_data t) -> wf (tx_data t')).
Proof.
  intros Hb Hnd Hall E. destruct (put_all_ok n kvs t t' Hb Hnd) as (R & P & W'); [|done|].
  { eapply Forall_impl; [exact Hall|]. by intros ? (? & ? & ?). }
  split; [|done]. intros n' k'. destruct (R n' k') as [[-> Hk]|Er']; [|unfold used; by rewrite Er'].
  apply list_elem_of_fmap in Hk as ([k a] & -> & Hx). cbn in *.
  rewrite Forall_forall in Hall. destruct (Hall _ Hx) as (_ & Hu & Hn). cbn in *.
  pose proof (P k a Hx). split; intros (y & Hy & Hyu); congruence.
Qed.

(** [BindAllocs] adds free addresses; none changes its state. *)
Lemma BindAllocs_used c post netId d :
  fresh post (db_data d) netId ->
  let d' := (BindAllocs c post range_ netId d).2 in
  (forall n k, used (db_data d') n k <-> used (db_data d) n k) /\
  (wf (db_data d) -> wf (db_data d')).
Proof.
  intros F. cbv zeta. unfold BindAllocs. destruct (decide _); [done|].
  match goal with |- context [in_tx ?b d] => destruct (in_tx b d) as [[[]|e] d'] eqn:E end; cbn [snd].
  2: { apply in_tx_err in E as ->. auto. }
  destruct (in_tx_ok _ _ _ _ E) as (t & t' & Ht & Eg & Hd). rewrite Hd. rewrite <- Ht in F |- *.
  apply act_bind_inv in Eg as (fc & t0 & E0 & E1).
  destruct (CountFreeAllocs_rec netId t) as (R0 & W0 & _). rewrite E0 in R0, W0. cbn [snd] in *.
  assert (forall n k, used (tx_data t0) n k <-> used (tx_data t) n k) as U0
    by (intros; unfold used; by rewrite R0).
  destruct (fc <? Allocbuffer c).
  2: { unfold mret, act_ret in E1. simplify_eq. auto. }
  apply act_bind_inv in E1 as (m & t1 & E1 & E2). unfold returning in E1.
  destruct (RequestAllocs c post netId) as [m'|] eqn:Erq; [|done]. simplify_eq.
  apply act_bind_inv in E2 as ([] & t2 & E2 & E3).
  destruct (dbcall_create _ _ _ E2) as (R2 & W2 & B2).
  destruct (put_new_used netId (range_ m) t2 t') as [U3 W3]; [done|apply range_nodup| |done|].
  { eapply Forall_impl; [by eapply request_range|]. intros [k x] (H1 & H2 & y & j & H3 & H4).
    cbn in *. split_and!; try done. rewrite R2, R0, <- H4. by eapply F. }
  split; [|auto]. intros n' k'. rewrite U3, <- U0. unfold used. by rewrite R2.
Qed.

(** ** Histories *)

(** A history of the pool, with the addresses that were handed out and not given
    back; operations may fail at any time. *)
Inductive mtn_run : Db -> gset (string * string) -> Prop :=
  | run_init d : wf (db_data d) -> mtn_run d ∅
  | run_use c post n box d d' res L :
      mtn_run d L -> fresh post (db_data d) n ->
      UseAlloc c post range_ n box d = (res, d') ->
      mtn_run d' (match res with Ok a => {[ (n, Id a) ]} ∪ L | Err _ => L end)
  | run_unuse n k d L : mtn_run d L -> mtn_run (UnuseAlloc n k d) (L ∖ {[ (n, k) ]})
  | run_bind c post n d L :
      mtn_run d L -> fresh post (db_data d) n ->
      mtn_run (BindAllocs c post range_ n d).2 L.

Lemma mtn_run_inv d L :
  mtn_run d L -> wf (db_data d) /\ forall n k, (n, k) ∈ L -> used (db_data d) n k.
Proof.
  induction 1 as [d W|c post n box d d' res L Hr [W U] F E|n k d L Hr [W U]|c post n d L Hr [W U] F].
  - split; [done|]. intros n k Hx. set_solver.
  - destruct res as [a|e].
    + destruct (handed_use _ _ _ _ _ _ _ W F E) as (H1 & H2 & H3 & H4 & H5 & H6).
      split; [done|]. intros n' k'. rewrite elem_of_union, elem_of_singleton.
      intros [[= -> ->]|Hx]; [by exists a|].
      destruct (decide ((n', k') = (n, Id a))) as [[= -> ->]|Hne]; [by exists a|].
      apply H5; auto.
    + apply UseAlloc_err in E as ->. auto.
  - destruct (UnuseAlloc_rec n k d W) as [W' [->|[_ R]]]; (split; [done|]).
    + intros n' k' Hx. apply U. set_solver.
    + intros n' k' [Hx Hne]%elem_of_difference. rewrite elem_of_singleton in Hne.
      unfold used. rewrite R by done. by apply U.
  - destruct (BindAllocs_used c post n d F) as [U' W']. split; [auto|].
    intros n' k' Hx. by apply U', U.
Qed.


(** What a successful [UseAlloc] does: the address it returns was not in use,
    is recorded as used by the container, and no other address changes its state;
    a failed one leaves the database as it was. *)
Theorem UseAlloc_effect c post n box d :
  wf (db_data d) -> fresh post (db_data d) n ->
  match UseAlloc c post range_ n box d with
  | (Ok a, d') =>
      Used a = true /\ Box a = box /\ rec_at (db_data d') n (Id a) = Some a /\
      ~ used (db_data d) n (Id a) /\
      (forall n' k', (n', k') <> (n, Id a) ->
         used (db_data d') n' k' <-> used (db_data d) n' k') /\ wf (db_data d')
  | (Err _, d') => d' = d
  end.
Proof.
  intros W F. destruct (UseAlloc c post range_ n box d) as [[a|e] d'] eqn:E.
  - by eapply handed_use.
  - by eapply UseAlloc_err.
Qed.

(** [UnuseAlloc] frees exactly the address it is given, or fails and changes
    nothing; the records stay well formed. *)
Theorem UnuseAlloc_effect n k d :
  wf (db_data d) ->
  let d' := UnuseAlloc n k d in
  wf (db_data d') /\
  (d' = d \/
   (~ used (db_data d') n k /\
    forall n' k', (n', k') <> (n, k) -> rec_at (db_data d') n' k' = rec_at (db_data d) n' k')).
Proof. apply UnuseAlloc_rec. Qed.

(** ** Loading the pool *)

(** Records that are there are kept as they are. *)
Definition keeps (s s' : store) : Prop :=
  forall n k a, rec_at s n k = Some a -> rec_at s' n k = Some a.

Lemma pool_put_keeps netId a t t' : pool_put netId a t = (Ok tt, t') ->
  keeps (tx_data t) (tx_data t') /\ (wf (tx_data t) -> wf (tx_data t')).
Proof.
  unfold pool_put, Bucket. destruct (tx_data t !! netId) as [b|] eqn:Hb; [|by intros [= <-]; split; [intros ???|]].
  destruct (b !! Id a) as [v|] eqn:Hv; [by intros [= <-]; split; [intros ???|]|]. intros E.
  destruct (dbcall_put _ _ _ _ _ (ex_intro _ b Hb) E) as (R & W' & _). split; [|by intros; apply W'].
  intros n k x Hx. rewrite R. destruct (decide _) as [[-> ->]|]; [|done].
  unfold rec_at in Hx. by rewrite Hb, Hv in Hx.
Qed.

Lemma pool_net_keeps netId allocs t t' : pool_net netId allocs t = (Ok tt, t') ->
  keeps (tx_data t) (tx_data t') /\ (wf (tx_data t) -> wf (tx_data t')).
Proof.
  revert t. induction allocs as [|a allocs IH]; intros t; cbn.
  { by intros [= <-]; split; [intros ???|]. }
  intros ([] & t1 & E1 & ([] & t2 & E2 & E3)%act_bind_inv)%act_bind_inv.
  destruct (dbcall_create _ _ _ E1) as (R1 & W1 & _).
  destruct (pool_put_keeps _ _ _ _ E2) as [K2 W2]. destruct (IH _ E3) as [K3 W3].
  split; [|auto]. intros n k x Hx. apply K3, K2. by rewrite R1.
Qed.

Lemma pool_nets_keeps nets t t' : pool_nets nets t = (Ok tt, t') ->
  keeps (tx_data t) (tx_data t') /\ (wf (tx_data t) -> wf (tx_data t')).
Proof.
  revert t. induction nets as [|[n l] nets IH]; intros t; cbn.
  { by intros [= <-]; split; [intros ???|]. }
  intros ([] & t1 & E1 & E2)%act_bind_inv.
  destruct (pool_net_keeps _ _ _ _ E1) as [K1 W1]. destruct (IH _ E2) as [K2 W2].
  split; [|auto]. intros n' k x Hx. by apply K2, K1.
Qed.

(** Loading the pool at start never overwrites a record: addresses held by
    containers that survived a restart stay in use, whatever the service lists. *)
Theorem PoolInit_keeps c get rng d :
  let d' := (PoolInit c get rng d).2 in
  (forall n k a, rec_at (db_data d) n k = Some a -> rec_at (db_data d') n k = Some a) /\
  (wf (db_data d) -> wf (db_data d')).
Proof.
  cbv zeta. unfold PoolInit. destruct (negb (Enable c)); [done|].
  destruct (GetAllocations get) as [all|e]; [|done].
  destruct (in_tx (pool_nets (rng all)) d) as [[[]|e] d'] eqn:E; cbn [snd].
  - destruct (in_tx_ok _ _ _ _ E) as (t & t' & Ht & Eg & Hd). rewrite Hd, <- Ht.
    by eapply pool_nets_keeps.
  - by apply in_tx_err in E as ->.
Qed.

(** A refill never changes the state of an address the pool already has. *)
Theorem BindAllocs_effect c post n d :
  fresh post (db_data d) n ->
  let d' := (BindAllocs c post range_ n d).2 in
  (forall n' k', used (db_data d') n' k' <-> used (db_data d) n' k') /\
  (wf (db_data d) -> wf (db_data d')).
Proof. apply BindAllocs_used. Qed.

(** ** Accounting *)

Lemma visit_all_stat vs x allocs st :
  visit_all (Er := Er) vs x = Ok (allocs, st) ->
  Total st = Total x.2 + zlen vs /\
  Total st - Free st - UsedN st = Total x.2 - Free x.2 - UsedN x.2 /\
  UsedN st - zlen allocs = UsedN x.2 - zlen x.1 /\ MtnEnabled st = MtnEnabled x.2 /\
  (Forall (λ a, Used a = true) x.1 -> Forall (λ a, Used a = true) allocs).
Proof.
  revert x. induction vs as [|v vs IH]; intros [al0 st0]; cbn [visit_all].
  { intros [= <- <-]. rewrite zlen_nil. cbn. split_and!; [lia..|done|done]. }
  unfold visit. rewrite zlen_cons. unfold DbAllocIsFree.
  destruct (Unmarshal v) as [a|]; [|done]. destruct (Used a) eqn:Hu; intros E;
    apply IH in E as (E1 & E2 & E3 & E4 & E5); cbn in *.
  - rewrite zlen_app, zlen_cons, zlen_nil in E3. split_and!; [lia..|done|].
    intros HF. apply E5, Forall_app. by repeat constructor.
  - split_and!; [lia..|done|done].
Qed.

(** Every record of the database is visited once. *)
Lemma all_values_length t :
  0 + zlen (all_values t) = zlen (concat (map (λ nb : string * gmap string value,
     map_to_list nb.2) (map_to_list (tx_data t)))).
Proof.
  rewrite Z.add_0_l. unfold zlen, all_values. f_equal.
  rewrite (length_concat_perm _ _ _ (Buckets_ok t)).
  assert (forall n b, (n, b) ∈ map_to_list (tx_data t) -> tx_data t !! n = Some b) as Hl
    by (intros n b; apply elem_of_map_to_list).
  induction (map_to_list (tx_data t)) as [|[n b] l IH]; [done|]. cbn.
  rewrite !length_app, length_fmap.
  rewrite (Permutation_length (Items_ok n t b (Hl n b (list_elem_of_here _ _)))).
  f_equal. apply IH. intros n' b' Hx. by apply Hl, list_elem_of_further.
Qed.

(** The records of all buckets of a pool. *)
Definition records (s : store) : Z :=
  zlen (concat (map (λ nb : string * gmap string value, map_to_list nb.2) (map_to_list s))).

(** The statistics add up: every record is counted once, as free or as used,
    the list holds exactly the used ones, and looking changes nothing. *)
Theorem UsedAllocations_stat c d allocs st d' :
  UsedAllocations c d = (Ok (allocs, st), d') ->
  db_data d' = db_data d /\ Total st = Free st + UsedN st /\ UsedN st = zlen allocs /\
  Forall (λ a, Used a = true) allocs /\
  (Enable c = true -> Total st = records (db_data d)).
Proof.
  unfold UsedAllocations. destruct (Enable c); cbn [negb].
  2: { unfold mret, act_ret. intros [= <- <- <-]. by split_and!. }
  intros E. destruct (in_tx_ok _ _ _ _ E) as (t & t' & Ht & Eg & Hd). injection Eg as Ev <-.
  apply visit_all_stat in Ev as (E1 & E2 & E3 & _ & E5). cbn in *. change (zlen (@nil Allocation)) with 0 in E3.
  split_and!; [congruence|lia|lia|by apply E5|]. intros _. rewrite E1, <- Ht.
  by rewrite all_values_length.
Qed.
End laws.

(** ** A pool in memory *)

Definition demo_pool : store :=
  {[ "net"%string := {[ "a"%string := Marshal (mkAlloc "n" "h" "::1" "a" "net" "" false);
                        "b"%string := Marshal (mkAlloc "n" "h" "::2" "b" "net" "" false) ]} ]}.
Definition demo_cfg : MtnCfg := mkCfg true 1 "http://allocator" "id" "label" ∅ "/run/db".
(** A service that is down. *)
Definition no_post : nat -> http_resp RawAlloc := λ _, DoErr None.

Lemma no_post_fresh s n : fresh no_post s n.
Proof. by intros i j. Qed.

Lemma demo_pool_wf : wf demo_pool.
Proof.
  unfold demo_pool. intros n b k v [<- <-]%lookup_singleton_Some Hv.
  apply lookup_insert_Some in Hv as [[<- <-]|[_ [<- <-]%lookup_singleton_Some]]; by eexists.
Qed.

Definition pool1 : store := Eval vm_compute in (UseAlloc demo_cfg no_post map_to_list "net" "c1" demo_pool).2.

Definition alloc1 : Allocation := mkAlloc "n" "h" "::1" "a" "net" "c1" true.
Definition alloc2 : Allocation := mkAlloc "n" "h" "::2" "b" "net" "c2" true.
Definition pool2 : store := Eval vm_compute in (UseAlloc demo_cfg no_post map_to_list "net" "c2" pool1).2.

Lemma use1 : UseAlloc (Er := mem_error) demo_cfg no_post map_to_list "net" "c1" demo_pool = (Ok alloc1, pool1).
Proof. by vm_compute. Qed.
Lemma use2 : UseAlloc (Er := mem_error) demo_cfg no_post map_to_list "net" "c2" pool1 = (Ok alloc2, pool2).
Proof. by vm_compute. Qed.

Lemma pool1_run : mtn_run (Er := mem_error) map_to_list pool1 ({[ ("net"%string, "a"%string) ]} ∪ ∅).
Proof.
  apply (run_use map_to_list demo_cfg no_post "net" "c1" demo_pool pool1 (Ok alloc1) ∅).
  - apply run_init, demo_pool_wf.
  - apply no_post_fresh.
  - apply use1.
Qed.


Lemma UseAlloc_effect_witness :
  rec_at pool1 "net" "a" = Some alloc1 /\ ~ used demo_pool "net" "a".
Proof.
  pose proof (@UseAlloc_effect store store mem_error mem_bolt mem_bolt_laws map_to_list (λ m, reflexivity _) demo_cfg no_post
    "net" "c1" demo_pool demo_pool_wf (no_post_fresh _ _)) as P.
  rewrite use1 in P. split; apply P.
Defined.

Lemma pool1_wf : wf pool1.
Proof. apply (mtn_run_inv (Er := mem_error) _ (λ m, reflexivity _) _ _ pool1_run). Qed.

Lemma UnuseAlloc_effect_witness :
  UnuseAlloc (Er := mem_error) "net" "a" pool1 = pool1 \/
  (~ used (UnuseAlloc (Er := mem_error) "net" "a" pool1) "net" "a" /\
   forall n k, (n, k) <> ("net"%string, "a"%string) ->
     rec_at (UnuseAlloc (Er := mem_error) "net" "a" pool1) n k = rec_at pool1 n k).
Proof. apply (@UnuseAlloc_effect store store mem_error mem_bolt mem_bolt_laws "net" "a" pool1 pool1_wf). Defined.

(** A service with one more address. *)
Definition one_post : nat -> http_resp RawAlloc := λ _, DoOk (Ok
  {| ra_Id := "c"; ra_Network := "net";
     ra_Porto := {| rp_Hostname := "h"; rp_Ip := "::3"; rp_Net := "n" |} |}).
Definition demo_cfg3 : MtnCfg := mkCfg true 3 "http://allocator" "id" "label" ∅ "/run/db".

Lemma BindAllocs_effect_witness :
  rec_at (BindAllocs (Er := mem_error) demo_cfg3 one_post map_to_list "net" pool1).2 "net" "c" <> None /\
  (used (BindAllocs (Er := mem_error) demo_cfg3 one_post map_to_list "net" pool1).2 "net" "a" <->
   used pool1 "net" "a").
Proof.
  split; [vm_compute; discriminate|].
  apply (@BindAllocs_effect store store mem_error mem_bolt mem_bolt_laws map_to_list (λ m, reflexivity _) demo_cfg3 one_post "net" pool1).
  intros i j [= <-]. vm_compute. reflexivity.
Defined.

(** After a restart the service lists both addresses; the used one stays used. *)
Definition demo_get : http_resp (list RawAlloc) := DoOk (Ok
  [{| ra_Id := "a"; ra_Network := "net";
      ra_Porto := {| rp_Hostname := "h"; rp_Ip := "::1"; rp_Net := "n" |} |};
   {| ra_Id := "z"; ra_Network := "net2";
      ra_Porto := {| rp_Hostname := "h"; rp_Ip := "::9"; rp_Net := "n" |} |}]).

Lemma PoolInit_keeps_witness :
  let d' := (PoolInit (Er := mem_error) demo_cfg demo_get map_to_list pool1).2 in
  rec_at d' "net2" "z" <> None /\ rec_at d' "net" "a" = Some alloc1.
Proof.
  split; [vm_compute; discriminate|].
  apply (@PoolInit_keeps store store mem_error mem_bolt mem_bolt_laws demo_cfg demo_get map_to_list pool1).
  vm_compute. reflexivity.
Defined.

Lemma UsedAllocations_stat_witness :
  db_data pool1 = pool1 /\ 2 = 1 + 1 /\ 1 = zlen [alloc1] /\
  Forall (λ a, Used a = true) [alloc1] /\
  (Enable demo_cfg = true -> 2 = zlen (concat (map (λ nb : string * gmap string value,
     map_to_list nb.2) (map_to_list pool1)))).
Proof.
  apply (@UsedAllocations_stat store store mem_error mem_bolt mem_bolt_laws demo_cfg pool1 [alloc1] (mkStat 2 1 1 true) pool1).
  vm_compute. reflexivity.
Defined.

(** ** Start-up *)


(** The database that is moved away is lost: the arguments of [io.Copy] are swapped,
    so the backup is empty when the original is removed. *)
Lemma SaveRename_loses src dst content fs :
  src <> dst -> fs !! src = Some content ->
  let r := SaveRename true true src dst fs in
  r.1 = None /\ r.2 !! src = None /\ r.2 !! dst = Some [].
Proof.
  intros Hne Hs. unfold SaveRename. rewrite Hs. cbn [fst snd]. split_and!; [done| |].
  - by rewrite lookup_delete_eq.
  - rewrite lookup_delete_ne, lookup_insert_ne, lookup_insert_eq by done. done.
Qed.
