(* ===== verification/MtnSpec.v ===== *)
(** * The MTN pool refines an allocator of addresses

    The abstract allocator knows only which addresses are held: it hands out an
    address that is not, and takes one back.  [exec_all] runs a sequence of calls of
    isolate/mtn.go against the database, whatever the database and the service
    answer; every such run is a run of the abstract allocator. *)

From Stdlib Require Import ZArith Lia String.
From S2P Require Import Prelude MtnStore Mtn MtnFacts.

(** ** The abstract allocator *)

(** A network and an address of it. *)
Abbreviation address := (string * string)%type.

(** What a caller sees of a call. *)
Inductive label :=
  | Handed (a : address)       (* UseAlloc returned the address *)
  | Refused                    (* UseAlloc returned an error *)
  | Returned (a : address)     (* UnuseAlloc was called with it *)
  | Quiet.                     (* BindAllocs, PoolInit or UsedAllocations *)

#[export] Instance label_eq_dec : EqDecision label.
Proof. solve_decision. Defined.

Inductive spec_step : gset address -> label -> gset address -> Prop :=
  | spec_hand a held : a ∉ held -> spec_step held (Handed a) ({[ a ]} ∪ held)
  | spec_refuse held : spec_step held Refused held
  | spec_return a held : spec_step held (Returned a) (held ∖ {[ a ]})
  | spec_return_lost a held : spec_step held (Returned a) held  (* the error is logged *)
  | spec_quiet held : spec_step held Quiet held.

Inductive spec_run : gset address -> list label -> gset address -> Prop :=
  | spec_nil held : spec_run held [] held
  | spec_cons held l held1 ls held2 :
      spec_step held l held1 -> spec_run held1 ls held2 -> spec_run held (l :: ls) held2.

Lemma spec_keeps held ls held' a :
  spec_run held ls held' -> a ∈ held -> Returned a ∉ ls -> a ∈ held'.
Proof.
  induction 1 as [|held l held1 ls held2 Hs _ IH]; intros Ha Hn; [done|].
  rewrite not_elem_of_cons in Hn. destruct Hn as [Hl Hn]. apply IH; [|done].
  destruct Hs; set_solver.
Qed.
Lemma spec_split held l1 l2 held' :
  spec_run held (l1 ++ l2) held' -> exists held1, spec_run held l1 held1 /\ spec_run held1 l2 held'.
Proof.
  revert held. induction l1 as [|l l1 IH]; intros held Hr; [eexists; split; [constructor|done]|].
  inversion Hr as [|? ? h1 ? ? Hs Hr']; subst. destruct (IH _ Hr') as (h & H1 & H2).
  exists h. split; [by econstructor|done].
Qed.
(** Between two hand-outs of an address somebody returned it. *)
Lemma spec_exclusive held l1 a l2 l3 held' :
  spec_run held (l1 ++ Handed a :: l2 ++ Handed a :: l3) held' -> Returned a ∈ l2.
Proof.
  intros (h1 & _ & Hr)%spec_split. inversion Hr as [|? ? h2 ? ? Hs Hr']; subst.
  apply spec_split in Hr' as (h3 & H2 & H3). destruct (decide (Returned a ∈ l2)); [done|].
  assert (a ∈ h3) as Ha by (eapply spec_keeps; [exact H2| |done]; inversion Hs; set_solver).
  inversion H3 as [|? ? ? ? ? Hs3]; subst. by inversion Hs3.
Qed.

(** ** The calls *)

Section refinement.
Context {Db Tx Er : Type} `{BoltLaws Db Tx Er}.
Context (range_ : gmap string Allocation -> list (string * Allocation)).
Context (range_ok : forall m, range_ m ≡ₚ map_to_list m).

Inductive call :=
  | CallUse (c : MtnCfg) (post : nat -> http_resp RawAlloc) (n box : string)
  | CallUnuse (n k : string)
  | CallBind (c : MtnCfg) (post : nat -> http_resp RawAlloc) (n : string)
  | CallInit (c : MtnCfg) (get : http_resp (list RawAlloc))
      (order : gmap string (list Allocation) -> list (string * list Allocation))
  | CallStat (c : MtnCfg).

Definition exec (op : call) (d : Db) : label * Db :=
  match op with
  | CallUse c post n box =>
      match UseAlloc c post range_ n box d with
      | (Ok a, d') => (Handed (n, Id a), d')
      | (Err _, d') => (Refused, d')
      end
  | CallUnuse n k => (Returned (n, k), UnuseAlloc n k d)
  | CallBind c post n => (Quiet, (BindAllocs c post range_ n d).2)
  | CallInit c get order => (Quiet, (PoolInit c get order d).2)
  | CallStat c => (Quiet, (UsedAllocations c d).2)
  end.
Fixpoint exec_all (ops : list call) (d : Db) : list label * Db :=
  match ops with
  | [] => ([], d)
  | op :: ops =>
      let '(l, d) := exec op d in
      let '(ls, d) := exec_all ops d in (l :: ls, d)
  end.

(** The service does not hand out an address the pool already has. *)
Definition honest (op : call) (d : Db) : Prop :=
  match op with
  | CallUse c post n _ | CallBind c post n => fresh post (db_data d) n
  | _ => True
  end.
Fixpoint honest_all (ops : list call) (d : Db) : Prop :=
  match ops with
  | [] => True
  | op :: ops => honest op d /\ honest_all ops (exec op d).2
  end.

(** The abstraction: the held addresses are those of the used records. *)
Definition represents (d : Db) (held : gset address) : Prop :=
  wf (db_data d) /\ forall n k, (n, k) ∈ held <-> used (db_data d) n k.

Lemma pool_put_used netId a t t' : pool_put netId a t = (Ok tt, t') ->
  forall n k, used (tx_data t') n k <-> used (tx_data t) n k.
Proof.
  unfold pool_put, Bucket. destruct (tx_data t !! netId) as [b|] eqn:Hb; [|by intros [= <-]].
  destruct (b !! Id a) as [v|] eqn:Hv; [by intros [= <-]|]. intros E n k.
  destruct (dbcall_put _ _ _ _ _ (ex_intro _ b Hb) E) as (R & _). unfold used. rewrite R.
  destruct (decide _) as [[-> ->]|]; [|done]. cbn. unfold rec_at. rewrite Hb, Hv.
  split; intros (x & Hx & Hu); simplify_eq; done.
Qed.
Lemma pool_net_used netId allocs t t' : pool_net netId allocs t = (Ok tt, t') ->
  forall n k, used (tx_data t') n k <-> used (tx_data t) n k.
Proof.
  revert t. induction allocs as [|a allocs IH]; intros t; cbn; [by intros [= <-]|].
  intros ([] & t1 & E1 & ([] & t2 & E2 & E3)%act_bind_inv)%act_bind_inv n k.
  destruct (dbcall_create _ _ _ E1) as (R1 & _).
  rewrite (IH _ E3), (pool_put_used _ _ _ _ E2). unfold used. by rewrite R1.
Qed.
Lemma pool_nets_used nets t t' : pool_nets nets t = (Ok tt, t') ->
  forall n k, used (tx_data t') n k <-> used (tx_data t) n k.
Proof.
  revert t. induction nets as [|[n l] nets IH]; intros t; cbn; [by intros [= <-]|].
  intros ([] & t1 & E1 & E2)%act_bind_inv n' k. by rewrite (IH _ E2), (pool_net_used _ _ _ _ E1).
Qed.

Lemma PoolInit_used c get order d :
  let d' := (PoolInit c get order d).2 in
  (forall n k, used (db_data d') n k <-> used (db_data d) n k) /\ (wf (db_data d) -> wf (db_data d')).
Proof.
  cbv zeta. unfold PoolInit. destruct (negb (Enable c)); [done|].
  destruct (GetAllocations get) as [all|e]; [|done].
  destruct (in_tx (pool_nets (order all)) d) as [[[]|e] d'] eqn:E; cbn [snd].
  - destruct (in_tx_ok _ _ _ _ E) as (t & t' & Ht & Eg & Hd). rewrite Hd, <- Ht.
    split; [by apply (pool_nets_used _ _ _ Eg)|by apply (pool_nets_keeps _ _ _ Eg)].
  - by apply in_tx_err in E as ->.
Qed.
Lemma UsedAllocations_data c d : db_data (UsedAllocations c d).2 = db_data d.
Proof.
  unfold UsedAllocations. destruct (negb (Enable c)); [done|].
  match goal with |- context [in_tx ?b d] => destruct (in_tx b d) as [[x|e] d'] eqn:E end; cbn [snd].
  - destruct (in_tx_ok _ _ _ _ E) as (t & t' & Ht & Eg & Hd). injection Eg as _ <-. congruence.
  - by apply in_tx_err in E as ->.
Qed.

(** One call is one step of the allocator. *)
Lemma exec_simulates op d held : represents d held -> honest op d ->
  exists held', spec_step held (exec op d).1 held' /\ represents (exec op d).2 held'.
Proof.
  intros [W U] F. destruct op as [c post n box|n k|c post n|c get order|c]; cbn in *.
  - destruct (UseAlloc c post range_ n box d) as [[a|e] d'] eqn:E.
    + destruct (handed_use range_ range_ok _ _ _ _ _ _ _ W F E) as (H1 & H2 & H3 & H4 & H5 & H6).
      exists ({[ (n, Id a) ]} ∪ held). split; [constructor; by rewrite U|]. split; [done|].
      intros n' k'. cbn. rewrite elem_of_union, elem_of_singleton, U.
      destruct (decide ((n', k') = (n, Id a))) as [[= -> ->]|Hne]; [|rewrite H5 by done; tauto].
      split; [intros _; by exists a|by left].
    + apply UseAlloc_err in E as ->. exists held. split; [constructor|done].
  - destruct (UnuseAlloc_rec n k d W) as [W' [E|[Hn R]]].
    + rewrite E in *. exists held. split; [apply spec_return_lost|done].
    + exists (held ∖ {[ (n, k) ]}). split; [constructor|]. split; [done|]. intros n' k'.
      rewrite elem_of_difference, elem_of_singleton, U.
      destruct (decide ((n', k') = (n, k))) as [[= -> ->]|Hne]; [tauto|].
      unfold used. rewrite R by done. tauto.
  - destruct (BindAllocs_used range_ range_ok c post n d F) as [U' W']. exists held.
    split; [constructor|]. split; [auto|]. intros n' k'. by rewrite U, U'.
  - destruct (PoolInit_used c get order d) as [U' W']. exists held.
    split; [constructor|]. split; [auto|]. intros n' k'. by rewrite U, U'.
  - exists held. split; [constructor|]. unfold represents. by rewrite UsedAllocations_data.
Qed.

Lemma exec_all_simulates ops d held : represents d held -> honest_all ops d ->
  exists held', spec_run held (exec_all ops d).1 held' /\ represents (exec_all ops d).2 held'.
Proof.
  revert d held. induction ops as [|op ops IH]; intros d held HR HF; cbn in *.
  { exists held. split; [constructor|done]. }
  destruct HF as [F HF]. destruct (exec_simulates op d held HR F) as (h1 & Hs & HR1).
  destruct (exec op d) as [l d1]. cbn in *. destruct (IH d1 h1 HR1 HF) as (h2 & Hs2 & HR2).
  destruct (exec_all ops d1) as [ls d2]. cbn in *. exists h2. split; [by econstructor|done].
Qed.

End refinement.

(** Two workers get the two addresses of the pool, a third is refused, and after the
    first has returned its address a fourth gets it. *)
Definition demo_calls : list call :=
  [CallUse demo_cfg no_post "net" "c1"; CallUse demo_cfg no_post "net" "c2"; CallUse demo_cfg no_post "net" "c3";
   CallUnuse "net" "a"; CallUse demo_cfg no_post "net" "c4"].
Lemma demo_represents : represents (Er := mem_error) demo_pool ∅.
Proof.
  split; [apply demo_pool_wf|]. intros n k. split; [set_solver|]. intros (a & Ha & Hu). exfalso.
  unfold rec_at, demo_pool in Ha. cbn in Ha.
  destruct (decide (n = "net"%string)) as [->|Hn]; [|by rewrite lookup_singleton_ne in Ha].
  rewrite lookup_singleton_eq in Ha. destruct (decide (k = "a"%string)) as [->|Hk].
  { rewrite lookup_insert_eq in Ha. vm_compute in Ha. by simplify_eq. }
  rewrite lookup_insert_ne in Ha by done. destruct (decide (k = "b"%string)) as [->|Hk'].
  - rewrite lookup_singleton_eq in Ha. vm_compute in Ha. by simplify_eq.
  - by rewrite lookup_singleton_ne in Ha.
Qed.
