(* ===== verification/Journal.v ===== *)
(** * The layer journal and helpers of the Porto box
      (isolate/porto/journal.go, isolate/porto/utils.go)

    The journal remembers which layers and manifests the daemon has imported into
    Porto; at start it is reconciled with the layers Porto really has, by binary
    search in the sorted list. *)

From Stdlib Require Import ZArith Lia Ascii String Strings.Byte.
From S2P Require Import Prelude Json MtnStore.

(** ** Package sort on strings *)

(** [a[i]] in range. *)
Definition str_at (a : list string) (i : Z) : string := default ""%string (a !! Z.to_nat i).

(** The loop of [sort.Search(n, f)]: [fuel] bounds the halvings of [j - i]. *)
Fixpoint search_loop (fuel : nat) (f : Z -> bool) (i j : Z) : Z :=
  match fuel with
  | O => i
  | S fuel =>
      if i <? j then
        let h := (i + j) ≫ 1 in
        if f h then search_loop fuel f i h else search_loop fuel f (h + 1) j
      else i
  end.
Definition Search (n : Z) (f : Z -> bool) : Z := search_loop (S (Z.to_nat n)) f 0 n.
Definition SearchStrings (a : list string) (x : string) : Z :=
  Search (zlen a) (λ i, bool_decide (String.le x (str_at a i))).

(** [in(a, x)] *)
Definition in_ (a : list string) (x : string) : bool :=
  let i := SearchStrings a x in
  (i <? zlen a) && bool_decide (str_at a i = x).

(** [sort.StringsAreSorted]: no [i] with [a[i] < a[i-1]], from the end. *)
Definition StringsAreSorted (a : list string) : bool :=
  forallb (λ i, negb (bool_decide (~ String.le (str_at a (Z.of_nat i)) (str_at a (Z.of_nat (S i))))))
    (seq 0 (length a - 1)).
Definition Strings (a : list string) : list string := merge_sort String.le a.

(** ** The journal *)

Record journal := mkJournal {
  UUID : string;
  Layers : gmap string string;
  Manifests : gmap string string
}.
#[export] Instance journal_eq_dec : EqDecision journal.
Proof. solve_decision. Defined.

Definition newJournal (uuid : string) : journal := mkJournal uuid ∅ ∅.

Definition InsertManifestLayers (manifest layers : string) (j : journal) : journal :=
  mkJournal (UUID j) (Layers j) (<[manifest := layers]> (Manifests j)).
Definition GetManifestLayers (manifest : string) (j : journal) : string :=
  match Manifests j !! manifest with Some l => l | None => ""%string end.
Definition Insert (layer digest : string) (j : journal) : journal :=
  mkJournal (UUID j) (<[layer := digest]> (Layers j)) (Manifests j).
Definition In (layer digest : string) (j : journal) : bool :=
  match Layers j !! layer with
  | Some v => bool_decide (v = digest)
  | None => false
  end.

(** [UpdateFromPorto(layers)]: the layers Porto does not list are forgotten.  Also
    returns the slice, which is sorted in place. *)
Definition UpdateFromPorto (layers : list string) (j : journal) : journal * list string :=
  match layers with
  | [] => (mkJournal (UUID j) ∅ (Manifests j), layers)
  | _ =>
      let layers := if StringsAreSorted layers then layers else Strings layers in
      (mkJournal (UUID j)
         (fold_left (λ m k, if in_ layers k then m else delete k m)
            (map_to_list (Layers j)).*1 (Layers j)) (Manifests j), layers)
  end.

(** The journal as a JSON document; the encoder sorts the keys of a map. *)
Definition str_map (m : gmap string string) : json :=
  JObj (map (λ k, (k, JStr (default ""%string (m !! k)))) (Strings (map_to_list m).*1)).
Definition journal_json (j : journal) : json :=
  JObj [("uuid", JStr (UUID j)); ("layers", str_map (Layers j)); ("manifests", str_map (Manifests j))].

(** [Dump]: the bytes [json.NewEncoder(w).Encode(j)] writes. *)
Definition Dump (j : journal) : list byte := print (journal_json j) ++ [x0a].
(** [String] *)
Definition journal_String (j : journal) : list byte := print (journal_json j).

(** Decoding an object into a map that is not nil adds its members. *)
Definition load_map (j : json) (m : gmap string string) : option (gmap string string) :=
  match j with
  | JObj kvs =>
      fold_left (λ m kv, match m, kv.2 with
                         | Some m, JStr v => Some (<[kv.1 := v]> m)
                         | Some m, JNull => Some (<[kv.1 := ""%string]> m)
                         | _, _ => None
                         end) kvs (Some m)
  | JNull => Some ∅                              (* the map becomes nil *)
  | _ => None
  end.
Definition load_field (kv : string * json) (j : journal) : option journal :=
  let k := lower kv.1 in
  if decide (k = "uuid"%string) then
    match kv.2 with
    | JStr s => Some (mkJournal s (Layers j) (Manifests j))
    | JNull => Some j
    | _ => None
    end
  else if decide (k = "layers"%string) then
    m ← load_map kv.2 (Layers j); Some (mkJournal (UUID j) m (Manifests j))
  else if decide (k = "manifests"%string) then
    m ← load_map kv.2 (Manifests j); Some (mkJournal (UUID j) (Layers j) m)
  else Some j.
(** [Load]: [None] when the input does not start with a JSON value, or with one of
    another shape. *)
Definition Load (data : list byte) (j : journal) : option journal :=
  match Decode data with
  | Some (JObj kvs) => fold_left (λ j kv, j ≫= load_field kv) kvs (Some j)
  | Some JNull => Some j
  | _ => None
  end.

(** ** Binary search is membership *)

Section search.
Context (f : Z -> bool) (n : Z).
Context (Hmono : forall i j, 0 <= i <= j -> j < n -> f i = true -> f j = true).

Lemma search_loop_spec fuel i j :
  0 <= i <= j -> j <= n -> j - i < Z.of_nat fuel ->
  (forall k, 0 <= k < i -> f k = false) -> (j < n -> f j = true) ->
  let r := search_loop fuel f i j in
  i <= r <= j /\ (forall k, 0 <= k < r -> f k = false) /\ (r < n -> f r = true).
Proof.
  revert i j. induction fuel as [|fuel IH]; intros i j Hi Hj Hf Hlo Hhi; [lia|]. cbn.
  destruct (Z.ltb_spec i j) as [Hlt|Hge].
  2: { split_and!; [lia..|done|]. intros. replace i with j by lia. apply Hhi. lia. }
  rewrite Z.shiftr_div_pow2, Z.pow_1_r by lia.
  assert (i <= (i + j) / 2 < j) as Hh.
  { split; [apply Z.div_le_lower_bound|apply Z.div_lt_upper_bound]; lia. }
  set (h := (i + j) / 2) in *. destruct (f h) eqn:E.
  - destruct (IH i h) as (? & ? & ?); [lia..|done|done|]. split_and!; [lia..|done|done].
  - destruct (IH (h + 1) j) as (? & ? & ?); [lia..| |done|split_and!; [lia..|done|done]].
    intros k Hk. destruct (f k) eqn:Ek; [|done].
    rewrite (Hmono k h ltac:(lia) ltac:(lia) Ek) in E. done.
Qed.

Lemma Search_spec : 0 <= n ->
  let r := Search n f in
  0 <= r <= n /\ (forall k, 0 <= k < r -> f k = false) /\ (r < n -> f r = true).
Proof. intros Hn. apply search_loop_spec; lia. Qed.
End search.

Lemma str_at_lookup a i x : a !! i = Some x -> str_at a (Z.of_nat i) = x.
Proof. intros H. unfold str_at. by rewrite Nat2Z.id, H. Qed.

Lemma sorted_str_at a i j :
  StronglySorted String.le a -> 0 <= i <= j -> j < zlen a -> String.le (str_at a i) (str_at a j).
Proof.
  intros Hs Hij Hj. unfold zlen in Hj. destruct (decide (i = j)) as [->|Hne]; [done|].
  destruct (lookup_lt_is_Some_2 a (Z.to_nat i)) as [x Hx]; [lia|].
  destruct (lookup_lt_is_Some_2 a (Z.to_nat j)) as [y Hy]; [lia|].
  unfold str_at. rewrite Hx, Hy. cbn.
  assert (forall a i j x y, StronglySorted String.le a -> (i < j)%nat -> a !! i = Some x ->
    a !! j = Some y -> String.le x y) as G.
  { clear. induction a as [|z a IH]; intros i j x y Hs Hij Hx Hy; [done|].
    apply StronglySorted_inv in Hs as [Hs HF]. destruct i as [|i], j as [|j]; try lia.
    - simplify_eq/=. rewrite Forall_forall in HF. apply HF. by eapply list_elem_of_lookup_2.
    - eapply (IH i j); [done|lia|done|done]. }
  eapply (G a); [done| |done|done]. lia.
Qed.

Lemma in_sorted a x : StronglySorted String.le a -> in_ a x = true <-> x ∈ a.
Proof.
  intros Hs. unfold in_, SearchStrings. cbv zeta.
  destruct (Search_spec (λ i, bool_decide (String.le x (str_at a i))) (zlen a)) as (Hr & Hlo & Hhi).
  { intros i j Hij Hj Hi. apply bool_decide_eq_true in Hi. apply bool_decide_eq_true.
    etrans; [exact Hi|]. by apply sorted_str_at. }
  { apply zlen_nonneg. }
  remember (Search _ _) as r eqn:Er. clear Er. rewrite andb_true_iff, bool_decide_eq_true, Z.ltb_lt. split.
  - intros [Hlt <-]. unfold str_at. unfold zlen in Hlt.
    destruct (lookup_lt_is_Some_2 a (Z.to_nat r)) as [y Hy]; [lia|]. rewrite Hy. cbn.
    by eapply list_elem_of_lookup_2.
  - intros (i & Hi)%list_elem_of_lookup. pose proof (lookup_lt_Some _ _ _ Hi) as Hl.
    assert (r <= Z.of_nat i) as Hri.
    { destruct (Z.le_gt_cases r (Z.of_nat i)) as [|Hgt]; [done|].
      specialize (Hlo (Z.of_nat i) ltac:(lia)). cbn in Hlo.
      rewrite (str_at_lookup _ _ _ Hi) in Hlo. by apply bool_decide_eq_false in Hlo. }
    assert (r < zlen a) as Hra by (unfold zlen; lia). split; [done|].
    specialize (Hhi Hra). cbn in Hhi. apply bool_decide_eq_true in Hhi.
    pose proof (sorted_str_at a r (Z.of_nat i) Hs ltac:(lia) ltac:(unfold zlen; lia)) as Hle.
    rewrite (str_at_lookup _ _ _ Hi) in Hle. by apply (anti_symm String.le).
Qed.

Lemma Strings_sorted a : StronglySorted String.le (Strings a).
Proof. apply StronglySorted_merge_sort; apply _. Qed.

Lemma StringsAreSorted_sorted a : StringsAreSorted a = true -> StronglySorted String.le a.
Proof.
  intros H. apply Sorted_StronglySorted; [apply _|]. unfold StringsAreSorted in H.
  rewrite forallb_forall in H.
  assert (forall i x y, a !! i = Some x -> a !! S i = Some y -> String.le x y) as G.
  { intros i x y Hx Hy. pose proof (lookup_lt_Some _ _ _ Hy).
    specialize (H i). rewrite (str_at_lookup _ _ _ Hx), (str_at_lookup _ _ _ Hy) in H.
    assert (List.In i (seq 0 (length a - 1))) as Hin by (apply in_seq; lia).
    specialize (H Hin). apply negb_true_iff, bool_decide_eq_false in H.
    by apply dec_stable in H. }
  clear H. induction a as [|x a IH]; constructor.
  - apply IH. intros i y z Hy Hz. by apply (G (S i)).
  - destruct a as [|y a]; constructor. by apply (G 0%nat).
Qed.

(** ** Reconciliation with Porto *)

Lemma prune_lookup (p : string -> bool) ks m k :
  fold_left (λ (m : gmap string string) k, if p k then m else delete k m) ks m !! k =
  if decide (k ∈ ks /\ p k = false) then None else m !! k.
Proof.
  revert m. induction ks as [|x ks IH]; intros m; cbn.
  { rewrite decide_False; [done|]. intros [[]%elem_of_nil _]. }
  rewrite IH. destruct (decide (k ∈ ks /\ p k = false)) as [[H1 H2]|Hn].
  { rewrite decide_True; [done|]. split; [by apply list_elem_of_further|done]. }
  destruct (decide (k = x)) as [->|Hne].
  - destruct (p x) eqn:Hp.
    + rewrite decide_False; [done|]. by intros [].
    + rewrite decide_True by (split; [apply list_elem_of_here|done]). apply lookup_delete_eq.
  - rewrite decide_False.
    + destruct (p x); [done|]. by rewrite lookup_delete_ne.
    + intros [[->|Hk]%elem_of_cons Hp]; [done|]. by apply Hn.
Qed.

Lemma UpdateFromPorto_lookup layers j k :
  Layers (UpdateFromPorto layers j).1 !! k =
  if decide (k ∈ layers) then Layers j !! k else None.
Proof.
  unfold UpdateFromPorto. destruct layers as [|x layers].
  { cbn. rewrite lookup_empty, decide_False; [done|]. apply not_elem_of_nil. }
  set (l := x :: layers). cbn [fst Layers]. rewrite prune_lookup.
  set (l' := if StringsAreSorted l then l else Strings l).
  assert (StronglySorted String.le l' /\ (forall y, y ∈ l' <-> y ∈ l)) as [Hs Hl].
  { unfold l'. destruct (StringsAreSorted l) eqn:E.
    - split; [by apply StringsAreSorted_sorted|done].
    - split; [apply Strings_sorted|]. intros y. unfold Strings. by rewrite merge_sort_Permutation. }
  pose proof (in_sorted l' k Hs) as Hin. rewrite Hl in Hin.
  destruct (Layers j !! k) as [v|] eqn:Hk.
  - assert (k ∈ (map_to_list (Layers j)).*1) as Hd.
    { apply list_elem_of_fmap. exists (k, v). split; [done|]. by apply elem_of_map_to_list. }
    destruct (decide (k ∈ l)) as [Hx|Hx].
    + rewrite decide_False; [done|]. intros [_ Hf]. apply Hin in Hx. congruence.
    + rewrite decide_True; [done|]. split; [done|].
      destruct (in_ l' k); [|done]. by destruct Hx; apply Hin.
  - by destruct (decide _), (decide _).
Qed.

(** Reconciliation keeps exactly the journal entries Porto lists, whatever
    order Porto lists them in: the binary search finds every listed layer and no
    other. *)
Theorem UpdateFromPorto_filter layers j k :
  Layers (UpdateFromPorto layers j).1 !! k =
    (if decide (k ∈ layers) then Layers j !! k else None) /\
  Manifests (UpdateFromPorto layers j).1 = Manifests j.
Proof. split; [apply UpdateFromPorto_lookup|by destruct layers]. Qed.

(** A layer is in the journal exactly when the last entry written for it has
    this digest and Porto still lists it. *)
Theorem In_Insert_Update layer digest j layers layer' digest' :
  In layer' digest' (UpdateFromPorto layers (Insert layer digest j)).1 = true <->
  layer' ∈ layers /\
  (if decide (layer' = layer) then digest' = digest else In layer' digest' j = true).
Proof.
  unfold In. rewrite UpdateFromPorto_lookup. cbn [Layers Insert].
  destruct (decide (layer' ∈ layers)) as [Hx|Hx]; [|by split; [|intros [? _]]].
  destruct (decide (layer' = layer)) as [->|Hne].
  - rewrite lookup_insert_eq, bool_decide_eq_true. split; [intros ->|intros [_ ->]]; done.
  - rewrite lookup_insert_ne by done. by split; [|intros [_ ?]].
Qed.

(** ** Dump and Load *)

Lemma str_map_members (m : gmap string string) :
  map (λ k, (k, default ""%string (m !! k))) (Strings (map_to_list m).*1) ≡ₚ map_to_list m.
Proof.
  unfold Strings. rewrite merge_sort_Permutation. apply reflexive_eq.
  assert (Forall (λ kv, m !! kv.1 = Some kv.2) (map_to_list m)) as H.
  { apply Forall_forall. intros [k v]. apply elem_of_map_to_list. }
  induction H as [|[k v] l Hk _ IH]; [done|]. cbn in *. rewrite Hk. cbn. f_equal. exact IH.
Qed.

Lemma load_str_map m : load_map (str_map m) ∅ = Some m.
Proof.
  unfold str_map. set (l := map (λ k, (k, default ""%string (m !! k))) (Strings (map_to_list m).*1)).
  assert (map (λ k, (k, JStr (default ""%string (m !! k)))) (Strings (map_to_list m).*1) =
    map (λ kv : string * string, (kv.1, JStr kv.2)) l) as -> by (subst l; by rewrite map_map).
  cbn. assert (forall l m0, fold_left (λ (m : option (gmap string string)) (kv : string * json),
    match m, kv.2 with
    | Some m, JStr v => Some (<[kv.1 := v]> m)
    | Some m, JNull => Some (<[kv.1 := ""%string]> m)
    | _, _ => None
    end) (map (λ kv : string * string, (kv.1, JStr kv.2)) l) (Some m0) =
    Some (fold_left (λ m kv, <[kv.1 := kv.2]> m) l m0)) as G.
  { clear. induction l as [|[k v] l IH]; intros m0; cbn; [done|]. apply IH. }
  pose proof (str_map_members m : l ≡ₚ map_to_list m) as Hl.
  assert (NoDup l.*1) as Hnd by (rewrite Hl; apply NoDup_fst_map_to_list).
  rewrite G, fold_insert, (right_id_L ∅ _) by done. f_equal.
  rewrite (list_to_map_proper _ _ Hnd Hl). apply list_to_map_to_list.
Qed.

Lemma load_uuid s j : load_field ("uuid"%string, JStr s) j = Some (mkJournal s (Layers j) (Manifests j)).
Proof. done. Qed.
Lemma load_layers x j m : load_map x (Layers j) = Some m ->
  load_field ("layers"%string, x) j = Some (mkJournal (UUID j) m (Manifests j)).
Proof. intros H. change (load_field ("layers"%string, x) j) with
  (m ← load_map x (Layers j); Some (mkJournal (UUID j) m (Manifests j))). by rewrite H. Qed.
Lemma load_manifests x j m : load_map x (Manifests j) = Some m ->
  load_field ("manifests"%string, x) j = Some (mkJournal (UUID j) (Layers j) m).
Proof. intros H. change (load_field ("manifests"%string, x) j) with
  (m ← load_map x (Manifests j); Some (mkJournal (UUID j) (Layers j) m)). by rewrite H. Qed.

(** Journals whose strings are UTF-8. *)
Definition map_utf8 (m : gmap string string) : Prop :=
  Forall (λ kv : string * string, str_ok kv.1 /\ str_ok kv.2) (map_to_list m).
Definition journal_ok (j : journal) : Prop := str_ok (UUID j) /\ map_utf8 (Layers j) /\ map_utf8 (Manifests j).

Lemma str_map_ok m : map_utf8 m -> json_ok (str_map m).
Proof.
  intros H. unfold map_utf8 in H. rewrite <- str_map_members in H. apply json_ok_obj. rewrite Forall_map in *. exact H.
Qed.
Lemma journal_json_ok j : journal_ok j -> json_ok (journal_json j).
Proof. intros (Hu & Hl & Hm). obj_ok; by apply str_map_ok. Qed.

(** A dumped journal loads back into a new one as it was, whatever follows it. *)
Lemma Load_Dump j uuid rest : journal_ok j -> Load (Dump j ++ rest) (newJournal uuid) = Some j.
Proof.
  intros Hok. unfold Load, Dump. rewrite <- app_assoc, Decode_print by (done || by apply journal_json_ok).
  destruct j as [u l m]. unfold journal_json, newJournal. cbn [fold_left UUID Layers Manifests].
  unfold mbind at 3, option_bind. rewrite load_uuid. cbn [Layers Manifests].
  unfold mbind at 2. rewrite (load_layers _ _ l) by apply load_str_map.
  unfold mbind. by rewrite (load_manifests _ _ m) by apply load_str_map.
Qed.
