(* ===== verification/PortoUtil.v ===== *)
(** * Helpers of the Porto box (isolate/porto/utils.go)

    The order of image layers, the names of the properties shown by inspection,
    the JSON rendering of a container's properties, the connection retry loop. *)

From Stdlib Require Import ZArith Lia Ascii String.
From S2P Require Import Prelude MtnStore Journal.

(** ** Layer order *)

(** [slice[i], slice[j] = slice[j], slice[i]] *)
Definition swap {A} (l : list A) (i j : nat) : list A :=
  match l !! i, l !! j with
  | Some x, Some y => <[j := x]> (<[i := y]> l)
  | _, _ => l
  end.

(** The loop [for i := 0; i < len(slice)/2; i++]; [n] iterations are left. *)
Fixpoint reverse_loop {A} (size n i : nat) (l : list A) : list A :=
  match n with
  | O => l
  | S n => reverse_loop size n (S i) (swap l i (size - i))
  end.
Definition layerOrderV2 {A} (references : list A) : list A :=
  reverse_loop (length references - 1) (length references / 2) 0 references.
Definition layerOrderV1 {A} (references : list A) : list A := references.

Lemma length_swap {A} (l : list A) i j : length (swap l i j) = length l.
Proof. unfold swap. repeat case_match; by rewrite ?length_insert. Qed.

Lemma swap_lookup {A} (l : list A) i j k :
  (i < length l)%nat -> (j < length l)%nat ->
  swap l i j !! k = if decide (k = j) then l !! i else if decide (k = i) then l !! j else l !! k.
Proof.
  intros Hi Hj. unfold swap.
  destruct (lookup_lt_is_Some_2 l i Hi) as [x Hx]. destruct (lookup_lt_is_Some_2 l j Hj) as [y Hy].
  rewrite Hx, Hy. destruct (decide (k = j)) as [->|Hkj].
  - rewrite list_lookup_insert_eq; [done|]. by rewrite length_insert.
  - rewrite list_lookup_insert_ne by done. destruct (decide (k = i)) as [->|Hki].
    + by rewrite list_lookup_insert_eq.
    + by rewrite list_lookup_insert_ne.
Qed.

(** After [i] rounds the outer [i] elements on both sides are exchanged. *)
Lemma reverse_loop_lookup {A} n i (l0 l : list A) :
  let size := (length l0 - 1)%nat in
  (i + n = length l0 / 2)%nat -> length l = length l0 ->
  (forall k, (k < length l0)%nat ->
     l !! k = if decide (k < i \/ size - k < i)%nat then l0 !! (size - k)%nat else l0 !! k) ->
  forall k, (k < length l0)%nat -> reverse_loop size n i l !! k = l0 !! (size - k)%nat.
Proof.
  cbv zeta. revert i l. induction n as [|n IH]; intros i l Hn Hlen Hl k Hk; cbn [reverse_loop].
  - rewrite Hl by done. destruct (decide _) as [|Hd]; [done|].
    pose proof (Nat.div_mod (length l0) 2 ltac:(lia)). pose proof (Nat.mod_upper_bound (length l0) 2 ltac:(lia)).
    f_equal. lia.
  - assert (S i <= length l0 / 2)%nat as Hi by lia.
    pose proof (Nat.Div0.mul_div_le (length l0) 2).
    apply IH; [lia|by rewrite length_swap| |done]. clear k Hk. intros k Hk.
    rewrite swap_lookup by lia. rewrite !Hl by lia.
    destruct (decide (k = length l0 - 1 - i)%nat) as [->|Hk1].
    + rewrite (decide_False (P := (i < i \/ _)%nat)) by lia. rewrite decide_True by lia. f_equal. lia.
    + destruct (decide (k = i)) as [->|Hk2].
      * rewrite decide_False by lia. by rewrite decide_True by lia.
      * destruct (decide _), (decide _); try done; lia.
Qed.

(** The in-place loop turns the layer list of a v2 manifest around, so the
    topmost layer comes first; doing it twice gives the list back. *)
Theorem layerOrderV2_reverse {A} (l : list A) :
  layerOrderV2 l = reverse l /\ layerOrderV2 (layerOrderV2 l) = l.
Proof.
  assert (forall l : list A, layerOrderV2 l = reverse l) as R.
  { clear l. intros l. apply list_eq. intros k. unfold layerOrderV2.
    assert (forall n i (l : list A) size, length (reverse_loop size n i l) = length l) as Hlen.
    { clear. induction n as [|n IH]; intros i l size; cbn; [done|]. by rewrite IH, length_swap. }
    destruct (decide (k < length l)%nat) as [Hk|Hk].
    - rewrite (reverse_loop_lookup _ _ l l); [|lia|done| |done].
      + rewrite reverse_lookup by done. f_equal. lia.
      + intros k' Hk'. rewrite decide_False by lia. done.
    - rewrite !lookup_ge_None_2; [done| |]; rewrite ?Hlen, ?length_reverse; lia. }
  split; [done|]. by rewrite !R, reverse_involutive.
Qed.

(** ** Container properties *)

Record TPortoGetResponse := mkGet { Value : string; ErrorCode : Z; ErrorMsg : string }.
Definition zero_response : TPortoGetResponse := mkGet "" 0 "".

(** Errors of the Porto API: those with a number, and the rest. *)
Inductive porto_error := PortoError (errno : Z) (msg : string) | OtherError (msg : string).
Definition isEqualPortoError (err : porto_error) (expectedErrno : Z) : bool :=
  match err with
  | PortoError errno _ => errno =? expectedErrno
  | OtherError _ => false
  end.

Definition quote_char : string := String (ascii_of_nat 34) EmptyString.
Infix "+s+" := String.append (at level 60, right associativity).

Definition member (d : gmap string TPortoGetResponse) (name : string) : string :=
  let v := default zero_response (d !! name) in
  quote_char +s+ name +s+ quote_char +s+ ":"%string +s+ quote_char +s+
  (if ErrorCode v =? 0 then Value v else ErrorMsg v) +s+ quote_char.

(** [portoData.MarshalJSON]: [keys] is the cached property list, [rng] the range
    over the map when it is empty. *)
Definition MarshalJSON (keys : list string) (rng : list string)
    (d : option (gmap string TPortoGetResponse)) : string :=
  match d with
  | None => "null"%string
  | Some d =>
      let keys := match keys with [] => Strings rng | _ => keys end in
      "{"%string +s+ String.concat "," (map (member d) keys) +s+ "}"%string
  end.

(** The rendering does not depend on the order in which the map is ranged. *)
Theorem MarshalJSON_deterministic keys r1 r2 d :
  r1 ≡ₚ r2 -> MarshalJSON keys r1 d = MarshalJSON keys r2 d.
Proof.
  intros Hp. unfold MarshalJSON. destruct d as [d|]; [|done]. destruct keys; [|done].
  assert (Strings r1 = Strings r2) as ->; [|done].
  apply (StronglySorted_unique String.le).
  - apply Strings_sorted.
  - apply Strings_sorted.
  - unfold Strings. by rewrite !merge_sort_Permutation.
Qed.

Lemma MarshalJSON_deterministic_witness :
  let d := Some {[ "a"%string := mkGet "1" 0 ""; "b"%string := mkGet "" 2 "no" ]} in
  MarshalJSON [] ["b"%string; "a"%string] d = MarshalJSON [] ["a"%string; "b"%string] d.
Proof. intros d. apply MarshalJSON_deterministic. apply Permutation_swap. Defined.

(** [getPListAndDlist]: the cached names, or the properties and data of Porto
    without the output streams, sorted; a failed listing is not cached. *)
Definition getPListAndDlist (cache : list string) (plist dlist : option (list string))
  : list string * list string :=
  match cache with
  | _ :: _ => (cache, cache)
  | [] =>
      match plist with
      | None => ([], cache)
      | Some props =>
          match dlist with
          | None => (props, cache)
          | Some data =>
              let l := Strings (props ++
                filter (λ n, n <> "stdout"%string /\ n <> "stderr"%string) data) in
              (l, l)
          end
      end
  end.

(** [containerFootprint.String]: [got] is the answer of [Get] for the container, [range_]
    the order in which its map is ranged. *)
Definition containerFootprint_String (range_ : gmap string string -> list (string * string))
    (got : result string (gmap string string)) : string :=
  match got with
  | Err err => err
  | Ok data =>
      String.concat "" (map (λ nv : string * string,
        " " +s+ nv.1 +s+ "=" +s+ nv.2 +s+ String (Ascii.ascii_of_nat 10) EmptyString)%string (range_ data))
  end.

(** [portoConnect]: the attempts in order; [inr b]: an error, temporary or not.
    [None]: every attempt so far failed for a moment. *)
Fixpoint portoConnect {Conn Er} (attempts : list (Conn + bool * Er)) : option (result Er Conn) :=
  match attempts with
  | [] => None
  | inl conn :: _ => Some (Ok conn)
  | inr (true, _) :: attempts => portoConnect attempts
  | inr (false, e) :: _ => Some (Err e)
  end.

(** A connection is retried exactly while the failures are temporary. *)
Theorem portoConnect_retries {Conn Er} (errs : list Er) (a : Conn + bool * Er) rest :
  match a with inr (true, _) => True | _ =>
    portoConnect (map (λ e, inr (true, e)) errs ++ a :: rest) =
    Some (match a with inl c => Ok c | inr (_, e) => Err e end)
  end.
Proof.
  destruct a as [c|[[] e]]; [|done|]; induction errs as [|x errs IH]; cbn; done || apply IH.
Qed.
