(* ===== verification/Repository.v ===== *)
(** * The blob repository (isolate/porto/repository.go)

    Downloads of the same blob are shared: the first caller starts the fetch, later
    ones register a channel and wait; the fetch sends its result to every channel
    and removes the entry, all under the lock.  Callers are numbered; a caller's
    channel has room for one result. *)

From Stdlib Require Import ZArith Lia String.
From S2P Require Import Prelude.

(** ** One download: [fetch] *)

Inductive fetch_error := ErrLstat | ErrCreateTemp | ErrOpenBlob | ErrCopy | ErrRename.

(** What the system and the registry answer. *)
Record fetch_env := {
  f_create : bool;
  f_blob : option (list byte);          (* Blobs(ctx).Open, and the blob's bytes *)
  f_copy : option nat;                  (* io.Copy fails after so many bytes *)
  f_rename : bool
}.

Abbreviation disk := (gmap string (list byte)).

(** [temp] is the random name in the spool directory, [final] the blob's own. *)
Definition fetch (e : fetch_env) (temp final : string) (fs : disk) : result fetch_error string * disk :=
  if f_create e then
    let fs := <[temp := []]> fs in
    (* defer os.Remove(tempFilePath) *)
    match f_blob e with
    | None => (Err ErrOpenBlob, delete temp fs)
    | Some blob =>
        match f_copy e with
        | Some n => (Err ErrCopy, delete temp (<[temp := take n blob]> fs))
        | None =>
            let fs := <[temp := blob]> fs in
            if f_rename e then (Ok final, delete temp (<[final := blob]> (delete temp fs)))
            else (Err ErrRename, delete temp fs)
        end
    end
  else (Err ErrCreateTemp, fs).

Lemma fetch_effect e temp final fs : fs !! temp = None -> temp <> final ->
  match fetch e temp final fs with
  | (Ok path, fs') => path = final /\ exists blob, f_blob e = Some blob /\ fs' = <[final := blob]> fs
  | (Err _, fs') => fs' = fs
  end.
Proof.
  intros Ht Hne. unfold fetch.
  destruct (f_create e); [|done]. destruct (f_blob e) as [blob|].
  2: { by rewrite delete_insert_id. }
  destruct (f_copy e) as [n|].
  { by rewrite insert_insert_eq, delete_insert_id. }
  destruct (f_rename e).
  - split; [done|]. exists blob. split; [done|].
    rewrite insert_insert_eq, delete_insert_id by done.
    rewrite delete_id; [done|]. by rewrite lookup_insert_ne.
  - by rewrite insert_insert_eq, delete_insert_id.
Qed.

(** A download is all or nothing: on success the blob is complete under its
    name, on failure the spool is as it was; no temporary file stays behind. *)
Theorem fetch_atomic e temp final fs :
  fs !! temp = None -> temp <> final ->
  match fetch e temp final fs with
  | (Ok path, fs') => path = final /\ exists blob, f_blob e = Some blob /\ fs' = <[final := blob]> fs
  | (Err _, fs') => fs' = fs
  end.
Proof.
  apply fetch_effect.
Qed.

Lemma fetch_atomic_witness :
  let e := {| f_create := true; f_blob := Some (str_bytes "layer"); f_copy := None; f_rename := true |} in
  (fetch e "sha-1" "sha" ∅).2 = <["sha"%string := str_bytes "layer"]> ∅.
Proof.
  intros e. destruct (fetch_atomic e "sha-1" "sha" ∅ (lookup_empty _) ltac:(done)) as (_ & blob & [= <-] & H).
  exact H.
Defined.

(** ** Shared downloads *)

Inductive caller :=
  | Waiting (dgst : string)
  | Returned (res : result fetch_error string)
  | Cancelled.

Record repo := mkRepo {
  inProgress : gmap string (list nat);      (* digest -> callers to notify *)
  fetching : list string;                   (* the running fetch goroutines *)
  chans : gmap nat (result fetch_error string);   (* results in the channels *)
  callers : gmap nat caller;
  next_caller : nat
}.
Definition newRepo : repo := mkRepo ∅ [] ∅ ∅ 0.

Inductive revent :=
  | RFound (path : string)                  (* Lstat found the file *)
  | RDownload (dgst : string)               (* it did not: download(dgst) *)
  | RFetched (dgst : string) (res : result fetch_error string)
  | RReceive (w : nat)
  | RCancel (w : nat).

(** The locked part of [download], by a new caller. *)
Definition register (dgst : string) (r : repo) : repo :=
  let w := next_caller r in
  match inProgress r !! dgst with
  | Some ws => mkRepo (<[dgst := ws ++ [w]]> (inProgress r)) (fetching r) (chans r)
                 (<[w := Waiting dgst]> (callers r)) (S w)
  | None => mkRepo (<[dgst := [w]]> (inProgress r)) (dgst :: fetching r) (chans r)
              (<[w := Waiting dgst]> (callers r)) (S w)
  end.

(** The end of the goroutine: [ch <- res] for every registered channel.  A send to a
    channel that holds a result would block with the lock held: [None]. *)
Fixpoint notify (res : result fetch_error string) (ws : list nat)
    (c : gmap nat (result fetch_error string)) : option (gmap nat (result fetch_error string)) :=
  match ws with
  | [] => Some c
  | w :: ws => match c !! w with
               | Some _ => None
               | None => notify res ws (<[w := res]> c)
               end
  end.

Definition finish (dgst : string) (res : result fetch_error string) (r : repo) : option repo :=
  match list_find (eq dgst) (fetching r) with
  | None => None
  | Some (i, _) =>
      match notify res (default [] (inProgress r !! dgst)) (chans r) with
      | None => None
      | Some c => Some (mkRepo (delete dgst (inProgress r)) (delete i (fetching r)) c
                          (callers r) (next_caller r))
      end
  end.

Definition rexec (e : revent) (r : repo) : option repo :=
  match e with
  | RFound path => Some (mkRepo (inProgress r) (fetching r) (chans r)
      (<[next_caller r := Returned (Ok path)]> (callers r)) (S (next_caller r)))
  | RDownload dgst => Some (register dgst r)
  | RFetched dgst res => finish dgst res r
  | RReceive w =>
      match callers r !! w, chans r !! w with
      | Some (Waiting _), Some res =>
          Some (mkRepo (inProgress r) (fetching r) (delete w (chans r))
                  (<[w := Returned res]> (callers r)) (next_caller r))
      | _, _ => None
      end
  | RCancel w =>
      match callers r !! w with
      | Some (Waiting _) =>
          Some (mkRepo (inProgress r) (fetching r) (chans r)
                  (<[w := Cancelled]> (callers r)) (next_caller r))
      | _ => None
      end
  end.

Inductive rreach : repo -> Prop :=
  | rreach_new : rreach newRepo
  | rreach_exec e r r' : rreach r -> rexec e r = Some r' -> rreach r'.

(** ** The invariant *)

Record RInv (r : repo) : Prop := {
  ri_flight : forall d, is_Some (inProgress r !! d) <-> d ∈ fetching r;
  ri_single : NoDup (fetching r);
  ri_nodup : forall d ws, inProgress r !! d = Some ws -> NoDup ws;
  ri_empty : forall d ws w, inProgress r !! d = Some ws -> w ∈ ws ->
    (w < next_caller r)%nat /\ chans r !! w = None;
  ri_disjoint : forall d1 d2 ws1 ws2 w, inProgress r !! d1 = Some ws1 ->
    inProgress r !! d2 = Some ws2 -> w ∈ ws1 -> w ∈ ws2 -> d1 = d2;
  ri_wait : forall w d, callers r !! w = Some (Waiting d) -> chans r !! w = None ->
    exists ws, inProgress r !! d = Some ws /\ w ∈ ws;
  ri_chan : forall w, is_Some (chans r !! w) -> (w < next_caller r)%nat;
}.

Lemma RInv_new : RInv newRepo.
Proof.
  split; cbn; try (intros; simplify_map_eq; done).
  - intros d. rewrite lookup_empty. split; [by intros []|by intros []%elem_of_nil].
  - constructor.
Qed.

Lemma notify_ok res ws c :
  NoDup ws -> (forall w, w ∈ ws -> c !! w = None) ->
  exists c', notify res ws c = Some c' /\
    forall w, c' !! w = if decide (w ∈ ws) then Some res else c !! w.
Proof.
  revert c. induction ws as [|x ws IH]; intros c Hnd He; cbn.
  { exists c. split; [done|]. intros w. rewrite decide_False; [done|]. apply not_elem_of_nil. }
  apply NoDup_cons in Hnd as [Hx Hnd]. rewrite (He x) by apply list_elem_of_here.
  destruct (IH (<[x := res]> c) Hnd) as (c' & E & Hc').
  { intros w Hw. rewrite lookup_insert_ne by (by intros ->). apply He. by apply list_elem_of_further. }
  exists c'. split; [done|]. intros w. rewrite Hc'.
  destruct (decide (w = x)) as [->|Hne].
  - rewrite decide_False by done. rewrite lookup_insert_eq.
    by rewrite decide_True by apply list_elem_of_here.
  - rewrite lookup_insert_ne by done. destruct (decide (w ∈ ws)) as [Hw|Hw].
    + by rewrite decide_True by (by apply list_elem_of_further).
    + rewrite decide_False; [done|]. by intros [?|?]%elem_of_cons.
Qed.

(** The fetch of a digest in flight can always finish. *)
Lemma finish_ok dgst res r :
  RInv r -> dgst ∈ fetching r ->
  exists i ws c, list_find (eq dgst) (fetching r) = Some (i, dgst) /\
    inProgress r !! dgst = Some ws /\
    (forall w, c !! w = if decide (w ∈ ws) then Some res else chans r !! w) /\
    finish dgst res r = Some (mkRepo (delete dgst (inProgress r)) (delete i (fetching r)) c
                                (callers r) (next_caller r)).
Proof.
  intros I Hd. destruct (proj2 (ri_flight _ I dgst) Hd) as [ws Hws].
  destruct (list_find_elem_of (eq dgst) _ _ Hd eq_refl) as [[i x] Hf].
  pose proof (proj1 (list_find_Some _ _ _ _) Hf) as (_ & <- & _).
  destruct (notify_ok res ws (chans r)) as (c & En & Hc).
  - by eapply ri_nodup.
  - intros w Hw. by eapply ri_empty.
  - exists i, ws, c. split_and!; try done. unfold finish. rewrite Hf, Hws. cbn. by rewrite En.
Qed.

Lemma NoDup_delete {A} (l : list A) i : NoDup l -> NoDup (delete i l).
Proof. intros H. exact (sublist_NoDup _ _ H (sublist_delete l i)). Qed.

Lemma elem_of_delete_nodup {A} (l : list A) i x y :
  NoDup l -> l !! i = Some x -> y ∈ delete i l <-> y ∈ l /\ y <> x.
Proof.
  revert i. induction l as [|z l IH]; intros [|i] Hnd Hi; simplify_eq/=;
    apply NoDup_cons in Hnd as [Hz Hnd].
  - rewrite elem_of_cons. split; [|naive_solver]. intros Hy. split; [auto|]. by intros ->.
  - rewrite !elem_of_cons, (IH i) by done. split; [|naive_solver].
    intros [->|[Hy Hne]]; [|auto]. split; [auto|]. intros ->.
    apply Hz. by eapply list_elem_of_lookup_2.
Qed.

Lemma RInv_finish dgst res r r' : RInv r -> finish dgst res r = Some r' -> RInv r'.
Proof.
  intros I E. assert (dgst ∈ fetching r) as Hd.
  { unfold finish in E. destruct (list_find _ _) as [[i x]|] eqn:Hf; [|done].
    apply list_find_Some in Hf as (Hl & -> & _). by eapply list_elem_of_lookup_2. }
  destruct (finish_ok dgst res r I Hd) as (i & ws & c & Hf & Hws & Hc & E').
  rewrite E' in E. injection E as <-. apply list_find_Some in Hf as (Hl & _ & _).
  destruct I as [I1 I2 I3 I4 I5 I6 I7]. split; cbn.
  - intros d. rewrite (elem_of_delete_nodup _ _ _ _ I2 Hl), <- I1. rewrite lookup_delete_is_Some.
    naive_solver.
  - by apply NoDup_delete.
  - intros d ws' [_ H]%lookup_delete_Some. by eapply I3.
  - intros d ws' w [Hne H]%lookup_delete_Some Hw. destruct (I4 _ _ _ H Hw) as [H1 H2].
    split; [done|]. rewrite Hc, decide_False; [done|]. intros Hw'. by destruct (I5 _ _ _ _ _ Hws H Hw' Hw).
  - intros d1 d2 ws1 ws2 w [_ H1]%lookup_delete_Some [_ H2]%lookup_delete_Some. by eapply I5.
  - intros w d Hw. rewrite Hc. destruct (decide (w ∈ ws)) as [|Hn]; [done|]. intros Hcw.
    destruct (I6 _ _ Hw Hcw) as (ws' & H1 & H2). exists ws'. split; [|done].
    rewrite lookup_delete_ne; [done|]. intros ->. congruence.
  - intros w. rewrite Hc. destruct (decide (w ∈ ws)); [|apply I7]. intros _. by eapply I4.
Qed.

(** The callers that wait for a digest. *)
Definition waiting_for (dgst : string) (r : repo) : list nat := default [] (inProgress r !! dgst).

Lemma register_eq dgst r : register dgst r =
  mkRepo (<[dgst := waiting_for dgst r ++ [next_caller r]]> (inProgress r))
    (match inProgress r !! dgst with Some _ => fetching r | None => dgst :: fetching r end)
    (chans r) (<[next_caller r := Waiting dgst]> (callers r)) (S (next_caller r)).
Proof. unfold register, waiting_for. by destruct (inProgress r !! dgst). Qed.
Lemma waiting_for_elem dgst r w : w ∈ waiting_for dgst r -> exists ws, inProgress r !! dgst = Some ws /\ w ∈ ws.
Proof.
  unfold waiting_for. destruct (inProgress r !! dgst) as [ws|]; cbn; [by eauto|]. by intros []%elem_of_nil.
Qed.
Lemma register_waiters dgst r d ws w :
  <[dgst := waiting_for dgst r ++ [next_caller r]]> (inProgress r) !! d = Some ws -> w ∈ ws ->
  (d = dgst /\ w = next_caller r) \/ exists ws', inProgress r !! d = Some ws' /\ w ∈ ws'.
Proof.
  intros [[<- <-]|[Hne H]]%lookup_insert_Some; [|by eauto].
  intros [Hw|Hw%list_elem_of_singleton]%elem_of_app; [right; by apply waiting_for_elem|by left].
Qed.

Lemma RInv_register dgst r : RInv r -> RInv (register dgst r).
Proof.
  intros [I1 I2 I3 I4 I5 I6 I7].
  assert (chans r !! next_caller r = None) as Hfree.
  { destruct (chans r !! next_caller r) eqn:E; [|done].
    specialize (I7 (next_caller r) ltac:(by eauto)). lia. }
  assert (forall d ws, inProgress r !! d = Some ws -> next_caller r ∉ ws) as Hnew.
  { intros d ws H Hw. destruct (I4 _ _ _ H Hw). lia. }
  rewrite register_eq. pose proof (waiting_for_elem dgst r) as Hws0. pose proof (register_waiters dgst r) as Hin.
  split; cbn.
  - intros d. rewrite lookup_insert_is_Some, I1. destruct (inProgress r !! dgst) eqn:E.
    + assert (dgst ∈ fetching r) by (apply I1; eauto). destruct (decide (dgst = d)); naive_solver.
    + rewrite elem_of_cons. destruct (decide (dgst = d)); naive_solver.
  - destruct (inProgress r !! dgst) eqn:E; [done|]. constructor; [|done].
    rewrite <- I1, E. by intros [].
  - intros d ws [[<- <-]|[Hne H]]%lookup_insert_Some; [|by eapply I3].
    apply NoDup_app. split_and!; [| |apply NoDup_singleton].
    2: { intros w Hw Hn%list_elem_of_singleton. subst w.
         destruct (Hws0 _ Hw) as (ws & Ha & Hb). by apply (Hnew _ _ Ha). }
    unfold waiting_for. destruct (inProgress r !! dgst) eqn:E; [by eapply I3|constructor].
  - intros d ws w H Hw. destruct (Hin _ _ _ H Hw) as [[_ ->]|(ws' & H1 & H2)]; [auto with lia|].
    destruct (I4 _ _ _ H1 H2). auto with lia.
  - intros d1 d2 ws1 ws2 w H1 H2 Hw1 Hw2.
    destruct (Hin _ _ _ H1 Hw1) as [[-> ->]|(a & Ha & Hwa)],
      (Hin _ _ _ H2 Hw2) as [[-> E]|(b & Hb & Hwb)]; try done.
    + by destruct (Hnew _ _ Hb).
    + subst w. by destruct (Hnew _ _ Ha).
    + by eapply I5.
  - intros w d [[<- [= <-]]|[Hne Hw]]%lookup_insert_Some Hc.
    + exists (waiting_for dgst r ++ [next_caller r]). rewrite lookup_insert_eq. split; [done|].
      apply elem_of_app. right. apply list_elem_of_here.
    + destruct (I6 _ _ Hw Hc) as (ws & H1 & H2). destruct (decide (d = dgst)) as [->|].
      * exists (waiting_for dgst r ++ [next_caller r]). rewrite lookup_insert_eq. split; [done|].
        apply elem_of_app. left. unfold waiting_for. by rewrite H1.
      * exists ws. by rewrite lookup_insert_ne.
  - intros w Hw. specialize (I7 w Hw). lia.
Qed.

Lemma RInv_returned res r : RInv r ->
  RInv (mkRepo (inProgress r) (fetching r) (chans r) (<[next_caller r := Returned res]> (callers r)) (S (next_caller r))).
Proof.
  intros I. destruct I as [H1 H2 H3 H4 H5 H6 H7]. split; cbn; try done.
  - intros d ws w Hp Hw. destruct (H4 d ws w Hp Hw). split; [lia|done].
  - intros w d Hw Hc. destruct (decide (w = next_caller r)) as [->|Hne].
    + by rewrite lookup_insert_eq in Hw.
    + rewrite lookup_insert_ne in Hw by done. by apply H6.
  - intros w Hw. apply H7 in Hw. lia.
Qed.

Lemma RInv_exec e r r' : RInv r -> rexec e r = Some r' -> RInv r'.
Proof.
  intros I. destruct e as [path|dgst|dgst res|w|w]; cbn [rexec].
  - intros [= <-]. by apply RInv_returned.
  - intros [= <-]. by apply RInv_register.
  - by apply RInv_finish.
  - destruct (callers r !! w) as [[d| |]|] eqn:Ew; try done.
    destruct (chans r !! w) as [res|] eqn:Ec; [|done]. intros [= <-].
    destruct I as [I1 I2 I3 I4 I5 I6 I7]. split; cbn; auto.
    + intros d' ws w' H Hw. destruct (I4 _ _ _ H Hw) as [? H2]. split; [done|].
      apply lookup_delete_None. auto.
    + intros w' d' [[_ ?]|[Hne Hw]]%lookup_insert_Some; [done|]. rewrite lookup_delete_ne by done.
      auto.
    + intros w' [x [_ Hx]%lookup_delete_Some]. apply I7. eauto.
  - destruct (callers r !! w) as [[d| |]|] eqn:Ew; try done. intros [= <-].
    destruct I as [I1 I2 I3 I4 I5 I6 I7]. split; cbn; auto.
    intros w' d' [[_ ?]|[_ Hw]]%lookup_insert_Some; [done|auto].
Qed.

Lemma rreach_RInv r : rreach r -> RInv r.
Proof. induction 1; eauto using RInv_new, RInv_exec. Qed.

(** One download per blob: however many callers ask for it and whatever the
    interleaving, at most one fetch of a digest runs at a time, and notifying the
    callers never blocks with the repository locked. *)
Theorem repo_single_flight r dgst res :
  rreach r -> NoDup (fetching r) /\ (dgst ∈ fetching r -> is_Some (finish dgst res r)).
Proof.
  intros I%rreach_RInv. split; [by apply ri_single|]. intros Hd.
  destruct (finish_ok dgst res r I Hd) as (i & ws & c & _ & _ & _ & ->). eauto.
Qed.

(** C30: no caller is forgotten: one that waits without a result waits for a fetch
    that is running, and gets that fetch's result when it ends. *)
Theorem repo_no_lost_waiter r w dgst res :
  rreach r -> callers r !! w = Some (Waiting dgst) -> chans r !! w = None ->
  dgst ∈ fetching r /\
  exists r', finish dgst res r = Some r' /\ chans r' !! w = Some res.
Proof.
  intros I%rreach_RInv Hw Hc. destruct (ri_wait _ I _ _ Hw Hc) as (ws & Hp & Hin).
  assert (dgst ∈ fetching r) as Hd by (apply (ri_flight _ I); eauto). split; [done|].
  destruct (finish_ok dgst res r I Hd) as (i & ws' & c & _ & Hp' & Hcc & ->).
  eexists. split; [done|]. cbn. rewrite Hcc, decide_True; [done|]. by simplify_eq.
Qed.

(** Two callers for one blob. *)
Definition demo_repo : repo := register "sha" (register "sha" newRepo).
Lemma demo_repo_reach : rreach demo_repo.
Proof.
  apply (rreach_exec (RDownload "sha") (register "sha" newRepo)); [|done].
  by apply (rreach_exec (RDownload "sha") newRepo); [constructor|].
Qed.

Lemma repo_single_flight_witness : is_Some (finish "sha" (Ok "p"%string) demo_repo).
Proof. apply (repo_single_flight demo_repo "sha"); [apply demo_repo_reach|]. vm_compute. constructor. Defined.

Lemma repo_no_lost_waiter_witness :
  exists r', finish "sha" (Ok "p"%string) demo_repo = Some r' /\ chans r' !! 1%nat = Some (Ok "p"%string).
Proof. apply (repo_no_lost_waiter demo_repo 1 "sha"); [apply demo_repo_reach|reflexivity|reflexivity]. Defined.

(** ** The repository on its spool directory

    [Get] looks for the file first; downloads end with the rename of [fetch].  [path] is
    where the blob of a digest is kept, [registry] what the registry has for it. *)
Section spool.
Context (path : string -> string) (registry : string -> option (list byte)).
Hypothesis path_inj : forall d d', path d = path d' -> d = d'.

(** The repository, the directory and what each caller asked for. *)
Record spooler := mkSpooler { sp_repo : repo; sp_disk : disk; sp_asked : gmap nat string }.
Definition new_spooler : spooler := mkSpooler newRepo ∅ ∅.

(** [Get]: [lstat_fails] when [Lstat] reports an error other than a missing file. *)
Definition Get (dgst : string) (lstat_fails : bool) (s : spooler) : spooler :=
  let w := next_caller (sp_repo s) in
  let r := sp_repo s in
  let returned res := mkRepo (inProgress r) (fetching r) (chans r) (<[w := Returned res]> (callers r)) (S w) in
  mkSpooler
    (if lstat_fails then returned (Err ErrLstat)
     else match sp_disk s !! path dgst with
          | Some _ => returned (Ok (path dgst))
          | None => register dgst r
          end) (sp_disk s) (<[w := dgst]> (sp_asked s)).

(** The steps: a caller comes, a download ends (its temporary name is new and no blob's),
    a caller takes its result or gives up. *)
Inductive spool_step : spooler -> spooler -> Prop :=
  | spool_get s dgst lstat_fails : spool_step s (Get dgst lstat_fails s)
  | spool_fetched s dgst e temp r' :
      sp_disk s !! temp = None -> (forall d, temp <> path d) ->
      (f_blob e = None \/ f_blob e = registry dgst) ->
      finish dgst (fetch e temp (path dgst) (sp_disk s)).1 (sp_repo s) = Some r' ->
      spool_step s (mkSpooler r' (fetch e temp (path dgst) (sp_disk s)).2 (sp_asked s))
  | spool_caller s e r' : (exists w, e = RReceive w \/ e = RCancel w) -> rexec e (sp_repo s) = Some r' ->
      spool_step s (mkSpooler r' (sp_disk s) (sp_asked s)).

Inductive spool_reach : spooler -> Prop :=
  | spool_new : spool_reach new_spooler
  | spool_next s s' : spool_reach s -> spool_step s s' -> spool_reach s'.

(** The result [p] is the blob the caller [w] asked for. *)
Definition served (s : spooler) (w : nat) (p : string) : Prop :=
  exists d blob, sp_asked s !! w = Some d /\ p = path d /\ sp_disk s !! p = Some blob /\ registry d = Some blob.

Record spool_inv (s : spooler) : Prop := {
  si_repo : RInv (sp_repo s);
  si_disk : forall d b, sp_disk s !! path d = Some b -> registry d = Some b;
  si_asked : forall w d, sp_asked s !! w = Some d -> (w < next_caller (sp_repo s))%nat;
  si_waits : forall d ws w, inProgress (sp_repo s) !! d = Some ws -> w ∈ ws -> sp_asked s !! w = Some d;
  si_chans : forall w p, chans (sp_repo s) !! w = Some (Ok p) -> served s w p;
  si_callers : forall w p, callers (sp_repo s) !! w = Some (Returned (Ok p)) -> served s w p
}.

(** A result stays good while the directory only gains blobs and callers. *)
Lemma served_more s s' w p :
  (forall d b, sp_disk s !! path d = Some b -> is_Some (sp_disk s' !! path d)) ->
  (forall d b, sp_disk s' !! path d = Some b -> registry d = Some b) ->
  (forall d, sp_asked s !! w = Some d -> sp_asked s' !! w = Some d) -> served s w p -> served s' w p.
Proof.
  intros Hd Hr Ha (d & blob & Hw & -> & Hp & Hg). destruct (Hd d blob Hp) as [b' Hb].
  exists d, b'. split_and!; auto.
Qed.

Lemma spool_inv_Get s dgst lstat_fails : spool_inv s -> spool_inv (Get dgst lstat_fails s).
Proof.
  intros I. pose proof I as [Hr Hd Ha Hw Hc Hk].
  assert (sp_asked s !! (next_caller (sp_repo s)) = None) as Hnew.
  { destruct (sp_asked s !! (next_caller (sp_repo s))) eqn:E; [|done]. apply Ha in E. lia. }
  assert (forall w p, served s w p -> served (Get dgst lstat_fails s) w p) as Hs.
  { intros w p. apply served_more; cbn; [by eauto|done|]. intros d Hx. rewrite lookup_insert_ne; [done|].
    intros E. by rewrite <- E, Hnew in Hx. }
  assert (next_caller (sp_repo (Get dgst lstat_fails s)) = S (next_caller (sp_repo s))) as Hn.
  { cbn. destruct lstat_fails; [done|]. destruct (sp_disk s !! path dgst); [done|]. unfold register. by case_match. }
  split.
  - cbn. destruct lstat_fails; [by apply RInv_returned|]. destruct (sp_disk s !! path dgst); [by apply RInv_returned|].
    by apply RInv_register.
  - done.
  - intros w d. rewrite Hn. cbn. destruct (decide (w = (next_caller (sp_repo s)))) as [->|Hne]; [lia|].
    rewrite lookup_insert_ne by done. intros Hx%Ha. lia.
  - intros d ws w Hp Hin. cbn in Hp |- *. destruct lstat_fails; [|destruct (sp_disk s !! path dgst)].
    1,2: rewrite lookup_insert_ne; [by eapply Hw|]; intros E; by rewrite E, (Hw _ _ _ Hp Hin) in Hnew.
    rewrite register_eq in Hp. destruct (register_waiters dgst (sp_repo s) d ws w Hp Hin) as [[-> ->]|(ws' & Hp' & Hin')].
    + by rewrite lookup_insert_eq.
    + rewrite lookup_insert_ne; [by eapply Hw|]. intros E. by rewrite E, (Hw _ _ _ Hp' Hin') in Hnew.
  - intros w p Hp. apply Hs, Hc. revert Hp. cbn. destruct lstat_fails; [done|].
    destruct (sp_disk s !! path dgst); [done|]. unfold register. by case_match.
  - intros w p Hp. cbn in Hp. destruct (decide (w = (next_caller (sp_repo s)))) as [->|Hne].
    + destruct lstat_fails; [cbn in Hp; by rewrite lookup_insert_eq in Hp|]. destruct (sp_disk s !! path dgst) as [blob|] eqn:Eb.
      * cbn in Hp. rewrite lookup_insert_eq in Hp. injection Hp as <-. exists dgst, blob. cbn. rewrite lookup_insert_eq. auto.
      * unfold register in Hp. case_match; cbn in Hp; by rewrite lookup_insert_eq in Hp.
    + apply Hs, Hk. destruct lstat_fails; [cbn in Hp; by rewrite lookup_insert_ne in Hp|].
      destruct (sp_disk s !! path dgst); [cbn in Hp; by rewrite lookup_insert_ne in Hp|].
      unfold register in Hp. case_match; cbn in Hp; by rewrite lookup_insert_ne in Hp.
Qed.

Lemma spool_inv_fetched s dgst e temp r' : spool_inv s ->
  sp_disk s !! temp = None -> (forall d, temp <> path d) -> (f_blob e = None \/ f_blob e = registry dgst) ->
  finish dgst (fetch e temp (path dgst) (sp_disk s)).1 (sp_repo s) = Some r' ->
  spool_inv (mkSpooler r' (fetch e temp (path dgst) (sp_disk s)).2 (sp_asked s)).
Proof.
  intros [Hr Hd Ha Hw Hc Hk] Ht Htp Hb Hf. pose proof (fetch_effect e temp (path dgst) (sp_disk s) Ht (Htp dgst)) as He.
  destruct (fetch e temp (path dgst) (sp_disk s)) as [res fs'] eqn:Ef. cbn [fst snd] in *.
  assert (forall d b, fs' !! path d = Some b -> registry d = Some b) as Hd'.
  { destruct res as [q|er]; [|by subst]. destruct He as (-> & blob & Hx & ->). intros d b.
    destruct (decide (d = dgst)) as [->|Hne].
    - rewrite lookup_insert_eq. intros [= <-]. destruct Hb as [E|E]; congruence.
    - rewrite lookup_insert_ne; [apply Hd|]. by intros E%path_inj. }
  assert (forall d b, sp_disk s !! path d = Some b -> is_Some (fs' !! path d)) as Hm.
  { intros d b Hx. destruct res as [q|er]; [|by subst; eauto]. destruct He as (-> & blob & _ & ->).
    destruct (decide (path dgst = path d)) as [->|Hne]; [by rewrite lookup_insert_eq|]. rewrite lookup_insert_ne by done. eauto. }
  assert (forall w p, served s w p -> served (mkSpooler r' fs' (sp_asked s)) w p) as Hs
    by (intros w p; by apply served_more).
  assert (dgst ∈ fetching (sp_repo s)) as Hin.
  { unfold finish in Hf. destruct (list_find (eq dgst) _) as [[i x]|] eqn:El; [|done].
    apply list_find_Some in El as (Hl & -> & _). by eapply list_elem_of_lookup_2. }
  destruct (finish_ok dgst res (sp_repo s) Hr Hin) as (i & ws & c & _ & Hp & Hcc & E). rewrite E in Hf. injection Hf as <-.
  split; cbn; try done.
  - eapply RInv_finish; [exact Hr|exact E].
  - intros d ws' w [_ Hx]%lookup_delete_Some. by apply Hw.
  - intros w p. rewrite Hcc. case_decide as Hws; [|intros Hx; by apply Hs, Hc]. intros [= ->].
    destruct He as (-> & blob & Hx & ->). exists dgst, blob. cbn. split; [by eapply Hw|]. split; [done|].
    split; [by rewrite lookup_insert_eq|]. destruct Hb as [Eb|Eb]; congruence.
  - intros w p Hx. by apply Hs, Hk.
Qed.

Lemma spool_inv_caller s e r' : spool_inv s -> (exists w, e = RReceive w \/ e = RCancel w) ->
  rexec e (sp_repo s) = Some r' -> spool_inv (mkSpooler r' (sp_disk s) (sp_asked s)).
Proof.
  intros [Hr Hd Ha Hw Hc Hk] [w He] Hx. pose proof (RInv_exec _ _ _ Hr Hx) as Hr'.
  assert (forall v p, served s v p -> served (mkSpooler r' (sp_disk s) (sp_asked s)) v p) as Hs
    by (intros v p; apply served_more; cbn; eauto).
  destruct He as [->| ->]; cbn in Hx.
  - destruct (callers (sp_repo s) !! w) as [[d| |]|] eqn:Ew; try done.
    destruct (chans (sp_repo s) !! w) as [res|] eqn:Ec; [|done]. injection Hx as <-. split; cbn; try done.
    + intros v p [_ Hv]%lookup_delete_Some. by apply Hs, Hc.
    + intros v p [[<- [= ->]]|[_ Hv]]%lookup_insert_Some; apply Hs; [by apply Hc|by apply Hk].
  - destruct (callers (sp_repo s) !! w) as [[d| |]|] eqn:Ew; try done. injection Hx as <-. split; cbn; try done.
    intros v p [[_ ?]|[_ Hv]]%lookup_insert_Some; [done|]. by apply Hs, Hk.
Qed.

Lemma spool_reach_inv s : spool_reach s -> spool_inv s.
Proof.
  induction 1 as [|s s' _ IH Hs].
  - split; cbn; try (intros; simplify_map_eq; done). apply RInv_new.
  - destruct Hs; [by apply spool_inv_Get|by apply spool_inv_fetched|by eapply spool_inv_caller].
Qed.

End spool.

Definition demo_fetch : fetch_env := {| f_create := true; f_blob := Some (str_bytes "layer"); f_copy := None; f_rename := true |}.
(** Two callers for one blob, and a third after it is there. *)
Definition demo_path (d : string) : string := ("/spool/" +:+ d)%string.
Definition demo_spooler : spooler :=
  let s := Get demo_path "sha" false (Get demo_path "sha" false new_spooler) in
  let f := fetch demo_fetch "tmp" (demo_path "sha") (sp_disk s) in
  let s := mkSpooler (default newRepo (finish "sha" f.1 (sp_repo s))) f.2 (sp_asked s) in
  let s := mkSpooler (default newRepo (rexec (RReceive 1) (sp_repo s))) (sp_disk s) (sp_asked s) in
  Get demo_path "sha" false s.

