(* ===== verification/World.v ===== *)
(** * The outside world of a box

    Boxes drive the operating system and a container engine.  Their calls are
    recorded in order in a log; what the world answers to the [n]-th call is given
    by an arbitrary function, so a theorem about the log holds for every behaviour
    of the engine, failures included. *)

From Stdlib Require Import ZArith Lia Ascii String.
From S2P Require Import Prelude MtnStore PortoUtil.

Inductive call :=
  | MkdirAll (path : string)
  | RemoveAll (path : string)
  | PortoConnect
  | PortoClose
  | CreateVolume (path : string) (properties : gmap string string)
  | LinkVolume (path container : string)
  | UnlinkVolume (path container : string)
  | ImportLayer (layer path : string)
  | Create (id : string)
  | Destroy (id : string)
  | SetProperty (id property value : string)
  | Start (id : string)
  | PortoKill (id : string)
  | Wait (id : string)
  | GetData (id name : string)
  | OutputWrite (data : string)
  | UseAllocCall (netid box ident : string)
  | UnuseAllocCall (netid id : string)
  | UsedAllocationsCall
  | BindAllocsCall (netid : string)
  | GetProperty (id property : string)
  | List
  | ListLayers
  | ListVolumes
  | DownloadHelper (timeout torrent : string)
  | Sha256 (path : string)                  (* open the file and hash it *)
  | RegistryManifest (registry name : string)
  | BlobGet (dgst : string).

Inductive answer :=
  | Done                        (* nil error *)
  | Fails (e : porto_error)
  | GotData (s : string)
  | GotAlloc (a : Allocation)
  | GotAllocs (l : list Allocation)
  | GotNames (l : list string)
  | GotVolumes (l : list (string * gmap string string))
  | GotManifest (schema : Z) (digests : list string).

Record world := mkWorld {
  w_log : list call;
  w_answers : nat -> call -> answer
}.

Definition W : Type -> Type := act world porto_error.

(** A call: logged, then answered. *)
Definition invoke (c : call) : W answer := λ w,
  let w' := mkWorld (w_log w ++ [c]) (w_answers w) in
  match w_answers w (length (w_log w)) c with
  | Fails e => (Err e, w')
  | a => (Ok a, w')
  end.
Definition do (c : call) : W unit := _ ← invoke c; mret tt.
(** A call whose error is dropped (or only logged). *)
Definition try {A} (m : W A) : W (option porto_error) := λ w,
  match m w with
  | (Ok _, w') => (Ok None, w')
  | (Err e, w') => (Ok (Some e), w')
  end.

(** ** What a computation adds to the log *)

Definition extends (w w' : world) : Prop :=
  w_answers w' = w_answers w /\ exists l, w_log w' = w_log w ++ l.
#[export] Instance extends_po : PreOrder extends.
Proof.
  split.
  - intros w. split; [done|]. exists []. by rewrite app_nil_r.
  - intros w1 w2 w3 [A1 [l1 L1]] [A2 [l2 L2]]. split; [congruence|].
    exists (l1 ++ l2). by rewrite L2, L1, app_assoc.
Qed.

(** [m] only adds to the log. *)
Definition appends {A} (m : W A) : Prop := forall w, extends w (m w).2.

Lemma appends_ret {A} (a : A) : appends (mret a).
Proof. intros w. done. Qed.
Lemma appends_throw {A} e : appends (throw e : W A).
Proof. intros w. done. Qed.
Lemma appends_bind {A B} (m : W A) (k : A -> W B) :
  appends m -> (forall a, appends (k a)) -> appends (m ≫= k).
Proof.
  intros Hm Hk w. specialize (Hm w). unfold mbind, act_bind.
  destruct (m w) as [[a|e] w']; [|done]. etrans; [exact Hm|apply Hk].
Qed.
Lemma appends_invoke c : appends (invoke c).
Proof. intros w. unfold invoke. case_match; split; try done; by exists [c]. Qed.
Lemma appends_do c : appends (do c).
Proof. apply appends_bind; [apply appends_invoke|intros; apply appends_ret]. Qed.
Lemma appends_try {A} (m : W A) : appends m -> appends (try m).
Proof. intros H w. specialize (H w). unfold try. by destruct (m w) as [[]]. Qed.
Lemma appends_if {A} (c : bool) (m1 m2 : W A) : appends m1 -> appends m2 -> appends (if c then m1 else m2).
Proof. by destruct c. Qed.

Create HintDb world discriminated.
#[export] Hint Resolve appends_ret appends_throw appends_bind appends_invoke appends_do appends_try
  appends_if : world.

(** [m] makes no call that satisfies [P]. *)
Definition avoids {A} (P : call -> Prop) (m : W A) : Prop :=
  forall w, exists l, w_log (m w).2 = w_log w ++ l /\ Forall (λ c, ~ P c) l.

Section avoids.
Context (P : call -> Prop).
Lemma avoids_ret {A} (a : A) : avoids P (mret a).
Proof. intros w. exists []. by rewrite app_nil_r. Qed.
Lemma avoids_throw {A} e : avoids P (throw e : W A).
Proof. intros w. exists []. by rewrite app_nil_r. Qed.
Lemma avoids_bind {A B} (m : W A) (k : A -> W B) :
  avoids P m -> (forall a, avoids P (k a)) -> avoids P (m ≫= k).
Proof.
  intros Hm Hk w. destruct (Hm w) as (l1 & L1 & F1). unfold mbind, act_bind.
  destruct (m w) as [[a|e] w']; [|by exists l1]. destruct (Hk a w') as (l2 & L2 & F2).
  exists (l1 ++ l2). cbn in *. rewrite L2, L1, app_assoc. split; [done|]. by apply Forall_app.
Qed.
Lemma avoids_invoke c : ~ P c -> avoids P (invoke c).
Proof. intros H w. exists [c]. unfold invoke. case_match; (split; [done|by apply Forall_singleton]). Qed.
Lemma avoids_do c : ~ P c -> avoids P (do c).
Proof. intros H. apply avoids_bind; [by apply avoids_invoke|intros; apply avoids_ret]. Qed.
Lemma avoids_try {A} (m : W A) : avoids P m -> avoids P (try m).
Proof.
  intros H w. destruct (H w) as (l & L & F). exists l. unfold try. by destruct (m w) as [[]].
Qed.
Lemma avoids_if {A} (c : bool) (m1 m2 : W A) : avoids P m1 -> avoids P m2 -> avoids P (if c then m1 else m2).
Proof. by destruct c. Qed.
End avoids.
#[export] Hint Resolve avoids_ret avoids_throw avoids_bind avoids_invoke avoids_do avoids_try
  avoids_if : world.

(** How often [m] makes a call that satisfies the test [p]. *)
Definition calls (p : call -> bool) (w : world) : nat := length (filter (λ c, p c = true) (w_log w)).

Lemma calls_avoids {A} (p : call -> bool) (m : W A) w :
  avoids (λ c, p c = true) m -> calls p (m w).2 = calls p w.
Proof.
  intros H. destruct (H w) as (l & L & F). unfold calls. rewrite L, filter_app, length_app.
  assert (filter (λ c, p c = true) l = []) as ->; [|cbn; lia].
  clear L. induction F as [|c l Hc F IH]; [done|]. by rewrite filter_cons_False.
Qed.

Lemma calls_do p c w : calls p (do c w).2 = (calls p w + (if p c then 1 else 0))%nat.
Proof.
  unfold do, invoke, calls, mbind, act_bind.
  assert (length (filter (λ c, p c = true) (w_log w ++ [c])) =
    length (filter (λ c, p c = true) (w_log w)) + (if p c then 1 else 0))%nat as E.
  { rewrite filter_app, length_app. f_equal. destruct (p c) eqn:Hp.
    - by rewrite filter_cons_True.
    - rewrite filter_cons_False; [done|]. by rewrite Hp. }
  by destruct (w_answers w (length (w_log w)) c); exact E.
Qed.
