(* ===== verification/GoPath.v ===== *)
(** * Paths: [filepath.Clean], [filepath.Join] and [strings] helpers on Unix *)

From Stdlib Require Import ZArith Lia Ascii String.
From S2P Require Import Prelude.

(** [strings.Split(s, sep)] for a one-byte separator. *)
Fixpoint split (sep : ascii) (s : string) : list string :=
  match s with
  | EmptyString => [EmptyString]
  | String c s =>
      let r := split sep s in
      if decide (c = sep) then EmptyString :: r
      else match r with
           | x :: r => String c x :: r
           | [] => [String c EmptyString]
           end
  end.

(** [strings.Replace(s, old, new, -1)] for one-byte strings. *)
Fixpoint replace_char (old new : ascii) (s : string) : string :=
  match s with
  | EmptyString => EmptyString
  | String c s => String (if decide (c = old) then new else c) (replace_char old new s)
  end.

Definition slash : ascii := "/".

(** The elements of a cleaned path, last one first: empty elements and ["."] are
    dropped, [".."] cancels the element before it, or stays at the start of a
    relative path. *)
Definition clean_step (rooted : bool) (out : list string) (e : string) : list string :=
  if decide (e = ""%string) then out
  else if decide (e = "."%string) then out
  else if decide (e = ".."%string) then
    match out with
    | x :: out' => if decide (x = ".."%string) then e :: out else out'
    | [] => if rooted then [] else [e]
    end
  else e :: out.
Definition rooted (path : string) : bool :=
  match path with String c _ => bool_decide (c = slash) | EmptyString => false end.
Definition clean_elems (path : string) : list string :=
  reverse (fold_left (clean_step (rooted path)) (split slash path) []).

Definition Clean (path : string) : string :=
  let body := String.concat "/" (clean_elems path) in
  if rooted path then String slash body
  else if decide (body = ""%string) then "."%string else body.

(** [filepath.Join]: empty arguments are ignored. *)
Definition Join (elems : list string) : string :=
  match filter (λ e, e <> ""%string) elems with
  | [] => ""%string
  | es => Clean (String.concat "/" es)
  end.

Example Join_plain : Join ["/var/spool"%string; "volume"%string] = "/var/spool/volume"%string.
Proof. by vm_compute. Qed.
Example Join_dots : Join ["/a/b"%string; "../c/./d"%string] = "/a/c/d"%string.
Proof. by vm_compute. Qed.

(** A rooted path never keeps a [".."]. *)
Lemma clean_rooted path : rooted path = true -> Forall (λ e, e <> ".."%string) (clean_elems path).
Proof.
  intros Hr. unfold clean_elems. rewrite Hr. apply Forall_reverse.
  assert (forall es out, Forall (λ e, e <> ".."%string) out ->
    Forall (λ e, e <> ".."%string) (fold_left (clean_step true) es out)) as G; [|by apply G].
  induction es as [|e es IH]; intros out Ho; cbn; [done|]. apply IH. unfold clean_step.
  destruct (decide (e = ""%string)); [done|]. destruct (decide (e = "."%string)); [done|].
  destruct (decide (e = ".."%string)).
  - destruct out as [|x out]; [done|]. apply Forall_cons in Ho as [Hx Ho].
    by rewrite decide_False.
  - by constructor.
Qed.

(** ** [filepath.Base], [filepath.Dir], [filepath.IsAbs] *)

Definition IsAbs (path : string) : bool := rooted path.

(** The elements of [path], trailing slashes dropped. *)
Fixpoint trim_empty (rev : list string) : list string :=
  match rev with
  | e :: rest => if decide (e = ""%string) then trim_empty rest else rev
  | [] => []
  end.

(** [Base]: the last element; ["."] for an empty path, ["/"] for slashes only. *)
Definition Base (path : string) : string :=
  if decide (path = ""%string) then "."%string
  else match trim_empty (reverse (split slash path)) with
       | e :: _ => e
       | [] => "/"%string
       end.

(** [Dir]: [Clean] of everything up to and including the last slash. *)
Definition Dir (path : string) : string :=
  match reverse (split slash path) with
  | _ :: d :: dirs => Clean (String.concat "/" (reverse (d :: dirs)) ++ "/")
  | _ => "."%string
  end.

Example Base_ex : map Base ["/run/app/sock"%string; "a/b/"%string; "x"%string; "//"%string; ""%string] =
  ["sock"%string; "b"%string; "x"%string; "/"%string; "."%string].
Proof. by vm_compute. Qed.
Example Dir_ex : map Dir ["/run/app/sock"%string; "a/b"%string; "x"%string; "/x"%string; "/"%string; ""%string] =
  ["/run/app"%string; "a"%string; "."%string; "/"%string; "/"%string; "."%string].
Proof. by vm_compute. Qed.
