(* ===== verification/PortoContainer.v ===== *)
(** * Volumes and containers of the Porto box
      (isolate/porto/container_config.go, isolate/porto/container.go)

    The calls go to the world of World.v.  [range_] stands for the order in which
    a Go map is ranged; the maps are the profile's. *)

From Stdlib Require Import ZArith Lia Ascii String.
From S2P Require Import Prelude MtnStore PortoUtil World GoPath.

(** ** Profiles *)

Record VolumeProfile := mkVolProfile { Target : string; Properties : gmap string string }.

Record Layer := mkLayer { Digest : string; DigestType : string; Size : Z; TorrentId : string }.

Record Profile := mkProfile {
  Registry : string;
  Repository : string;
  NetworkMode : string;
  Network : gmap string string;
  ExtendedInfo_Layers : list Layer;
  Cwd : string;
  Binds : list string;
  ContainerProps : gmap string string;
  VolumeProps : gmap string string;
  ExtraVolumes : list VolumeProfile
}.

Record execInfo := mkExec {
  e_Profile : Profile;
  e_name : string;
  e_executable : string;
  e_ulimits : string;
  e_resolv_conf : string;
  e_args : gmap string string;
  e_env : gmap string string
}.

Record containerConfig := mkCC {
  c_exec : execInfo;
  c_MtnEnable : bool;              (* State.Mtn.Cfg.Enable *)
  c_BoxName : string;
  c_Root : string;
  c_ID : string;
  c_Layer : string;
  c_CleanupEnabled : bool;
  c_SetImgURI : bool;
  c_VolumeBackend : string;
  c_VolumeLabel : string
}.

(** Looking a missing key up gives the empty string. *)
Definition get (m : gmap string string) (k : string) : string := default ""%string (m !! k).

(** ** Volumes *)

(** A [portoVolume], or a [storageVolume] when [v_storagepath] is set. *)
Record Volume := mkVol {
  v_cID : string;
  v_path : string;
  v_linked : bool;
  v_storagepath : option string
}.

Definition portoVolume_Destroy (v : Volume) : W unit :=
  _ ← (if v_linked v then
         _ ← try (do (UnlinkVolume (v_path v) (v_cID v)));
         _ ← try (do (UnlinkVolume (v_path v) "self"));
         mret tt
       else mret tt);
  _ ← try (do (UnlinkVolume (v_path v) "/"));
  do (RemoveAll (v_path v)).

(** [Destroy] of either kind. *)
Definition Volume_Destroy (v : Volume) : W unit :=
  match v_storagepath v with
  | None => portoVolume_Destroy v
  | Some sp =>
      err ← try (portoVolume_Destroy v);
      _ ← (if decide (sp = ""%string) then mret tt else _ ← try (do (RemoveAll sp)); mret tt);
      match err with Some e => throw e | None => mret tt end
  end.

(** [Link] returns the volume with its flag set. *)
Definition Volume_Link (v : Volume) : W Volume :=
  _ ← do (LinkVolume (v_path v) (v_cID v));
  _ ← try (do (UnlinkVolume (v_path v) "/"));
  mret (mkVol (v_cID v) (v_path v) true (v_storagepath v)).

Definition CreateRootVolume (c : containerConfig) : W Volume :=
  let properties := VolumeProps (e_Profile (c_exec c)) ∪
    {[ "backend"%string := c_VolumeBackend c; "layers"%string := c_Layer c;
       "private"%string := c_VolumeLabel c ]} in
  let path := Join [c_Root c; "volume"%string] in
  _ ← do (MkdirAll path);
  let volume := mkVol (c_ID c) path false None in
  err ← try (do (CreateVolume path properties));
  match err with
  | Some e => _ ← try (Volume_Destroy volume); throw e
  | None => mret volume
  end.

(** [cleanUpOnError] *)
Fixpoint destroy_all (vols : list Volume) : W unit :=
  match vols with
  | [] => mret tt
  | v :: vols => _ ← try (Volume_Destroy v); destroy_all vols
  end.

(** Runs [m]; on error destroys [vols] and returns the error. *)
Definition or_clean {A} (vols : list Volume) (m : W A) : W A := λ w,
  match m w with
  | (Ok a, w') => (Ok a, w')
  | (Err e, w') => (_ ← destroy_all vols; throw e) w'
  end.

Definition empty_target : porto_error := OtherError "can not create volume with empty target".

(** The loop of [CreateExtraVolumes]; [vols] are the volumes appended so far. *)
Fixpoint extra_loop (c : containerConfig) (root : Volume) (vps : list VolumeProfile)
    (vols : list Volume) : W (list Volume) :=
  match vps with
  | [] => mret vols
  | vp :: vps =>
      if decide (Target vp = ""%string) then _ ← destroy_all vols; throw empty_target
      else
        let path := Join [v_path root; Target vp] in
        _ ← or_clean vols (do (MkdirAll path));
        let storage := get (Properties vp) "storage" in
        vp_ ← (if decide (storage = ""%string) then
                 mret (mkVol (c_ID c) path false None, Properties vp)
               else
                 let storagepath := Join [storage; c_ID c] in
                 (* appended before its storagepath is set *)
                 _ ← or_clean (vols ++ [mkVol (c_ID c) path false (Some ""%string)])
                       (do (MkdirAll storagepath));
                 mret (mkVol (c_ID c) path false (Some storagepath),
                       <["storage"%string := storagepath]> (Properties vp)));
        let vols := vols ++ [vp_.1] in
        _ ← or_clean vols (do (CreateVolume path vp_.2));
        extra_loop c root vps vols
  end.

Definition CreateExtraVolumes (c : containerConfig) (root : Volume) : W (list Volume) :=
  extra_loop c root (ExtraVolumes (e_Profile (c_exec c))) [].

(** ** Properties of a container *)

Section format.
Context (range_ : gmap string string -> list (string * string)).

Definition formatCommand (executable : string) (args : gmap string string) : string :=
  fold_left (λ b kv, b +s+ " "%string +s+ kv.1 +s+ " "%string +s+ kv.2) (range_ args) executable.

Definition formatEnv (env : gmap string string) : string :=
  fold_left (λ b kv, (if decide (b = ""%string) then b else b +s+ ";"%string) +s+
                     kv.1 +s+ "="%string +s+ kv.2) (range_ env) ""%string.

Definition pickNetwork (network : string) : string :=
  if decide (network = "inherited"%string) then network else "inherited"%string.

(** [formatBinds]: the mounts, and the arguments with the endpoint rewritten. *)
Definition formatBinds (args : gmap string string) (binds : list string)
  : string * gmap string string :=
  (fold_left (λ b d, b +s+ ";"%string +s+ replace_char ":" " " d) binds
     (get args "--endpoint" +s+ " "%string +s+ "/run/cocaine"%string),
   <["--endpoint"%string := "/run/cocaine"%string]> args).

(** The property map of [CreateContainer] before the network is set. *)
Definition container_properties (c : containerConfig) (root_path : string) : gmap string string :=
  let i := c_exec c in
  let p := e_Profile i in
  let env := if c_SetImgURI c
             then <["image_uri"%string := Registry p +s+ "/"%string +s+ e_name i]> (e_env i)
             else e_env i in
  let props := if decide (e_ulimits i = ""%string) then ∅
               else {[ "ulimit"%string := e_ulimits i ]} : gmap string string in
  let props := if decide (Cwd p = ""%string) then props else <["cwd"%string := Cwd p]> props in
  let props := ContainerProps p ∪ props in
  let props := <["env"%string :=
    match props !! "env"%string with
    | Some e => e +s+ ";"%string +s+ formatEnv env
    | None => formatEnv env
    end]> props in
  let '(binds, args) := formatBinds (e_args i) (Binds p) in
  let props := <["bind"%string :=
    match props !! "bind"%string with
    | Some b => b +s+ ";"%string +s+ binds
    | None => binds
    end]> props in
  let props := if decide (e_resolv_conf i = ""%string) then props
               else <["resolv_conf"%string := e_resolv_conf i]> props in
  let props := <["command"%string := formatCommand (e_executable i) args]> props in
  let props := <["root"%string := root_path]> props in
  <["enable_porto"%string := "false"%string]> props.

(** The network: properties, and the allocation taken from MTN. *)
Definition network_properties (c : containerConfig) (props : gmap string string)
  : W (gmap string string * option Allocation) :=
  let p := e_Profile (c_exec c) in
  if negb (c_MtnEnable c) then
    mret (<["net"%string := pickNetwork (NetworkMode p)]> props, None)
  else if decide (get (Network p) "mtn" = "enable"%string) then
    a ← invoke (UseAllocCall (get (Network p) "netid") (c_BoxName c) (c_ID c));
    match a with
    | GotAlloc a =>
        mret (<["ip"%string := Ip a]> (<["hostname"%string := Hostname a]>
                (<["net"%string := Net a]> props)), Some a)
    | _ => throw (OtherError "UseAlloc")
    end
  else mret (props, None).

Fixpoint set_properties (id : string) (props : list (string * string)) : W unit :=
  match props with
  | [] => mret tt
  | (k, v) :: props => _ ← do (SetProperty id k v); set_properties id props
  end.

(** [Link] with [portoConn.Destroy(c.ID)] on failure. *)
Definition link_or_destroy (id : string) (v : Volume) : W Volume := λ w,
  match Volume_Link v w with
  | (Ok v', w') => (Ok v', w')
  | (Err e, w') => (_ ← try (do (Destroy id)); throw e) w'
  end.
Fixpoint link_all (id : string) (vols : list Volume) : W (list Volume) :=
  match vols with
  | [] => mret []
  | v :: vols => v' ← link_or_destroy id v; vs ← link_all id vols; mret (v' :: vs)
  end.

(** What [CreateContainer] runs once the container exists. *)
Definition setup_container (c : containerConfig) (root : Volume) (extra : list Volume)
  : W (Volume * list Volume * option Allocation) :=
  na ← network_properties c (container_properties c (v_path root));
  _ ← set_properties (c_ID c) (range_ na.1);
  root' ← link_or_destroy (c_ID c) root;
  extra' ← link_all (c_ID c) extra;
  mret (root', extra', na.2).

(** [CreateContainer]: the deferred [portoConn.Destroy] on error. *)
Definition CreateContainer (c : containerConfig) (root : Volume) (extra : list Volume)
  : W (Volume * list Volume * option Allocation) :=
  _ ← do (Create (c_ID c));
  (λ w, match setup_container c root extra w with
        | (Ok r, w') => (Ok r, w')
        | (Err e, w') => (_ ← try (do (Destroy (c_ID c))); throw e) w'
        end) : W (Volume * list Volume * option Allocation).

(** ** Containers *)

Record container := mkContainer {
  k_uuid : string;
  k_containerID : string;
  k_rootDir : string;
  k_cleanupEnabled : bool;
  k_volume : Volume;
  k_extraVolumes : list Volume;
  k_mtn : bool;
  k_netId : string;
  k_mtnAllocationId : string;
  k_mtnIp : string;
  k_mtnAllocCleaned : bool
}.

(** Runs [m]; on error destroys the root volume. *)
Definition or_destroy {A} (v : Volume) (m : W A) : W A := λ w,
  match m w with
  | (Ok a, w') => (Ok a, w')
  | (Err e, w') => (_ ← try (Volume_Destroy v); throw e) w'
  end.

Definition newContainer (c : containerConfig) : W container :=
  volume ← CreateRootVolume c;
  extra ← or_destroy volume (CreateExtraVolumes c volume);
  r ← or_destroy volume (CreateContainer c volume extra);
  let '(root, extra, alloc) := r in
  let a := default no_alloc alloc in
  let mtn := match alloc with Some _ => true | None => false end in
  mret (mkContainer (get (e_args (c_exec c)) "--uuid") (c_ID c) (c_Root c) (c_CleanupEnabled c)
    root extra mtn (get (Network (e_Profile (c_exec c))) "netid") (Id a) (Ip a) (negb mtn)).

Definition container_start (k : container) : W unit := do (Start (k_containerID k)).
End format.

(** [Cleanup]: returns the container, whose allocation is given back once. *)
Definition Cleanup (k : container) : W container := λ w,
  (_ ← (if k_mtn k && negb (k_mtnAllocCleaned k) then
          _ ← try (do (UnuseAllocCall (k_netId k) (k_mtnAllocationId k))); mret tt
        else mret tt);
   _ ← (if k_cleanupEnabled k then
          _ ← try (Volume_Destroy (k_volume k));
          _ ← destroy_all (k_extraVolumes k);
          _ ← try (do (Destroy (k_containerID k)));
          _ ← try (do (RemoveAll (k_rootDir k)));
          mret tt
        else mret tt);
   mret (mkContainer (k_uuid k) (k_containerID k) (k_rootDir k) (k_cleanupEnabled k)
     (k_volume k) (k_extraVolumes k) (k_mtn k) (k_netId k) (k_mtnAllocationId k) (k_mtnIp k)
     (k_mtnAllocCleaned k || k_mtn k))) w.

Definition EError_InvalidState : Z := 8.

(** [GetData]: an error is logged and the value is empty. *)
Definition data_or_empty (id name : string) : W string := λ w,
  match invoke (GetData id name) w with
  | (Ok (GotData s), w') => (Ok s, w')
  | (_, w') => (Ok ""%string, w')
  end.

(** The body of [Kill] between the connection and the deferred [Cleanup]. *)
Definition kill_body (k : container) : W unit :=
  let id := k_containerID k in
  out ← data_or_empty id "stdout";
  _ ← try (do (OutputWrite out));
  err ← data_or_empty id "stderr";
  _ ← try (do (OutputWrite err));
  killed ← try (do (PortoKill id));
  match killed with
  | Some e => if isEqualPortoError e EError_InvalidState then mret tt else throw e
  | None => do (Wait id)
  end.

(** [Kill]: [defer portoConn.Close()] and [defer c.Cleanup(portoConn)] run in the
    reverse order, whatever the body returned. *)
Definition Kill (k : container) : W container :=
  _ ← do PortoConnect;
  err ← try (kill_body k);
  k' ← Cleanup k;
  _ ← try (do PortoClose);
  match err with Some e => throw e | None => mret k' end.

(** The container after [Kill], which the code keeps also when [Kill] failed. *)
Definition after_kill (k : container) (w : world) : container * world :=
  match do PortoConnect w with
  | (Err _, w') => (k, w')
  | (Ok _, w') =>
      let '(_, w') := try (kill_body k) w' in
      match Cleanup k w' with
      | (Ok k', w') => (k', (try (do PortoClose) w').2)
      | (Err _, w') => (k, w')
      end
  end.

(** ** Options the profile cannot change *)

Section format_facts.
Context (range_ : gmap string string -> list (string * string)).

(** The vital options are protected: whatever properties the profile sets, the
    root, the Porto access and the command are the daemon's, and the command and the
    mount see the endpoint inside the container. *)
Theorem container_properties_protected c root_path :
  let props := container_properties range_ c root_path in
  props !! "root"%string = Some root_path /\
  props !! "enable_porto"%string = Some "false"%string /\
  props !! "command"%string = Some (formatCommand range_ (e_executable (c_exec c))
    (<["--endpoint"%string := "/run/cocaine"%string]> (e_args (c_exec c)))).
Proof.
  unfold container_properties, formatBinds. cbv zeta. split_and!.
  - by rewrite lookup_insert_ne, lookup_insert_eq.
  - by rewrite lookup_insert_eq.
  - by rewrite !lookup_insert_ne, lookup_insert_eq by done.
Qed.

(** The environment is merged, not replaced: the profile's own [env] comes
    first, the client's variables (and the image, when it is exported) after it;
    without one, the client's alone. *)
Theorem container_properties_env c root_path :
  let i := c_exec c in
  let env := if c_SetImgURI c
             then <["image_uri"%string := Registry (e_Profile i) +s+ "/"%string +s+ e_name i]> (e_env i)
             else e_env i in
  container_properties range_ c root_path !! "env"%string =
  Some (match ContainerProps (e_Profile i) !! "env"%string with
        | Some e => e +s+ ";"%string +s+ formatEnv range_ env
        | None => formatEnv range_ env
        end).
Proof.
  unfold container_properties, formatBinds. cbv zeta.
  set (env := if c_SetImgURI c then _ else _). clearbody env.
  rewrite !lookup_insert_ne by done.
  destruct (decide (e_resolv_conf (c_exec c) = ""%string)); rewrite ?lookup_insert_ne by done;
    rewrite lookup_insert_eq; do 2 f_equal; rewrite lookup_union;
    destruct (ContainerProps _ !! "env"%string); cbn;
    destruct (decide (Cwd _ = ""%string)), (decide (e_ulimits _ = ""%string));
    rewrite ?lookup_insert_ne, ?lookup_singleton_ne, ?lookup_empty by done; done.
Qed.
End format_facts.

(** ** Releasing resources *)

Definition is_unuse (c : call) : bool := match c with UnuseAllocCall _ _ => true | _ => false end.

Lemma avoids_Destroy P v :
  (forall p c, ~ P (UnlinkVolume p c)) -> (forall p, ~ P (RemoveAll p)) ->
  avoids P (Volume_Destroy v).
Proof.
  intros H1 H2. assert (avoids P (portoVolume_Destroy v)) as G.
  { unfold portoVolume_Destroy. apply avoids_bind; [apply avoids_if|]; auto 8 with world. }
  unfold Volume_Destroy. destruct (v_storagepath v) as [sp|]; [|done].
  apply avoids_bind; [by apply avoids_try|intros err]. apply avoids_bind.
  - destruct (decide _); auto with world.
  - intros _. destruct err; auto with world.
Qed.

Lemma avoids_destroy_all P vols :
  (forall p c, ~ P (UnlinkVolume p c)) -> (forall p, ~ P (RemoveAll p)) ->
  avoids P (destroy_all vols).
Proof.
  intros H1 H2. induction vols as [|v vols IH]; cbn; [auto with world|].
  apply avoids_bind; [by apply avoids_try, avoids_Destroy|done].
Qed.

Lemma Cleanup_ok k w : exists k' w', Cleanup k w = (Ok k', w') /\
  k_mtn k' = k_mtn k /\ k_mtnAllocCleaned k' = (k_mtnAllocCleaned k || k_mtn k)%bool /\
  calls is_unuse w' = (calls is_unuse w +
    if k_mtn k && negb (k_mtnAllocCleaned k) then 1 else 0)%nat.
Proof.
  assert (forall {A} (m : W A) (w : world), exists o w', try m w = (Ok o, w')) as T.
  { intros A m w0. unfold try. destruct (m w0) as [[]]; eauto. }
  assert (forall vols w0, exists w', destroy_all vols w0 = (Ok tt, w')) as DA.
  { induction vols as [|v vols IH]; intros w0; cbn; [by eexists|].
    unfold mbind, act_bind. destruct (T _ (Volume_Destroy v) w0) as (o & w1 & ->). apply IH. }
  unfold Cleanup.
  set (m1 := if k_mtn k && negb (k_mtnAllocCleaned k) then _ else _).
  set (m2 := if k_cleanupEnabled k then _ else _).
  assert (exists w1, m1 w = (Ok tt, w1) /\ calls is_unuse w1 = (calls is_unuse w +
    if k_mtn k && negb (k_mtnAllocCleaned k) then 1 else 0)%nat) as (w1 & E1 & C1).
  { unfold m1. destruct (_ && _); [|eexists; split; [done|lia]].
    unfold mbind, act_bind. pose proof (calls_do is_unuse (UnuseAllocCall (k_netId k) (k_mtnAllocationId k)) w) as C.
    unfold try. destruct (do _ w) as [[x|e] w']; cbn in *; eauto. }
  assert (exists w2, m2 w1 = (Ok tt, w2)) as [w2 E2].
  { unfold m2. destruct (k_cleanupEnabled k); [|by eexists]. unfold mbind, act_bind.
    destruct (T _ (Volume_Destroy (k_volume k)) w1) as (o1 & w3 & ->).
    destruct (DA (k_extraVolumes k) w3) as [w4 ->].
    destruct (T _ (do (Destroy (k_containerID k))) w4) as (o2 & w5 & ->).
    destruct (T _ (do (RemoveAll (k_rootDir k))) w5) as (o3 & w6 & ->). by eexists. }
  assert (calls is_unuse w2 = calls is_unuse w1) as C2.
  { replace w2 with (m2 w1).2 by (by rewrite E2). apply calls_avoids. unfold m2.
    apply avoids_if; [|auto with world].
    apply avoids_bind; [by apply avoids_try, avoids_Destroy|intros ?].
    apply avoids_bind; [by apply avoids_destroy_all|intros ?]. auto 8 with world. }
  unfold mbind, act_bind. rewrite E1, E2. eexists _, _. split; [done|]. cbn.
  split_and!; [done|done|]. by rewrite C2, C1.
Qed.

(** [n] cleanups in a row: the wait loop, the garbage collection and Kill may each
    run one. *)
Fixpoint cleanups (n : nat) (k : container) (w : world) : container * world :=
  match n with
  | O => (k, w)
  | S n => match Cleanup k w with
           | (Ok k', w') => cleanups n k' w'
           | (Err _, w') => (k, w')
           end
  end.

(** A container that holds an MTN address gives it back exactly once, however
    often it is cleaned up. *)
Theorem cleanup_unuses_once n k w :
  k_mtn k = true -> k_mtnAllocCleaned k = false ->
  calls is_unuse (cleanups (S n) k w).2 = S (calls is_unuse w).
Proof.
  intros Hm Hc. cbn. destruct (Cleanup_ok k w) as (k' & w' & -> & Hm' & Hc' & C).
  rewrite Hm, Hc in *. cbn in C.
  assert (forall n k w, k_mtn k = true -> k_mtnAllocCleaned k = true ->
    calls is_unuse (cleanups n k w).2 = calls is_unuse w) as G.
  { clear. induction n as [|n IH]; intros k w Hm Hc; cbn; [done|].
    destruct (Cleanup_ok k w) as (k' & w' & -> & Hm' & Hc' & C). rewrite Hm, Hc in *.
    cbn in C, Hc'. rewrite IH by congruence. lia. }
  cbn in Hc'. rewrite G by congruence. lia.
Qed.

Definition ok_world : world := mkWorld [] (λ _ _, Done).
Definition demo_container : container :=
  mkContainer "u" "c1" "/root/c1" true (mkVol "c1" "/root/c1/volume" true None) [] true "net" "a"
    "::1" false.

Lemma cleanup_unuses_once_witness : calls is_unuse (cleanups 3 demo_container ok_world).2 = 1%nat.
Proof. apply (cleanup_unuses_once 2); reflexivity. Defined.

(** ** Failed creations *)

Lemma try_ok {A} (m : W A) w : exists o w', try m w = (Ok o, w') /\ w' = (m w).2.
Proof. unfold try. destruct (m w) as [[]]; eauto. Qed.

(** A call that was made is in the log. *)
Lemma do_log c w : w_log (do c w).2 = w_log w ++ [c].
Proof. unfold do, invoke, mbind, act_bind. by destruct (w_answers w (length (w_log w)) c). Qed.
Lemma try_do_log c w : exists o w', try (do c) w = (Ok o, w') /\ w_log w' = w_log w ++ [c].
Proof. destruct (try_ok (do c) w) as (o & w' & E & ->). rewrite <- do_log. eauto. Qed.

(** What [m] appended to the log. *)
Definition added (w w' : world) (l : list call) : Prop := w_log w' = w_log w ++ l.
Lemma added_trans w1 w2 w3 l1 l2 : added w1 w2 l1 -> added w2 w3 l2 -> added w1 w3 (l1 ++ l2).
Proof. unfold added. intros -> ->. by rewrite app_assoc. Qed.

Lemma portoVolume_Destroy_log v w : exists l,
  added w (portoVolume_Destroy v w).2 (l ++ [UnlinkVolume (v_path v) "/"; RemoveAll (v_path v)]).
Proof.
  unfold portoVolume_Destroy, mbind, act_bind.
  set (m1 := if v_linked v then _ else _).
  assert (exists w1 l, m1 w = (Ok tt, w1) /\ added w w1 l) as (w1 & l & -> & L1).
  { unfold m1. destruct (v_linked v).
    - destruct (try_do_log (UnlinkVolume (v_path v) (v_cID v)) w) as (o & w1 & -> & L1).
      destruct (try_do_log (UnlinkVolume (v_path v) "self") w1) as (o2 & w2 & -> & L2).
      eexists _, _. split; [done|]. eapply added_trans; [exact L1|exact L2].
    - exists w, []. split; [done|]. unfold added. by rewrite app_nil_r. }
  destruct (try_do_log (UnlinkVolume (v_path v) "/") w1) as (o & w2 & -> & L2).
  exists l. eapply added_trans; [exact L1|].
  change [UnlinkVolume (v_path v) "/"; RemoveAll (v_path v)] with
    ([UnlinkVolume (v_path v) "/"] ++ [RemoveAll (v_path v)]).
  eapply added_trans; [exact L2|]. apply do_log.
Qed.

(** The volume at [p] was unlinked and its directory removed. *)
Definition destroyed (p : string) (l : list call) : Prop := UnlinkVolume p "/" ∈ l /\ RemoveAll p ∈ l.
Lemma destroyed_app_l p l k : destroyed p l -> destroyed p (l ++ k).
Proof. unfold destroyed. rewrite !elem_of_app. naive_solver. Qed.
Lemma destroyed_app_r p l k : destroyed p k -> destroyed p (l ++ k).
Proof. unfold destroyed. rewrite !elem_of_app. naive_solver. Qed.
Lemma destroyed_pair p : destroyed p [UnlinkVolume p "/"; RemoveAll p].
Proof. split; set_solver. Qed.
#[local] Hint Resolve destroyed_app_l destroyed_app_r destroyed_pair : world.

(** Destroying a volume always ends up unlinking it and removing its directory. *)
Lemma Volume_Destroy_log v w : exists l,
  added w (Volume_Destroy v w).2 l /\ destroyed (v_path v) l.
Proof.
  unfold Volume_Destroy. destruct (v_storagepath v) as [sp|].
  2: { destruct (portoVolume_Destroy_log v w) as [l L]. eexists. split; [exact L|].
       auto with world. }
  unfold mbind, act_bind. destruct (portoVolume_Destroy_log v w) as [l L].
  destruct (try_ok (portoVolume_Destroy v) w) as (err & w1 & -> & ->).
  set (w1 := (portoVolume_Destroy v w).2) in *.
  destruct (decide (sp = ""%string)).
  - exists (l ++ [UnlinkVolume (v_path v) "/"; RemoveAll (v_path v)]). split; [|auto with world].
    by destruct err.
  - destruct (try_do_log (RemoveAll sp) w1) as (o & w2 & -> & L2).
    exists ((l ++ [UnlinkVolume (v_path v) "/"; RemoveAll (v_path v)]) ++ [RemoveAll sp]).
    split; [|auto with world]. eapply added_trans; [exact L|]. by destruct err.
Qed.

Lemma destroy_all_log vols w : exists l, destroy_all vols w = (Ok tt, (destroy_all vols w).2) /\
  added w (destroy_all vols w).2 l /\ Forall (λ v, destroyed (v_path v) l) vols.
Proof.
  revert w. induction vols as [|v vols IH]; intros w; cbn.
  { exists []. split_and!; [done| |done]. unfold added. by rewrite app_nil_r. }
  unfold mbind, act_bind. destruct (try_ok (Volume_Destroy v) w) as (o & w1 & -> & ->).
  destruct (Volume_Destroy_log v w) as (l1 & L1 & H1).
  destruct (IH (Volume_Destroy v w).2) as (l2 & E2 & L2 & H2).
  exists (l1 ++ l2). split_and!; [done|by eapply added_trans|].
  constructor; [auto with world|]. eapply Forall_impl; [exact H2|]. auto with world.
Qed.

(** The shape shared by the error paths: [m], and on failure a clean-up that destroys
    every volume of [vols]. *)
Definition fails_clean (w w' : world) (vols : list Volume) : Prop :=
  exists l, added w w' l /\ Forall (λ v, destroyed (v_path v) l) vols /\
    forall p props, CreateVolume p props ∈ l -> destroyed p l.

Lemma or_clean_err {A} vols (m : W A) w e w' l0 :
  added w (m w).2 l0 -> (forall p props, CreateVolume p props ∈ l0 -> exists v, v ∈ vols /\ v_path v = p) ->
  or_clean vols m w = (Err e, w') -> fails_clean w w' vols.
Proof.
  intros L0 Hc E. unfold or_clean in E. destruct (m w) as [[a|e1] w1]; [done|]. cbn in L0.
  destruct (destroy_all_log vols w1) as (l & E1 & L1 & H1).
  unfold mbind, act_bind in E. rewrite E1 in E. unfold throw in E. simplify_eq.
  exists (l0 ++ l). split_and!; [by eapply added_trans| |].
  - eapply Forall_impl; [exact H1|]. auto with world.
  - intros p props [Hp|Hp]%elem_of_app.
    + destruct (Hc _ _ Hp) as (v & Hv & <-). rewrite Forall_forall in H1.
      apply destroyed_app_r. by apply H1.
    + exfalso. pose proof (avoids_destroy_all (λ c, exists p q, c = CreateVolume p q) vols
        ltac:(by intros ?? (? & ? & ?)) ltac:(by intros ? (? & ? & ?)) w1) as (l' & L' & F').
      unfold added in L1. rewrite L1 in L'. apply app_inv_head in L' as ->.
      rewrite Forall_forall in F'. apply (F' _ Hp). eauto.
Qed.

Lemma fails_clean_trans w w1 w2 vols vols' l1 :
  added w w1 l1 -> (forall p props, CreateVolume p props ∈ l1 -> exists v, v ∈ vols' /\ v_path v = p) ->
  (forall v, v ∈ vols -> exists v', v' ∈ vols' /\ v_path v' = v_path v) ->
  fails_clean w1 w2 vols' -> fails_clean w w2 vols.
Proof.
  intros L1 H1 Hs (l2 & L2 & F2 & C2). exists (l1 ++ l2). rewrite Forall_forall in F2. split_and!.
  - by eapply added_trans.
  - apply Forall_forall. intros v Hv. destruct (Hs v Hv) as (v' & Hv' & <-).
    apply destroyed_app_r. by apply F2.
  - intros p props [Hp|Hp]%elem_of_app; apply destroyed_app_r; [|by eapply C2].
    destruct (H1 _ _ Hp) as (v & Hv & <-). by apply F2.
Qed.

Lemma or_clean_ok {A} vols (m : W A) w a w' : or_clean vols m w = (Ok a, w') -> m w = (Ok a, w').
Proof.
  unfold or_clean. destruct (m w) as [[x|e] w1]; [done|]. unfold mbind, act_bind.
  destruct (destroy_all_log vols w1) as (l & -> & _). done.
Qed.

Lemma do_added c w r w' : do c w = (r, w') -> added w w' [c].
Proof. intros E. unfold added. replace w' with (do c w).2 by (by rewrite E). apply do_log. Qed.

Lemma fails_weaken w w1 w' vols vols' c :
  added w w1 [c] -> (forall p q, c <> CreateVolume p q) ->
  (forall v, v ∈ vols -> v ∈ vols') -> fails_clean w1 w' vols' -> fails_clean w w' vols.
Proof.
  intros L Hc Hs F. eapply fails_clean_trans; [exact L| | |exact F].
  - intros p q Hp%list_elem_of_singleton. by destruct (Hc p q).
  - intros v Hv. exists v. auto.
Qed.

Lemma or_clean_mkdir vols path w e w' :
  or_clean vols (do (MkdirAll path)) w = (Err e, w') -> fails_clean w w' vols.
Proof.
  apply (or_clean_err _ _ _ _ _ [MkdirAll path]); [apply do_log|].
  by intros p q Hp%list_elem_of_singleton.
Qed.

Lemma act_bind_err_inv {S E A B} (m : act S E A) (k : A -> act S E B) s e s' :
  (m ≫= k) s = (Err e, s') ->
  m s = (Err e, s') \/ exists a s1, m s = (Ok a, s1) /\ k a s1 = (Err e, s').
Proof.
  unfold mbind, act_bind. destruct (m s) as [[a|e1] s1]; intros H; [right; eauto|left].
  by simplify_eq.
Qed.

Lemma extra_loop_err c root vps vols w e w' :
  extra_loop c root vps vols w = (Err e, w') -> fails_clean w w' vols.
Proof.
  revert vols w. induction vps as [|vp vps IH]; intros vols w; cbn [extra_loop]; [done|].
  destruct (decide (Target vp = ""%string)).
  { intros E. apply (or_clean_err vols (throw empty_target : W unit) w e w' []).
    - unfold added. cbn. by rewrite app_nil_r.
    - by intros p q []%elem_of_nil.
    - unfold or_clean, throw. cbn. unfold mbind, act_bind in E |- *.
      destruct (destroy_all_log vols w) as (l & El & _).
      destruct (destroy_all vols w) as [r w2]. cbn in El. simplify_eq. by injection E as <- <-. }
  cbv zeta. set (path := Join [v_path root; Target vp]).
  intros [E|([] & w1 & E & E2)]%act_bind_err_inv; [by eapply or_clean_mkdir|].
  apply or_clean_ok, do_added in E as L1.
  eapply (fails_weaken _ w1); [exact L1|done|by intros v Hv; exact Hv|]. clear E L1.
  set (mv := if decide (get (Properties vp) "storage" = ""%string) then _ else _) in E2.
  assert (forall v props w2, mv w1 = (Ok (v, props), w2) -> v_path v = path /\
    (forall w', fails_clean w2 w' (vols ++ [v]) -> fails_clean w1 w' vols)) as Hmv.
  { intros v props w2. unfold mv. destruct (decide _).
    - intros [= <- <- <-]. split; [done|]. intros w0 F.
      destruct F as (l & L & F1 & F2). exists l. split_and!; [done| |done].
      by apply Forall_app in F1 as [? _].
    - intros ([] & w3 & E & Er)%act_bind_inv. unfold mret, act_ret in Er. simplify_eq.
      split; [done|]. intros w0 F. apply or_clean_ok, do_added in E.
      eapply fails_weaken; [exact E|done| |exact F]. intros v Hv. set_solver. }
  apply act_bind_err_inv in E2 as [E2|([v props] & w2 & E2 & E3)].
  { unfold mv in E2. destruct (decide _); [done|].
    apply act_bind_err_inv in E2 as [E2|(? & ? & _ & ?)]; [|done].
    apply or_clean_mkdir in E2 as (l & L & F1 & F2). exists l. split_and!; [done| |done].
    by apply Forall_app in F1 as [? _]. }
  destruct (Hmv _ _ _ E2) as [Hp Hw]. apply Hw. cbn [fst snd] in E3.
  apply act_bind_err_inv in E3 as [E3|([] & w3 & E3 & E4)].
  - eapply (or_clean_err _ _ _ _ _ [CreateVolume path props]); [apply do_log| |exact E3].
    intros p q [= -> ->]%list_elem_of_singleton. exists v. split; [set_solver|done].
  - apply or_clean_ok, do_added in E3. eapply fails_clean_trans; [exact E3| | |by eapply IH].
    + intros p q [= -> ->]%list_elem_of_singleton. exists v. split; [set_solver|done].
    + intros x Hx. by exists x.
Qed.

(** C31: a failed creation of extra volumes leaves none behind: every volume that was
    asked of Porto, the failing one included, is unlinked and its directory removed. *)
Theorem extra_volumes_all_or_nothing c root w e w' :
  CreateExtraVolumes c root w = (Err e, w') ->
  exists l, w_log w' = w_log w ++ l /\
    forall p props, CreateVolume p props ∈ l -> destroyed p l.
Proof. intros (l & L & _ & H)%extra_loop_err. exists l. split; [exact L|exact H]. Qed.

Definition demo_profile_vol : Profile :=
  mkProfile "" "" "" ∅ [] "" [] ∅ ∅ [mkVolProfile "/data" {[ "storage"%string := "/place"%string ]};
                                   mkVolProfile "/tmp" ∅].
Definition demo_cc : containerConfig :=
  mkCC (mkExec demo_profile_vol "app" "worker" "" "" ∅ ∅) false "box" "/root/c1" "c1" "layer" true
    false "overlay" "label".
(** Porto fails on the second volume. *)
Definition fail_second : world :=
  mkWorld [] (λ _ c, match c with
                     | CreateVolume p _ => if decide (p = "/root/c1/volume/tmp"%string)
                                           then Fails (OtherError "no space") else Done
                     | _ => Done
                     end).

Lemma extra_volumes_all_or_nothing_witness :
  let r := CreateExtraVolumes demo_cc (mkVol "c1" "/root/c1/volume" false None) fail_second in
  r.1 = Err (OtherError "no space") /\
  exists l, w_log r.2 = [] ++ l /\ forall p props, CreateVolume p props ∈ l -> destroyed p l.
Proof.
  split; [vm_compute; reflexivity|].
  apply (extra_volumes_all_or_nothing demo_cc (mkVol "c1" "/root/c1/volume" false None) fail_second
    (OtherError "no space")).
  vm_compute. reflexivity.
Defined.

Section create_facts.
Context (range_ : gmap string string -> list (string * string)).

Lemma appends_setup c root extra : appends (setup_container range_ c root extra).
Proof.
  unfold setup_container. apply appends_bind.
  - unfold network_properties. cbv zeta. destruct (negb _); [auto with world|].
    destruct (decide _); [|auto with world].
    apply appends_bind; [auto with world|]. intros []; auto with world.
  - intros na. apply appends_bind.
    { induction (range_ na.1) as [|[k v] l IH]; cbn; auto with world. }
    assert (forall v, appends (link_or_destroy (c_ID c) v)) as LD.
    { intros v w2. unfold link_or_destroy.
      assert (appends (Volume_Link v)) as VL by (unfold Volume_Link; auto 8 with world).
      specialize (VL w2). destruct (Volume_Link v w2) as [[v'|e0] w3]; [done|].
      etrans; [exact VL|]. apply (appends_bind (try (do (Destroy (c_ID c))))); auto with world. }
    intros _. apply appends_bind; [apply LD|intros r'].
    apply appends_bind; [|auto with world].
    induction extra as [|v extra IH]; cbn; auto with world.
Qed.

Lemma appends_CreateContainer c root extra : appends (CreateContainer range_ c root extra).
Proof.
  unfold CreateContainer. apply appends_bind; [auto with world|intros _ w].
  pose proof (appends_setup c root extra w) as S.
  destruct (setup_container range_ c root extra w) as [[r|e] w1]; [done|].
  etrans; [exact S|]. apply (appends_bind (try (do (Destroy (c_ID c))))); auto with world.
Qed.

(** The last call of a failed [CreateContainer] destroys the container, unless it
    was never created. *)
Lemma CreateContainer_err c root extra w e w' :
  CreateContainer range_ c root extra w = (Err e, w') ->
  w_log w' = w_log w ++ [Create (c_ID c)] \/
  exists l, w_log w' = w_log w ++ [Create (c_ID c)] ++ l ++ [Destroy (c_ID c)].
Proof.
  unfold CreateContainer. intros [E|([] & w1 & E & E2)]%act_bind_err_inv.
  { left. by apply do_added in E. }
  right. apply do_added in E.
  assert (forall w, exists l, added w (setup_container range_ c root extra w).2 l) as S.
  { intros w0. destruct (appends_setup c root extra w0) as [_ [l L]]. by exists l. }
  destruct (S w1) as [l L]. destruct (setup_container range_ c root extra w1) as [[r|e1] w2]; [done|].
  cbn in L. unfold mbind, act_bind in E2.
  destruct (try_do_log (Destroy (c_ID c)) w2) as (o & w3 & E3 & L3). rewrite E3 in E2.
  unfold throw in E2. simplify_eq. exists l. unfold added in *. rewrite L3, L, E.
  by rewrite <- !app_assoc.
Qed.

(** A failed [CreateContainer] leaves no container: its last call destroys the
    container, unless Porto refused to create it. *)
Theorem CreateContainer_fails_clean c root extra w e w' :
  CreateContainer range_ c root extra w = (Err e, w') ->
  w_log w' = w_log w ++ [Create (c_ID c)] \/
  exists l, w_log w' = w_log w ++ [Create (c_ID c)] ++ l ++ [Destroy (c_ID c)].
Proof. apply CreateContainer_err. Qed.

Lemma or_destroy_err {A} v (m : W A) w e w' :
  appends m -> v_storagepath v = None -> or_destroy v m w = (Err e, w') ->
  exists l, added w w' (l ++ [UnlinkVolume (v_path v) "/"; RemoveAll (v_path v)]).
Proof.
  intros Ha Hv E. unfold or_destroy in E. destruct (Ha w) as [_ [l0 L0]].
  destruct (m w) as [[a|e1] w1]; [done|]. cbn in L0.
  assert (Volume_Destroy v = portoVolume_Destroy v) as HD by (unfold Volume_Destroy; by rewrite Hv).
  rewrite HD in E. destruct (portoVolume_Destroy_log v w1) as [l L].
  unfold mbind, act_bind in E. destruct (try_ok (portoVolume_Destroy v) w1) as (o & w2 & E1 & ->).
  rewrite E1 in E. unfold throw in E. simplify_eq. exists (l0 ++ l). rewrite <- app_assoc.
  by eapply added_trans.
Qed.

Lemma appends_Volume_Destroy v : appends (Volume_Destroy v).
Proof.
  assert (appends (portoVolume_Destroy v)) as G.
  { unfold portoVolume_Destroy. apply appends_bind; [apply appends_if|]; auto 8 with world. }
  unfold Volume_Destroy. destruct (v_storagepath v); [|done].
  apply appends_bind; [by apply appends_try|intros err]. apply appends_bind.
  - destruct (decide _); auto with world.
  - intros _. destruct err; auto with world.
Qed.
Lemma appends_destroy_all vols : appends (destroy_all vols).
Proof.
  induction vols as [|v vols IH]; cbn; [auto with world|].
  apply appends_bind; [apply appends_try, appends_Volume_Destroy|done].
Qed.
Lemma appends_or_clean {A} vols (m : W A) : appends m -> appends (or_clean vols m).
Proof.
  intros H w. specialize (H w). unfold or_clean. destruct (m w) as [[a|e] w1]; [done|].
  etrans; [exact H|]. apply (appends_bind (destroy_all vols)); [apply appends_destroy_all|auto with world].
Qed.
Lemma appends_extra c root vps vols : appends (extra_loop c root vps vols).
Proof.
  revert vols. induction vps as [|vp vps IH]; intros vols; cbn [extra_loop]; [auto with world|].
  destruct (decide _).
  { apply appends_bind; [apply appends_destroy_all|auto with world]. }
  cbv zeta. apply appends_bind; [apply appends_or_clean; auto with world|intros _].
  apply appends_bind.
  - destruct (decide _); [auto with world|].
    apply appends_bind; [apply appends_or_clean; auto with world|auto with world].
  - intros vp_. apply appends_bind; [apply appends_or_clean; auto with world|auto].
Qed.

Lemma CreateRootVolume_err c w e w' :
  CreateRootVolume c w = (Err e, w') ->
  let path := Join [c_Root c; "volume"%string] in
  exists l, w_log w' = w_log w ++ l /\
    (l = [MkdirAll path] \/ exists l', l = l' ++ [UnlinkVolume path "/"; RemoveAll path]).
Proof.
  unfold CreateRootVolume. cbv zeta. set (path := Join [c_Root c; "volume"%string]).
  intros [E|([] & w1 & E & E2)]%act_bind_err_inv.
  { apply do_added in E. exists [MkdirAll path]. auto. }
  apply do_added in E. unfold mbind, act_bind in E2.
  destruct (try_do_log (CreateVolume path (VolumeProps (e_Profile (c_exec c)) ∪
    {[ "backend"%string := c_VolumeBackend c; "layers"%string := c_Layer c;
       "private"%string := c_VolumeLabel c ]})) w1) as (o & w2 & E3 & L3).
  rewrite E3 in E2. destruct o as [e0|]; [|done].
  destruct (portoVolume_Destroy_log (mkVol (c_ID c) path false None) w2) as [l L].
  change (portoVolume_Destroy (mkVol (c_ID c) path false None)) with
    (Volume_Destroy (mkVol (c_ID c) path false None)) in L.
  destruct (try_ok (Volume_Destroy (mkVol (c_ID c) path false None)) w2) as (o & w3 & E4 & ->).
  rewrite E4 in E2. unfold throw in E2. simplify_eq.
  pose proof (added_trans _ _ _ _ _ (added_trans _ _ _ _ _ E L3) L) as LL.
  eexists. split; [exact LL|]. right. cbn [v_path]. rewrite app_assoc. by eexists.
Qed.

Lemma CreateRootVolume_ok c w v w' :
  CreateRootVolume c w = (Ok v, w') ->
  v = mkVol (c_ID c) (Join [c_Root c; "volume"%string]) false None /\ exists l, added w w' l.
Proof.
  unfold CreateRootVolume. cbv zeta. intros ([] & w1 & E & E2)%act_bind_inv.
  apply do_added in E. apply act_bind_inv in E2 as (o & w2 & E2 & E3).
  match type of E2 with try (do ?c) _ = _ => destruct (try_do_log c w1) as (o' & w3 & E4 & L4) end.
  rewrite E4 in E2. simplify_eq. destruct o as [e|].
  - apply act_bind_inv in E3 as (? & ? & _ & ?). done.
  - unfold mret, act_ret in E3. simplify_eq. split; [done|]. eexists. by eapply added_trans.
Qed.

(** A failed [newContainer] leaves no root volume: the last calls unlink it and
    remove its directory, unless the directory could not be made at all. *)
Theorem newContainer_fails_clean c w e w' :
  newContainer range_ c w = (Err e, w') ->
  let path := Join [c_Root c; "volume"%string] in
  exists l, w_log w' = w_log w ++ l /\
    (l = [MkdirAll path] \/ exists l', l = l' ++ [UnlinkVolume path "/"; RemoveAll path]).
Proof.
  unfold newContainer. cbv zeta. intros [E|(v & w1 & E & E2)]%act_bind_err_inv.
  { by apply CreateRootVolume_err in E. }
  apply CreateRootVolume_ok in E as [-> [l1 L1]]. set (v := mkVol _ _ _ _) in *.
  apply act_bind_err_inv in E2 as [E2|(extra & w2 & E2 & E3)].
  { apply or_destroy_err in E2 as [l L]; [|apply appends_extra|done].
    exists (l1 ++ (l ++ [UnlinkVolume (v_path v) "/"; RemoveAll (v_path v)])).
    split; [by eapply added_trans|]. right. rewrite app_assoc. by eexists. }
  assert (exists l, added w1 w2 l) as [l2 L2].
  { pose proof (appends_extra c v (ExtraVolumes (e_Profile (c_exec c))) [] w1) as [_ [l L]].
    unfold or_destroy in E2. fold (CreateExtraVolumes c v) in L.
    destruct (CreateExtraVolumes c v w1) as [[x|e1] w3]; simplify_eq; [by exists l|].
    apply act_bind_inv in E2 as (? & ? & _ & ?). done. }
  apply act_bind_err_inv in E3 as [E3|([[root' extra'] alloc] & w3 & _ & E4)]; [|done].
  apply or_destroy_err in E3 as [l L]; [| |done].
  - exists ((l1 ++ l2) ++ (l ++ [UnlinkVolume (v_path v) "/"; RemoveAll (v_path v)])).
    split; [eapply added_trans; [by eapply added_trans|done]|]. right. rewrite app_assoc. by eexists.
  - apply appends_CreateContainer.
Qed.
End create_facts.

(** Porto refuses a property. *)
Definition fail_property : world :=
  mkWorld [] (λ _ c, match c with
                     | SetProperty _ _ _ => Fails (PortoError 2 "InvalidProperty")
                     | UseAllocCall _ _ _ => GotAlloc (mkAlloc "n" "h" "::1" "a" "net" "box" true)
                     | _ => Done
                     end).

Lemma CreateContainer_fails_clean_witness :
  let r := CreateContainer map_to_list demo_cc (mkVol "c1" "/root/c1/volume" false None) [] fail_property in
  w_log r.2 = [] ++ [Create "c1"] \/ exists l, w_log r.2 = [] ++ [Create "c1"] ++ l ++ [Destroy "c1"].
Proof.
  apply (CreateContainer_fails_clean map_to_list demo_cc (mkVol "c1" "/root/c1/volume" false None) []
    fail_property (PortoError 2 "InvalidProperty")).
  vm_compute. reflexivity.
Defined.

Lemma newContainer_fails_clean_witness :
  let path := "/root/c1/volume"%string in
  exists l, w_log (newContainer map_to_list demo_cc fail_property).2 = [] ++ l /\
    (l = [MkdirAll path] \/ exists l', l = l' ++ [UnlinkVolume path "/"; RemoveAll path]).
Proof.
  apply (newContainer_fails_clean map_to_list demo_cc fail_property (PortoError 2 "InvalidProperty")).
  vm_compute. reflexivity.
Defined.

(** ** Behaviours worth knowing *)

(** The same failure with MTN and an extra volume: the address that was taken is not
    given back and the extra volume's storage is not removed. *)
Definition mtn_profile : Profile :=
  mkProfile "" "" "" {[ "mtn"%string := "enable"%string; "netid"%string := "net"%string ]} [] "" [] ∅ ∅
    [mkVolProfile "/data" {[ "storage"%string := "/place"%string ]}].
Definition mtn_cc : containerConfig :=
  mkCC (mkExec mtn_profile "app" "worker" "" "" ∅ ∅) true "box" "/root/c1" "c1" "layer" true
    false "overlay" "label".
Lemma failed_creation_leaks :
  let w := (newContainer map_to_list mtn_cc fail_property).2 in
  In (UseAllocCall "net" "box" "c1") (w_log w) /\ calls is_unuse w = 0%nat /\
  In (MkdirAll "/place/c1") (w_log w) /\ ~ In (RemoveAll "/place/c1") (w_log w).
Proof. vm_compute. split_and!; [by auto 20|done|by auto 20|]. intros H. repeat destruct H as [H|H]; done. Qed.

(** A profile's own [net] property survives when MTN is on and the profile does not
    ask for an address. *)
Lemma net_not_protected c props w :
  c_MtnEnable c = true -> get (Network (e_Profile (c_exec c))) "mtn" <> "enable"%string ->
  network_properties c props w = (Ok (props, None), w).
Proof. intros Hm Hn. unfold network_properties. rewrite Hm. cbn. by rewrite decide_False. Qed.
