(* ===== verification/Gate.v ===== *)
(** * The gate in front of [Box.Spawn]
      (pkg/semaphore/semaphore.go; the gates of isolate/process/box.go,
      isolate/docker/box.go and isolate/porto/box.go)

    Every box lets a spawn request in through the same gate: it counts the request
    in [spawningQueueSize], refuses it with EAGAIN when the count is over ten, waits
    for a slot of a semaphore, takes the request off the count and gives the slot
    back when [Spawn] returns.  The Porto box has early returns between the test of
    the count and the semaphore.  Many requests run at once: the gate is a machine
    whose steps are the atomic operations of the requests, in any interleaving. *)

From Stdlib Require Import ZArith Lia.
From S2P Require Import Prelude.

(** ** Semaphores *)

(** What a box expects of a [semaphore.Semaphore].  [acquire] and [release] are
    [None] when the call would block. *)
Class Semaphore (T : Type) := {
  sem_new : Z -> option T;                 (* None: panic *)
  acquire : T -> option T;
  release : T -> option T;
  sem_size : T -> Z;
  sem_held : T -> Z
}.
Class SemaphoreLaws (T : Type) `{Semaphore T} : Prop := {
  sem_new_spec n : 0 <= n -> match sem_new n with
    | None => n = 0
    | Some s => 0 < n /\ sem_size s = n /\ sem_held s = 0
    end;
  acquire_spec s : match acquire s with
    | None => sem_size s <= sem_held s
    | Some s' => sem_held s < sem_size s /\ sem_size s' = sem_size s /\ sem_held s' = sem_held s + 1
    end;
  release_spec s : match release s with
    | None => sem_held s <= 0
    | Some s' => 0 < sem_held s /\ sem_size s' = sem_size s /\ sem_held s' = sem_held s - 1
    end
}.

(** A buffered channel of empty structs: its capacity and what it holds. *)
Record spawnSemaphore := mkSem { sm_cap : nat; sm_buf : list unit }.

(** [New]: panics for the size zero. *)
Definition New (size : Z) : option spawnSemaphore :=
  if size =? 0 then None else Some (mkSem (Z.to_nat size) []).
(** [s.sm <- struct{}{}] *)
Definition Acquire (s : spawnSemaphore) : option spawnSemaphore :=
  if decide (length (sm_buf s) < sm_cap s)%nat then Some (mkSem (sm_cap s) (sm_buf s ++ [tt])) else None.
(** [<-s.sm] *)
Definition Release (s : spawnSemaphore) : option spawnSemaphore :=
  match sm_buf s with [] => None | _ :: l => Some (mkSem (sm_cap s) l) end.

#[export] Instance spawnSemaphore_ops : Semaphore spawnSemaphore := {
  sem_new := New; acquire := Acquire; release := Release;
  sem_size s := Z.of_nat (sm_cap s); sem_held s := zlen (sm_buf s)
}.
#[export] Instance spawnSemaphore_laws : SemaphoreLaws spawnSemaphore.
Proof.
  split; cbn.
  - intros n Hn. unfold New. destruct (Z.eqb_spec n 0); [done|]. cbn. split_and!; [lia..|done].
  - intros s. unfold Acquire, zlen. destruct (decide _); cbn; [|lia].
    rewrite length_app. cbn. lia.
  - intros s. unfold Release, zlen. destruct (sm_buf s); cbn; lia.
Qed.

(** ** The machine *)

Inductive refusal := EAGAIN | ErrSpawningCancelled | Early.

(** Where a request stands. *)
Inductive phase :=
  | Counted                    (* after [spawningQueueSize.Inc(1)] *)
  | Passed                     (* the count was at most ten *)
  | Acquired                   (* has a slot, still counted *)
  | Aborted                    (* [Acquire] was cancelled, still counted *)
  | Running                    (* in the body of [Spawn], holding its slot *)
  | Served
  | Refused (r : refusal).

Record gate (T : Type) := mkGate { g_queue : Z; g_sem : T; g_reqs : list phase }.
Arguments mkGate {T}.
Arguments g_queue {T}.
Arguments g_sem {T}.
Arguments g_reqs {T}.

Inductive gevent :=
  | GInc                       (* a new request counts itself *)
  | GCheck (i : nat)           (* [spawningQueueSize.Count() > 10] *)
  | GEarly (i : nat)           (* an error return before the semaphore *)
  | GAcquire (i : nat)
  | GCancel (i : nat)          (* [ctx.Done()] wins the [select] of [Acquire] *)
  | GDec (i : nat)
  | GRelease (i : nat).        (* the deferred [Release] *)

Definition maxQueue : Z := 10.

Section gate.
Context {T : Type} `{Semaphore T}.

Definition move (i : nat) (p : phase) (queue : Z) (s : T) (g : gate T) : gate T :=
  mkGate queue s (<[i := p]> (g_reqs g)).

(** [early] tells whether the box has error returns between the test and [Acquire]. *)
Definition gexec (early : bool) (e : gevent) (g : gate T) : option (gate T) :=
  let q := g_queue g in
  let s := g_sem g in
  match e with
  | GInc => Some (mkGate (q + 1) s (g_reqs g ++ [Counted]))
  | GCheck i => match g_reqs g !! i with
      | Some Counted => Some (if maxQueue <? q then move i (Refused EAGAIN) (q - 1) s g
                              else move i Passed q s g)
      | _ => None
      end
  | GEarly i => match g_reqs g !! i with
      | Some Passed => if early then Some (move i (Refused Early) q s g) else None
      | _ => None
      end
  | GAcquire i => match g_reqs g !! i, acquire s with
      | Some Passed, Some s' => Some (move i Acquired q s' g)
      | _, _ => None
      end
  | GCancel i => match g_reqs g !! i with
      | Some Passed => Some (move i Aborted q s g)
      | _ => None
      end
  | GDec i => match g_reqs g !! i with
      | Some Acquired => Some (move i Running (q - 1) s g)
      | Some Aborted => Some (move i (Refused ErrSpawningCancelled) (q - 1) s g)
      | _ => None
      end
  | GRelease i => match g_reqs g !! i, release s with
      | Some Running, Some s' => Some (move i Served q s' g)
      | _, _ => None
      end
  end.

Inductive greach (early : bool) (size : Z) : gate T -> Prop :=
  | greach_new s : sem_new size = Some s -> greach early size (mkGate 0 s [])
  | greach_exec e g g' : greach early size g -> gexec early e g = Some g' -> greach early size g'.
End gate.

(** The gates of the three boxes; each box package has its own counter. *)
Definition process_gate {T} `{Semaphore T} := gexec (T := T) false.
Definition docker_gate {T} `{Semaphore T} := gexec (T := T) false.
Definition porto_gate {T} `{Semaphore T} := gexec (T := T) true.

(** ** Counting requests *)

Fixpoint weigh {A} (w : A -> Z) (l : list A) : Z :=
  match l with [] => 0 | x :: l => w x + weigh w l end.

Lemma weigh_app {A} (w : A -> Z) l k : weigh w (l ++ k) = weigh w l + weigh w k.
Proof. induction l as [|x l IH]; cbn; lia. Qed.
Lemma weigh_insert {A} (w : A -> Z) l i x y :
  l !! i = Some x -> weigh w (<[i := y]> l) = weigh w l - w x + w y.
Proof.
  revert i. induction l as [|z l IH]; intros [|i] Hi; cbn in *; [done..| |].
  - injection Hi as ->. lia.
  - change (w z + weigh w (<[i := y]> l) = w z + weigh w l - w x + w y). rewrite (IH i Hi). lia.
Qed.
Lemma weigh_nonneg {A} (w : A -> Z) l : (forall x, 0 <= w x) -> 0 <= weigh w l.
Proof. intros Hw. induction l as [|x l IH]; cbn; [done|]. specialize (Hw x). lia. Qed.
Lemma weigh_elem {A} (w : A -> Z) l i x :
  (forall x, 0 <= w x) -> l !! i = Some x -> w x <= weigh w l.
Proof.
  intros Hw. revert i. induction l as [|z l IH]; intros [|i] Hi; cbn in *; [done..| |].
  - injection Hi as ->. pose proof (weigh_nonneg w l Hw). lia.
  - specialize (IH i Hi). specialize (Hw z). lia.
Qed.
Lemma weigh_ext {A} (w v : A -> Z) l : (forall x, x ∈ l -> w x = v x) -> weigh w l = weigh v l.
Proof.
  intros Hw. induction l as [|x l IH]; [done|]. cbn. rewrite Hw by apply list_elem_of_here.
  f_equal. apply IH. intros y Hy. by apply Hw, list_elem_of_further.
Qed.

(** A request in the count, past the test, holding a slot, counted for ever. *)
Definition in_queue (p : phase) : Z :=
  match p with Counted | Passed | Acquired | Aborted | Refused Early => 1 | _ => 0 end.
Definition past_test (p : phase) : Z :=
  match p with Passed | Acquired | Aborted | Refused Early => 1 | _ => 0 end.
Definition holds (p : phase) : Z := match p with Acquired | Running => 1 | _ => 0 end.
Definition lost (p : phase) : Z := match p with Refused Early => 1 | _ => 0 end.
Definition finished (p : phase) : bool := match p with Served | Refused _ => true | _ => false end.
(** Steps a request may still take. *)
Definition steps_left (p : phase) : Z :=
  match p with Counted => 5 | Passed => 4 | Acquired => 3 | Aborted => 1 | Running => 1 | _ => 0 end.

Section facts.
Context {T : Type} `{SemaphoreLaws T}.

(** ** The invariant *)

Record GInv (early : bool) (size : Z) (g : gate T) : Prop := {
  gi_queue : g_queue g = weigh in_queue (g_reqs g);
  gi_pos : 0 < size;
  gi_size : sem_size (g_sem g) = size;
  gi_held : sem_held (g_sem g) = weigh holds (g_reqs g);
  gi_bound : weigh holds (g_reqs g) <= size;
  gi_past : weigh past_test (g_reqs g) <= maxQueue;
  gi_early : early = false -> weigh lost (g_reqs g) = 0
}.

(** The requests past the test are among the counted ones. *)
Lemma past_counted l : weigh past_test l <= weigh in_queue l.
Proof. induction l as [|[| | | | | |[]] l IH]; cbn; lia. Qed.

(** A request that passes the test is itself counted and not yet past it. *)
Lemma past_counted_strict l i : l !! i = Some Counted -> weigh past_test l + 1 <= weigh in_queue l.
Proof.
  intros Hi. pose proof (past_counted (<[i := Served]> l)) as L.
  rewrite !(weigh_insert _ _ _ _ _ Hi) in L. cbn in L. lia.
Qed.

Lemma GInv_new size s : 0 <= size -> sem_new size = Some s -> GInv false size (mkGate 0 s []) /\ GInv true size (mkGate 0 s []).
Proof.
  intros Hs E. pose proof (sem_new_spec size Hs) as L. rewrite E in L. destruct L as (L0 & L1 & L2).
  split; split; cbn; done.
Qed.

(** Moving request [i] from [p] to [q] changes each count by the difference of the
    weights of the two phases. *)
Ltac reweigh Hi := rewrite ?(weigh_insert _ _ _ _ _ Hi); cbn.

Lemma GInv_exec early size e g g' : GInv early size g -> gexec early e g = Some g' -> GInv early size g'.
Proof.
  intros [I1 I0 I2 I3 I4 I5 I6] E. destruct e as [|i|i|i|i|i|i]; cbn in E.
  - injection E as <-. split; cbn; rewrite ?weigh_app; cbn; try lia; try done.
    intros He. specialize (I6 He). lia.
  - destruct (g_reqs g !! i) as [[]|] eqn:Hi; try done. injection E as <-.
    pose proof (past_counted_strict _ _ Hi).
    destruct (Z.ltb_spec maxQueue (g_queue g)); split; cbn; reweigh Hi; try lia;
      intros He; specialize (I6 He); lia.
  - destruct (g_reqs g !! i) as [[]|] eqn:Hi; try done. destruct early; [|done]. injection E as <-.
    split; cbn; reweigh Hi; first [lia|done].
  - destruct (g_reqs g !! i) as [[]|] eqn:Hi; try done.
    pose proof (acquire_spec (g_sem g)) as La. destruct (acquire (g_sem g)) as [s'|]; [|done].
    injection E as <-. split; cbn; reweigh Hi; try lia. intros He; specialize (I6 He); lia.
  - destruct (g_reqs g !! i) as [[]|] eqn:Hi; try done. injection E as <-.
    split; cbn; reweigh Hi; try lia. intros He; specialize (I6 He); lia.
  - destruct (g_reqs g !! i) as [[]|] eqn:Hi; try done; injection E as <-;
      (split; cbn; reweigh Hi; try lia; intros He; specialize (I6 He); lia).
  - destruct (g_reqs g !! i) as [[]|] eqn:Hi; try done.
    pose proof (release_spec (g_sem g)) as Lr. destruct (release (g_sem g)) as [s'|]; [|done].
    injection E as <-. split; cbn; reweigh Hi; try lia. intros He; specialize (I6 He); lia.
Qed.

Lemma GInv_reach early size g : 0 <= size -> greach early size g -> GInv early size g.
Proof.
  intros Hs. induction 1 as [s E|e g g' _ IH E].
  - destruct (GInv_new size s Hs E) as [I1 I2]. by destruct early.
  - by apply (GInv_exec _ _ e g).
Qed.

(** C22: at any moment at most [size] requests are in the body of [Spawn], at most
    ten are between the test of the queue and the semaphore, and the counter is the
    number of the requests that counted themselves and were not taken off. *)
Theorem gate_bounded early size g :
  0 <= size -> greach early size g ->
  weigh holds (g_reqs g) <= size /\ weigh past_test (g_reqs g) <= maxQueue /\
  g_queue g = weigh in_queue (g_reqs g).
Proof. intros Hs Hr. by destruct (GInv_reach _ _ _ Hs Hr). Qed.

(** ** The gate drains *)

Lemma holder_exists l : 0 < weigh holds l -> exists i p, l !! i = Some p /\ holds p = 1.
Proof.
  induction l as [|p l IH]; cbn; [lia|]. intros Hw.
  destruct (decide (holds p = 1)) as [Hp|Hp]; [by exists 0%nat, p|].
  destruct IH as (i & q & Hi & Hq); [destruct p; cbn in *; lia|]. by exists (S i), q.
Qed.

(** Moves that depend on neither a new client, nor a cancellation, nor an error. *)
Definition normal (e : gevent) : bool :=
  match e with GInc | GEarly _ | GCancel _ => false | _ => true end.

Lemma holder_moves early size g i p :
  GInv early size g -> g_reqs g !! i = Some p -> holds p = 1 ->
  exists e g', normal e = true /\ gexec early e g = Some g'.
Proof.
  intros I Hi Hp. destruct p; try done.
  - exists (GDec i). eexists. cbn. by rewrite Hi.
  - pose proof (weigh_elem holds _ _ _ (λ p, ltac:(by destruct p)) Hi) as Hh. cbn in Hh.
    pose proof (release_spec (g_sem g)) as Lr. pose proof (gi_held _ _ _ I).
    destruct (release (g_sem g)) as [s'|] eqn:E; [|lia].
    exists (GRelease i). eexists. cbn. rewrite Hi, E. done.
Qed.

Lemma gate_progress early size g i p :
  GInv early size g -> g_reqs g !! i = Some p -> finished p = false ->
  exists e g', normal e = true /\ gexec early e g = Some g'.
Proof.
  intros I Hi Hp. destruct p; try done.
  - exists (GCheck i). eexists. cbn. by rewrite Hi.
  - pose proof (acquire_spec (g_sem g)) as La. destruct (acquire (g_sem g)) as [s'|] eqn:E.
    { exists (GAcquire i). eexists. cbn. by rewrite Hi, E. }
    destruct (holder_exists (g_reqs g)) as (j & q & Hj & Hq).
    { destruct I. lia. }
    by apply (holder_moves early size g j q).
  - by apply (holder_moves early size g i Acquired).
  - exists (GDec i). eexists. cbn. by rewrite Hi.
  - by apply (holder_moves early size g i Running).
Qed.

Lemma gexec_decreases early e g g' :
  e <> GInc -> gexec early e g = Some g' ->
  weigh steps_left (g_reqs g') < weigh steps_left (g_reqs g).
Proof.
  intros Hne E. destruct e as [|i|i|i|i|i|i]; [done|..]; cbn in E;
    destruct (g_reqs g !! i) as [[]|] eqn:Hi; try done.
  - injection E as <-. destruct (maxQueue <? g_queue g); cbn; reweigh Hi; lia.
  - destruct early; [|done]. injection E as <-. cbn. reweigh Hi. lia.
  - destruct (acquire (g_sem g)); [|done]. injection E as <-. cbn. reweigh Hi. lia.
  - injection E as <-. cbn. reweigh Hi. lia.
  - injection E as <-. cbn. reweigh Hi. lia.
  - injection E as <-. cbn. reweigh Hi. lia.
  - destruct (release (g_sem g)); [|done]. injection E as <-. cbn. reweigh Hi. lia.
Qed.

Lemma finished_weighs l : Forall (λ p, finished p = true) l ->
  weigh in_queue l = weigh lost l /\ weigh holds l = 0.
Proof. induction 1 as [|[| | | | | |[]] l Hp Hl IH]; cbn in *; try done; lia. Qed.

(** C23: the gate drains: as long as a request is not over some request can move
    without a cancellation, every move shortens the work left, and once all requests
    are over all slots are free; the counter is then zero in a box without early
    returns (process, docker) and the number of early returns otherwise (porto). *)
Theorem gate_drains early size g :
  0 <= size -> greach early size g ->
  ((exists i p, g_reqs g !! i = Some p /\ finished p = false) ->
     exists e g', normal e = true /\ gexec early e g = Some g') /\
  (forall e g', e <> GInc -> gexec early e g = Some g' ->
     weigh steps_left (g_reqs g') < weigh steps_left (g_reqs g)) /\
  (Forall (λ p, finished p = true) (g_reqs g) ->
     sem_held (g_sem g) = 0 /\ g_queue g = weigh lost (g_reqs g) /\
     (early = false -> g_queue g = 0)).
Proof.
  intros Hs Hr. pose proof (GInv_reach _ _ _ Hs Hr) as I. split_and!.
  - intros (i & p & Hi & Hp). by apply (gate_progress early size g i p).
  - intros e g'. apply gexec_decreases.
  - intros [F1 F2]%finished_weighs. destruct I as [I1 I0 I2 I3 I4 I5 I6].
    rewrite I3, I1, F1, F2. done.
Qed.

(** ** Lost requests of the Porto box *)

Lemma lost_counted l : weigh lost l <= weigh in_queue l.
Proof. induction l as [|[| | | | | |[]] l IH]; cbn; lia. Qed.
Lemma lost_counted_strict l i : l !! i = Some Counted -> weigh lost l + 1 <= weigh in_queue l.
Proof.
  intros Hi. pose proof (lost_counted (<[i := Served]> l)) as L.
  rewrite !(weigh_insert _ _ _ _ _ Hi) in L. cbn in L. lia.
Qed.

(** A lost request stays lost. *)
Lemma lost_grows e g g' : gexec true e g = Some g' -> weigh lost (g_reqs g) <= weigh lost (g_reqs g').
Proof.
  intros E. destruct e as [|i|i|i|i|i|i]; cbn in E.
  1: { injection E as <-. cbn. rewrite weigh_app. cbn. lia. }
  all: destruct (g_reqs g !! i) as [[]|] eqn:Hi; try done.
  all: try (destruct (acquire (g_sem g)); [|done]); try (destruct (release (g_sem g)); [|done]).
  all: injection E as <-; try destruct (maxQueue <? g_queue g); cbn; reweigh Hi; lia.
Qed.

(** After ten early returns of the Porto box (no layers in the journal, no
    connection to portod) every later request is refused with EAGAIN. *)
Lemma porto_queue_starves size g i g' :
  0 <= size -> greach true size g -> maxQueue <= weigh lost (g_reqs g) ->
  g_reqs g !! i = Some Counted -> porto_gate (GCheck i) g = Some g' ->
  g_reqs g' !! i = Some (Refused EAGAIN).
Proof.
  intros Hs Hr Hl Hi. destruct (GInv_reach _ _ _ Hs Hr) as [I1 _ _ _ _ _ _].
  pose proof (lost_counted_strict _ _ Hi). unfold porto_gate. cbn. rewrite Hi.
  destruct (Z.ltb_spec maxQueue (g_queue g)); [|lia]. intros [= <-]. cbn.
  rewrite list_lookup_insert_eq; [done|]. by apply lookup_lt_Some in Hi.
Qed.
End facts.

(** ** Runs *)

Fixpoint grun {T} `{Semaphore T} (early : bool) (es : list gevent) (g : gate T) : option (gate T) :=
  match es with
  | [] => Some g
  | e :: es => match gexec early e g with Some g' => grun early es g' | None => None end
  end.
Lemma grun_reach {T} `{Semaphore T} early size es g g' :
  greach early size g -> grun early es g = Some g' -> greach early size g'.
Proof.
  revert g. induction es as [|e es IH]; intros g Hr E; cbn in E; [by injection E as <-|].
  destruct (gexec early e g) as [g1|] eqn:E1; [|done]. apply (IH g1); [|done].
  by apply (greach_exec early size e g).
Qed.

(** Two requests at a gate with one slot. *)
Definition demo_sem : spawnSemaphore := mkSem 1 [].
Definition demo_events : list gevent :=
  [GInc; GInc; GCheck 0; GAcquire 0; GCheck 1; GDec 0].
Definition demo_gate : gate spawnSemaphore := mkGate 1 (mkSem 1 [tt]) [Running; Passed].
Lemma demo_gate_reach : greach false 1 demo_gate.
Proof. apply (grun_reach false 1 demo_events (mkGate 0 demo_sem [])); [by constructor|done]. Qed.

Lemma gate_bounded_witness : weigh holds (g_reqs demo_gate) <= 1.
Proof. apply (gate_bounded false 1 demo_gate); [lia|exact demo_gate_reach]. Defined.

Lemma gate_drains_witness : exists e g', normal e = true /\ gexec false e demo_gate = Some g'.
Proof.
  apply (gate_drains false 1 demo_gate); [lia|exact demo_gate_reach|]. by exists 1%nat, Passed.
Defined.
