(* ===== verification/SpawnRate.v ===== *)
(** * The pace of spawning in the Porto box

    A spawn of the Porto box gives its slot of the semaphore back in [ReleaseLock]
    (isolate/porto/box.go), which sleeps for the configured time first.  The machine has a
    clock; its requests are those past the gate (Gate.v). *)

From Stdlib Require Import ZArith Lia.
From S2P Require Import Prelude Gate.

(** [time.Duration(b.config.SpawnTimeout) * time.Second], in nanoseconds: an [int64]. *)
Definition spawn_pause (SpawnTimeout : Z) : Z := sint 64 (sint 64 SpawnTimeout * 1000000000).

Inductive stage :=
  | Body                            (* between Acquire and the return *)
  | Pausing (since : Z)             (* in ReleaseLock *)
  | Released.

(** When each request acquired its slot, and where it is. *)
Record pace (T : Type) := mkPace { pc_now : Z; pc_sem : T; pc_spawns : list (Z * stage) }.
Arguments mkPace {T}. Arguments pc_now {T}. Arguments pc_sem {T}. Arguments pc_spawns {T}.

Inductive pace_event := Elapse (d : Z) | PAcquire | PReturn (i : nat) | PRelease (i : nat).

Section pace.
Context {T : Type} `{SemaphoreLaws T} (pause : Z).

(** [time.Sleep] returns after at least the pause; at once when it is not positive. *)
Definition ReleaseLock (now since : Z) (s : T) : option T :=
  if (pause <=? 0) || (since + pause <=? now) then release s else None.

Definition pace_exec (e : pace_event) (p : pace T) : option (pace T) :=
  match e with
  | Elapse d => if 0 <=? d then Some (mkPace (pc_now p + d) (pc_sem p) (pc_spawns p)) else None
  | PAcquire => s ← acquire (pc_sem p); Some (mkPace (pc_now p) s (pc_spawns p ++ [(pc_now p, Body)]))
  | PReturn i =>
      match pc_spawns p !! i with
      | Some (a, Body) => Some (mkPace (pc_now p) (pc_sem p) (<[i := (a, Pausing (pc_now p))]> (pc_spawns p)))
      | _ => None
      end
  | PRelease i =>
      match pc_spawns p !! i with
      | Some (a, Pausing since) =>
          s ← ReleaseLock (pc_now p) since (pc_sem p); Some (mkPace (pc_now p) s (<[i := (a, Released)]> (pc_spawns p)))
      | _ => None
      end
  end.

Inductive pace_reach (size : Z) : pace T -> Prop :=
  | pace_start s : sem_new size = Some s -> pace_reach size (mkPace 0 s [])
  | pace_step p e p' : pace_reach size p -> pace_exec e p = Some p' -> pace_reach size p'.

(** A request holds its slot until it was released. *)
Definition slot (r : Z * stage) : Z := match r.2 with Released => 0 | _ => 1 end.
(** Acquired within the last pause. *)
Definition recent (now : Z) (r : Z * stage) : Z := if now - pause <? r.1 then 1 else 0.

Record pace_inv (size : Z) (p : pace T) : Prop := {
  pi_size : sem_size (pc_sem p) = size;
  pi_held : weigh slot (pc_spawns p) = sem_held (pc_sem p);
  pi_bound : sem_held (pc_sem p) <= size;
  pi_times : Forall (λ r, r.1 <= pc_now p /\
    match r.2 with
    | Body => True
    | Pausing since => r.1 <= since <= pc_now p
    | Released => pause <= 0 \/ r.1 + pause <= pc_now p
    end) (pc_spawns p)
}.

Lemma pace_inv_exec size e p p' : pace_inv size p -> pace_exec e p = Some p' -> pace_inv size p'.
Proof.
  intros [I1 I2 I3 I4]. destruct e as [d| |i|i]; cbn [pace_exec].
  - destruct (Z.leb_spec 0 d); [|done]. intros [= <-]. split; cbn; try done.
    eapply Forall_impl; [exact I4|]. intros [a []]; cbn; lia.
  - pose proof (acquire_spec (pc_sem p)) as Ha. destruct (acquire (pc_sem p)) as [s|]; [|done]. cbn. intros [= <-].
    destruct Ha as (Ha & Hs & Hh). split; cbn.
    + congruence.
    + rewrite weigh_app. cbn. lia.
    + lia.
    + apply Forall_app. split; [done|]. apply Forall_singleton. cbn. lia.
  - destruct (pc_spawns p !! i) as [[a [|since|]]|] eqn:Ei; try done. intros [= <-]. split; cbn; try done.
    + rewrite (weigh_insert _ _ _ _ _ Ei). cbn. lia.
    + apply Forall_insert; [done|]. pose proof (Forall_lookup_1 _ _ _ _ I4 Ei) as Hi. cbn in *. lia.
  - destruct (pc_spawns p !! i) as [[a [|since|]]|] eqn:Ei; try done. unfold ReleaseLock.
    destruct ((pause <=? 0) || (since + pause <=? pc_now p)) eqn:Ep; [|done].
    pose proof (release_spec (pc_sem p)) as Hr. destruct (release (pc_sem p)) as [s|]; [|done]. cbn. intros [= <-].
    destruct Hr as (Hr & Hs & Hh). split; cbn.
    + congruence.
    + rewrite (weigh_insert _ _ _ _ _ Ei). cbn. lia.
    + lia.
    + apply Forall_insert; [done|]. pose proof (Forall_lookup_1 _ _ _ _ I4 Ei) as Hi. cbn in *.
      apply orb_true_iff in Ep as [?%Z.leb_le|?%Z.leb_le]; lia.
Qed.

Lemma pace_reach_inv size p : 0 <= size -> pace_reach size p -> pace_inv size p.
Proof.
  intros Hs. induction 1 as [s E|p e p' _ IH E]; [|by eapply pace_inv_exec].
  pose proof (sem_new_spec size Hs) as Hn. rewrite E in Hn. destruct Hn as (? & ? & ?). split; cbn; try done; lia.
Qed.

(** Spawns are paced: with a pause, at no time were more slots taken within the last pause
    than the semaphore has, however fast the spawns themselves were. *)
Theorem spawn_rate size p : 0 <= size -> pace_reach size p -> weigh (recent (pc_now p)) (pc_spawns p) <= size.
Proof.
  intros Hs Hp. destruct (pace_reach_inv size p Hs Hp) as [_ I2 I3 I4]. etrans; [|exact I3]. rewrite <- I2.
  clear - I4. induction I4 as [|[a st] l Hr _ IH]; [done|]. cbn [weigh]. enough (recent (pc_now p) (a, st) <= slot (a, st)) by lia.
  unfold recent, slot. cbn [fst snd] in *. destruct (Z.ltb_spec (pc_now p - pause) a); [|by destruct st].
  destruct st; [lia|lia|]. destruct Hr as [? [?|?]]; lia.
Qed.
End pace.

(** A pause of more seconds than an [int64] has nanoseconds is none at all. *)
Lemma spawn_pause_overflows : spawn_pause 3 = 3000000000 /\ spawn_pause 9223372037 < 0.
Proof. split; vm_compute; reflexivity. Qed.
