(* ===== verification/Context.v ===== *)
(** * Contexts

    The trees of contexts through which the daemon passes its boxes, its loggers and its
    cancellations (vendor/golang.org/x/net/context/context.go, pkg/log/ctxlogger.go,
    isolate/utils.go, [getBoxes] of isolate/isolate.go).  A context is a value; what
    cancellation changes, the children and the error of a [cancelCtx], is a cell of a
    heap.  [cancel] follows the children as the code does; [cancel_mark] shows that this
    cancels exactly the contexts derived from it, and [contexts_inv] carries that through
    every history.  Contexts with a deadline are only made from the background context
    for one call and do not appear here. *)

From Stdlib Require Import ZArith Lia String.
From S2P Require Import Prelude.
From stdpp Require Import pretty.

(** ** Loggers (vendor/github.com/apex/log) *)

(** An [Entry]: the logger it writes to, 0 for the package's own, and the fields. *)
Record Logger := mkLogger {
  lg_base : nat;
  lg_fields : list (string * string)
}.

Definition L : Logger := mkLogger 0 [].
Definition NewEntry (base : nat) : Logger := mkLogger base [].
Definition WithField (key value : string) (e : Logger) : Logger :=
  mkLogger (lg_base e) (lg_fields e ++ [(key, value)]).

(** ** Contexts *)

Inductive ckey := KString (s : string) | loggerKey.
#[export] Instance ckey_eq_dec : EqDecision ckey.
Proof. solve_decision. Defined.

Inductive cerror := Canceled | DeadlineExceeded.

Section contexts.
Context {Bx : Type}.

Inductive cvalue :=
  | VBoxes (boxes : gmap string Bx)
  | VString (s : string)
  | VLogger (l : Logger).

(** [cancelCtx id parent]: the cell [id] of the heap and the embedded parent, which
    never changes. *)
Inductive context :=
  | background
  | valueCtx (parent : context) (key : ckey) (val : cvalue)
  | cancelCtx (id : nat) (parent : context).

Record cell := mkCell {
  cc_Context : context;
  cc_children : gset nat;
  cc_err : option cerror
}.
#[local] Abbreviation heap := (list cell).

Definition WithValue (parent : context) (key : ckey) (val : cvalue) : context :=
  valueCtx parent key val.

Fixpoint Value (c : context) (key : ckey) : option cvalue :=
  match c with
  | background => None
  | valueCtx p k v => if decide (k = key) then Some v else Value p key
  | cancelCtx _ p => Value p key
  end.

Fixpoint parentCancelCtx (parent : context) : option nat :=
  match parent with
  | background => None
  | valueCtx p _ _ => parentCancelCtx p
  | cancelCtx id _ => Some id
  end.

Definition set_err (e : option cerror) (c : cell) : cell := mkCell (cc_Context c) (cc_children c) e.
Definition set_children (s : gset nat) (c : cell) : cell := mkCell (cc_Context c) s (cc_err c).

(** [cancelCtx.cancel(false, err)]; the fuel bounds the depth of the recursion. *)
Fixpoint cancel_cell (fuel : nat) (err : cerror) (h : heap) (id : nat) : heap :=
  match fuel, h !! id with
  | S fuel, Some c =>
      match cc_err c with
      | Some _ => h
      | None =>
          let h := alter (set_err (Some err)) id h in
          let h := fold_left (cancel_cell fuel err) (elements (cc_children c)) h in
          alter (set_children ∅) id h
      end
  | _, _ => h
  end.

Definition removeChild (parent : context) (child : nat) (h : heap) : heap :=
  match parentCancelCtx parent with
  | Some p => alter (λ c, set_children (cc_children c ∖ {[child]}) c) p h
  | None => h
  end.

(** [cancelCtx.cancel(true, err)] of a context; other contexts have no cancel. *)
Definition cancel (c : context) (err : cerror) (h : heap) : heap :=
  match c with
  | cancelCtx id p =>
      match h !! id with
      | Some x => match cc_err x with
                  | Some _ => h
                  | None => removeChild p id (cancel_cell (length h) err h id)
                  end
      | None => h
      end
  | _ => h
  end.

Definition propagateCancel (parent : context) (child : nat) (h : heap) : heap :=
  match parentCancelCtx parent with
  | None => h
  | Some p =>
      match h !! p with
      | Some x =>
          match cc_err x with
          | Some e => cancel_cell (length h) e h child
          | None => alter (λ c, set_children (cc_children c ∪ {[child]}) c) p h
          end
      | None => h
      end
  end.

Definition WithCancel (parent : context) (h : heap) : context * heap :=
  let id := length h in
  (cancelCtx id parent, propagateCancel parent id (h ++ [mkCell parent ∅ None])).
#[local] Arguments WithCancel : simpl never.

(** [Err] of a context, and whether its channel [Done] is closed: both are set by the
    first cancel of the nearest [cancelCtx]. *)
Definition Err_ (c : context) (h : heap) : option cerror :=
  id ← parentCancelCtx c; x ← h !! id; cc_err x.

(** [IsCancelled] (isolate/utils.go) *)
Definition IsCancelled (c : context) (h : heap) : bool :=
  match Err_ c h with Some _ => true | None => false end.

(** ** What the daemon keeps in a context *)

Definition WithLogger (c : context) (l : Logger) : context := WithValue c loggerKey (VLogger l).

Definition GetLogger (c : context) : Logger :=
  match Value c loggerKey with Some (VLogger l) => l | _ => L end.

Definition BoxesTag : string := "isolate.boxes.tag".

(** [getBoxes]: [None] is the panic. *)
Definition getBoxes (c : context) : option (gmap string Bx) :=
  match Value c (KString BoxesTag) with Some (VBoxes b) => Some b | _ => None end.

(** [getID]: the time and the random number are arguments. *)
Definition getID (unix rand : Z) (c : context) : string :=
  match Value c (KString "conn.id") with
  | Some (VString s) => s
  | _ => (pretty unix +:+ "." +:+ pretty rand)%string
  end.

(** ** Ancestry, the reference for cancellation *)

(** The cancellable contexts a context is or derives from, nearest first. *)
Fixpoint lineage (c : context) : list nat :=
  match c with
  | background => []
  | valueCtx p _ _ => lineage p
  | cancelCtx id p => id :: lineage p
  end.

(** The pointers in a context are those the heap knows. *)
Fixpoint valid (h : heap) (c : context) : Prop :=
  match c with
  | background => True
  | valueCtx p _ _ => valid h p
  | cancelCtx id p => valid h p /\ cc_Context <$> h !! id = Some p
  end.

(** The lineage of what a cell was made from. *)
Definition made_from (h : heap) (c : nat) : list nat :=
  from_option (λ x, lineage (cc_Context x)) [] (h !! c).

(** Cell [c] is [id] or derives from it. *)
Definition under (h : heap) (id c : nat) : Prop := c = id \/ id ∈ made_from h c.

(** ** Well-formed heaps *)

Record heap_wf (h : heap) : Prop := {
  wf_made id x : h !! id = Some x -> valid h (cc_Context x) /\ forall i, i ∈ lineage (cc_Context x) -> (i < id)%nat;
  wf_child id x k : h !! id = Some x -> k ∈ cc_children x ->
    exists y, h !! k = Some y /\ parentCancelCtx (cc_Context y) = Some id;
  wf_live k y p x : h !! k = Some y -> cc_err y = None ->
    parentCancelCtx (cc_Context y) = Some p -> h !! p = Some x -> k ∈ cc_children x
}.

(** A cancelled context has no children left. *)
Definition closed (h : heap) (p : nat) : Prop :=
  forall x, h !! p = Some x -> cc_err x <> None -> cc_children x = ∅.

Definition same_shape (h h' : heap) : Prop :=
  forall c, cc_Context <$> h !! c = cc_Context <$> h' !! c.

(** The cells of [S] are cancelled and nothing else changes. *)
Definition killed (err : cerror) (x : cell) : cell :=
  mkCell (cc_Context x) ∅ (Some (default err (cc_err x))).
Definition marked (err : cerror) (S : nat -> Prop) (h h' : heap) : Prop :=
  forall c, (S c /\ h' !! c = killed err <$> h !! c) \/ (~ S c /\ h' !! c = h !! c).

Lemma lineage_parent h c p x : valid h c -> parentCancelCtx c = Some p -> h !! p = Some x ->
  lineage c = p :: lineage (cc_Context x).
Proof.
  induction c as [|c IH k v|id c _]; cbn; [done|exact IH|].
  intros [_ Hc] [= ->] Hx. rewrite Hx in Hc. by injection Hc as ->.
Qed.
Lemma lineage_root (c : context) : parentCancelCtx c = None -> lineage c = [].
Proof. induction c; cbn; by auto. Qed.
Lemma valid_parent h c p : valid h c -> parentCancelCtx c = Some p -> exists x, h !! p = Some x.
Proof.
  induction c as [|c IH k v|id c _]; cbn; [done|exact IH|]. intros [_ Hc] [= ->].
  destruct (h !! p); [eauto|done].
Qed.

Lemma made_shape h h' c : same_shape h h' -> made_from h c = made_from h' c.
Proof. intros H. specialize (H c). unfold made_from. destruct (h !! c), (h' !! c); cbn in *; congruence. Qed.
Lemma valid_shape h h' c : same_shape h h' -> valid h c -> valid h' c.
Proof. intros H. induction c; cbn; [done|done|]. rewrite <- (H id). tauto. Qed.
Lemma marked_shape err S h h' : marked err S h h' -> same_shape h h'.
Proof. intros H c. destruct (H c) as [[_ ->]|[_ ->]]; [|done]. by destruct (h !! c). Qed.
Lemma under_shape h h' id c : same_shape h h' -> under h id c <-> under h' id c.
Proof. intros H. unfold under. by rewrite (made_shape h h' c H). Qed.

#[local] Instance under_dec h id c : Decision (under h id c).
Proof. unfold under. apply _. Defined.

(** ** Ancestry in a well-formed heap *)

Section wf.
Context (h : heap) (Hw : heap_wf h).

Lemma made_cons c p y : h !! c = Some y -> parentCancelCtx (cc_Context y) = Some p ->
  made_from h c = p :: made_from h p /\ (p < c)%nat.
Proof using Hw.
  intros Hy Hp. destruct (wf_made h Hw c y Hy) as [V Lt].
  destruct (valid_parent _ _ _ V Hp) as [x Hx].
  pose proof (lineage_parent _ _ _ _ V Hp Hx) as E. split.
  - unfold made_from. by rewrite Hy, Hx.
  - apply Lt. rewrite E. left.
Qed.

(** The first step of a lineage. *)
Lemma under_step id c : under h id c -> c <> id ->
  exists y p, h !! c = Some y /\ parentCancelCtx (cc_Context y) = Some p /\ under h id p /\ (p < c)%nat.
Proof using Hw.
  intros [->|Hin] Hne; [done|]. destruct (h !! c) as [y|] eqn:Hy.
  - destruct (parentCancelCtx (cc_Context y)) as [p|] eqn:Hp.
    + destruct (made_cons c p y Hy Hp) as [E Lt]. exists y, p. split_and!; [done..| |done].
      rewrite E in Hin. apply list_elem_of_In in Hin as [->|Hin]; [by left|].
      right. by apply list_elem_of_In.
    + unfold made_from in Hin. rewrite Hy in Hin. cbn in Hin. rewrite (lineage_root _ Hp) in Hin.
      by apply not_elem_of_nil in Hin.
  - unfold made_from in Hin. rewrite Hy in Hin. by apply not_elem_of_nil in Hin.
Qed.

Lemma under_parent k p c y : h !! k = Some y -> parentCancelCtx (cc_Context y) = Some p ->
  under h k c -> under h p c.
Proof using Hw.
  intros Hy Hp. destruct (made_cons k p y Hy Hp) as [E Lt].
  induction c as [c IH] using lt_wf_ind. intros Hu.
  destruct (decide (c = k)) as [->|Hne]; [right; rewrite E; left|].
  destruct (under_step k c Hu Hne) as (z & q & Hz & Hq & Hu' & Ltq).
  destruct (made_cons c q z Hz Hq) as [E' _]. destruct (IH q Ltq Hu') as [->|Hin]; right; rewrite E'.
  - left.
  - by right.
Qed.

Lemma under_le id c : under h id c -> (id <= c)%nat.
Proof using Hw.
  induction c as [c IH] using lt_wf_ind. intros Hu.
  destruct (decide (c = id)) as [->|Hne]; [done|].
  destruct (under_step id c Hu Hne) as (z & q & _ & _ & Hu' & Ltq). specialize (IH q Ltq Hu'). lia.
Qed.

(** The child of [id] through which [c] derives from it. *)
Lemma under_child id c : under h id c -> c <> id ->
  exists k y, h !! k = Some y /\ parentCancelCtx (cc_Context y) = Some id /\ under h k c.
Proof using Hw.
  induction c as [c IH] using lt_wf_ind. intros Hu Hne.
  destruct (under_step id c Hu Hne) as (z & q & Hz & Hq & Hu' & Ltq).
  destruct (decide (q = id)) as [->|Hq'].
  - exists c, z. split_and!; [done..|]. by left.
  - destruct (IH q Ltq Hu' Hq') as (k & y & Hk & Hp & Huk). exists k, y. split_and!; [done..|].
    destruct (made_cons c q z Hz Hq) as [E _]. right. rewrite E. destruct Huk as [->|Hin]; [left|by right].
Qed.

(** Below a cancelled context everything is cancelled. *)
Lemma errored_below id c x : (forall p, under h id p -> closed h p) ->
  (forall x, h !! id = Some x -> cc_err x <> None) -> under h id c -> h !! c = Some x -> cc_err x <> None.
Proof using Hw.
  intros Hcl Hid. revert x. induction c as [c IH] using lt_wf_ind. intros x Hu Hx He.
  destruct (decide (c = id)) as [->|Hne]; [by apply (Hid x)|].
  destruct (under_step id c Hu Hne) as (z & q & Hz & Hq & Hu' & Ltq). simplify_eq.
  destruct (valid_parent h _ q (proj1 (wf_made h Hw c x Hx)) Hq) as [y Hy].
  pose proof (wf_live h Hw c x q y Hx He Hq Hy) as Hin.
  rewrite (Hcl q Hu' y Hy (IH q Ltq y Hu' Hy)) in Hin. set_solver.
Qed.

End wf.

(** ** Cancelling a set of cells that is closed under descent *)

Definition descends (h : heap) (S : nat -> Prop) : Prop :=
  forall k y p, h !! k = Some y -> parentCancelCtx (cc_Context y) = Some p -> S p -> S k.

Lemma killed_id err (x : cell) : cc_err x <> None -> cc_children x = ∅ -> killed err x = x.
Proof. destruct x as [c k [e|]]; cbn; [by intros _ ->|done]. Qed.

Lemma marked_lookup err S h h' c y : marked err S h h' -> h' !! c = Some y ->
  exists x, h !! c = Some x /\ (S c /\ y = killed err x \/ ~ S c /\ y = x).
Proof.
  intros Hm Hy. destruct (Hm c) as [[HS E]|[HS E]]; rewrite E in Hy; [|by exists y; auto].
  destruct (h !! c) as [x|]; [|done]. injection Hy as <-. exists x. auto.
Qed.

Lemma wf_mark err S h h' : heap_wf h -> descends h S -> marked err S h h' -> heap_wf h'.
Proof.
  intros Hw HS Hm. pose proof (marked_shape _ _ _ _ Hm) as Hs. split.
  - intros id x' Hx'. destruct (marked_lookup _ _ _ _ _ _ Hm Hx') as (x & Hx & [[_ ->]|[_ ->]]);
      destruct (wf_made h Hw id x Hx) as [V Lt]; (split; [by apply (valid_shape h h')|done]).
  - intros id x' k Hx' Hk. destruct (marked_lookup _ _ _ _ _ _ Hm Hx') as (x & Hx & [[_ ->]|[_ ->]]);
      [set_solver|]. destruct (wf_child h Hw id x k Hx Hk) as (y & Hy & Hp).
    specialize (Hs k). rewrite Hy in Hs. destruct (h' !! k) as [y'|]; [|done].
    injection Hs as E. exists y'. by rewrite <- E.
  - intros k y' p x' Hy' He Hp Hx'.
    destruct (marked_lookup _ _ _ _ _ _ Hm Hy') as (y & Hy & [[_ ->]|[Hn ->]]); [done|].
    destruct (marked_lookup _ _ _ _ _ _ Hm Hx') as (x & Hx & [[HSp ->]|[_ ->]]).
    + destruct Hn. by eapply HS.
    + by eapply wf_live.
Qed.

Lemma closed_mark err S h h' p : marked err S h h' -> closed h p -> closed h' p.
Proof.
  intros Hm Hc x' Hx' He. destruct (marked_lookup _ _ _ _ _ _ Hm Hx') as (x & Hx & [[_ ->]|[_ ->]]);
    [done|by apply Hc].
Qed.

Lemma killed_twice err (x : cell) : killed err (killed err x) = killed err x.
Proof. by apply killed_id. Qed.

Lemma marked_trans err S1 S2 h h1 h2 : marked err S1 h h1 -> marked err S2 h1 h2 ->
  marked err (λ c, S1 c \/ S2 c) h h2.
Proof.
  intros H1 H2 c. destruct (H1 c) as [[A E1]|[A E1]], (H2 c) as [[B E2]|[B E2]]; rewrite E2, E1;
    [left|left|left|right]; (split; [tauto|]); [|done..].
  rewrite <- option_fmap_compose. destruct (h !! c); cbn; by rewrite ?killed_twice.
Qed.
Lemma marked_iff err S1 S2 h h' : (forall c, S1 c <-> S2 c) -> marked err S1 h h' -> marked err S2 h h'.
Proof. intros E H c. specialize (E c). destruct (H c) as [[]|[]]; [left|right]; tauto. Qed.
Lemma marked_length err S h h' : marked err S h h' -> length h' = length h.
Proof.
  intros H. apply dec_stable. intros Hne.
  destruct (decide (length h < length h')%nat) as [Hlt|Hge].
  - destruct (lookup_lt_is_Some_2 h' (length h) Hlt) as [x Hx].
    destruct (marked_lookup _ _ _ _ _ _ H Hx) as (y & Hy%lookup_lt_Some & _). lia.
  - destruct (lookup_lt_is_Some_2 h (length h')) as [x Hx]; [lia|].
    destruct (H (length h')) as [[_ E]|[_ E]]; rewrite Hx in E; apply lookup_lt_Some in E; lia.
Qed.

Lemma under_descends h id : heap_wf h -> descends h (under h id).
Proof.
  intros Hw k y p Hy Hp Hu. destruct (made_cons h Hw k p y Hy Hp) as [E _].
  right. rewrite E. destruct Hu as [->|Hin]; [left|by right].
Qed.

Lemma alter_shape h f id : (forall x, cc_Context (f x) = cc_Context x) -> same_shape h (alter f id h).
Proof.
  intros Hf c. destruct (decide (c = id)) as [->|Hne].
  - rewrite list_lookup_alter_eq. destruct (h !! id) as [x|]; cbn; [by rewrite Hf|done].
  - by rewrite list_lookup_alter_ne.
Qed.

(** [err] set, the children not yet visited. *)
Lemma wf_set_err h id e : heap_wf h -> heap_wf (alter (set_err (Some e)) id h).
Proof.
  intros Hw. assert (forall c y, alter (set_err (Some e)) id h !! c = Some y ->
    exists x, h !! c = Some x /\ cc_Context y = cc_Context x /\ cc_children y = cc_children x /\
      (cc_err y = None -> cc_err x = None)) as Hl.
  { intros c y Hy. destruct (decide (c = id)) as [->|Hne].
    - rewrite list_lookup_alter_eq in Hy. destruct (h !! id) as [x|]; [|done]. injection Hy as <-. by exists x.
    - rewrite list_lookup_alter_ne in Hy by done. by exists y. }
  pose proof (alter_shape h (set_err (Some e)) id ltac:(done)) as Hs.
  split.
  - intros c y Hy. destruct (Hl c y Hy) as (x & Hx & -> & _). destruct (wf_made h Hw c x Hx) as [V Lt].
    split; [by eapply valid_shape|done].
  - intros c y k Hy Hk. destruct (Hl c y Hy) as (x & Hx & _ & E & _). rewrite E in Hk.
    destruct (wf_child h Hw c x k Hx Hk) as (z & Hz & Hp). specialize (Hs k). rewrite Hz in Hs.
    destruct (alter _ id h !! k) as [z'|]; [|done]. injection Hs as E'. exists z'. by rewrite <- E'.
  - intros k y p x Hy He Hp Hx. destruct (Hl k y Hy) as (y0 & Hy0 & Ec & _ & Hn).
    destruct (Hl p x Hx) as (x0 & Hx0 & _ & -> & _). rewrite Ec in Hp. eapply wf_live; eauto.
Qed.

(** ** [cancel] marks exactly the derived contexts *)

Lemma fold_mark fuel err ks h :
  (forall h id, heap_wf h -> (forall p, under h id p -> closed h p) -> (length h - id <= fuel)%nat ->
     marked err (under h id) h (cancel_cell fuel err h id)) ->
  heap_wf h -> (forall k, k ∈ ks -> (length h - k <= fuel)%nat /\ forall p, under h k p -> closed h p) ->
  marked err (λ c, exists k, k ∈ ks /\ under h k c) h (fold_left (cancel_cell fuel err) ks h).
Proof.
  intros Hc. revert h. induction ks as [|k ks IH]; intros h Hw Hk; cbn [fold_left].
  - intros c. right. split; [|done]. intros (k & Hk' & _). by apply not_elem_of_nil in Hk'.
  - destruct (Hk k ltac:(left)) as [Hf Hcl]. pose proof (Hc h k Hw Hcl Hf) as Hm.
    pose proof (marked_shape _ _ _ _ Hm) as Hs.
    eapply marked_iff; [|eapply (marked_trans err _ _ _ _ _ Hm), IH].
    + intros c. cbn. setoid_rewrite <- (under_shape _ _ _ c Hs). setoid_rewrite elem_of_cons.
      split; [intros [?|(k' & ? & ?)]; eauto|intros (k' & [->|?] & ?); eauto].
    + eapply wf_mark; [done| |done]. by apply under_descends.
    + intros k' Hk'. destruct (Hk k' ltac:(by right)) as [Hf' Hcl'].
      rewrite (marked_length _ _ _ _ Hm). split; [done|]. intros p Hu.
      apply (closed_mark err _ _ _ p Hm), Hcl', (under_shape _ _ _ _ Hs), Hu.
Qed.

Lemma marked_self err h id x : heap_wf h -> (forall p, under h id p -> closed h p) ->
  h !! id = Some x -> cc_err x <> None -> marked err (under h id) h h.
Proof.
  intros Hw Hcl Hx He c. destruct (decide (under h id c)) as [Hu|Hu]; [left|by right].
  split; [done|]. destruct (h !! c) as [y|] eqn:Hy; [|done]. cbn. f_equal. symmetry.
  assert (cc_err y <> None) as Hye by (eapply (errored_below h Hw id c); naive_solver).
  apply killed_id; [done|by eapply Hcl].
Qed.

(** The context is live: it is marked, its children are cancelled and forgotten. *)
Lemma cancel_children fuel err h id x :
  (forall h id, heap_wf h -> (forall p, under h id p -> closed h p) -> (length h - id <= fuel)%nat ->
     marked err (under h id) h (cancel_cell fuel err h id)) ->
  heap_wf h -> (forall p, under h id p -> closed h p) -> (length h - id <= S fuel)%nat ->
  h !! id = Some x -> cc_err x = None ->
  marked err (under h id) h (alter (set_children ∅) id
    (fold_left (cancel_cell fuel err) (elements (cc_children x)) (alter (set_err (Some err)) id h))).
Proof.
  intros IH Hw Hcl Hf Hx He. set (h1 := alter (set_err (Some err)) id h).
  pose proof (alter_shape h (set_err (Some err)) id ltac:(done)) as Hs. fold h1 in Hs.
  assert (forall k, k ∈ elements (cc_children x) -> exists y, h !! k = Some y /\
    parentCancelCtx (cc_Context y) = Some id /\ (id < k)%nat) as Hch.
  { intros k Hk%elem_of_elements. destruct (wf_child h Hw id x k Hx Hk) as (y & Hy & Hp). exists y.
    destruct (made_cons h Hw k id y Hy Hp). auto. }
  assert (marked err (λ c, exists k, k ∈ elements (cc_children x) /\ under h1 k c) h1
    (fold_left (cancel_cell fuel err) (elements (cc_children x)) h1)) as Hm.
  { apply fold_mark; [done|by apply wf_set_err|]. intros k Hk. destruct (Hch k Hk) as (y & Hy & Hp & Lt).
    split; [unfold h1; rewrite length_alter; lia|]. intros p Hu%(under_shape _ _ _ _ Hs).
    pose proof (under_le h Hw k p Hu). intros z Hz. unfold h1 in Hz.
    rewrite list_lookup_alter_ne in Hz by lia.
    exact (Hcl p (under_parent h Hw k id p y Hy Hp Hu) z Hz). }
  intros c. destruct (decide (c = id)) as [->|Hne].
  - left. split; [by left|]. rewrite list_lookup_alter_eq. destruct (Hm id) as [[(k & Hk & Hu) _]|[_ ->]].
    + destruct (Hch k Hk) as (y & _ & _ & Lt). apply (under_shape _ _ _ _ Hs), (under_le h Hw) in Hu. lia.
    + unfold h1. rewrite list_lookup_alter_eq, Hx. cbn. unfold killed. by rewrite He.
  - rewrite list_lookup_alter_ne by done. assert (h1 !! c = h !! c) as E1 by (by apply list_lookup_alter_ne).
    destruct (Hm c) as [[(k & Hk & Hu) E]|[Hno E]]; rewrite E, E1.
    + left. split; [|done]. destruct (Hch k Hk) as (y & Hy & Hp & _).
      exact (under_parent h Hw k id c y Hy Hp (proj2 (under_shape _ _ _ _ Hs) Hu)).
    + destruct (decide (under h id c)) as [Hu|Hu]; [left|by right]. split; [done|].
      destruct (under_child h Hw id c Hu Hne) as (k & y & Hy & Hp & Huk).
      destruct (h !! c) as [z|] eqn:Hz; [|done]. cbn. f_equal. symmetry.
      assert (cc_err z <> None) as Hze; [|apply killed_id; [done|by eapply Hcl]].
      eapply (errored_below h Hw k c z); [|..|exact Huk|exact Hz].
      * intros p Hup. apply Hcl. by eapply (under_parent h Hw k id p).
      * intros y' Hy' Hn. simplify_eq. apply Hno. exists k. split; [|by apply (under_shape _ _ _ _ Hs)].
        apply elem_of_elements. by eapply (wf_live h Hw k).
Qed.

Lemma cancel_mark fuel err h id : heap_wf h -> (forall p, under h id p -> closed h p) ->
  (length h - id <= fuel)%nat -> marked err (under h id) h (cancel_cell fuel err h id).
Proof.
  revert h id. induction fuel as [|fuel IH]; intros h id Hw Hcl Hf; cbn [cancel_cell].
  { intros c. destruct (decide (under h id c)) as [Hu|Hu]; [left|by right]. split; [done|].
    pose proof (under_le h Hw id c Hu). rewrite (lookup_ge_None_2 h c) by lia. done. }
  destruct (h !! id) as [x|] eqn:Hx.
  2: { intros c. destruct (decide (under h id c)) as [Hu|Hu]; [left|by right]. split; [done|].
    pose proof (under_le h Hw id c Hu). apply lookup_ge_None in Hx. rewrite (lookup_ge_None_2 h c) by lia. done. }
  destruct (cc_err x) as [e|] eqn:He; [apply (marked_self err h id x Hw Hcl Hx); congruence|].
  apply (cancel_children fuel err h id x IH Hw Hcl Hf Hx He).
Qed.

(** ** Histories

    [called] are the contexts whose [CancelFunc] was called. *)
Record contexts_inv (h : heap) (called : list nat) : Prop := {
  ci_wf : heap_wf h;
  ci_closed p : closed h p;
  ci_called a : a ∈ called -> (a < length h)%nat;
  ci_err c x : h !! c = Some x -> cc_err x <> None <-> exists a, a ∈ called /\ under h a c
}.

Lemma contexts_inv_nil : contexts_inv [] [].
Proof.
  split; [split; intros; by rewrite lookup_nil in *|intros p x Hx; by rewrite lookup_nil in Hx| |].
  - intros a Ha. by apply not_elem_of_nil in Ha.
  - intros c x Hx. by rewrite lookup_nil in Hx.
Qed.

(** Whether a context is done: one it derives from was cancelled. *)
Lemma contexts_done h called c : contexts_inv h called -> valid h c ->
  IsCancelled c h = true <-> exists a, a ∈ called /\ a ∈ lineage c.
Proof.
  intros [Hw Hcl Hb He] V. unfold IsCancelled, Err_. destruct (parentCancelCtx c) as [p|] eqn:Hp; cbn.
  - destruct (valid_parent h c p V Hp) as [x Hx]. rewrite Hx. cbn.
    pose proof (lineage_parent h c p x V Hp Hx) as El. specialize (He p x Hx).
    assert (forall a, under h a p <-> a ∈ lineage c) as Hu.
    { intros a. rewrite El, elem_of_cons. unfold under, made_from. rewrite Hx. cbn. naive_solver. }
    setoid_rewrite Hu in He. rewrite <- He. destruct (cc_err x); [|naive_solver]. naive_solver.
  - rewrite (lineage_root c Hp). split; [done|]. intros (a & _ & Ha). by apply not_elem_of_nil in Ha.
Qed.

(** What later operations keep of a context made earlier. *)
Definition keeps (h h' : heap) : Prop :=
  (length h <= length h')%nat /\ forall c, valid h c -> valid h' c.

Lemma keeps_refl h : keeps h h.
Proof. done. Qed.
Lemma keeps_trans h1 h2 h3 : keeps h1 h2 -> keeps h2 h3 -> keeps h1 h3.
Proof. intros [? A] [? B]. split; [lia|auto]. Qed.

Lemma removeChild_shape p c h : same_shape h (removeChild p c h).
Proof. unfold removeChild. destruct (parentCancelCtx p); [|done]. by apply alter_shape. Qed.

Lemma removeChild_lookup p c h i y : removeChild p c h !! i = Some y ->
  exists x, h !! i = Some x /\ cc_Context y = cc_Context x /\ cc_err y = cc_err x /\
    cc_children y ⊆ cc_children x /\ cc_children x ⊆ cc_children y ∪ {[c]}.
Proof.
  unfold removeChild. destruct (parentCancelCtx p) as [q|]; [|intros ->; exists y; set_solver].
  rewrite list_lookup_alter. destruct (decide (q = i)) as [->|]; [|intros ->; exists y; set_solver].
  destruct (h !! i) as [x|]; [|done]. intros [= <-]. exists x. cbn.
  split_and!; [done..|set_solver|]. intros k Hk. destruct (decide (k = c)); set_solver.
Qed.

Lemma contexts_inv_removeChild p c h called x : contexts_inv h called -> h !! c = Some x -> cc_err x <> None ->
  contexts_inv (removeChild p c h) called.
Proof.
  intros [[Wm Wc Wl] Hcl Hb He] Hx Hne. pose proof (removeChild_shape p c h) as Hs. split; [split| | |].
  - intros i y Hy. destruct (removeChild_lookup _ _ _ _ _ Hy) as (z & Hz & -> & _).
    destruct (Wm i z Hz). split; [by eapply valid_shape|done].
  - intros i y k Hy Hk. destruct (removeChild_lookup _ _ _ _ _ Hy) as (z & Hz & _ & _ & Hsub & _).
    destruct (Wc i z k Hz (Hsub k Hk)) as (w & Hw & Hp). specialize (Hs k). rewrite Hw in Hs.
    destruct (removeChild p c h !! k) as [w'|]; [|done]. injection Hs as E. exists w'. by rewrite <- E.
  - intros k y q z Hy Hn Hp Hz. destruct (removeChild_lookup _ _ _ _ _ Hy) as (y' & Hy' & E1 & E2 & _).
    destruct (removeChild_lookup _ _ _ _ _ Hz) as (z' & Hz' & _ & _ & _ & Hsub).
    rewrite E1 in Hp. rewrite E2 in Hn. specialize (Hsub k (Wl k y' q z' Hy' Hn Hp Hz')).
    apply elem_of_union in Hsub as [Hin|Hin%elem_of_singleton]; [done|]. congruence.
  - intros i y Hy Hn. destruct (removeChild_lookup _ _ _ _ _ Hy) as (z & Hz & _ & E & Hsub & _).
    rewrite E in Hn. pose proof (Hcl i z Hz Hn). set_solver.
  - intros a Ha. unfold removeChild. destruct (parentCancelCtx p); rewrite ?length_alter; auto.
  - intros i y Hy. destruct (removeChild_lookup _ _ _ _ _ Hy) as (z & Hz & _ & -> & _).
    rewrite (He i z Hz). by setoid_rewrite (under_shape _ _ _ i Hs).
Qed.

(** Cancelling cell [id] as a step of a history. *)
Lemma contexts_inv_mark err h h' id called : contexts_inv h called -> (id < length h)%nat ->
  marked err (under h id) h h' -> contexts_inv h' (id :: called).
Proof.
  intros [Hw Hcl Hb He] Hlt Hm. pose proof (marked_shape _ _ _ _ Hm) as Hs. split.
  - eapply wf_mark; [done| |done]. by apply under_descends.
  - intros p. by eapply closed_mark.
  - intros a. rewrite elem_of_cons, (marked_length _ _ _ _ Hm). naive_solver.
  - intros c y Hy. setoid_rewrite <- (under_shape _ _ _ c Hs). setoid_rewrite elem_of_cons.
    destruct (marked_lookup _ _ _ _ _ _ Hm Hy) as (x & Hx & [[Hu ->]|[Hu ->]]).
    + split; [intros _; eauto|done].
    + rewrite (He c x Hx). split; [naive_solver|]. intros (a & [->|Ha] & Hua); [done|eauto].
Qed.

Lemma contexts_cancel err h called id p : contexts_inv h called -> valid h (cancelCtx id p) ->
  contexts_inv (cancel (cancelCtx id p) err h) (id :: called) /\ keeps h (cancel (cancelCtx id p) err h).
Proof.
  intros Hi [V Hc]. cbn [cancel]. destruct (h !! id) as [x|] eqn:Hx; [|done].
  assert (id < length h)%nat as Hlt by (by eapply lookup_lt_Some).
  assert (marked err (under h id) h (cancel_cell (length h) err h id)) as Hm.
  { apply cancel_mark; [apply Hi|intros q _; apply Hi|lia]. }
  destruct (cc_err x) as [e|] eqn:He.
  - split; [|done]. apply (contexts_inv_mark err h h); [done..|].
    apply (marked_self err h id x); [apply Hi|intros q _; apply Hi|done|congruence].
  - destruct (Hm id) as [[_ E]|[Hn _]]; [|destruct Hn; by left]. split.
    + eapply contexts_inv_removeChild; [by eapply contexts_inv_mark|by rewrite E, Hx|done].
    + split; [|intros c Vc; eapply valid_shape; [apply removeChild_shape|eapply valid_shape; [by eapply marked_shape|done]]].
      unfold removeChild. destruct (parentCancelCtx p); rewrite ?length_alter, (marked_length _ _ _ _ Hm); lia.
Qed.

(** ** A context made from another *)

Lemma valid_app h x c : valid h c -> valid (h ++ [x]) c.
Proof.
  induction c as [|c IH k v|id c IH]; cbn; [done|done|]. intros [V E]. split; [auto|].
  destruct (h !! id) as [y|] eqn:Hy; [|done]. by rewrite (lookup_app_l_Some _ _ _ _ Hy).
Qed.
Lemma valid_bound h c i : valid h c -> i ∈ lineage c -> (i < length h)%nat.
Proof.
  induction c as [|c IH k v|id c IH]; cbn; [by intros _ ?%not_elem_of_nil|auto|].
  intros [V E]. rewrite elem_of_cons. intros [->|Hi]; [|auto].
  destruct (h !! id) eqn:Hid; [by eapply lookup_lt_Some|done].
Qed.
Lemma app_lookup h (x : cell) c y : (h ++ [x]) !! c = Some y -> (h !! c = Some y) \/ c = length h /\ y = x.
Proof.
  intros [Hy|[Hle Hy]]%lookup_app_Some; [by left|right].
  apply list_lookup_singleton_Some in Hy as [Hz ->]. split; [lia|done].
Qed.

(** The heap after [WithCancel]: the new cell starts with the error of its parent; a live
    parent learns of it. *)
Lemma WithCancel_lookup h p c : valid h p -> (WithCancel p h).2 !! c =
  if decide (c = length h) then Some (mkCell p ∅ (Err_ p h))
  else if decide (parentCancelCtx p = Some c /\ Err_ p h = None)
  then (λ x, set_children (cc_children x ∪ {[length h]}) x) <$> h !! c
  else h !! c.
Proof.
  intros V. unfold WithCancel, propagateCancel, Err_. cbn [snd].
  assert ((h ++ [mkCell p ∅ None]) !! length h = Some (mkCell p ∅ None)) as Hnew by (by apply list_lookup_middle).
  assert (forall c, c <> length h -> (h ++ [mkCell p ∅ None]) !! c = h !! c) as Hold.
  { intros i Hi. destruct (decide (i < length h)%nat); [by apply lookup_app_l|].
    rewrite (lookup_ge_None_2 h i), lookup_ge_None_2; [done|rewrite length_app; cbn; lia|lia]. }
  destruct (parentCancelCtx p) as [q|] eqn:Hq; cbn [mbind option_bind].
  2: { destruct (decide (c = length h)) as [->|Hne]; [done|]. rewrite decide_False by naive_solver. auto. }
  destruct (valid_parent h p q V Hq) as [x Hx]. rewrite (lookup_app_l_Some _ _ _ _ Hx), Hx. cbn [mbind option_bind].
  assert (q <> length h) as Hql by (apply lookup_lt_Some in Hx; lia).
  destruct (cc_err x) as [e|] eqn:He.
  - rewrite length_app, Nat.add_comm. cbn [cancel_cell length]. rewrite Nat.add_1_l. cbn [cancel_cell].
    rewrite Hnew. cbn [cc_err cc_children]. rewrite elements_empty. cbn [fold_left].
    destruct (decide (c = length h)) as [->|Hne]; [by rewrite !list_lookup_alter_eq, Hnew|].
    rewrite !list_lookup_alter_ne by done. rewrite decide_False by naive_solver. auto.
  - destruct (decide (c = length h)) as [->|Hne]; [by rewrite list_lookup_alter_ne|].
    destruct (decide (c = q)) as [->|Hcq].
    + rewrite decide_True by done. by rewrite list_lookup_alter_eq, Hold.
    + rewrite decide_False by naive_solver. rewrite list_lookup_alter_ne by done. auto.
Qed.

Lemma WithCancel_old h p c x : valid h p -> h !! c = Some x -> exists y, (WithCancel p h).2 !! c = Some y /\
  cc_Context y = cc_Context x /\ cc_err y = cc_err x /\ cc_children x ⊆ cc_children y.
Proof.
  intros V Hx. rewrite WithCancel_lookup by done. pose proof (lookup_lt_Some _ _ _ Hx).
  rewrite decide_False by lia. destruct (decide _); rewrite Hx; eexists; (split; [done|]); set_solver.
Qed.

Lemma WithCancel_new h p c y : valid h p -> (WithCancel p h).2 !! c = Some y ->
  c = length h /\ y = mkCell p ∅ (Err_ p h) \/
  exists x, h !! c = Some x /\ cc_Context y = cc_Context x /\ cc_err y = cc_err x /\
    (cc_children y = cc_children x \/
     parentCancelCtx p = Some c /\ Err_ p h = None /\ cc_children y = cc_children x ∪ {[length h]}).
Proof.
  intros V. rewrite WithCancel_lookup by done. destruct (decide (c = length h)); [naive_solver|].
  destruct (decide _) as [[? ?]|]; [|intros ->; right; exists y; auto].
  destruct (h !! c) as [x|]; [|done]. intros [= <-]. right. exists x. cbn. auto 10.
Qed.

Lemma WithCancel_length h p : valid h p -> length (WithCancel p h).2 = S (length h).
Proof.
  intros V. pose proof (WithCancel_lookup h p (length h) V) as E. rewrite decide_True in E by done.
  apply lookup_lt_Some in E. pose proof (WithCancel_lookup h p (S (length h)) V) as E'.
  rewrite decide_False in E' by lia. rewrite (lookup_ge_None_2 h (S (length h))) in E' by lia.
  destruct (decide _); apply lookup_ge_None in E'; lia.
Qed.

Lemma WithCancel_keeps h p : valid h p -> keeps h (WithCancel p h).2.
Proof.
  intros V. split; [rewrite WithCancel_length by done; lia|]. intros c.
  induction c as [|c IH k v|id c IH]; cbn; [done|done|]. intros [Vc E]. split; [auto|].
  destruct (h !! id) as [x|] eqn:Hx; [|done]. destruct (WithCancel_old h p id x V Hx) as (y & -> & Ey & _).
  cbn in *. by rewrite Ey.
Qed.

Lemma Err_spec c h : IsCancelled c h = true <-> Err_ c h <> None.
Proof. unfold IsCancelled. destruct (Err_ c h); naive_solver. Qed.

Lemma WithCancel_wf h p : heap_wf h -> valid h p -> heap_wf (WithCancel p h).2.
Proof.
  intros Hw V. pose proof (proj2 (WithCancel_keeps h p V)) as Hk. split.
  - intros c y [[-> ->]|(x & Hx & -> & _)]%WithCancel_new; [| |done].
    + cbn. split; [auto|]. intros i Hi. by apply (valid_bound h p).
    + destruct (wf_made h Hw c x Hx). auto.
  - intros c y k [[-> ->]|(x & Hx & _ & _ & Hch)]%WithCancel_new Hin; [set_solver| |done].
    assert (k ∈ cc_children x \/ parentCancelCtx p = Some c /\ k = length h) as [Hin'|[Hp ->]] by set_solver.
    + destruct (wf_child h Hw c x k Hx Hin') as (z & Hz & Hp).
      destruct (WithCancel_old h p k z V Hz) as (z' & Hz' & E & _). exists z'. by rewrite E.
    + exists (mkCell p ∅ (Err_ p h)). split; [|done]. rewrite WithCancel_lookup by done. by rewrite decide_True.
  - intros k y q x Hy Hn Hq Hx. apply WithCancel_new in Hy as [[-> ->]|(y0 & Hy0 & E & En & _)]; [| |done].
    + cbn in *. rewrite WithCancel_lookup in Hx by done. destruct (valid_parent h p q V Hq) as [x0 Hx0].
      rewrite decide_False in Hx by (apply lookup_lt_Some in Hx0; lia). rewrite decide_True in Hx by done.
      rewrite Hx0 in Hx. injection Hx as <-. set_solver.
    + rewrite E in Hq. rewrite En in Hn.
      destruct (valid_parent h _ q (proj1 (wf_made h Hw k y0 Hy0)) Hq) as [x0 Hx0].
      destruct (WithCancel_old h p q x0 V Hx0) as (x1 & Hx1 & _ & _ & Hsub). simplify_eq.
      apply Hsub. by eapply wf_live.
Qed.

Lemma contexts_WithCancel h called p : contexts_inv h called -> valid h p ->
  contexts_inv (WithCancel p h).2 called /\ valid (WithCancel p h).2 (WithCancel p h).1 /\
  keeps h (WithCancel p h).2.
Proof.
  intros Hi V. pose proof Hi as [Hw Hcl Hb He]. pose proof (WithCancel_keeps h p V) as Hk.
  assert ((WithCancel p h).2 !! length h = Some (mkCell p ∅ (Err_ p h))) as Hnew
    by (rewrite WithCancel_lookup by done; by rewrite decide_True).
  split; [|split; [|done]]; [split|].
  - by apply WithCancel_wf.
  - intros c y [[-> ->]|(x & Hx & _ & E & Hch)]%WithCancel_new Hn; [done| |done]. rewrite E in Hn.
    destruct Hch as [->|(Hp & Hnone & _)]; [by apply (Hcl c)|].
    unfold Err_ in Hnone. rewrite Hp in Hnone. cbn in Hnone. rewrite Hx in Hnone. done.
  - intros a Ha. rewrite WithCancel_length by done. specialize (Hb a Ha). lia.
  - intros c y Hy. destruct (WithCancel_new h p c y V Hy) as [[-> ->]|(x & Hx & Ec & Ee & _)].
    + cbn. rewrite <- Err_spec, (contexts_done h called p Hi V). unfold under, made_from. rewrite Hnew. cbn.
      split; [naive_solver|]. intros (a & Ha & [<-|Hin]); [specialize (Hb _ Ha); lia|eauto].
    + rewrite Ee, (He c x Hx). unfold under, made_from. rewrite Hy, Hx. cbn. by rewrite Ec.
  - cbn. split; [by apply Hk|]. change (cc_Context <$> (WithCancel p h).2 !! length h = Some p). by rewrite Hnew.
Qed.

End contexts.
Arguments cvalue : clear implicits.
Arguments context : clear implicits.
Arguments cell : clear implicits.
#[global] Arguments WithCancel : simpl never.
