(* ===== verification/Scopes.v ===== *)
(** * The contexts of a serving daemon

    From the context of the program (cmd/stout/main.go) over those of the server
    (daemon/daemon.go [ServeOnListeners]), of a connection and of its channels
    (isolate/conn_handler.go) to those of the requests (isolate/initialdispatch.go): what
    each carries and what cancels it, in every interleaving of connections, channels,
    requests and cancellations. *)

From Stdlib Require Import ZArith Lia String.
From stdpp Require Import pretty.
From S2P Require Import Prelude Context.

Section scopes.
Context {Bx : Type}.
Implicit Types (c d : context Bx) (h : list (cell Bx)).

(** [newConnectionHandler]: the identifier of the connection and [h.ctx]. *)
Definition newConnectionHandler (unix rand : Z) (ctx : context Bx) : string * context Bx :=
  let connID := getID unix rand ctx in
  (connID, WithLogger ctx (WithField "conn.id" connID (GetLogger ctx))).

(** The contexts of one connection: [h.ctx], the one [HandleConn] makes and cancels when
    it returns, its variable [ctx], those of the dispatchers of the channels opened so far
    and those of the requests. *)
Record conn_scope := mkScope {
  k_id : string;
  k_handler : context Bx;
  k_top : context Bx;
  k_ctx : context Bx;
  k_chans : list (Z * context Bx);
  k_ops : list (Z * context Bx)
}.

Definition channel_name (connID : string) (ch : Z) : string := (connID +:+ "." +:+ pretty ch)%string.

(** [HandleConn] of an accepted connection up to its loop. *)
Definition open_conn (unix rand : Z) (serve : context Bx) (connID : string) h : conn_scope * list (cell Bx) :=
  let '(id, hctx) := newConnectionHandler unix rand (WithValue serve (KString "conn.id") (VString connID)) in
  let '(ctx, h) := WithCancel hctx h in
  (mkScope id hctx ctx ctx [] [], h).

(** The first message of channel [ch]. *)
Definition open_channel (ch : Z) (k : conn_scope) : conn_scope :=
  let logger := GetLogger (k_handler k) in
  let ctx := WithLogger (k_ctx k) (WithField "channel" (channel_name (k_id k) ch) logger) in
  mkScope (k_id k) (k_handler k) (k_top k) ctx (k_chans k ++ [(ch, ctx)]) (k_ops k).

(** [onSpool] or [onSpawn] of a dispatcher with context [d]. *)
Definition open_request (ch : Z) (d : context Bx) (k : conn_scope) h : conn_scope * list (cell Bx) :=
  let '(ctx, h) := WithCancel d h in
  (mkScope (k_id k) (k_handler k) (k_top k) (k_ctx k) (k_chans k) (k_ops k ++ [(ch, ctx)]), h).

Record scopes := mkScopes {
  s_heap : list (cell Bx);
  s_main : context Bx;                  (* of main, cancelled when it returns *)
  s_serve : context Bx;                 (* of ServeOnListeners *)
  s_conns : list conn_scope;
  s_calls : list nat                    (* the cancel functions called so far *)
}.

(** [main] up to [Serve], and [ServeOnListeners] up to its loops. *)
Definition scopes_start (boxes : gmap string Bx) : scopes :=
  let ctx := WithLogger background (NewEntry 1) in
  let '(main, h) := WithCancel ctx [] in
  let '(serve, h) := WithCancel (WithValue main (KString BoxesTag) (VBoxes boxes)) h in
  mkScopes h main serve [] [].

Inductive scope_event :=
  | SAccept (connID : string) (unix rand : Z)
  | SChannel (j : nat) (ch : Z)
  | SRequest (j i : nat)                (* a request on the i-th channel of connection j *)
  | SCancel (j i : nat)                 (* the i-th request of connection j is cancelled *)
  | SConnReturn (j : nat)               (* HandleConn returns *)
  | SServeReturn
  | SMainReturn.

Definition with_conn (j : nat) (k : conn_scope) (h : list (cell Bx)) (s : scopes) : scopes :=
  mkScopes h (s_main s) (s_serve s) (<[j := k]> (s_conns s)) (s_calls s).

(** A call of the cancel function of [c]. *)
Definition call_cancel (c : context Bx) (s : scopes) : scopes :=
  mkScopes (cancel c Canceled (s_heap s)) (s_main s) (s_serve s) (s_conns s)
    (match c with cancelCtx id _ => id :: s_calls s | _ => s_calls s end).

Definition scope_exec (e : scope_event) (s : scopes) : option scopes :=
  match e with
  | SAccept connID unix rand =>
      let '(k, h) := open_conn unix rand (s_serve s) connID (s_heap s) in
      Some (mkScopes h (s_main s) (s_serve s) (s_conns s ++ [k]) (s_calls s))
  | SChannel j ch =>
      k ← s_conns s !! j; Some (with_conn j (open_channel ch k) (s_heap s) s)
  | SRequest j i =>
      k ← s_conns s !! j; '(ch, d) ← k_chans k !! i;
      let '(k, h) := open_request ch d k (s_heap s) in
      Some (with_conn j k h s)
  | SCancel j i =>
      k ← s_conns s !! j; '(_, c) ← k_ops k !! i; Some (call_cancel c s)
  | SConnReturn j => k ← s_conns s !! j; Some (call_cancel (k_top k) s)
  | SServeReturn => Some (call_cancel (s_serve s) s)
  | SMainReturn => Some (call_cancel (s_main s) s)
  end.

Inductive scopes_reach (boxes : gmap string Bx) : scopes -> Prop :=
  | scopes_init : scopes_reach boxes (scopes_start boxes)
  | scopes_step e s s' : scopes_reach boxes s -> scope_exec e s = Some s' -> scopes_reach boxes s'.

(** The cancel function of [c] was called. *)
Definition called (s : scopes) (c : context Bx) : bool :=
  match c with cancelCtx id _ => bool_decide (id ∈ s_calls s) | _ => false end.

(** ** What a context carries *)

(** The values of a context inside connection [id], and its logger. *)
Definition carries (boxes : gmap string Bx) (id : string) (l : Logger) (c : context Bx) : Prop :=
  getBoxes c = Some boxes /\ (forall unix rand, getID unix rand c = id) /\ GetLogger c = l.

Lemma carries_logger boxes id l l' c : carries boxes id l c -> carries boxes id l' (WithLogger c l').
Proof. intros (A & B & _). split_and!; [exact A|exact B|done]. Qed.
Lemma carries_cancel boxes id l c h : carries boxes id l c -> carries boxes id l (WithCancel c h).1.
Proof. intros H. exact H. Qed.

Definition conn_logger (id : string) : Logger := WithField "conn.id" id (NewEntry 1).
Definition chan_logger (id : string) (ch : Z) : Logger :=
  WithField "channel" (channel_name id ch) (conn_logger id).

(** A cancellable context directly under [parent]. *)
Definition child_of (h : list (cell Bx)) (ancestors : list nat) (c : context Bx) : Prop :=
  exists id p, c = cancelCtx id p /\ valid h c /\ lineage p = ancestors.

Section invariant.
Context (boxes : gmap string Bx).

Record scope_ok (h : list (cell Bx)) (serve : context Bx) (k : conn_scope) : Prop := {
  k_handler_ok : carries boxes (k_id k) (conn_logger (k_id k)) (k_handler k);
  k_top_ok : child_of h (lineage serve) (k_top k);
  k_ctx_ok : exists l, carries boxes (k_id k) l (k_ctx k);
  k_ctx_line : valid h (k_ctx k) /\ lineage (k_ctx k) = lineage (k_top k);
  k_chans_ok ch d : (ch, d) ∈ k_chans k -> carries boxes (k_id k) (chan_logger (k_id k) ch) d /\
    valid h d /\ lineage d = lineage (k_top k);
  k_ops_ok ch c : (ch, c) ∈ k_ops k -> carries boxes (k_id k) (chan_logger (k_id k) ch) c /\
    child_of h (lineage (k_top k)) c
}.

Record scopes_ok (s : scopes) : Prop := {
  so_inv : contexts_inv (s_heap s) (s_calls s);
  so_main : child_of (s_heap s) [] (s_main s);
  so_serve : child_of (s_heap s) (lineage (s_main s)) (s_serve s);
  so_boxes : getBoxes (s_serve s) = Some boxes /\ GetLogger (s_serve s) = NewEntry 1;
  so_conns k : k ∈ s_conns s -> scope_ok (s_heap s) (s_serve s) k
}.

Lemma child_keeps h h' l c : keeps h h' -> child_of h l c -> child_of h' l c.
Proof. intros [_ K] (id & p & -> & V & E). exists id, p. split_and!; [done|by apply K|done]. Qed.

Lemma child_made h calls p : contexts_inv h calls -> valid h p ->
  child_of (WithCancel p h).2 (lineage p) (WithCancel p h).1.
Proof.
  intros Hi V. destruct (contexts_WithCancel h calls p Hi V) as (_ & V' & _).
  by exists (length h), p.
Qed.

(** A step of the heap keeps what holds of a connection. *)
Lemma scope_keeps h h' serve k : keeps h h' -> scope_ok h serve k -> scope_ok h' serve k.
Proof.
  intros K [A B C [D1 D2] F G]. pose proof K as [_ K']. split; [done|by eapply child_keeps|done|auto| |].
  - intros ch d Hd. destruct (F ch d Hd) as (? & ? & ?). auto.
  - intros ch c Hc. destruct (G ch c Hc). eauto using child_keeps.
Qed.

Lemma open_channel_ok h serve ch k : scope_ok h serve k -> scope_ok h serve (open_channel ch k).
Proof.
  intros [A B [l C] [D1 D2] F G]. assert (GetLogger (k_handler k) = conn_logger (k_id k)) as El by apply A.
  split; cbn; [done|done|eexists; by eapply carries_logger|done| |done].
  intros ch' d. rewrite elem_of_app, list_elem_of_singleton. intros [Hd|[= -> ->]]; [by apply F|].
  rewrite El. split; [by eapply carries_logger|done].
Qed.

Lemma open_request_ok h calls serve ch d k : contexts_inv h calls -> (ch, d) ∈ k_chans k -> scope_ok h serve k ->
  scope_ok (open_request ch d k h).2 serve (open_request ch d k h).1.
Proof.
  intros Hi Hd Hk. destruct (k_chans_ok h serve k Hk ch d Hd) as (Cd & Vd & Ld).
  destruct (contexts_WithCancel h calls d Hi Vd) as (_ & _ & K).
  unfold open_request. destruct (WithCancel d h) as [c h'] eqn:E. cbn in K.
  pose proof (child_made _ _ d Hi Vd) as Hc. rewrite E in Hc. cbn in Hc.
  destruct (scope_keeps h h' serve k K Hk) as [A B C D F G].
  split; cbn in *; [done..|]. intros ch' c'. rewrite elem_of_app, list_elem_of_singleton.
  intros [Hin|[= -> ->]]; [by apply G|]. rewrite <- Ld. split; [|done].
  pose proof (carries_cancel _ _ _ _ h Cd) as Cc. by rewrite E in Cc.
Qed.

Lemma open_conn_ok s unix rand connID : scopes_ok s ->
  let r := open_conn unix rand (s_serve s) connID (s_heap s) in
  contexts_inv r.2 (s_calls s) /\ keeps (s_heap s) r.2 /\ k_id r.1 = connID /\
  scope_ok r.2 (s_serve s) r.1.
Proof.
  intros [Hi Hm Hv [Hb Hl] Hk]. unfold open_conn, newConnectionHandler.
  set (c0 := WithValue (s_serve s) _ _). change (getID unix rand c0) with connID.
  set (hc := WithLogger c0 _). destruct Hv as (id & p & E & V & Lp).
  assert (valid (s_heap s) hc) as Vh by done.
  destruct (contexts_WithCancel (s_heap s) (s_calls s) hc Hi Vh) as (Hi' & V' & K).
  assert (carries boxes connID (conn_logger connID) hc) as Ch.
  { unfold carries, hc, conn_logger. rewrite <- Hl. split_and!; [exact Hb|done|done]. }
  pose proof (child_made _ _ hc Hi Vh) as Hc. pose proof (carries_cancel _ _ _ _ (s_heap s) Ch) as Cc.
  destruct (WithCancel hc (s_heap s)) as [c h] eqn:Ew. cbn in *. split_and!; [done..|].
  split; cbn; [done|done|by eexists|done| |]; intros ? ? []%not_elem_of_nil.
Qed.

End invariant.

Lemma scopes_ok_start boxes : scopes_ok boxes (scopes_start boxes).
Proof.
  unfold scopes_start. set (c0 := WithLogger background (NewEntry 1)).
  assert (valid [] c0) as V0 by done.
  destruct (contexts_WithCancel [] [] c0 contexts_inv_nil V0) as (H1 & V1 & K1).
  pose proof (child_made [] [] c0 contexts_inv_nil V0) as C1.
  assert (getBoxes (WithValue (WithCancel c0 []).1 (KString BoxesTag) (VBoxes boxes)) = Some boxes /\
    GetLogger (WithValue (WithCancel c0 []).1 (KString BoxesTag) (VBoxes boxes)) = NewEntry 1) as Hv by done.
  destruct (WithCancel c0 []) as [main h1] eqn:E1. cbn in *.
  set (c1 := WithValue main _ _) in *. assert (valid h1 c1) as V1' by done.
  destruct (contexts_WithCancel h1 [] c1 H1 V1') as (H2 & V2 & K2).
  pose proof (child_made h1 [] c1 H1 V1') as C2.
  assert (getBoxes (WithCancel c1 h1).1 = Some boxes /\ GetLogger (WithCancel c1 h1).1 = NewEntry 1) as Hv2 by exact Hv.
  destruct (WithCancel c1 h1) as [serve h2] eqn:E2. cbn in *.
  split; cbn; [done|exact (child_keeps _ _ _ _ K2 C1)|exact C2|exact Hv2|]. intros k []%not_elem_of_nil.
Qed.

Lemma scopes_ok_cancel boxes s c l : scopes_ok boxes s -> child_of (s_heap s) l c -> scopes_ok boxes (call_cancel c s).
Proof.
  intros [Hi Hm Hv Hb Hk] (id & p & -> & V & _).
  destruct (contexts_cancel Canceled _ _ _ _ Hi V) as [Hi' K].
  split; cbn [call_cancel s_heap s_calls s_main s_serve s_conns]; eauto using child_keeps.
  intros k Hin. eapply scope_keeps; [exact K|by apply Hk].
Qed.

(** A connection replaced by one that is well scoped in a heap that keeps the old one. *)
Lemma scopes_ok_conn boxes s j k h : scopes_ok boxes s -> contexts_inv h (s_calls s) -> keeps (s_heap s) h ->
  scope_ok boxes h (s_serve s) k -> scopes_ok boxes (with_conn j k h s).
Proof.
  intros [Hi Hm Hv Hb Hk] Hi' K Hnew. split; cbn; eauto using child_keeps.
  intros k' [i Hin]%list_elem_of_lookup. apply list_lookup_insert_Some in Hin as [(-> & <- & _)|[_ Hold]]; [done|].
  eapply (scope_keeps boxes (s_heap s)); [exact K|]. apply Hk. by eapply list_elem_of_lookup_2.
Qed.

Lemma scopes_ok_exec boxes e s s' : scopes_ok boxes s -> scope_exec e s = Some s' -> scopes_ok boxes s'.
Proof.
  intros Hs. pose proof Hs as [Hi Hm Hv Hb Hk].
  assert (forall j k, s_conns s !! j = Some k -> scope_ok boxes (s_heap s) (s_serve s) k) as Hk'
    by (intros j k Hj; apply Hk; by eapply list_elem_of_lookup_2).
  destruct e as [connID unix rand|j ch|j i|j i|j| |]; cbn [scope_exec].
  - destruct (open_conn_ok boxes s unix rand connID Hs) as (Hi' & K & _ & Hnew).
    destruct (open_conn _ _ _ _ _) as [k h]. intros [= <-]. cbn in *.
    split; cbn; eauto using child_keeps. intros k'. rewrite elem_of_app, list_elem_of_singleton.
    intros [Hin| ->]; [|exact Hnew]. eapply (scope_keeps boxes (s_heap s)); [exact K|by apply Hk].
  - destruct (s_conns s !! j) as [k|] eqn:Hj; [|done]. intros [= <-].
    apply scopes_ok_conn; [done|done|apply keeps_refl|]. by apply open_channel_ok, (Hk' j).
  - destruct (s_conns s !! j) as [k|] eqn:Hj; cbn; [|done].
    destruct (k_chans k !! i) as [[ch d]|] eqn:Hc; cbn; [|done]. apply list_elem_of_lookup_2 in Hc.
    pose proof (open_request_ok boxes _ _ _ ch d k Hi Hc (Hk' j k Hj)) as Hnew.
    destruct (k_chans_ok boxes _ _ k (Hk' j k Hj) ch d Hc) as (_ & Vd & _).
    destruct (contexts_WithCancel _ _ d Hi Vd) as (Hi' & _ & K). unfold open_request in *.
    destruct (WithCancel d (s_heap s)) as [c h]. intros [= <-]. by apply scopes_ok_conn.
  - destruct (s_conns s !! j) as [k|] eqn:Hj; cbn; [|done].
    destruct (k_ops k !! i) as [[ch c]|] eqn:Hc; cbn; [|done]. intros [= <-].
    destruct (k_ops_ok boxes _ _ k (Hk' j k Hj) ch c) as [_ Hch]; [by eapply list_elem_of_lookup_2|].
    by eapply scopes_ok_cancel.
  - destruct (s_conns s !! j) as [k|] eqn:Hj; [|done]. intros [= <-].
    eapply scopes_ok_cancel; [done|]. by apply (k_top_ok boxes _ _ k (Hk' j k Hj)).
  - intros [= <-]. by eapply scopes_ok_cancel.
  - intros [= <-]. by eapply scopes_ok_cancel.
Qed.

Lemma scopes_reach_ok boxes s : scopes_reach boxes s -> scopes_ok boxes s.
Proof. induction 1; [apply scopes_ok_start|by eapply scopes_ok_exec]. Qed.

Lemma called_spec s (c : context Bx) id p : c = cancelCtx id p -> called s c = true <-> id ∈ s_calls s.
Proof. intros ->. apply bool_decide_eq_true. Qed.

(** C6: In every interleaving the context given to a box for a request carries the boxes
    of the daemon ([getBoxes] does not panic), the identifier of its connection and a
    logger with exactly the fields of the connection and of its own channel, however many
    channels were opened before; and it is cancelled exactly when its own cancel function
    was called, or its connection, the server or the program ended. *)
Theorem request_context boxes s j k i ch c :
  scopes_reach boxes s -> s_conns s !! j = Some k -> k_ops k !! i = Some (ch, c) ->
  getBoxes c = Some boxes /\ (forall unix rand, getID unix rand c = k_id k) /\
  lg_fields (GetLogger c) = [("conn.id", k_id k); ("channel", channel_name (k_id k) ch)]%string /\
  (IsCancelled c (s_heap s) = true <->
     (called s c || called s (k_top k) || called s (s_serve s) || called s (s_main s))%bool = true).
Proof.
  intros [Hi Hm Hv Hb Hk]%scopes_reach_ok Hj Hc. apply list_elem_of_lookup_2 in Hj, Hc.
  destruct (Hk k Hj) as [A B _ _ _ G]. destruct (G ch c Hc) as [(C1 & C2 & C3) Hch].
  rewrite C3. split_and!; [done..|].
  destruct Hch as (i1 & p1 & E1 & V1 & L1), B as (i2 & p2 & E2 & _ & L2), Hv as (i3 & p3 & E3 & _ & L3),
    Hm as (i4 & p4 & E4 & _ & L4).
  rewrite (contexts_done _ _ c Hi V1), !orb_true_iff.
  rewrite (called_spec s c _ _ E1), (called_spec s _ _ _ E2), (called_spec s _ _ _ E3), (called_spec s _ _ _ E4).
  assert (lineage c = [i1; i2; i3; i4]) as ->
    by (rewrite E1; cbn; rewrite L1, E2; cbn; rewrite L2, E3; cbn; rewrite L3, E4; cbn; by rewrite L4).
  setoid_rewrite elem_of_cons. setoid_rewrite elem_of_cons. setoid_rewrite elem_of_cons.
  setoid_rewrite list_elem_of_singleton. naive_solver.
Qed.

End scopes.

(** ** The chain of a connection's channels *)

Fixpoint depth {Bx} (c : context Bx) : nat :=
  match c with
  | background => 0
  | valueCtx p _ _ | cancelCtx _ p => S (depth p)
  end.

(** Each channel wraps the context of the one opened before it, so the contexts of a
    connection get longer with every channel it ever opened. *)
Lemma channels_nest {Bx} (k : conn_scope (Bx := Bx)) chs :
  depth (k_ctx (fold_left (λ k ch, open_channel ch k) chs k)) = (depth (k_ctx k) + length chs)%nat.
Proof. revert k. induction chs as [|ch chs IH]; intros k; cbn; [lia|]. rewrite IH. cbn. lia. Qed.

(** ** An example: two connections, one of which ends *)

Fixpoint scope_run {Bx} (es : list scope_event) (s : scopes (Bx := Bx)) : option scopes :=
  match es with
  | [] => Some s
  | e :: es => s ← scope_exec e s; scope_run es s
  end.

Lemma scope_run_reach {Bx} boxes es (s s' : scopes (Bx := Bx)) :
  scopes_reach boxes s -> scope_run es s = Some s' -> scopes_reach boxes s'.
Proof.
  revert s. induction es as [|e es IH]; intros s H; cbn; [by intros [= <-]|].
  destruct (scope_exec e s) as [s1|] eqn:E; cbn; [|done]. apply IH. by econstructor.
Qed.

Definition demo_scope_events : list scope_event :=
  [SAccept "a1" 0 0; SAccept "b2" 0 0; SChannel 0 1; SChannel 0 2; SRequest 0 1; SChannel 1 1;
   SRequest 1 0; SConnReturn 0]%string.
Definition demo_scopes : scopes :=
  default (scopes_start ∅) (scope_run demo_scope_events (scopes_start {["process"%string := tt]})).
Definition demo_request (j : nat) : context unit :=
  default background (k ← s_conns demo_scopes !! j; snd <$> k_ops k !! 0%nat).
Definition demo_conn (j : nat) : conn_scope :=
  default (mkScope "" background background background [] []) (s_conns demo_scopes !! j).

Lemma request_context_witness :
  getBoxes (demo_request 0) = Some {["process"%string := tt]} /\
  lg_fields (GetLogger (demo_request 0)) = [("conn.id", "a1"); ("channel", "a1.2")]%string /\
  IsCancelled (demo_request 0) (s_heap demo_scopes) = true /\
  ~ IsCancelled (demo_request 1) (s_heap demo_scopes) = true.
Proof.
  assert (scopes_reach {["process"%string := tt]} demo_scopes) as H
    by (eapply (scope_run_reach _ demo_scope_events); [constructor|vm_compute; reflexivity]).
  destruct (request_context _ demo_scopes 0 (demo_conn 0) 0 2 (demo_request 0) H) as (A & _ & B & C);
    [vm_compute; reflexivity..|].
  destruct (request_context _ demo_scopes 1 (demo_conn 1) 0 1 (demo_request 1) H) as (_ & _ & _ & D);
    [vm_compute; reflexivity..|].
  split_and!; [exact A|rewrite B; vm_compute; reflexivity|apply C; vm_compute; reflexivity|].
  rewrite D. vm_compute. discriminate.
Defined.
