(* ===== verification/Pools.v ===== *)
(** * Pooled buffers

    Profiles and outgoing messages are built in byte slices taken from two pools shared by
    all goroutines (isolate/profile.go, isolate/proto_decoders.go, isolate/conn_handler.go).
    Here slices share arrays of a store and [append] writes in place while the capacity
    lasts.  The refinement theorem shows that whatever the interleaving, the growth of
    slices and what a pool returns, each profile and message reads its own bytes: the
    pools can be forgotten, as the other files do. *)

From Stdlib Require Import ZArith Lia Strings.Byte.
From S2P Require Import Prelude.

(** ** Slices *)

Record slice := mkSlice { sl_arr : nat; sl_off : nat; sl_len : nat; sl_cap : nat }.
#[global] Instance slice_eq_dec : EqDecision slice.
Proof. solve_decision. Defined.

Abbreviation arrays := (list (list byte)).

Definition contents (h : arrays) (s : slice) : list byte :=
  take (sl_len s) (drop (sl_off s) (default [] (h !! sl_arr s))).

(** [make([]byte, len, cap)] *)
Definition make (len cap : nat) (h : arrays) : slice * arrays :=
  (mkSlice (length h) 0 len cap, h ++ [replicate cap x00]).

(** [s[:0]] *)
Definition reset (s : slice) : slice := mkSlice (sl_arr s) (sl_off s) 0 (sl_cap s).

(** Appending [bs]: in place when it fits, otherwise into a new array of [newcap] bytes. *)
Definition append_to (newcap : nat) (s : slice) (bs : list byte) (h : arrays) : slice * arrays :=
  let need := (sl_len s + length bs)%nat in
  if (need <=? sl_cap s)%nat then
    (mkSlice (sl_arr s) (sl_off s) need (sl_cap s),
     alter (list_inserts (sl_off s + sl_len s) bs) (sl_arr s) h)
  else
    (mkSlice (length h) 0 need newcap,
     h ++ [contents h s ++ bs ++ replicate (newcap - need) x00]).

(** [ensure] of msgp, then the bytes: the array doubles. *)
Definition ensure (s : slice) (bs : list byte) (h : arrays) : slice * arrays :=
  append_to (2 * sl_cap s + length bs) s bs h.

Definition slice_ok (h : arrays) (s : slice) : Prop :=
  exists a, h !! sl_arr s = Some a /\ (sl_off s + sl_cap s <= length a)%nat /\ (sl_len s <= sl_cap s)%nat.

(** What a step leaves to a slice that it does not own. *)
Definition untouched (h h' : arrays) (a : nat) : Prop :=
  (length h <= length h')%nat /\ forall b x, b <> a -> h !! b = Some x -> h' !! b = Some x.

Lemma untouched_slice h h' a s : untouched h h' a -> sl_arr s <> a -> slice_ok h s ->
  slice_ok h' s /\ contents h' s = contents h s.
Proof.
  intros [_ H] Hne (x & Hx & Hl). pose proof (H _ _ Hne Hx) as Hx'. split; [by exists x|].
  unfold contents. by rewrite Hx, Hx'.
Qed.

Lemma slice_bound h s : slice_ok h s -> (sl_arr s < length h)%nat.
Proof. intros (x & Hx & _). by eapply lookup_lt_Some. Qed.

Lemma untouched_app h x a : untouched h (h ++ [x]) a.
Proof.
  split; [rewrite length_app; lia|]. intros b y _ Hy. by apply lookup_app_l_Some.
Qed.

Lemma make_spec len cap h : (len <= cap)%nat -> slice_ok (make len cap h).2 (make len cap h).1.
Proof.
  intros Hl. exists (replicate cap x00). cbn. split_and!; [by apply list_lookup_middle|rewrite length_replicate; lia|done].
Qed.

Lemma reset_ok h s : slice_ok h s -> slice_ok h (reset s) /\ contents h (reset s) = [].
Proof. intros (x & Hx & H1 & H2). split; [exists x; cbn; split_and!; [done..|lia]|done]. Qed.

Lemma inserts_contents off len (bs a : list byte) : (off + len + length bs <= length a)%nat ->
  take (len + length bs) (drop off (list_inserts (off + len) bs a)) = take len (drop off a) ++ bs.
Proof.
  intros H. assert (list_inserts (off + len) bs a = take (off + len) a ++ bs ++ drop (off + len + length bs) a) as ->.
  { apply list_eq. intros i. destruct (decide (i < off + len)%nat) as [H1|H1].
    - rewrite list_lookup_inserts_lt by lia. rewrite lookup_app_l by (rewrite length_take; lia).
      by rewrite lookup_take_lt by lia.
    - rewrite lookup_app_r by (rewrite length_take; lia). rewrite length_take, Nat.min_l by lia.
      destruct (decide (i < off + len + length bs)%nat) as [H2|H2].
      + rewrite list_lookup_inserts by lia. by rewrite lookup_app_l by lia.
      + rewrite list_lookup_inserts_ge by lia. rewrite lookup_app_r, lookup_drop by lia. f_equal. lia. }
  rewrite drop_app_le by (rewrite length_take; lia). rewrite app_assoc.
  replace (drop off (take (off + len) a)) with (take len (drop off a)).
  - apply take_app_length'. rewrite length_app, length_take, length_drop. lia.
  - rewrite take_drop_commute. done.
Qed.

(** Appending: the old bytes followed by the new ones, nobody else's array is written,
    and a slice moves to a new array or stays in its own. *)
Lemma append_spec newcap s bs h : slice_ok h s -> (sl_len s + length bs <= newcap)%nat ->
  slice_ok (append_to newcap s bs h).2 (append_to newcap s bs h).1 /\
  contents (append_to newcap s bs h).2 (append_to newcap s bs h).1 = contents h s ++ bs /\
  untouched h (append_to newcap s bs h).2 (sl_arr s) /\
  (sl_arr (append_to newcap s bs h).1 = sl_arr s \/
   sl_arr (append_to newcap s bs h).1 = length h /\ (append_to newcap s bs h).2 !! sl_arr s = h !! sl_arr s).
Proof.
  intros (a & Ha & Hc & Hl) Hn. unfold append_to. destruct (Nat.leb_spec (sl_len s + length bs) (sl_cap s)) as [Hfit|Hfull]; cbn.
  - assert (alter (list_inserts (sl_off s + sl_len s) bs) (sl_arr s) h !! sl_arr s =
      Some (list_inserts (sl_off s + sl_len s) bs a)) as E by (by rewrite list_lookup_alter_eq, Ha).
    split_and!.
    + eexists. split; [exact E|]. cbn. rewrite length_inserts. lia.
    + unfold contents. cbn. rewrite E, Ha. cbn. apply inserts_contents; lia.
    + split; [by rewrite length_alter|]. intros b x Hb Hx. by rewrite list_lookup_alter_ne.
    + by left.
  - assert (length (contents h s) = sl_len s) as Hlen
      by (unfold contents; rewrite Ha; cbn; rewrite length_take, length_drop; lia).
    split_and!.
    + eexists. cbn. split; [by apply list_lookup_middle|]. rewrite !length_app, length_replicate. lia.
    + unfold contents at 1. cbn. rewrite list_lookup_middle by done. cbn. rewrite drop_0, app_assoc.
      apply take_app_length'. rewrite length_app. lia.
    + apply untouched_app.
    + right. split; [done|]. apply lookup_app_l. by eapply lookup_lt_Some.
Qed.

(** ** The two pools and who holds their buffers *)

(** A message being built: [defer msgpackBytePool.Put(p)] has evaluated its argument,
    the slice as it was taken, while [p] goes on growing. *)
Record writer := mkWriter { w_orig : slice; w_p : slice }.

Record pools := mkPools {
  p_heap : arrays;
  profilesPool : list slice;
  msgpackBytePool : list slice;
  p_profiles : list (option slice);     (* buff of every profile, nil after DecodeTo *)
  p_writers : list (option writer)      (* the messages being built *)
}.

Definition pools_init : pools := mkPools [] [] [] [] [].

(** [Get]: an element of the pool or, at the discretion of the runtime, a new one. *)
Definition pool_get (pick : option nat) (len cap : nat) (pool : list slice) (h : arrays)
  : option (slice * list slice * arrays) :=
  match pick with
  | Some i => s ← pool !! i; Some (s, delete i pool, h)
  | None => Some ((make len cap h).1, pool, (make len cap h).2)
  end.

Inductive pool_event :=
  | NewProfile (pick : option nat)              (* newCocaineProfile *)
  | NewRaw (bs : list byte)                     (* NewRawProfile of a value encoded as bs *)
  | ProfileWrite (i : nat) (bs : list byte)     (* cocaineProfile.Write *)
  | ProfileString (i : nat)                     (* cocaineProfile.String, or Type *)
  | ProfileDecode (i : nat)                     (* cocaineProfile.DecodeTo *)
  | BeginMsg (pick : option nat)                (* Write, Error or Close of a stream *)
  | AppendMsg (j : nat) (bs : list byte)
  | SendMsg (j : nat)                           (* the write, then the deferred Put *)
  | DropProfile (i : nat)                       (* the runtime empties a pool *)
  | DropBytes (i : nat).

(** What is read out of a buffer. *)
Inductive observation :=
  | SawProfile (i : nat) (bs : list byte)
  | Decoded (i : nat) (bs : option (list byte)) (* None: ErrTwiceDecodedTo *)
  | Sent (j : nat) (bs : list byte).

Section machine.
Context (grow : nat -> nat -> nat).
Context (grow_enough : forall cap need, (need <= grow cap need)%nat).

(** The built-in [append]; [nil] has no array. *)
Definition go_append (p : option slice) (bs : list byte) (h : arrays) : option slice * arrays :=
  match p with
  | Some s => let r := append_to (grow (sl_cap s) (sl_len s + length bs)) s bs h in (Some r.1, r.2)
  | None =>
      match bs with
      | [] => (None, h)
      | _ => let r := append_to (grow 0 (length bs)) (mkSlice 0 0 0 0) bs h in (Some r.1, r.2)
      end
  end.

Definition newCocaineProfile (pick : option nat) (s : pools) : option pools :=
  '(b, pool, h) ← pool_get pick 0 1024 (profilesPool s) (p_heap s);
  Some (mkPools h pool (msgpackBytePool s) (p_profiles s ++ [Some (reset b)]) (p_writers s)).

Definition buff_contents (h : arrays) (p : option slice) : list byte :=
  match p with Some b => contents h b | None => [] end.

Definition with_profile (i : nat) (p : option slice) (h : arrays) (pool : list slice) (s : pools) : pools :=
  mkPools h pool (msgpackBytePool s) (<[i := p]> (p_profiles s)) (p_writers s).

Definition pooled_DecodeTo (i : nat) (p : option slice) (s : pools) : pools * list observation :=
  match p with
  | Some b => (with_profile i None (p_heap s) (profilesPool s ++ [b]) s, [Decoded i (Some (contents (p_heap s) b))])
  | None => (s, [Decoded i None])
  end.

Definition begin_msg (pick : option nat) (s : pools) : option pools :=
  '(b, pool, h) ← pool_get pick 1024 1024 (msgpackBytePool s) (p_heap s);
  Some (mkPools h (profilesPool s) pool (p_profiles s) (p_writers s ++ [Some (mkWriter (reset b) (reset b))])).

Definition with_writer (j : nat) (w : option writer) (h : arrays) (pool : list slice) (s : pools) : pools :=
  mkPools h (profilesPool s) pool (p_profiles s) (<[j := w]> (p_writers s)).

Definition pool_exec (e : pool_event) (s : pools) : option (pools * list observation) :=
  match e with
  | NewProfile pick => s ← newCocaineProfile pick s; Some (s, [])
  | NewRaw bs =>
      let '(p, h) := go_append None bs (p_heap s) in
      Some (mkPools h (profilesPool s) (msgpackBytePool s) (p_profiles s ++ [p]) (p_writers s), [])
  | ProfileWrite i bs =>
      p ← p_profiles s !! i;
      let '(p, h) := go_append p bs (p_heap s) in
      Some (with_profile i p h (profilesPool s) s, [])
  | ProfileString i => p ← p_profiles s !! i; Some (s, [SawProfile i (buff_contents (p_heap s) p)])
  | ProfileDecode i => p ← p_profiles s !! i; Some (pooled_DecodeTo i p s)
  | BeginMsg pick => s ← begin_msg pick s; Some (s, [])
  | AppendMsg j bs =>
      o ← p_writers s !! j; w ← o;
      let '(p, h) := ensure (w_p w) bs (p_heap s) in
      Some (with_writer j (Some (mkWriter (w_orig w) p)) h (msgpackBytePool s) s, [])
  | SendMsg j =>
      o ← p_writers s !! j; w ← o;
      Some (with_writer j None (p_heap s) (msgpackBytePool s ++ [w_orig w]) s,
            [Sent j (contents (p_heap s) (w_p w))])
  | DropProfile i =>
      Some (mkPools (p_heap s) (delete i (profilesPool s)) (msgpackBytePool s) (p_profiles s) (p_writers s), [])
  | DropBytes i =>
      Some (mkPools (p_heap s) (profilesPool s) (delete i (msgpackBytePool s)) (p_profiles s) (p_writers s), [])
  end.

(** ** The same without pools: every profile and message has bytes of its own *)

Record plain := mkPlain {
  u_profiles : list (option (list byte));
  u_writers : list (option (list byte))
}.

Definition plain_append (p : option (list byte)) (bs : list byte) : option (list byte) :=
  match p, bs with
  | Some b, _ => Some (b ++ bs)
  | None, [] => None
  | None, _ => Some bs
  end.

Definition plain_exec (e : pool_event) (u : plain) : option (plain * list observation) :=
  match e with
  | NewProfile _ => Some (mkPlain (u_profiles u ++ [Some []]) (u_writers u), [])
  | NewRaw bs => Some (mkPlain (u_profiles u ++ [plain_append None bs]) (u_writers u), [])
  | ProfileWrite i bs =>
      p ← u_profiles u !! i; Some (mkPlain (<[i := plain_append p bs]> (u_profiles u)) (u_writers u), [])
  | ProfileString i => p ← u_profiles u !! i; Some (u, [SawProfile i (default [] p)])
  | ProfileDecode i =>
      p ← u_profiles u !! i; Some (mkPlain (<[i := None]> (u_profiles u)) (u_writers u), [Decoded i p])
  | BeginMsg _ => Some (mkPlain (u_profiles u) (u_writers u ++ [Some []]), [])
  | AppendMsg j bs =>
      o ← u_writers u !! j; b ← o; Some (mkPlain (u_profiles u) (<[j := Some (b ++ bs)]> (u_writers u)), [])
  | SendMsg j =>
      o ← u_writers u !! j; b ← o; Some (mkPlain (u_profiles u) (<[j := None]> (u_writers u)), [Sent j b])
  | DropProfile _ | DropBytes _ => Some (u, [])
  end.
End machine.

Fixpoint pool_run {S} (exec : pool_event -> S -> option (S * list observation)) (es : list pool_event) (s : S)
  : option (S * list observation) :=
  match es with
  | [] => Some (s, [])
  | e :: es =>
      '(s, o) ← exec e s; '(s, os) ← pool_run exec es s; Some (s, o ++ os)
  end.

(** ** Ownership *)

Definition refers (a : nat) (s : slice) : nat := if decide (sl_arr s = a) then 1 else 0.
Definition profile_refs (a : nat) (p : option slice) : nat := from_option (refers a) 0%nat p.
Definition writer_refs (a : nat) (o : option writer) : nat :=
  match o with
  | Some w => refers a (w_orig w) + (if decide (sl_arr (w_p w) = sl_arr (w_orig w)) then 0 else refers a (w_p w))
  | None => 0
  end.

(** How many holders array [a] has. *)
Definition refs (s : pools) (a : nat) : nat :=
  sum_list_with (refers a) (profilesPool s) + sum_list_with (refers a) (msgpackBytePool s) +
  sum_list_with (profile_refs a) (p_profiles s) + sum_list_with (writer_refs a) (p_writers s).
#[local] Arguments refs : simpl never.

Definition profile_rel (h : arrays) (p : option slice) (b : option (list byte)) : Prop :=
  match p, b with
  | Some s, Some bs => slice_ok h s /\ contents h s = bs
  | None, None => True
  | _, _ => False
  end.
Definition writer_rel (h : arrays) (o : option writer) (b : option (list byte)) : Prop :=
  match o, b with
  | Some w, Some bs => slice_ok h (w_orig w) /\ slice_ok h (w_p w) /\ contents h (w_p w) = bs
  | None, None => True
  | _, _ => False
  end.

Record pool_sim (s : pools) (u : plain) : Prop := {
  ps_once a : (refs s a <= 1)%nat;
  ps_pool1 : Forall (slice_ok (p_heap s)) (profilesPool s);
  ps_pool2 : Forall (slice_ok (p_heap s)) (msgpackBytePool s);
  ps_profiles : Forall2 (profile_rel (p_heap s)) (p_profiles s) (u_profiles u);
  ps_writers : Forall2 (writer_rel (p_heap s)) (p_writers s) (u_writers u)
}.

Lemma refers_self s : refers (sl_arr s) s = 1%nat.
Proof. unfold refers. by rewrite decide_True. Qed.
Lemma refers_zero a s : refers a s = 0%nat -> sl_arr s <> a.
Proof. unfold refers. by destruct (decide _). Qed.
Lemma refers_fresh h s a : slice_ok h s -> (length h <= a)%nat -> refers a s = 0%nat.
Proof. intros H%slice_bound Ha. unfold refers. rewrite decide_False by lia. done. Qed.

(** A list of holders none of which refers to the array that changes, but possibly the
    one that makes the change. *)
Section frames.
Context {P : Type} (weight : nat -> P -> nat) (rel : arrays -> P -> option (list byte) -> Prop).
Context (rel_frame : forall h h' a p b, untouched h h' a -> weight a p = 0%nat -> rel h p b -> rel h' p b).

Lemma frame_all h h' a ps us : untouched h h' a -> sum_list_with (weight a) ps = 0%nat ->
  Forall2 (rel h) ps us -> Forall2 (rel h') ps us.
Proof using rel_frame.
  intros Hu Hz H. revert Hz. induction H as [|p b ps us Hp H IH]; cbn; [by constructor|].
  intros Hz. constructor; [eapply rel_frame; [done|lia|done]|apply IH; lia].
Qed.

Lemma frame_at h h' a ps us i p x y : untouched h h' a -> ps !! i = Some p ->
  (sum_list_with (weight a) ps <= weight a p)%nat ->
  Forall2 (rel h) ps us -> rel h' x y -> Forall2 (rel h') (<[i := x]> ps) (<[i := y]> us).
Proof using rel_frame.
  intros Hu Hi Hz H Hx. revert i Hi Hz. induction H as [|q b ps us Hq H IH]; intros [|i] Hi Hz; simplify_eq/=.
  - constructor; [done|]. eapply frame_all; [done|lia|done].
  - pose proof (sum_with_lookup (weight a) _ _ _ Hi). constructor; [eapply rel_frame; [done|lia|done]|].
    apply IH; [done|lia].
Qed.
End frames.

Lemma profile_frame h h' a p b : untouched h h' a -> profile_refs a p = 0%nat -> profile_rel h p b -> profile_rel h' p b.
Proof.
  destruct p as [s|], b as [bs|]; cbn; [|done..]. intros Hu Hz%refers_zero [Hs Hb].
  destruct (untouched_slice h h' a s Hu Hz Hs) as [? ->]. done.
Qed.
Lemma writer_frame h h' a o b : untouched h h' a -> writer_refs a o = 0%nat -> writer_rel h o b -> writer_rel h' o b.
Proof.
  destruct o as [w|], b as [bs|]; cbn; [|done..]. intros Hu Hz (H1 & H2 & H3).
  assert (sl_arr (w_orig w) <> a) as N1 by (apply refers_zero; lia).
  assert (sl_arr (w_p w) <> a) as N2.
  { destruct (decide (sl_arr (w_p w) = sl_arr (w_orig w))) as [->|]; [done|]. apply refers_zero. lia. }
  destruct (untouched_slice h h' a _ Hu N1 H1), (untouched_slice h h' a _ Hu N2 H2) as [? ->]. done.
Qed.
Lemma pool_frame h h' a l : untouched h h' a -> sum_list_with (refers a) l = 0%nat ->
  Forall (slice_ok h) l -> Forall (slice_ok h') l.
Proof.
  intros Hu. induction l as [|s l IH]; cbn; intros Hz H; [by constructor|].
  apply Forall_cons in H as [Hs H]. constructor; [|apply IH; [lia|done]].
  eapply untouched_slice; [done|apply refers_zero; lia|done].
Qed.

Lemma refs_fresh s u a : pool_sim s u -> (length (p_heap s) <= a)%nat -> refs s a = 0%nat.
Proof.
  intros [_ H1 H2 H3 H4] Ha. unfold refs. rewrite !sum_with_zero; [done|..].
  - intros o Ho. apply list_elem_of_lookup in Ho as [i Hi].
    destruct (Forall2_lookup_l _ _ _ _ _ H4 Hi) as (b & _ & Hb).
    destruct o as [w|], b as [bs|]; cbn in *; [|done..]. destruct Hb as (B1 & B2 & _).
    rewrite (refers_fresh _ _ _ B1 Ha), (refers_fresh _ _ _ B2 Ha). by destruct (decide _).
  - intros p Hp. apply list_elem_of_lookup in Hp as [i Hi].
    destruct (Forall2_lookup_l _ _ _ _ _ H3 Hi) as (b & _ & Hb).
    destruct p as [sl|], b as [bs|]; cbn in *; [|done..]. eapply refers_fresh; [apply Hb|done].
  - intros x Hx. eapply refers_fresh; [|done]. by eapply Forall_forall in Hx.
  - intros x Hx. eapply refers_fresh; [|done]. by eapply Forall_forall in Hx.
Qed.

(** The store changes at an array nobody refers to. *)
Lemma pool_sim_heap s u h a : pool_sim s u -> untouched (p_heap s) h a -> refs s a = 0%nat ->
  pool_sim (mkPools h (profilesPool s) (msgpackBytePool s) (p_profiles s) (p_writers s)) u.
Proof.
  intros [H0 H1 H2 H3 H4] Hu Hz. unfold refs in Hz. split; cbn; [done|..].
  - eapply pool_frame; [done|lia|done].
  - eapply pool_frame; [done|lia|done].
  - eapply frame_all; [apply profile_frame|done|lia|done].
  - eapply frame_all; [apply writer_frame|done|lia|done].
Qed.

(** ** Taking and giving back *)

Lemma sim_make s u len cap : pool_sim s u -> (len <= cap)%nat ->
  pool_sim (mkPools (make len cap (p_heap s)).2 (profilesPool s) (msgpackBytePool s) (p_profiles s) (p_writers s)) u /\
  forall a, (refs s a + refers a (make len cap (p_heap s)).1 <= 1)%nat.
Proof.
  intros Hs Hl. split.
  - eapply (pool_sim_heap s u _ (length (p_heap s))); [done|apply untouched_app|by eapply refs_fresh].
  - intros a. pose proof (ps_once s u Hs a). unfold refers, make. cbn.
    destruct (decide (length (p_heap s) = a)); [|lia]. rewrite (refs_fresh s u a Hs) by lia. lia.
Qed.

Lemma sim_get_profile s u pick len cap b pool h : pool_sim s u -> (len <= cap)%nat ->
  pool_get pick len cap (profilesPool s) (p_heap s) = Some (b, pool, h) ->
  let s' := mkPools h pool (msgpackBytePool s) (p_profiles s) (p_writers s) in
  pool_sim s' u /\ slice_ok h b /\ forall a, (refs s' a + refers a b <= 1)%nat.
Proof.
  intros Hs Hl. unfold pool_get. destruct pick as [i|].
  - destruct (profilesPool s !! i) as [b'|] eqn:Hi; cbn [mbind option_bind]; [|done]. intros [= <- <- <-].
    destruct Hs as [H0 H1 H2 H3 H4].
    assert (forall a, refs (mkPools (p_heap s) (delete i (profilesPool s)) (msgpackBytePool s) (p_profiles s) (p_writers s)) a
      + refers a b' = refs s a)%nat as E.
    { intros a. unfold refs. cbn. pose proof (sum_with_delete (refers a) _ _ _ Hi). lia. }
    split_and!; [split; cbn; [|by apply Forall_delete|done..]| |].
    + intros a. specialize (E a). specialize (H0 a). lia.
    + exact (Forall_lookup_1 _ _ _ _ H1 Hi).
    + intros a. rewrite E. apply H0.
  - intros [= <- <- <-]. destruct (sim_make s u len cap Hs Hl) as [A B].
    split_and!; [exact A|by apply make_spec|exact B].
Qed.

Lemma sim_get_bytes s u pick len cap b pool h : pool_sim s u -> (len <= cap)%nat ->
  pool_get pick len cap (msgpackBytePool s) (p_heap s) = Some (b, pool, h) ->
  let s' := mkPools h (profilesPool s) pool (p_profiles s) (p_writers s) in
  pool_sim s' u /\ slice_ok h b /\ forall a, (refs s' a + refers a b <= 1)%nat.
Proof.
  intros Hs Hl. unfold pool_get. destruct pick as [i|].
  - destruct (msgpackBytePool s !! i) as [b'|] eqn:Hi; cbn [mbind option_bind]; [|done]. intros [= <- <- <-].
    destruct Hs as [H0 H1 H2 H3 H4].
    assert (forall a, refs (mkPools (p_heap s) (profilesPool s) (delete i (msgpackBytePool s)) (p_profiles s) (p_writers s)) a
      + refers a b' = refs s a)%nat as E.
    { intros a. unfold refs. cbn. pose proof (sum_with_delete (refers a) _ _ _ Hi). lia. }
    split_and!; [split; cbn; [|done|by apply Forall_delete|done..]| |].
    + intros a. specialize (E a). specialize (H0 a). lia.
    + exact (Forall_lookup_1 _ _ _ _ H2 Hi).
    + intros a. rewrite E. apply H0.
  - intros [= <- <- <-]. destruct (sim_make s u len cap Hs Hl) as [A B].
    split_and!; [exact A|by apply make_spec|exact B].
Qed.

Lemma sim_add_profile s u p b : pool_sim s u -> profile_rel (p_heap s) p b ->
  (forall a, refs s a + profile_refs a p <= 1)%nat ->
  pool_sim (mkPools (p_heap s) (profilesPool s) (msgpackBytePool s) (p_profiles s ++ [p]) (p_writers s))
    (mkPlain (u_profiles u ++ [b]) (u_writers u)).
Proof.
  intros [H0 H1 H2 H3 H4] Hp Hr. split; cbn; [|done|done| |done].
  - intros a. specialize (Hr a). unfold refs in *. cbn. rewrite sum_list_with_app. cbn. lia.
  - apply Forall2_app; [done|]. by constructor.
Qed.
Lemma sim_add_writer s u o b : pool_sim s u -> writer_rel (p_heap s) o b ->
  (forall a, refs s a + writer_refs a o <= 1)%nat ->
  pool_sim (mkPools (p_heap s) (profilesPool s) (msgpackBytePool s) (p_profiles s) (p_writers s ++ [o]))
    (mkPlain (u_profiles u) (u_writers u ++ [b])).
Proof.
  intros [H0 H1 H2 H3 H4] Hp Hr. split; cbn; [|done..|].
  - intros a. specialize (Hr a). unfold refs in *. cbn. rewrite sum_list_with_app. cbn. lia.
  - apply Forall2_app; [done|]. by constructor.
Qed.

Section steps.
Context (grow : nat -> nat -> nat).
Context (grow_enough : forall cap need, (need <= grow cap need)%nat).

(** Appending to a buffer that has one holder, as that holder sees it. *)
Lemma go_append_new s u bs : pool_sim s u ->
  let r := go_append grow None bs (p_heap s) in
  profile_rel r.2 r.1 (plain_append None bs) /\ untouched (p_heap s) r.2 (length (p_heap s)) /\
  forall a, (refs s a + profile_refs a r.1 <= 1)%nat.
Proof using grow_enough.
  intros Hs. unfold go_append. destruct bs as [|x bs]; cbn [plain_append].
  { split_and!; [done|done|]. intros a. pose proof (ps_once s u Hs a). cbn. lia. }
  set (c := grow 0 _). assert (length (x :: bs) <= c)%nat as Hc by apply grow_enough. cbn [length] in Hc.
  cbn. rewrite !take_0. cbn [app]. split_and!.
  - eexists. cbn. split; [by apply list_lookup_middle|]. cbn. rewrite length_app, length_replicate. lia.
  - unfold contents. cbn. rewrite list_lookup_middle by done. cbn. f_equal. by apply take_app_length'.
  - apply untouched_app.
  - intros a. unfold refers. cbn. pose proof (ps_once s u Hs a).
    destruct (decide _); [|lia]. rewrite (refs_fresh s u a Hs) by lia. lia.
Qed.

Lemma sim_write s u i p b bs : pool_sim s u -> p_profiles s !! i = Some p -> u_profiles u !! i = Some b ->
  pool_sim (with_profile i (go_append grow p bs (p_heap s)).1 (go_append grow p bs (p_heap s)).2 (profilesPool s) s)
    (mkPlain (<[i := plain_append b bs]> (u_profiles u)) (u_writers u)).
Proof using grow_enough.
  intros Hs Hp Hb. pose proof Hs as [H0 H1 H2 H3 H4].
  assert (profile_rel (p_heap s) p b) as Hr by (by eapply Forall2_lookup_lr).
  assert (exists a, untouched (p_heap s) (go_append grow p bs (p_heap s)).2 a /\
    profile_rel (go_append grow p bs (p_heap s)).2 (go_append grow p bs (p_heap s)).1 (plain_append b bs) /\
    (refs s a <= profile_refs a p)%nat /\
    forall x, (refs s x + profile_refs x (go_append grow p bs (p_heap s)).1 <= 1 + profile_refs x p)%nat)
    as (a & Hu & Hrel & Ha & Hx).
  { destruct p as [sl|], b as [bb|]; try done.
    - destruct Hr as [Hok <-]. cbn [go_append fst snd].
      destruct (append_spec (grow (sl_cap sl) (sl_len sl + length bs)) sl bs (p_heap s) Hok (grow_enough _ _))
        as (A & B & C & D).
      exists (sl_arr sl). split_and!; [done|by split| |].
      + cbn. rewrite refers_self. apply H0.
      + intros x. pose proof (H0 x). cbn. destruct D as [D|[D _]]; unfold refers; rewrite D; [lia|].
        destruct (decide (length (p_heap s) = x)); [|lia]. rewrite (refs_fresh s u x Hs) by lia. lia.
    - destruct (go_append_new s u bs Hs) as (A & B & C). exists (length (p_heap s)).
      split_and!; [done|done| |]; [by rewrite (refs_fresh s u _ Hs)|]. intros x. specialize (C x). cbn zeta in C. lia. }
  pose proof (sum_with_lookup (profile_refs a) _ _ _ Hp) as Hle. unfold refs in Ha. split; cbn.
  - intros x. specialize (Hx x). unfold refs in *. cbn.
    pose proof (sum_with_insert (profile_refs x) _ _ _ (go_append grow p bs (p_heap s)).1 Hp). lia.
  - eapply pool_frame; [done|lia|done].
  - eapply pool_frame; [done|lia|done].
  - eapply (frame_at profile_refs); [apply profile_frame|done|done|lia|done|done].
  - eapply (frame_all writer_refs); [apply writer_frame|done|lia|done].
Qed.

Lemma sim_append_msg s u j w b bs : pool_sim s u -> p_writers s !! j = Some (Some w) -> u_writers u !! j = Some (Some b) ->
  let r := ensure (w_p w) bs (p_heap s) in
  pool_sim (with_writer j (Some (mkWriter (w_orig w) r.1)) r.2 (msgpackBytePool s) s)
    (mkPlain (u_profiles u) (<[j := Some (b ++ bs)]> (u_writers u))).
Proof.
  intros Hs Hw Hb r. pose proof Hs as [H0 H1 H2 H3 H4].
  assert (writer_rel (p_heap s) (Some w) (Some b)) as (W1 & W2 & W3) by (by eapply Forall2_lookup_lr).
  assert (sl_len (w_p w) + length bs <= 2 * sl_cap (w_p w) + length bs)%nat as Hn by (destruct W2 as (? & ? & ? & ?); lia).
  destruct (append_spec _ (w_p w) bs (p_heap s) W2 Hn) as (A & B & C & D). fold (ensure (w_p w) bs (p_heap s)) in A, B, C, D.
  fold r in A, B, C, D. set (a := sl_arr (w_p w)) in *.
  assert (1 <= writer_refs a (Some w))%nat as Hone.
  { cbn. destruct (decide (sl_arr (w_p w) = sl_arr (w_orig w))) as [E|];
      [unfold a; rewrite E|unfold a]; rewrite refers_self; lia. }
  pose proof (sum_with_lookup (writer_refs a) _ _ _ Hw) as Hle. pose proof (H0 a) as Ha. unfold refs in Ha.
  assert (slice_ok r.2 (w_orig w)) as Wo.
  { destruct D as [D|[D E]].
    - destruct W1 as (x & Hx & W1). destruct (decide (sl_arr (w_orig w) = a)) as [Ea|Ea].
      + destruct A as (y & Hy & _). unfold r, ensure, append_to in *. destruct (_ <=? _)%nat; cbn in *.
        * exists (list_inserts (sl_off (w_p w) + sl_len (w_p w)) bs x). fold a. rewrite <- Ea, list_lookup_alter_eq, Hx.
          rewrite length_inserts. done.
        * exists x. by rewrite (lookup_app_l_Some _ _ _ _ Hx).
      + exists x. split; [|done]. by apply C.
    - destruct W1 as (x & Hx & W1). exists x. split; [|done]. destruct (decide (sl_arr (w_orig w) = a)) as [Ea|Ea].
      + by rewrite Ea, E, <- Ea.
      + by apply C. }
  split; cbn.
  - intros x. pose proof (H0 x) as Hx. unfold refs in *. cbn.
    pose proof (sum_with_insert (writer_refs x) _ _ _ (Some (mkWriter (w_orig w) r.1)) Hw) as Hi.
    set (new := writer_refs x (Some (mkWriter (w_orig w) r.1))) in *.
    destruct D as [D|[D _]].
    + assert (new = writer_refs x (Some w)) as Eq by (unfold new; cbn; unfold refers; by rewrite D). lia.
    + pose proof (refs_fresh s u x Hs) as Hf. unfold refs in Hf.
      assert (new = refers x (w_orig w) + (if decide (length (p_heap s) = x) then 1 else 0))%nat as Eq.
      { unfold new. cbn. unfold refers. rewrite D. pose proof (slice_bound _ _ W1).
        repeat destruct (decide _); lia. }
      destruct (decide (length (p_heap s) = x)) as [<-|].
      * rewrite (refers_fresh _ _ _ W1) in Eq by lia. specialize (Hf ltac:(lia)). lia.
      * assert (refers x (w_orig w) <= writer_refs x (Some w))%nat by (cbn; lia). lia.
  - eapply pool_frame; [done|lia|done].
  - eapply pool_frame; [done|lia|done].
  - eapply (frame_all profile_refs); [apply profile_frame|done|lia|done].
  - eapply (frame_at writer_refs); [apply writer_frame|done|done|lia|done|].
    cbn. rewrite B, W3. done.
Qed.
End steps.

(** Giving a buffer back: its holder lets go of it. *)
Lemma sim_put_profile s u i b : pool_sim s u -> p_profiles s !! i = Some (Some b) ->
  pool_sim (with_profile i None (p_heap s) (profilesPool s ++ [b]) s)
    (mkPlain (<[i := None]> (u_profiles u)) (u_writers u)).
Proof.
  intros [H0 H1 H2 H3 H4] Hi. destruct (Forall2_lookup_l _ _ _ _ _ H3 Hi) as (y & _ & Hy).
  split; cbn; [| |done| |done].
  - intros a. specialize (H0 a). unfold refs in *. cbn. rewrite sum_list_with_app. cbn.
    pose proof (sum_with_insert (profile_refs a) _ _ _ None Hi). cbn in *. lia.
  - apply Forall_app. split; [done|]. destruct y; [|done]. constructor; [apply Hy|constructor].
  - by apply Forall2_insert.
Qed.
Lemma sim_put_bytes s u j w : pool_sim s u -> p_writers s !! j = Some (Some w) ->
  pool_sim (with_writer j None (p_heap s) (msgpackBytePool s ++ [w_orig w]) s)
    (mkPlain (u_profiles u) (<[j := None]> (u_writers u))).
Proof.
  intros [H0 H1 H2 H3 H4] Hj. destruct (Forall2_lookup_l _ _ _ _ _ H4 Hj) as (y & _ & Hy).
  split; cbn; [|done| |done|].
  - intros a. specialize (H0 a). unfold refs in *. cbn. rewrite sum_list_with_app. cbn.
    pose proof (sum_with_insert (writer_refs a) _ _ _ None Hj) as E. cbn in E. lia.
  - apply Forall_app. split; [done|]. destruct y; [|done]. constructor; [apply Hy|constructor].
  - by apply Forall2_insert.
Qed.

Lemma sum_with_delete_le {A} (f : A -> nat) l i : (sum_list_with f (delete i l) <= sum_list_with f l)%nat.
Proof.
  revert i. induction l as [|x l IH]; intros [|i]; [done..|cbn; lia|]. specialize (IH i).
  change (delete (S i) (x :: l)) with (x :: delete i l). cbn. lia.
Qed.

Section refinement.
Context (grow : nat -> nat -> nat).
Context (grow_enough : forall cap need, (need <= grow cap need)%nat).

Lemma pool_sim_exec e s u s' o : pool_sim s u -> pool_exec grow e s = Some (s', o) ->
  exists u', plain_exec e u = Some (u', o) /\ pool_sim s' u'.
Proof using grow_enough.
  intros Hs. pose proof Hs as [H0 H1 H2 H3 H4].
  destruct e as [pick|bs|i bs|i|i|pick|j bs|j|i|i]; cbn [pool_exec plain_exec].
  - unfold newCocaineProfile. destruct (pool_get _ _ _ _ _) as [[[b pool] h]|] eqn:E; cbn; [|done].
    intros [= <- <-]. eexists. split; [done|].
    destruct (sim_get_profile s u pick 0 1024 b pool h Hs ltac:(lia) E) as (A & B & C).
    apply (sim_add_profile _ _ (Some (reset b)) (Some []) A); [|exact C]. by apply reset_ok.
  - destruct (go_append_new grow grow_enough s u bs Hs) as (A & B & C).
    destruct (go_append grow None bs (p_heap s)) as [p h]. intros [= <- <-]. eexists. split; [done|].
    assert (refs s (length (p_heap s)) = 0%nat) as Hz by (by eapply refs_fresh).
    exact (sim_add_profile _ _ p _ (pool_sim_heap s u h _ Hs B Hz) A C).
  - destruct (p_profiles s !! i) as [p|] eqn:Hp; cbn [mbind option_bind]; [|done].
    destruct (Forall2_lookup_l _ _ _ _ _ H3 Hp) as (b & Hb & _). rewrite Hb. cbn [mbind option_bind].
    pose proof (sim_write grow grow_enough s u i p b bs Hs Hp Hb) as A.
    destruct (go_append grow p bs (p_heap s)) as [p' h]. intros [= <- <-]. eauto.
  - destruct (p_profiles s !! i) as [p|] eqn:Hp; cbn; [|done]. intros [= <- <-].
    destruct (Forall2_lookup_l _ _ _ _ _ H3 Hp) as (b & Hb & Hr). rewrite Hb. cbn. eexists. split; [|done].
    destruct p as [sl|], b as [bs|]; try done. by destruct Hr as [_ <-].
  - destruct (p_profiles s !! i) as [p|] eqn:Hp; cbn; [|done].
    destruct (Forall2_lookup_l _ _ _ _ _ H3 Hp) as (b & Hb & Hr). rewrite Hb. cbn.
    destruct p as [sl|], b as [bs|]; try done; intros [= <- <-]; eexists.
    + destruct Hr as [_ <-]. split; [done|]. by apply sim_put_profile.
    + split; [done|]. rewrite list_insert_id by done. by destruct u.
  - unfold begin_msg. destruct (pool_get _ _ _ _ _) as [[[b pool] h]|] eqn:E; cbn; [|done].
    intros [= <- <-]. eexists. split; [done|].
    destruct (sim_get_bytes s u pick 1024 1024 b pool h Hs ltac:(lia) E) as (A & B & C).
    apply (sim_add_writer _ _ (Some (mkWriter (reset b) (reset b))) (Some []) A).
    + cbn. destruct (reset_ok h b B). done.
    + intros a. specialize (C a). cbn. rewrite decide_True by done. unfold refers in *. cbn. lia.
  - destruct (p_writers s !! j) as [[w|]|] eqn:Hw; cbn [mbind option_bind]; [|done..].
    destruct (Forall2_lookup_l _ _ _ _ _ H4 Hw) as ([b|] & Hb & Hr); [|done]. rewrite Hb. cbn [mbind option_bind].
    pose proof (sim_append_msg s u j w b bs Hs Hw Hb) as A.
    destruct (ensure (w_p w) bs (p_heap s)) as [p h]. intros [= <- <-]. eauto.
  - destruct (p_writers s !! j) as [[w|]|] eqn:Hw; cbn [mbind option_bind]; [|done..].
    destruct (Forall2_lookup_l _ _ _ _ _ H4 Hw) as ([b|] & Hb & Hr); [|done]. rewrite Hb. cbn [mbind option_bind].
    intros [= <- <-]. eexists. split; [by destruct Hr as (_ & _ & <-)|]. by apply sim_put_bytes.
  - intros [= <- <-]. eexists. split; [done|]. split; cbn; [|by apply Forall_delete|done..].
    intros a. specialize (H0 a). unfold refs in *. cbn. pose proof (sum_with_delete_le (refers a) (profilesPool s) i). lia.
  - intros [= <- <-]. eexists. split; [done|]. split; cbn; [|done|by apply Forall_delete|done..].
    intros a. specialize (H0 a). unfold refs in *. cbn. pose proof (sum_with_delete_le (refers a) (msgpackBytePool s) i). lia.
Qed.

Lemma pool_sim_run es s u s' os : pool_sim s u -> pool_run (pool_exec grow) es s = Some (s', os) ->
  exists u', pool_run plain_exec es u = Some (u', os) /\ pool_sim s' u'.
Proof using grow_enough.
  revert s u os. induction es as [|e es IH]; intros s u os Hs; cbn.
  { intros [= <- <-]. eauto. }
  destruct (pool_exec grow e s) as [[s1 o]|] eqn:E; cbn; [|done].
  destruct (pool_sim_exec e s u s1 o Hs E) as (u1 & -> & Hs1). cbn.
  destruct (pool_run _ es s1) as [[s2 os']|] eqn:E2; cbn; [|done]. intros [= <- <-].
  destruct (IH s1 u1 os' Hs1 E2) as (u2 & -> & Hs2). cbn. eauto.
Qed.

Lemma pool_sim_init : pool_sim pools_init (mkPlain [] []).
Proof. split; cbn; [intros a; unfold refs; cbn; lia|constructor..]. Qed.

(** C7: The buffer pools are invisible.  For every interleaving of profiles and messages,
    whichever buffers the pools return and however slices grow, what is read from a
    profile, decoded or sent is what the same steps give when each has bytes of its own;
    in particular no message or profile sees bytes of another. *)
Theorem pools_transparent es s os : pool_run (pool_exec grow) es pools_init = Some (s, os) ->
  exists u, pool_run plain_exec es (mkPlain [] []) = Some (u, os) /\ pool_sim s u.
Proof using grow_enough. apply pool_sim_run, pool_sim_init. Qed.
End refinement.

(** ** Examples *)

(** Growth by doubling. *)
Definition demo_grow (cap need : nat) : nat := Nat.max (2 * cap) need.
Lemma demo_grow_enough cap need : (need <= demo_grow cap need)%nat.
Proof. unfold demo_grow. lia. Qed.

(** Two profiles and a message share the pools; the second profile is built in the buffer
    of the first one, the message outgrows its buffer. *)
Definition demo_pool_events : list pool_event :=
  [NewProfile None; ProfileWrite 0 [x81; xa1]; BeginMsg None; ProfileString 0; ProfileDecode 0;
   NewProfile (Some 0%nat); ProfileWrite 1 [x80]; AppendMsg 0 (replicate 1100 x07); AppendMsg 0 [x93];
   ProfileWrite 1 [x90]; SendMsg 0; BeginMsg (Some 0%nat); AppendMsg 1 [x94]; SendMsg 1; ProfileDecode 1;
   ProfileDecode 1].
Definition demo_seen : list observation :=
  match pool_run (pool_exec demo_grow) demo_pool_events pools_init with Some (_, os) => os | None => [] end.

Lemma pools_transparent_witness :
  (exists u, pool_run plain_exec demo_pool_events (mkPlain [] []) = Some (u, demo_seen)) /\
  demo_seen = [SawProfile 0 [x81; xa1]; Decoded 0 (Some [x81; xa1]); Sent 0 (replicate 1100 x07 ++ [x93]);
    Sent 1 [x94]; Decoded 1 (Some [x80; x90]); Decoded 1 None].
Proof.
  split; [|vm_compute; reflexivity].
  destruct (pool_run (pool_exec demo_grow) demo_pool_events pools_init) as [[s os]|] eqn:E; [|by vm_compute in E].
  destruct (pools_transparent demo_grow demo_grow_enough demo_pool_events s os E) as (u & Hu & _).
  exists u. unfold demo_seen. by rewrite E.
Defined.

(** [NewRawProfileFromBytes] takes the slice of its caller, and [DecodeTo] puts it into
    the pool although the caller still has it. *)
Definition NewRawProfileFromBytes (b : slice) (s : pools) : pools :=
  mkPools (p_heap s) (profilesPool s) (msgpackBytePool s) (p_profiles s ++ [Some b]) (p_writers s).

(** The next profile overwrites the bytes of the caller. *)
Lemma callers_bytes_overwritten :
  let mine := mkSlice 0 0 3 3 in
  let s0 := NewRawProfileFromBytes mine (mkPools [[x81; xa1; x61]] [] [] [] []) in
  exists s, pool_run (pool_exec demo_grow) [ProfileDecode 0; NewProfile (Some 0%nat); ProfileWrite 1 [xff]] s0
    = Some (s, [Decoded 0 (Some [x81; xa1; x61])]) /\
  contents (p_heap s) mine = [xff; xa1; x61].
Proof. eexists. split; [vm_compute; reflexivity|reflexivity]. Qed.
