(* ===== verification/PortoBox.v ===== *)
(** * The Porto box (isolate/porto/box.go)

    The box keeps a journal of the layers of its applications and a map of the
    containers it tracks.  A background loop first collects the garbage of earlier
    runs and then reaps dead containers; [Spool] imports layers and [Spawn] starts
    containers.  Calls go to the world of World.v; the gate in front of [Spawn] is
    the subject of Gate.v. *)

From Stdlib Require Import ZArith Lia Ascii String.
From stdpp Require Import pretty.
From S2P Require Import Prelude Json MtnStore PortoUtil World GoPath PortoContainer Journal.

(** ** Configuration and state *)

Record portoBoxConfig := mkConfig {
  cfg_Layers : string;
  cfg_Containers : string;
  cfg_Journal : string;
  cfg_SpawnConcurrency : Z;
  cfg_SpawnTimeout : Z;
  cfg_DialRetries : Z;
  cfg_CleanupEnabled : bool;
  cfg_SetImgURI : bool;
  cfg_WeakEnabled : bool;
  cfg_Gc : bool;
  cfg_WaitLoopStepSec : Z;
  cfg_DefaultUlimits : string;
  cfg_VolumeBackend : string;
  cfg_DefaultResolvConf : string;
  cfg_CocaineAppVolumeLabel : string;
  cfg_DownloadHelperCmd : string;
  cfg_DownloadHelperFallback : bool;
  cfg_MetaName : string;
  cfg_MetaProp : gmap string string
}.

Record portoBox := mkBox {
  b_Name : string;
  b_config : portoBoxConfig;
  b_MtnEnable : bool;                   (* GlobalState.Mtn.Cfg.Enable *)
  b_journal : journal;
  b_containers : gmap string container;
  b_dhEnable : bool;
  b_dhfEnable : bool;
  b_prefixEnable : bool;
  b_rootPrefix : string
}.

Definition set_journal (j : journal) (b : portoBox) : portoBox :=
  mkBox (b_Name b) (b_config b) (b_MtnEnable b) j (b_containers b) (b_dhEnable b) (b_dhfEnable b)
    (b_prefixEnable b) (b_rootPrefix b).
Definition set_containers (m : gmap string container) (b : portoBox) : portoBox :=
  mkBox (b_Name b) (b_config b) (b_MtnEnable b) (b_journal b) m (b_dhEnable b) (b_dhfEnable b)
    (b_prefixEnable b) (b_rootPrefix b).

Definition appGenLabel (appname : string) : string := replace_char ":" "_" appname.
Definition addRootNamespacePrefix (b : portoBox) (container : string) : string :=
  Join [b_rootPrefix b; container].

Definition EError_ContainerAlreadyExists : Z := 3.
Definition EError_ContainerDoesNotExist : Z := 4.
Definition EError_LayerAlreadyExists : Z := 18.

(** The value of a call that returns a string; an answer without one is empty. *)
Definition data (a : answer) : string := match a with GotData s => s | _ => ""%string end.
(** [value, _ := portoConn.GetProperty(...)]: the error is dropped. *)
Definition property_or_empty (id name : string) : W string := λ w,
  match invoke (GetProperty id name) w with
  | (Ok a, w') => (Ok (data a), w')
  | (Err _, w') => (Ok ""%string, w')
  end.

(** ** The journal file *)

(** The bytes of each file. *)
Abbreviation jfiles := (gmap string (list byte)).

(** What fails while the journal is dumped; a failing write leaves [d_written] bytes. *)
Record dump_env := { d_temp : bool; d_write : bool; d_written : nat; d_rename : bool }.
Inductive dump_error := DumpTemp | DumpWrite | DumpRename.

(** [dumpJournal]; [temp] is the name [ioutil.TempFile] chose, which the deferred
    [os.Remove] deletes on every path. *)
Definition dumpJournal (e : dump_env) (temp : string) (b : portoBox) (fs : jfiles)
  : option dump_error * jfiles :=
  if d_temp e then
    if d_write e then
      let fs := <[temp := Dump (b_journal b)]> fs in
      if d_rename e then
        (None, delete temp (<[cfg_Journal (b_config b) := Dump (b_journal b)]> (delete temp fs)))
      else (Some DumpRename, delete temp fs)
    else (Some DumpWrite, delete temp (<[temp := take (d_written e) (Dump (b_journal b))]> fs))
  else (Some DumpTemp, fs).

(** [loadJournal]: no journal is no error. *)
Definition loadJournal (can_open : bool) (b : portoBox) (fs : jfiles) : result unit portoBox :=
  match fs !! cfg_Journal (b_config b) with
  | None => Ok b
  | Some content =>
      if can_open then
        match Load content (b_journal b) with
        | Some j => Ok (set_journal j b)
        | None => Err tt
        end
      else Err tt
  end.

(** ** Garbage collection at the start of [waitLoop] *)

(** The loop over the containers Porto lists: destroys dead and stopped ones, and
    collects the addresses of the living. *)
Fixpoint gc_containers (meta : string) (names : list string) (ips : list string) : W (list string) :=
  match names with
  | [] => mret ips
  | name :: names =>
      state ← property_or_empty name "state";
      if decide (state = "dead"%string) then
        _ ← try (do (Destroy name)); gc_containers meta names ips
      else if decide (state = "stopped"%string) then
        if decide (name = meta) then gc_containers meta names ips
        else _ ← try (do (Destroy name)); gc_containers meta names ips
      else if decide (state = "meta"%string) then gc_containers meta names ips
      else if decide (state = "running"%string \/ state = "starting"%string) then
        ip ← property_or_empty name "ip";
        if decide (2 < String.length ip)%nat then gc_containers meta names (ips ++ [ip])
        else gc_containers meta names ips
      else gc_containers meta names ips
  end.

(** [usedAllocations = append(usedAllocations[:i], usedAllocations[i+1:]...); i--]:
    the slice is filtered in place while the index walks over it. *)
Fixpoint drop_live (fuel : nat) (ips : list string) (i : nat) (l : list Allocation) : list Allocation :=
  match fuel with
  | O => l
  | S fuel =>
      match l !! i with
      | None => l
      | Some a => if decide (Ip a ∈ ips) then drop_live fuel ips i (take i l ++ drop (S i) l)
                  else drop_live fuel ips (S i) l
      end
  end.
Definition unused (ips : list string) (used : list Allocation) : list Allocation :=
  if decide (0 < length used /\ 0 < length ips)%nat then drop_live (length used) ips 0 used else used.

Fixpoint free_allocs (box : string) (l : list Allocation) : W unit :=
  match l with
  | [] => mret tt
  | a :: l => _ ← (if decide (Box a = box) then try (do (UnuseAllocCall (NetId a) (Id a))) else mret None);
              free_allocs box l
  end.

Fixpoint unlink_volumes (label : string) (vols : list (string * gmap string string)) : W unit :=
  match vols with
  | [] => mret tt
  | v :: vols =>
      _ ← (if decide (get v.2 "Private" = label) then try (do (UnlinkVolume v.1 "***")) else mret None);
      unlink_volumes label vols
  end.

Definition gc_volumes (label : string) : W unit := λ w,
  match invoke ListVolumes w with
  | (Ok (GotVolumes vols), w') => unlink_volumes label vols w'
  | (_, w') => (Ok tt, w')
  end.

(** How the collection ends: [GcReturn] is the [return] that ends [waitLoop], [GcPanic]
    a call on the nil connection. *)
Inductive gc_end := GcDone | GcReturn | GcPanic.

(** [connected]: whether [portoConnect] before the collection gave a connection. *)
Definition gc (connected : bool) (b : portoBox) : W gc_end := λ w,
  if negb (cfg_Gc (b_config b)) then (Ok GcDone, w)
  else if negb connected then (Ok GcPanic, w)
  else
    let '(names, w) := match invoke List w with
                       | (Ok (GotNames l), w') => (l, w')
                       | (_, w') => ([], w')
                       end in
    match invoke UsedAllocationsCall w with
    | (Err _, w) => (Ok GcReturn, w)
    | (Ok a, w) =>
        let used := match a with GotAllocs l => l | _ => [] end in
        (ips ← gc_containers (cfg_MetaName (b_config b)) names [];
         _ ← free_allocs (b_Name b) (unused ips used);
         _ ← gc_volumes (cfg_CocaineAppVolumeLabel (b_config b));
         mret GcDone) w
    end.

(** ** The loop that reaps dead containers *)

(** [delete(b.containers, id)] under the lock and [container.Kill()] after it. *)
Definition reap (id : string) (cs : gmap string container) (w : world) : gmap string container * world :=
  match cs !! id with
  | Some k => (delete id cs, (after_kill k w).2)
  | None => (cs, w)
  end.

(** How an iteration ends: the next one starts with or without a connection, or a
    failed type assertion to [porto.Error] stops the program. *)
Inductive wait_end := WNext (connected : bool) | WPanic | WStop.

(** The loop over the tracked containers. *)
Fixpoint poll (ids : list string) (cs : gmap string container) (w : world)
  : wait_end * gmap string container * world :=
  match ids with
  | [] => (WNext true, cs, w)
  | id :: ids =>
      match invoke (GetProperty id "state") w with
      | (Err (OtherError _), w) => (WPanic, cs, w)
      | (Err (PortoError errno _), w) =>
          if errno =? EError_ContainerDoesNotExist then
            let '(cs, w) := reap id cs w in poll ids cs w
          else (WNext false, cs, (do PortoClose w).2)
      | (Ok a, w) =>
          if decide (data a = "dead"%string) then let '(cs, w) := reap id cs w in poll ids cs w
          else poll ids cs w
      end
  end.

(** One iteration of [waitLoop] after its sleep.  [closed]: the context is done;
    [cancelled]: it is done while a failed connection waits to be retried; [order]
    is the order in which the map of the containers is ranged. *)
Definition wait_iteration (order : gmap string container -> list string) (closed cancelled connected : bool)
    (b : portoBox) (w : world) : wait_end * portoBox * world :=
  if closed then (WStop, b, if connected then (do PortoClose w).2 else w)
  else
    match (if connected then (Ok tt, w) else do PortoConnect w) with
    | (Err _, w) => (if cancelled then WStop else WNext false, b, w)
    | (Ok _, w) =>
        let '(r, cs, w) := poll (order (b_containers b)) (b_containers b) w in
        (r, set_containers cs b, w)
    end.

(** ** Layers of an application *)

(** [ImportLayer]: a layer that Porto has already is no error. *)
Definition import_layer (layer path : string) : W unit :=
  err ← try (do (ImportLayer layer path));
  match err with
  | Some e => if isEqualPortoError e EError_LayerAlreadyExists then mret tt else throw e
  | None => mret tt
  end.

Definition helper_timeout (l : Layer) : string :=
  pretty (uint 64 (300 + uint 64 (60 * (Size l / (100 * 1024 * 1024))))).
Definition helper_name (l : Layer) : string := (DigestType l +s+ "_" +s+ Digest l)%string.
Definition err_hashsum : porto_error := OtherError "ERROR hashsum missmatch".

(** The loop of [getLayersViaDownloadHelper]: download, check the sum, import. *)
Fixpoint helper_loop (dir : string) (ls : list Layer) (layers : list string) : W (list string) :=
  match ls with
  | [] => mret layers
  | l :: ls =>
      _ ← do (DownloadHelper (helper_timeout l) (TorrentId l));
      let blobPath := Join [dir; Digest l] in
      sum ← invoke (Sha256 blobPath);
      _ ← (if decide (data sum = Digest l) then mret tt else throw err_hashsum);
      _ ← import_layer (helper_name l) blobPath;
      helper_loop dir ls (layers ++ [helper_name l])
  end.

(** Runs [m] with a connection that the deferred [Close] closes. *)
Definition with_porto {A} (m : W A) : W A :=
  _ ← do PortoConnect;
  (λ w, let '(r, w) := m w in (r, (do PortoClose w).2)) : W A.

Definition getLayersViaDownloadHelper (name : string) (p : Profile) (b : portoBox) : W portoBox :=
  layers ← with_porto (helper_loop (cfg_Layers (b_config b)) (ExtendedInfo_Layers p) []);
  mret (set_journal (InsertManifestLayers name (String.concat ";" layers) (b_journal b)) b).

(** The loop of [getLayersViaRegistry] over the ordered layers of the manifest. *)
Fixpoint registry_loop (digests : list string) (layers : list string) : W (list string) :=
  match digests with
  | [] => mret layers
  | layerName :: digests =>
      blobPath ← invoke (BlobGet layerName);
      let portoLayerName := replace_char ":" "_" layerName in
      _ ← import_layer portoLayerName (data blobPath);
      registry_loop digests (layers ++ [portoLayerName])
  end.

(** [registry]: with its scheme; the manifest, its tag and the named reference are
    the registry client's. *)
Definition registry_url (registry : string) : string :=
  if String.prefix "http" registry then registry else ("https://" +s+ registry)%string.
Definition layers_order (schema : Z) : option (list string -> list string) :=
  if schema =? 1 then Some layerOrderV1 else if schema =? 2 then Some layerOrderV2 else None.

Definition getLayersViaRegistry (name : string) (p : Profile) (b : portoBox) : W portoBox :=
  if decide (Registry p = ""%string) then throw (OtherError "Registry must be non empty")
  else
    m ← invoke (RegistryManifest (registry_url (Registry p)) (Join [Repository p; Repository p; name]));
    let '(schema, digests) := match m with GotManifest s ds => (s, ds) | _ => (0, []) end in
    match layers_order schema with
    | None => throw (OtherError "unknown manifest type")
    | Some order =>
        layers ← with_porto (registry_loop (order digests) []);
        mret (set_journal (InsertManifestLayers name (String.concat ";" layers) (b_journal b)) b)
    end.

(** [Spool]: what the box is afterwards, and the error.  The journal keeps the layers
    when only the addresses cannot be bound. *)
Definition via_helper (p : Profile) (b : portoBox) : bool :=
  (0 <? zlen (ExtendedInfo_Layers p)) && b_dhEnable b.
Definition get_layers (name : string) (p : Profile) (b : portoBox) : W portoBox := λ w,
  if via_helper p b then
    match getLayersViaDownloadHelper name p b w with
    | (Ok b', w) => (Ok b', w)
    | (Err e, w) => if b_dhfEnable b then getLayersViaRegistry name p b w else (Err e, w)
    end
  else getLayersViaRegistry name p b w.
Definition Spool (name : string) (p : Profile) (b : portoBox) (w : world)
  : option porto_error * portoBox * world :=
  match get_layers name p b w with
  | (Err e, w) => (Some e, b, w)
  | (Ok b, w) =>
      if b_MtnEnable b && bool_decide (get (Network p) "mtn" = "enable"%string) then
        match do (BindAllocsCall (get (Network p) "netid")) w with
        | (Ok _, w) => (None, b, w)
        | (Err e, w) => (Some e, b, w)
        end
      else (None, b, w)
  end.

(** ** Spawning a container *)

Record SpawnConfig := mkSpawn {
  s_Name : string;
  s_Executable : string;
  s_Args : gmap string string;
  s_Env : gmap string string
}.

Definition spawn_id (c : SpawnConfig) : string :=
  (appGenLabel (s_Name c) +s+ "_" +s+ get (s_Args c) "--uuid")%string.

(** The configuration of the container; the profile is the decoded one. *)
Definition spawn_config (b : portoBox) (layers : string) (p : Profile) (c : SpawnConfig) : containerConfig :=
  mkCC (mkExec p (s_Name c) (s_Executable c) (cfg_DefaultUlimits (b_config b))
          (cfg_DefaultResolvConf (b_config b)) (s_Args c) (s_Env c))
    (b_MtnEnable b) (b_Name b) (Join [cfg_Containers (b_config b); spawn_id c])
    (addRootNamespacePrefix b (spawn_id c)) layers (cfg_CleanupEnabled (b_config b))
    (cfg_SetImgURI (b_config b)) (cfg_VolumeBackend (b_config b)) (cfg_CocaineAppVolumeLabel (b_config b)).

Inductive spawn_error :=
  | SpawnDecode
  | SpawnEAGAIN
  | SpawnNoLayers
  | SpawnCancelled
  | SpawnEngine (e : porto_error).

Section spawn.
Context (range_ : gmap string string -> list (string * string)).

(** The part of [Spawn] that holds a slot of the semaphore. *)
Definition spawn_container (cc : containerConfig) (b : portoBox) (w : world)
  : result spawn_error container * portoBox * world :=
  match newContainer range_ cc w with
  | (Err e, w) => (Err (SpawnEngine e), b, w)
  | (Ok pr, w) =>
      match container_start pr w with
      | (Err e, w) =>
          (* the map shares the container, so it sees the cleaned flag *)
          match Cleanup pr w with
          | (Ok pr', w) => (Err (SpawnEngine e),
              set_containers (<[k_containerID pr := pr']> (b_containers b)) b, w)
          | (Err _, w) => (Err (SpawnEngine e),
              set_containers (<[k_containerID pr := pr]> (b_containers b)) b, w)
          end
      | (Ok _, w) => (Ok pr, set_containers (<[k_containerID pr := pr]> (b_containers b)) b,
                      (do (OutputWrite "") w).2)
      end
  end.

(** [Spawn].  [profile] is the decoded profile, [queue] the value of
    [spawningQueueSize], [acquired] whether [Acquire] got a slot; also returns the
    counter. *)
Definition Spawn (profile : option Profile) (c : SpawnConfig) (acquired : bool) (b : portoBox) (queue : Z)
    (w : world) : result spawn_error container * portoBox * Z * world :=
  match profile with
  | None => (Err SpawnDecode, b, queue, w)
  | Some p =>
      let queue := queue + 1 in
      if 10 <? queue then (Err SpawnEAGAIN, b, queue - 1, w)
      else
        let layers := GetManifestLayers (s_Name c) (b_journal b) in
        if decide (layers = ""%string) then (Err SpawnNoLayers, b, queue, w)
        else
          match do PortoConnect w with
          | (Err e, w) => (Err (SpawnEngine e), b, queue, w)
          | (Ok _, w) =>
              let queue := queue - 1 in
              if acquired then
                let '(r, b, w) := spawn_container (spawn_config b layers p c) b w in
                (r, b, queue, (do PortoClose w).2)
              else (Err SpawnCancelled, b, queue, (do PortoClose w).2)
          end
  end.

(** ** Construction *)

Definition defaultVolumeBackend : string := "overlay".

(** The configuration the decoder starts from. *)
Definition default_config : portoBoxConfig := {|
  cfg_Layers := ""; cfg_Containers := ""; cfg_Journal := "";
  cfg_SpawnConcurrency := 5; cfg_SpawnTimeout := 0; cfg_DialRetries := 10;
  cfg_CleanupEnabled := true; cfg_SetImgURI := false; cfg_WeakEnabled := false; cfg_Gc := true;
  cfg_WaitLoopStepSec := 10; cfg_DefaultUlimits := ""; cfg_VolumeBackend := "";
  cfg_DefaultResolvConf := ""; cfg_CocaineAppVolumeLabel := "cocaine-app";
  cfg_DownloadHelperCmd := ""; cfg_DownloadHelperFallback := false; cfg_MetaName := "";
  cfg_MetaProp := ∅
|}.

Definition with_backend (c : portoBoxConfig) : portoBoxConfig :=
  if decide (cfg_VolumeBackend c = ""%string) then
    mkConfig (cfg_Layers c) (cfg_Containers c) (cfg_Journal c) (cfg_SpawnConcurrency c)
      (cfg_SpawnTimeout c) (cfg_DialRetries c) (cfg_CleanupEnabled c) (cfg_SetImgURI c)
      (cfg_WeakEnabled c) (cfg_Gc c) (cfg_WaitLoopStepSec c) (cfg_DefaultUlimits c)
      defaultVolumeBackend (cfg_DefaultResolvConf c) (cfg_CocaineAppVolumeLabel c)
      (cfg_DownloadHelperCmd c) (cfg_DownloadHelperFallback c) (cfg_MetaName c) (cfg_MetaProp c)
  else c.

Definition check_config (c : portoBoxConfig) : W portoBoxConfig :=
  if decide (cfg_Layers c = ""%string) then throw (OtherError "option Layers is invalid or unspecified")
  else if decide (cfg_Containers c = ""%string) then
    throw (OtherError "option Containers is invalid or unspecified")
  else if decide (cfg_Journal c = ""%string) then throw (OtherError "option Journal is empty or unspecified")
  else mret (with_backend c).

(** The meta container: one that exists already is used as it is. *)
Definition create_meta (c : portoBoxConfig) (rootPrefix : string) : W string :=
  if decide (cfg_MetaName c = ""%string) then mret rootPrefix
  else
    let rootPrefix := (rootPrefix +s+ cfg_MetaName c)%string in
    err ← try (do (Create rootPrefix));
    _ ← match err with
        | Some e => if isEqualPortoError e EError_ContainerAlreadyExists then mret tt else throw e
        | None => mret tt
        end;
    _ ← set_properties rootPrefix (range_ (cfg_MetaProp c));
    mret rootPrefix.

(** What [NewBox] runs with its connection; the semaphore of size zero panics. *)
Definition build_box (uuid : string) (can_open mtn : bool) (fs : jfiles) (c : portoBoxConfig) : W portoBox :=
  self ← invoke (GetProperty "self" "absolute_name");
  let rootPrefix := if decide (data self = "/"%string) then ""%string else data self in
  rootPrefix ← create_meta c rootPrefix;
  _ ← (if cfg_SpawnConcurrency c =? 0 then throw (OtherError "Semaphore: size must be positive")
       else mret tt);
  let b := mkBox "porto" c mtn (newJournal uuid) ∅ (negb (bool_decide (cfg_DownloadHelperCmd c = ""%string)))
             (cfg_DownloadHelperFallback c) (negb (bool_decide (cfg_MetaName c = ""%string))) rootPrefix in
  match loadJournal can_open b fs with
  | Err _ => throw (OtherError "unable to load Journal")
  | Ok b =>
      layers ← invoke ListLayers;
      let layers := match layers with GotNames l => l | _ => [] end in
      mret (set_journal (UpdateFromPorto layers (b_journal b)).1 b)
  end.

(** [NewBox]; [decode] is the decoder of the section of the configuration. *)
Definition NewBox (decode : portoBoxConfig -> option portoBoxConfig) (uuid : string) (can_open mtn : bool)
    (fs : jfiles) : W portoBox :=
  c ← match decode default_config with Some c => mret c | None => throw (OtherError "decode") end;
  c ← check_config c;
  _ ← do (MkdirAll (cfg_Layers c));
  _ ← do (MkdirAll (cfg_Containers c));
  _ ← do (MkdirAll (cfg_Layers c));                 (* NewBlobRepository *)
  with_porto (build_box uuid can_open mtn fs c).
End spawn.

(** ** A dump of the journal is all or nothing *)

(** C28: whatever step of [dumpJournal] fails, the journal file is untouched or holds
    the bytes of the whole dump, the temporary file is gone and no other file changes;
    after a success a restarted box parses from these bytes the very journal that was
    dumped, whatever characters its UTF-8 strings hold. *)
Theorem dumpJournal_atomic e temp b fs err fs' :
  fs !! temp = None -> temp <> cfg_Journal (b_config b) ->
  dumpJournal e temp b fs = (err, fs') ->
  (err <> None -> fs' = fs) /\
  (err = None ->
     fs' = <[cfg_Journal (b_config b) := Dump (b_journal b)]> fs /\
     forall b', journal_ok (b_journal b) -> cfg_Journal (b_config b') = cfg_Journal (b_config b) ->
       b_journal b' = newJournal (UUID (b_journal b')) ->
       loadJournal true b' fs' = Ok (set_journal (b_journal b) b')).
Proof.
  intros Hn Hne E. unfold dumpJournal in E.
  assert (forall x, delete temp (<[temp := x]> fs) = fs) as D.
  { intros x. by rewrite delete_insert_id. }
  destruct (d_temp e), (d_write e), (d_rename e); injection E as <- <-;
    (split; intros Hx); try done; rewrite ?D; try done.
  rewrite ?D. rewrite delete_id.
  2: { rewrite lookup_insert_ne by done. done. }
  split; [done|]. intros b' Hok Hp Hj. unfold loadJournal. rewrite Hp, lookup_insert_eq.
  rewrite <- (app_nil_r (Dump _)), Hj. by rewrite Load_Dump.
Qed.

Lemma dumpJournal_atomic_witness :
  let cfg := mkConfig "/layers" "/containers" "/journal" 5 0 10 true false false true 10 "" "overlay" ""
               "cocaine-app" "" false "" ∅ in
  let b j := mkBox "porto" cfg false j ∅ false false false "" in
  let j := InsertManifestLayers "app" "sha256_1;sha256_2" (newJournal "u1") in
  let e := {| d_temp := true; d_write := true; d_written := 0; d_rename := true |} in
  loadJournal true (b (newJournal "u2")) (dumpJournal e "/bak" (b j) ∅).2 = Ok (b j).
Proof.
  intros cfg b j e. assert ((dumpJournal e "/bak" (b j) ∅).1 = None) as E1 by reflexivity.
  destruct (dumpJournal e "/bak" (b j) ∅) as [err fs'] eqn:E. cbn [fst snd] in *. subst err.
  destruct (dumpJournal_atomic e "/bak" (b j) ∅ None fs' (lookup_empty _) ltac:(done) E) as [_ H].
  apply (proj2 (H eq_refl) (b (newJournal "u2"))); [|reflexivity|reflexivity].
  assert (map_utf8 ∅ /\ map_utf8 {["app" := "sha256_1;sha256_2"]}%string) as [H1 H2].
  { unfold map_utf8. rewrite map_to_list_empty, map_to_list_singleton. split; [done|].
    constructor; [|done]. split; by apply ascii_ok. }
  split; [by apply ascii_ok|]. by split.
Defined.
