(* ===== verification/PortoBoxFacts.v ===== *)
(** * What the Porto box guarantees: the garbage collection, the loop that reaps
      containers, the layers of [Spool], and [Spawn] *)

From Stdlib Require Import ZArith Lia Ascii String.
From S2P Require Import Prelude MtnStore PortoUtil World GoPath PortoContainer Journal PortoBox.

(** ** Runs whose calls are known *)

(** [m] succeeds with [a] and makes exactly the calls [l]. *)
Definition runs {A} (m : W A) (w : world) (a : A) (l : list call) : Prop :=
  m w = (Ok a, mkWorld (w_log w ++ l) (w_answers w)).

Lemma runs_ret {A} (a : A) w : runs (mret a) w a [].
Proof. unfold runs, mret, act_ret. rewrite app_nil_r. by destruct w. Qed.
Lemma runs_bind {A B} (m : W A) (k : A -> W B) w a b l1 l2 :
  runs m w a l1 -> runs (k a) (mkWorld (w_log w ++ l1) (w_answers w)) b l2 ->
  runs (m ≫= k) w b (l1 ++ l2).
Proof. unfold runs, mbind, act_bind. intros -> ->. cbn. by rewrite app_assoc. Qed.
Lemma runs_try_do c w : exists o, runs (try (do c)) w o [c].
Proof.
  unfold runs, try, do, invoke, mbind, act_bind. destruct (w_answers w _ c); by eexists.
Qed.
Lemma runs_property id name w s : (forall n, w_answers w n (GetProperty id name) = GotData s) ->
  runs (property_or_empty id name) w s [GetProperty id name].
Proof. intros H. unfold runs, property_or_empty, invoke. by rewrite H. Qed.

(** ** Garbage collection *)

Lemma drop_live_filter fuel ips i l :
  (length l <= fuel + i)%nat ->
  drop_live fuel ips i l = take i l ++ filter (λ a, Ip a ∉ ips) (drop i l).
Proof.
  revert i l. induction fuel as [|fuel IH]; intros i l Hf; cbn.
  { rewrite take_ge, drop_ge by lia. by rewrite app_nil_r. }
  destruct (l !! i) as [a|] eqn:Hi.
  2: { apply lookup_ge_None in Hi. rewrite take_ge, drop_ge by lia. by rewrite app_nil_r. }
  pose proof (lookup_lt_Some _ _ _ Hi) as Hlt. rewrite (drop_S l a i Hi).
  destruct (decide (Ip a ∈ ips)) as [Ha|Ha].
  - rewrite filter_cons_False by auto. rewrite IH.
    2: { rewrite length_app, length_take, length_drop. lia. }
    rewrite take_app_length', drop_app_length' by (rewrite length_take; lia). done.
  - rewrite filter_cons_True by done. rewrite IH by lia.
    rewrite (take_S_r _ _ _ Hi), <- app_assoc. done.
Qed.
Lemma unused_filter ips used : unused ips used = filter (λ a, Ip a ∉ ips) used.
Proof.
  unfold unused. destruct (decide _) as [Hd|Hd].
  { rewrite drop_live_filter by lia. done. }
  assert (used = [] \/ ips = []) as [->| ->]; [destruct used, ips; cbn in Hd; auto; lia|done|].
  symmetry. clear Hd. induction used as [|a used IH]; [done|].
  rewrite filter_cons_True by apply not_elem_of_nil. by rewrite IH.
Qed.

(** An engine that answers the same way for the time of a collection. *)
Record engine := {
  en_names : list string;
  en_state : string -> string;
  en_ip : string -> string;
  en_used : list Allocation;
  en_volumes : list (string * gmap string string)
}.
Definition serves (en : engine) (w : world) : Prop :=
  (forall n, w_answers w n List = GotNames (en_names en)) /\
  (forall n, w_answers w n UsedAllocationsCall = GotAllocs (en_used en)) /\
  (forall n, w_answers w n ListVolumes = GotVolumes (en_volumes en)) /\
  (forall n id, w_answers w n (GetProperty id "state") = GotData (en_state en id)) /\
  (forall n id, w_answers w n (GetProperty id "ip") = GotData (en_ip en id)).

Definition alive (en : engine) (name : string) : Prop :=
  en_state en name = "running"%string \/ en_state en name = "starting"%string.
#[export] Instance alive_dec en name : Decision (alive en name).
Proof. unfold alive. apply _. Defined.
Definition trash (en : engine) (meta name : string) : Prop :=
  en_state en name = "dead"%string \/ (en_state en name = "stopped"%string /\ name <> meta).
#[export] Instance trash_dec en meta name : Decision (trash en meta name).
Proof. unfold trash. apply _. Defined.

Definition probe (en : engine) (meta name : string) : list call :=
  GetProperty name "state" ::
  (if decide (trash en meta name) then [Destroy name]
   else if decide (alive en name) then [GetProperty name "ip"] else []).
(** The addresses of the living containers. *)
Definition live_ips (en : engine) (names : list string) : list string :=
  filter (λ ip, (2 < String.length ip)%nat) (map (en_ip en) (filter (alive en) names)).

Lemma live_ips_cons en name names : live_ips en (name :: names) =
  (if decide (alive en name) then
     if decide (2 < String.length (en_ip en name))%nat then [en_ip en name] else []
   else []) ++ live_ips en names.
Proof.
  unfold live_ips. rewrite (filter_cons (alive en)). destruct (decide (alive en name)); [|done].
  cbn [map]. rewrite filter_cons. by destruct (decide _).
Qed.

Lemma gc_containers_runs en meta names ips w :
  serves en w ->
  runs (gc_containers meta names ips) w (ips ++ live_ips en names) (concat (map (probe en meta) names)).
Proof.
  intros Hs. revert ips w Hs. induction names as [|name names IH]; intros ips w Hs; cbn [gc_containers map concat].
  { rewrite app_nil_r. apply runs_ret. }
  destruct Hs as (S1 & S2 & S3 & S4 & S5).
  eapply (runs_bind _ _ _ _ _ [GetProperty name "state"]); [by apply runs_property|].
  set (w1 := mkWorld _ _). assert (serves en w1) as Hw1 by done. clearbody w1.
  rewrite live_ips_cons.
  destruct (decide (en_state en name = "dead"%string)) as [E|E].
  { assert (trash en meta name) as Ht by (by left).
    assert (~ alive en name) as Ha by (unfold alive; rewrite E; by intros []).
    rewrite !(decide_True (P := trash en meta name)), !(decide_False (P := alive en name)) by done.
    destruct (runs_try_do (Destroy name) w1) as [o Ho].
    eapply (runs_bind _ _ _ _ _ [Destroy name]); [done|]. by apply IH. }
  destruct (decide (en_state en name = "stopped"%string)) as [E'|E'].
  { assert (~ alive en name) as Ha by (unfold alive; rewrite E'; by intros []).
    rewrite !(decide_False (P := alive en name)) by done.
    destruct (decide (name = meta)) as [->|Hm].
    - rewrite (decide_False (P := trash en meta meta)); [by apply IH|]. unfold trash. by intros [?|[_ ?]].
    - rewrite (decide_True (P := trash en meta name)) by (by right).
      destruct (runs_try_do (Destroy name) w1) as [o Ho].
      eapply (runs_bind _ _ _ _ _ [Destroy name]); [done|]. by apply IH. }
  rewrite (decide_False (P := trash en meta name)) by (unfold trash; by intros [?|[? _]]).
  destruct (decide (en_state en name = "meta"%string)) as [E2|E2].
  { assert (~ alive en name) as Ha by (unfold alive; rewrite E2; by intros []).
    rewrite !(decide_False (P := alive en name)) by done. by apply IH. }
  destruct (decide (en_state en name = "running"%string \/ _)) as [E3|E3].
  2: { rewrite !(decide_False (P := alive en name)) by done. by apply IH. }
  rewrite !(decide_True (P := alive en name)) by done.
  destruct Hw1 as (T1 & T2 & T3 & T4 & T5).
  eapply (runs_bind _ _ _ _ _ [GetProperty name "ip"]); [by apply runs_property|].
  destruct (decide _); [|by apply IH].
  rewrite app_assoc. by apply IH.
Qed.

(** The allocations the collection gives back: those of this box whose address no
    living container has. *)
Definition orphans (en : engine) (box : string) : list Allocation :=
  filter (λ a, Box a = box) (filter (λ a, Ip a ∉ live_ips en (en_names en)) (en_used en)).

Lemma free_allocs_runs box l w :
  runs (free_allocs box l) w tt (map (λ a, UnuseAllocCall (NetId a) (Id a)) (filter (λ a, Box a = box) l)).
Proof.
  revert w. induction l as [|a l IH]; intros w; [apply runs_ret|]. rewrite filter_cons. cbn [free_allocs].
  destruct (decide (Box a = box)).
  - destruct (runs_try_do (UnuseAllocCall (NetId a) (Id a)) w) as [o Ho].
    cbn [map]. by eapply (runs_bind _ _ _ _ _ [_]).
  - eapply (runs_bind _ _ _ _ _ []); [apply runs_ret|]. apply IH.
Qed.
Lemma unlink_volumes_runs label vols w :
  runs (unlink_volumes label vols) w tt
    (map (λ v, UnlinkVolume v.1 "***") (filter (λ v, get v.2 "Private" = label) vols)).
Proof.
  revert w. induction vols as [|v vols IH]; intros w; [apply runs_ret|]. rewrite filter_cons. cbn [unlink_volumes].
  destruct (decide (get v.2 "Private" = label)).
  - destruct (runs_try_do (UnlinkVolume v.1 "***") w) as [o Ho].
    cbn [map]. by eapply (runs_bind _ _ _ _ _ [_]).
  - eapply (runs_bind _ _ _ _ _ []); [apply runs_ret|]. apply IH.
Qed.

Lemma gc_volumes_runs en label w :
  serves en w ->
  runs (gc_volumes label) w tt (ListVolumes :: map (λ v, UnlinkVolume v.1 "***")
    (filter (λ v, get v.2 "Private" = label) (en_volumes en))).
Proof.
  intros (_ & _ & S3 & _). unfold runs, gc_volumes, invoke. rewrite S3.
  rewrite (unlink_volumes_runs _ _ _). cbn. by rewrite <- app_assoc.
Qed.


(** One dead container, one living one with its address, one address left over. *)
Definition demo_alloc (id ip box : string) : Allocation := mkAlloc "L3 veth" "h" ip id "net" box true.
Definition demo_engine : engine := {|
  en_names := ["old"%string; "app"%string];
  en_state id := if decide (id = "app"%string) then "running"%string else "dead"%string;
  en_ip _ := "::10"%string;
  en_used := [demo_alloc "a" "::10" "porto"; demo_alloc "b" "::11" "porto"; demo_alloc "c" "::12" "other"];
  en_volumes := []
|}.
Definition engine_answers (en : engine) (n : nat) (c : call) : answer :=
  match c with
  | List => GotNames (en_names en)
  | UsedAllocationsCall => GotAllocs (en_used en)
  | ListVolumes => GotVolumes (en_volumes en)
  | GetProperty id name => if decide (name = "ip"%string) then GotData (en_ip en id) else GotData (en_state en id)
  | _ => Done
  end.
Definition demo_config : portoBoxConfig :=
  mkConfig "/layers" "/containers" "/journal" 5 0 10 true false false true 10 "" "overlay" ""
    "cocaine-app" "" false "" ∅.
Definition demo_box : portoBox := mkBox "porto" demo_config true (newJournal "u") ∅ false false false "".


(** When Porto cannot list its containers the collection goes on with none, and frees
    the addresses of the living ones too. *)
Lemma gc_list_error_frees_living :
  let answers n c := match c with List => Fails (OtherError "timeout") | _ => engine_answers demo_engine n c end in
  UnuseAllocCall "net" "a" ∈ w_log (gc true demo_box (mkWorld [] answers)).2.
Proof. vm_compute. repeat constructor. Qed.

(** A volume listed with the properties [CreateRootVolume] gave it ([private]) is not
    among those the collection looks for ([Private]). *)
Lemma gc_misses_root_volumes c (path label : string) :
  label <> ""%string ->
  let props := ({[ "backend"%string := c_VolumeBackend c; "layers"%string := c_Layer c;
                   "private"%string := label ]} : gmap string string) in
  filter (λ v : string * gmap string string, get v.2 "Private" = label) [(path, props)] = [].

Proof.
  intros Hl props. rewrite filter_cons_False; [done|]. cbn. unfold get, props.
  rewrite !lookup_insert_ne, ?lookup_singleton_ne, ?lookup_empty by done. cbn. congruence.
Qed.

(** ** Reaping *)

Definition is_kill (id : string) (c : call) : bool :=
  match c with PortoKill i => bool_decide (i = id) | _ => false end.

Lemma runs_data id name w : exists s, runs (data_or_empty id name) w s [GetData id name].
Proof. unfold runs, data_or_empty, invoke. destruct (w_answers w _ _); by eexists. Qed.
Lemma runs_appends {A} (m : W A) w a l : runs m w a l -> m w = (Ok a, mkWorld (w_log w ++ l) (w_answers w)).
Proof. done. Qed.

(** The calls of [kill_body]: one [Kill] of the container. *)
Lemma kill_body_log k w : exists o e tl,
  (kill_body k w).2 = mkWorld (w_log w ++ [GetData (k_containerID k) "stdout"; OutputWrite o;
    GetData (k_containerID k) "stderr"; OutputWrite e; PortoKill (k_containerID k)] ++ tl) (w_answers w) /\
  (tl = [] \/ tl = [Wait (k_containerID k)]).
Proof.
  unfold kill_body. set (id := k_containerID k). unfold mbind, act_bind.
  destruct (runs_data id "stdout" w) as [o Ho]. rewrite Ho. set (w1 := mkWorld _ _).
  destruct (runs_try_do (OutputWrite o) w1) as [x1 H1]. rewrite H1. set (w2 := mkWorld (w_log w1 ++ _) _).
  destruct (runs_data id "stderr" w2) as [e He]. rewrite He. set (w3 := mkWorld (w_log w2 ++ _) _).
  destruct (runs_try_do (OutputWrite e) w3) as [x2 H2]. rewrite H2. set (w4 := mkWorld (w_log w3 ++ _) _).
  destruct (runs_try_do (PortoKill id) w4) as [x3 H3]. rewrite H3. set (w5 := mkWorld (w_log w4 ++ _) _).
  assert (w5 = mkWorld (w_log w ++ [GetData id "stdout"; OutputWrite o; GetData id "stderr"; OutputWrite e;
    PortoKill id]) (w_answers w)) as ->.
  { unfold w5, w4, w3, w2, w1. cbn. by rewrite <- !app_assoc. }
  exists o, e. destruct x3 as [err|].
  - exists []. split; [|by left]. rewrite app_nil_r. by destruct (isEqualPortoError err _).
  - exists [Wait id]. split; [|by right]. unfold do, invoke, mbind, act_bind.
    destruct (w_answers _ _ _); cbn; by rewrite <- app_assoc.
Qed.

Lemma avoids_Cleanup P k :
  (forall p c, ~ P (UnlinkVolume p c)) -> (forall p, ~ P (RemoveAll p)) ->
  (forall n a, ~ P (UnuseAllocCall n a)) -> (forall id, ~ P (Destroy id)) -> avoids P (Cleanup k).
Proof.
  intros H1 H2 H3 H4. unfold Cleanup.
  apply (avoids_bind P _ _); [apply avoids_if; auto 8 with world|intros _].
  apply avoids_bind; [apply avoids_if; [|auto with world]|auto with world].
  apply avoids_bind; [by apply avoids_try, avoids_Destroy|intros _].
  apply avoids_bind; [by apply avoids_destroy_all|intros _]. auto 8 with world.
Qed.
Lemma appends_Cleanup k : appends (Cleanup k).
Proof.
  unfold Cleanup. apply (appends_bind _ _); [apply appends_if; auto 8 with world|intros _].
  apply appends_bind; [apply appends_if; [|auto with world]|auto with world].
  apply appends_bind; [apply appends_try, appends_Volume_Destroy|intros _].
  apply appends_bind; [apply appends_destroy_all|intros _]. auto 8 with world.
Qed.

(** A container that owes an address. *)
Definition owes (k : container) : nat := if k_mtn k && negb (k_mtnAllocCleaned k) then 1 else 0.

Fixpoint count {A} (p : A -> bool) (l : list A) : nat :=
  match l with [] => 0 | x :: l => (if p x then 1 else 0) + count p l end.
Lemma calls_snoc p w l a : calls p (mkWorld (w_log w ++ l) a) = (calls p w + count p l)%nat.
Proof.
  unfold calls. cbn [w_log]. rewrite filter_app, length_app. f_equal.
  induction l as [|c l IH]; [done|]. rewrite filter_cons. cbn.
  destruct (p c); [rewrite decide_True by done; cbn; lia|by rewrite decide_False by done].
Qed.

(** [Kill] with a connection: one [Kill] call for the container itself, its address
    given back if it owes one. *)
Lemma after_kill_calls k w id :
  (forall n, w_answers w n PortoConnect = Done) ->
  w_answers (after_kill k w).2 = w_answers w /\
  calls (is_kill id) (after_kill k w).2 =
    (calls (is_kill id) w + if decide (k_containerID k = id) then 1 else 0)%nat /\
  calls is_unuse (after_kill k w).2 = (calls is_unuse w + owes k)%nat.
Proof.
  intros Hc. set (w1 := mkWorld (w_log w ++ [PortoConnect]) (w_answers w)).
  assert (do PortoConnect w = (Ok tt, w1)) as E1.
  { unfold do, invoke, mbind, act_bind. by rewrite Hc. }
  unfold after_kill. rewrite E1.
  destruct (kill_body_log k w1) as (o & e & tl & E & Htl).
  destruct (try_ok (kill_body k) w1) as (x & w2 & -> & ->). rewrite E. set (w2 := mkWorld _ _).
  destruct (Cleanup_ok k w2) as (k' & w3 & EC & _ & _ & C3). rewrite EC.
  pose proof (appends_Cleanup k w2) as [A3 _]. rewrite EC in A3. cbn in A3.
  pose proof (calls_avoids (is_kill id) (Cleanup k) w2
    (avoids_Cleanup (λ c, is_kill id c = true) k ltac:(done) ltac:(done) ltac:(done) ltac:(done))) as K3.
  rewrite EC in K3. cbn [snd] in K3 |- *.
  destruct (runs_try_do PortoClose w3) as [y ->]. cbn [snd w_answers]. split; [by rewrite A3|].
  rewrite !calls_snoc, K3, C3. unfold w2, w1. rewrite !calls_snoc. unfold owes.
  destruct Htl as [->| ->]; cbn [count is_kill is_unuse app];
    (destruct (decide (k_containerID k = id));
      [rewrite bool_decide_true by done|rewrite bool_decide_false by done]; lia).
Qed.

(** A Porto daemon that answers for the time of an iteration: [None] is the error
    [ContainerDoesNotExist]. *)
Definition reports (status : string -> option string) (w : world) : Prop :=
  (forall n, w_answers w n PortoConnect = Done) /\
  (forall n id, w_answers w n (GetProperty id "state") =
     match status id with
     | Some s => GotData s
     | None => Fails (PortoError EError_ContainerDoesNotExist "")
     end).
Definition gone (status : string -> option string) (id : string) : Prop :=
  status id = None \/ status id = Some "dead"%string.
#[export] Instance gone_dec status id : Decision (gone status id).
Proof. unfold gone. apply _. Defined.

(** The containers an iteration over [ids] reaps. *)
Definition reaped (status : string -> option string) (ids : list string) (cs : gmap string container)
  : list container :=
  omap (λ id, if decide (gone status id) then cs !! id else None) ids.

Lemma reaped_delete status ids id cs : id ∉ ids -> reaped status ids (delete id cs) = reaped status ids cs.
Proof.
  induction ids as [|i ids IH]; intros Hn; [done|]. apply not_elem_of_cons in Hn as [Hi Hn].
  cbn. rewrite lookup_delete_ne by done. unfold reaped in IH. by rewrite IH.
Qed.

Fixpoint total (ks : list container) : nat := match ks with [] => 0 | k :: ks => owes k + total ks end.

(** What an iteration over [ids] does to the map, to a container [id0] and to the
    addresses. *)
Definition polled status ids (cs : gmap string container) w id0 (cs' : gmap string container) w' : Prop :=
  (forall id, cs' !! id = if decide (id ∈ ids /\ gone status id) then None else cs !! id) /\
  calls (is_kill id0) w' = (calls (is_kill id0) w +
    if decide (id0 ∈ ids /\ gone status id0 /\ is_Some (cs !! id0)) then 1 else 0)%nat /\
  calls is_unuse w' = (calls is_unuse w + total (reaped status ids cs))%nat.

Lemma polled_alive status i ids cs w w1 id0 cs' w' :
  ~ gone status i -> (forall p, p (GetProperty i "state") = false -> calls p w1 = calls p w) ->
  polled status ids cs w1 id0 cs' w' -> polled status (i :: ids) cs w id0 cs' w'.
Proof.
  intros Hg Cw (Hl & K & U). split_and!.
  - intros id. rewrite Hl. apply decide_ext. rewrite elem_of_cons. naive_solver.
  - rewrite K, Cw by done. f_equal. apply decide_ext. rewrite elem_of_cons. naive_solver.
  - rewrite U, Cw by done. unfold reaped. cbn [omap list_omap]. by rewrite decide_False.
Qed.
Lemma polled_gone status i ids cs w w1 id0 cs' w' :
  gone status i -> i ∉ ids -> (forall id k, cs !! id = Some k -> k_containerID k = id) ->
  (forall p, p (GetProperty i "state") = false -> calls p w1 = calls p w) ->
  (forall n, w_answers w1 n PortoConnect = Done) ->
  polled status ids (reap i cs w1).1 (reap i cs w1).2 id0 cs' w' -> polled status (i :: ids) cs w id0 cs' w'.
Proof.
  intros Hg Hi Hk Cw Hc. unfold reap. destruct (cs !! i) as [k|] eqn:Ei; cbn [fst snd].
  - destruct (after_kill_calls k w1 id0 Hc) as (_ & K1 & U1). rewrite (Hk _ _ Ei) in K1.
    intros (Hl & K & U). split_and!.
    + intros id. rewrite Hl. destruct (decide (id = i)) as [->|Hne].
      * rewrite lookup_delete_eq. assert (i ∈ i :: ids /\ gone status i) as Hin.
        { split; [apply list_elem_of_here|done]. }
        destruct (decide (i ∈ i :: ids /\ _)); [|done]. by destruct (decide (i ∈ ids /\ _)).
      * rewrite lookup_delete_ne by done. apply decide_ext. rewrite elem_of_cons. naive_solver.
    + rewrite K, K1, Cw by done. destruct (decide (i = id0)) as [->|Hne].
      * rewrite lookup_delete_eq. rewrite decide_False by (intros (? & _); done).
        rewrite decide_True; [lia|]. split_and!; [apply list_elem_of_here|done|]. by rewrite Ei.
      * rewrite lookup_delete_ne by done. rewrite Nat.add_0_r. f_equal. apply decide_ext.
        rewrite elem_of_cons. naive_solver.
    + rewrite U, U1, Cw by done. rewrite reaped_delete by done. unfold reaped at 2. cbn [omap list_omap].
      rewrite decide_True by done. rewrite Ei. cbn. unfold reaped. lia.
  - intros (Hl & K & U). split_and!.
    + intros id. rewrite Hl. destruct (decide (id = i)) as [->|Hne].
      * rewrite Ei. by repeat destruct (decide _).
      * apply decide_ext. rewrite elem_of_cons. naive_solver.
    + rewrite K, Cw by done. f_equal. apply decide_ext. rewrite elem_of_cons.
      split; [naive_solver|]. intros ([->|?] & ? & [x Hx]); [congruence|eauto].
    + rewrite U, Cw by done. unfold reaped at 2. cbn [omap list_omap]. rewrite decide_True by done.
      by rewrite Ei.
Qed.

Lemma reap_keeps status i cs w :
  reports status w -> (forall id k, cs !! id = Some k -> k_containerID k = id) ->
  reports status (reap i cs w).2 /\
  (forall id k, (reap i cs w).1 !! id = Some k -> k_containerID k = id).
Proof.
  intros [Hc Hs] Hk. unfold reap. destruct (cs !! i) as [k|]; [|done]. cbn [fst snd].
  destruct (after_kill_calls k w "" Hc) as (A & _). unfold reports. rewrite A. split; [done|].
  intros id k' [_ ?]%lookup_delete_Some. by apply Hk.
Qed.

Lemma poll_reaps status ids cs w id0 :
  reports status w -> NoDup ids -> (forall id k, cs !! id = Some k -> k_containerID k = id) ->
  exists cs' w', poll ids cs w = (WNext true, cs', w') /\ polled status ids cs w id0 cs' w'.
Proof.
  revert cs w. induction ids as [|i ids IH]; intros cs w Hr Hnd Hk; cbn [poll].
  { exists cs, w. split; [done|]. split_and!; [done| |cbn; lia]. rewrite decide_False; [lia|].
    by intros [?%elem_of_nil _]. }
  apply NoDup_cons in Hnd as [Hi Hnd]. unfold invoke. destruct Hr as [Hc Hs]. rewrite Hs.
  set (w1 := mkWorld _ _). assert (reports status w1) as Hr1 by done.
  assert (forall p, p (GetProperty i "state") = false -> calls p w1 = calls p w) as Cw.
  { intros p Hp. unfold w1. rewrite calls_snoc. cbn. rewrite Hp. cbn. lia. }
  destruct (reap_keeps status i cs w1 Hr1 Hk) as [Hr2 Hk2].
  assert (gone status i -> exists cs' w', (let '(cs, w) := reap i cs w1 in poll ids cs w) = (WNext true, cs', w') /\
    polled status (i :: ids) cs w id0 cs' w') as Gone.
  { intros Hg. destruct (IH (reap i cs w1).1 (reap i cs w1).2 Hr2 Hnd Hk2) as (cs' & w' & E & HP).
    exists cs', w'. split; [by destruct (reap i cs w1)|]. by apply (polled_gone _ _ _ _ _ w1). }
  destruct (status i) as [s|] eqn:Es; cbn [data].
  - destruct (decide (s = "dead"%string)) as [->|Hd]; [apply Gone; by right|].
    destruct (IH cs w1 Hr1 Hnd Hk) as (cs' & w' & E & HP). exists cs', w'. split; [done|].
    apply (polled_alive _ _ _ _ _ w1); [|done..]. unfold gone. rewrite Es. intros [?|?]; congruence.
  - apply Gone. by left.
Qed.


Definition demo_tracked : portoBox :=
  set_containers {[ "c1"%string := demo_container ]} demo_box.

(** When [Kill] cannot connect to Porto the container has left the map already: it is
    neither killed nor cleaned up, and nothing tries again. *)
Lemma reap_without_connection k cs w :
  cs !! k_containerID k = Some k -> (forall n, w_answers w n PortoConnect = Fails (OtherError "dial")) ->
  reap (k_containerID k) cs w =
    (delete (k_containerID k) cs, mkWorld (w_log w ++ [PortoConnect]) (w_answers w)).
Proof.
  intros Hk Hc. unfold reap. rewrite Hk. unfold after_kill, do, invoke, mbind, act_bind. by rewrite Hc.
Qed.

(** ** Layers *)

(** At some point the file of the layer was hashed to its digest, and it was imported
    later. *)
Definition verified (dir : string) (answers : nat -> call -> answer) (log : list call) (l : Layer) : Prop :=
  exists n m, (n < m)%nat /\
    log !! n = Some (Sha256 (Join [dir; Digest l])) /\
    data (answers n (Sha256 (Join [dir; Digest l]))) = Digest l /\
    log !! m = Some (ImportLayer (helper_name l) (Join [dir; Digest l])).

Lemma verified_app dir answers log k l : verified dir answers log l -> verified dir answers (log ++ k) l.
Proof.
  intros (n & m & Hlt & H1 & H2 & H3). exists n, m. split_and!; [done| |done|];
    (rewrite lookup_app_l; [done|by eapply lookup_lt_Some]).
Qed.

Lemma import_layer_ok layer path w w' :
  import_layer layer path w = (Ok tt, w') -> w' = mkWorld (w_log w ++ [ImportLayer layer path]) (w_answers w).
Proof.
  unfold import_layer, mbind, act_bind. destruct (runs_try_do (ImportLayer layer path) w) as [o ->].
  destruct o as [e|]; [destruct (isEqualPortoError e _); [|done]|]; by intros [= <-].
Qed.
Lemma invoke_ok c w a w' : invoke c w = (Ok a, w') ->
  w' = mkWorld (w_log w ++ [c]) (w_answers w) /\ a = w_answers w (length (w_log w)) c.
Proof. unfold invoke. destruct (w_answers w _ c); by intros [= <- <-]. Qed.
Lemma do_ok c w w' : do c w = (Ok tt, w') -> w' = mkWorld (w_log w ++ [c]) (w_answers w).
Proof.
  unfold do. intros (a & w1 & E & E2)%act_bind_inv. apply invoke_ok in E as [-> _]. by injection E2 as <-.
Qed.

(** One round of the loop: download, hash, import. *)
Lemma helper_round dir l ls layers w r w' :
  helper_loop dir (l :: ls) layers w = (Ok r, w') -> exists w1,
    helper_loop dir ls (layers ++ [helper_name l]) w1 = (Ok r, w') /\
    w_answers w1 = w_answers w /\
    (exists k, w_log w1 = w_log w ++ k) /\ verified dir (w_answers w) (w_log w1) l.
Proof.
  cbn [helper_loop]. intros ([] & w1 & E1%do_ok & E)%act_bind_inv.
  apply act_bind_inv in E as (sum & w2 & [E2 Hsum]%invoke_ok & E).
  apply act_bind_inv in E as ([] & w3 & E3 & E).
  apply act_bind_inv in E as ([] & w4 & E4%import_layer_ok & E).
  destruct (decide (data sum = Digest l)) as [Hd|]; [|done]. injection E3 as ->.
  exists w4. subst w4 w3 w1. cbn [w_log w_answers] in *.
  split_and!; [done|done| |].
  { eexists. by rewrite <- !app_assoc. }
  exists (length (w_log w) + 1)%nat, (length (w_log w) + 2)%nat. split_and!; [lia| | |].
  - rewrite <- !app_assoc, lookup_app_r by lia. replace (_ + 1 - _)%nat with 1%nat by lia. done.
  - transitivity (data sum); [|done]. rewrite Hsum. by rewrite length_app.
  - rewrite <- !app_assoc, lookup_app_r by lia. replace (_ + 2 - _)%nat with 2%nat by lia. done.
Qed.

Lemma helper_loop_ok dir ls layers w r w' :
  helper_loop dir ls layers w = (Ok r, w') ->
  r = layers ++ map helper_name ls /\ (exists k, w_log w' = w_log w ++ k) /\ w_answers w' = w_answers w /\
  Forall (verified dir (w_answers w) (w_log w')) ls.
Proof.
  revert layers w. induction ls as [|l ls IH]; intros layers w E.
  { injection E as <- <-. rewrite app_nil_r. split_and!; [done| |done|constructor]. exists []. by rewrite app_nil_r. }
  apply helper_round in E as (w1 & E & A & [k1 L1] & V).
  destruct (IH _ _ E) as (-> & [k2 L2] & A2 & F). split_and!.
  - cbn. by rewrite <- app_assoc.
  - exists (k1 ++ k2). by rewrite L2, L1, app_assoc.
  - congruence.
  - constructor; [rewrite L2; by apply verified_app|by rewrite <- A].
Qed.

Lemma with_porto_ok {A} (m : W A) w a w' : with_porto m w = (Ok a, w') ->
  exists w1, m (mkWorld (w_log w ++ [PortoConnect]) (w_answers w)) = (Ok a, w1) /\
    w' = mkWorld (w_log w1 ++ [PortoClose]) (w_answers w1).
Proof.
  unfold with_porto. intros ([] & w0 & E0%do_ok & E)%act_bind_inv. subst w0.
  destruct (m _) as [r w1] eqn:Em. injection E as -> <-. exists w1. split; [done|].
  unfold do, invoke, mbind, act_bind. by destruct (w_answers w1 _ _).
Qed.

(** C32: when the download helper delivered an application, the journal lists the
    layers of the profile in their order, and every one of them was imported after
    its file had been hashed to the digest of the profile. *)
Theorem download_helper_verifies name p b w b' w' :
  getLayersViaDownloadHelper name p b w = (Ok b', w') ->
  GetManifestLayers name (b_journal b') = String.concat ";" (map helper_name (ExtendedInfo_Layers p)) /\
  (forall other, other <> name ->
     GetManifestLayers other (b_journal b') = GetManifestLayers other (b_journal b)) /\
  Forall (verified (cfg_Layers (b_config b)) (w_answers w) (w_log w')) (ExtendedInfo_Layers p).
Proof.
  unfold getLayersViaDownloadHelper. intros (layers & w1 & E & E2)%act_bind_inv.
  injection E2 as <- <-. apply with_porto_ok in E as (w2 & E & ->).
  apply helper_loop_ok in E as (-> & _ & _ & F). cbn [app] in *. cbn. unfold GetManifestLayers. cbn.
  split_and!.
  - by rewrite lookup_insert_eq.
  - intros other Hne. by rewrite lookup_insert_ne.
  - cbn in F. eapply Forall_impl; [exact F|]. intros l. apply verified_app.
Qed.

Definition demo_layer : Layer := mkLayer "abc" "sha256" 1000 "torrent".
Lemma download_helper_verifies_witness :
  let p := mkProfile "" "" "" ∅ [demo_layer] "" [] ∅ ∅ [] in
  let w := mkWorld [] (λ _ c, match c with Sha256 _ => GotData "abc" | _ => Done end) in
  exists b' w', getLayersViaDownloadHelper "app" p demo_box w = (Ok b', w') /\
    GetManifestLayers "app" (b_journal b') = "sha256_abc"%string /\
    w_log w' = [PortoConnect; DownloadHelper "300" "torrent"; Sha256 "/layers/abc";
                ImportLayer "sha256_abc" "/layers/abc"; PortoClose].
Proof.
  intros p w. destruct (getLayersViaDownloadHelper "app" p demo_box w) as [[b'|e] w'] eqn:E.
  - exists b', w'. split_and!; [done| |].
    + exact (proj1 (download_helper_verifies _ _ _ _ _ _ E)).
    + vm_compute in E. by injection E as _ <-.
  - vm_compute in E. discriminate E.
Defined.

(** ** Spawning *)

Section spawn_facts.
Context (range_ : gmap string string -> list (string * string)).

Lemma newContainer_id c w k w' : newContainer range_ c w = (Ok k, w') -> k_containerID k = c_ID c.
Proof.
  unfold newContainer. intros (v & w1 & _ & E)%act_bind_inv.
  apply act_bind_inv in E as (ex & w2 & _ & E). apply act_bind_inv in E as ([[root extra] a] & w3 & _ & E).
  by injection E as <- _.
Qed.

(** What the body of [Spawn] leaves behind. *)
Lemma spawn_container_effect cc b w r b' w' :
  spawn_container range_ cc b w = (r, b', w') ->
  match r with
  | Ok pr => k_containerID pr = c_ID cc /\
      b' = set_containers (<[c_ID cc := pr]> (b_containers b)) b /\ Start (c_ID cc) ∈ w_log w'
  | Err (SpawnEngine _) => b' = b \/
      exists k, b' = set_containers (<[c_ID cc := k]> (b_containers b)) b /\ owes k = 0%nat
  | Err _ => False
  end.
Proof.
  unfold spawn_container. destruct (newContainer range_ cc w) as [[pr|e] w1] eqn:En.
  2: { intros [= <- <- <-]. by left. }
  pose proof (newContainer_id _ _ _ _ En) as Hid. unfold container_start. rewrite Hid.
  destruct (do (Start (c_ID cc)) w1) as [[[]|e] w2] eqn:Es.
  - intros [= <- <- <-]. split_and!; [done|done|]. apply do_ok in Es as ->.
    rewrite do_log. cbn. rewrite !elem_of_app, !list_elem_of_singleton. auto.
  - destruct (Cleanup_ok pr w2) as (k' & w3 & -> & Hm & Hc & _).
    intros [= <- <- <-]. right. exists k'. split; [done|]. unfold owes. rewrite Hm, Hc.
    by destruct (k_mtn pr), (k_mtnAllocCleaned pr).
Qed.

(** [Spawn] on every branch.  A success started a container under the label of
    the application and its uuid, and tracks it; a full queue and a missing entry of
    the journal touch nothing outside; a container that failed to start stays tracked
    but owes no address.  The counter keeps a request that ended for lack of layers or
    of a connection. *)
Theorem Spawn_effect p c acquired b queue w r b' queue' w' :
  Spawn range_ (Some p) c acquired b queue w = (r, b', queue', w') ->
  let id := addRootNamespacePrefix b (spawn_id c) in
  match r with
  | Ok pr => queue < 10 /\ acquired = true /\ GetManifestLayers (s_Name c) (b_journal b) <> ""%string /\
      k_containerID pr = id /\ b' = set_containers (<[id := pr]> (b_containers b)) b /\
      Start id ∈ w_log w' /\ queue' = queue
  | Err SpawnDecode => False
  | Err SpawnEAGAIN => 10 <= queue /\ b' = b /\ w' = w /\ queue' = queue
  | Err SpawnNoLayers => GetManifestLayers (s_Name c) (b_journal b) = ""%string /\
      b' = b /\ w' = w /\ queue' = queue + 1
  | Err SpawnCancelled => acquired = false /\ b' = b /\ queue' = queue
  | Err (SpawnEngine _) =>
      (b' = b \/ exists k, b' = set_containers (<[id := k]> (b_containers b)) b /\ owes k = 0%nat) /\
      (queue' = queue \/ queue' = queue + 1)
  end.
Proof.
  unfold Spawn. destruct (Z.ltb_spec 10 (queue + 1)) as [Hq|Hq].
  { intros [= <- <- <- <-]. split_and!; [lia|done|done|lia]. }
  destruct (decide (GetManifestLayers (s_Name c) (b_journal b) = ""%string)) as [Hl|Hl].
  { intros [= <- <- <- <-]. done. }
  destruct (do PortoConnect w) as [[[]|e] w1].
  2: { intros [= <- <- <- <-]. split; [by left|by right]. }
  destruct acquired.
  2: { intros [= <- <- <- <-]. split_and!; [done|done|lia]. }
  destruct (spawn_container range_ _ b w1) as [[r1 b1] w2] eqn:E. intros [= <- <- <- <-].
  apply spawn_container_effect in E. cbn [c_ID spawn_config] in E.
  destruct r1 as [pr|[| | | |e]]; try done.
  - destruct E as (E1 & E2 & E3). split_and!; try done; [lia| |lia].
    rewrite do_log. apply elem_of_app. by left.
  - split; [done|left; lia].
Qed.
End spawn_facts.

Lemma Spawn_effect_witness :
  let b := set_journal (InsertManifestLayers "app:1" "sha256_abc" (newJournal "u")) demo_box in
  let c := mkSpawn "app:1" "/bin/app" {[ "--uuid"%string := "u1"%string ]} ∅ in
  let p := mkProfile "" "" "" ∅ [] "" [] ∅ ∅ [] in
  exists pr b' q w', Spawn map_to_list (Some p) c true b 0 (mkWorld [] (λ _ _, Done)) = (Ok pr, b', q, w') /\
    k_containerID pr = "app_1_u1"%string /\ is_Some (b_containers b' !! "app_1_u1"%string) /\ q = 0.
Proof.
  intros b c p.
  destruct (Spawn map_to_list (Some p) c true b 0 (mkWorld [] (λ _ _, Done))) as [[[r b'] q] w'] eqn:E.
  pose proof (Spawn_effect map_to_list p c true b 0 _ _ _ _ _ E) as H. cbn zeta in H.
  destruct r as [pr|e]; [|vm_compute in E; discriminate E].
  destruct H as (_ & _ & _ & H1 & H2 & _ & H3). exists pr, b', q, w'. split; [done|].
  rewrite H1, H2. split_and!; [reflexivity| |done]. cbn. by eexists.
Defined.
