(* ===== verification/PortoLoop.v ===== *)
(** * The wait loop as a whole, and the connections to portod

    [waitLoop] (isolate/porto/box.go) from its first connection to its return, with the
    garbage collection and the iterations of PortoBox.v, and an account of the connections
    the operations of the Porto box open and close. *)

From Stdlib Require Import ZArith Lia Ascii String.
From S2P Require Import Prelude Json MtnStore Journal PortoUtil World GoPath PortoContainer PortoBox PortoBoxFacts.

(** ** The loop *)

(** One turn of the loop: whether the context is done after the sleep, whether it ends
    while a failed connection waits, and what other goroutines did to the box meanwhile. *)
Record turn := mkTurn { t_closed : bool; t_cancelled : bool; t_others : portoBox -> portoBox }.

(** Where the loop is: it runs, with a connection or without; it returned because the
    context is done; the collection returned from it; or the program panicked. *)
Inductive loop_end := LoopRuns (connected : bool) | LoopReturned | LoopGcReturned | LoopPanicked.

Fixpoint wait_loop (order : gmap string container -> list string) (turns : list turn) (connected : bool)
    (b : portoBox) (w : world) : loop_end * portoBox * world :=
  match turns with
  | [] => (LoopRuns connected, b, w)
  | t :: turns =>
      match wait_iteration order (t_closed t) (t_cancelled t) connected (t_others t b) w with
      | (WNext connected, b, w) => wait_loop order turns connected b w
      | (WStop, b, w) => (LoopReturned, b, w)
      | (WPanic, b, w) => (LoopPanicked, b, w)
      end
  end.

Definition waitLoop (order : gmap string container -> list string) (turns : list turn) (b : portoBox) (w : world)
  : loop_end * portoBox * world :=
  let '(r, w) := do PortoConnect w in
  let connected := match r with Ok _ => true | Err _ => false end in
  match gc connected b w with
  | (Ok GcDone, w) => wait_loop order turns connected b w
  | (Ok GcReturn, w) => (LoopGcReturned, b, w)
  | (Ok GcPanic, w) => (LoopPanicked, b, w)
  | (Err _, w) => (LoopPanicked, b, w)
  end.

(** [ContainerRootDir] *)
Definition ContainerRootDir (name containerID : string) (c : portoBoxConfig) : string :=
  Join [cfg_Containers c; name; containerID].

(** ** Open connections *)

(** What a call does to the number of open connections, given its answer. *)
Definition conn_weight (answers : nat -> call -> answer) (i : nat) (c : call) : Z :=
  match c with
  | PortoConnect => match answers i c with Fails _ => 0 | _ => 1 end
  | PortoClose => -1
  | _ => 0
  end.
Fixpoint conn_count (answers : nat -> call -> answer) (i : nat) (l : list call) : Z :=
  match l with
  | [] => 0
  | c :: l => conn_weight answers i c + conn_count answers (S i) l
  end.
Definition open_conns (w : world) : Z := conn_count (w_answers w) 0 (w_log w).

(** [m] leaves as many connections open as it found. *)
Definition same_conns (w w' : world) : Prop := w_answers w' = w_answers w /\ open_conns w' = open_conns w.
#[export] Instance same_conns_po : PreOrder same_conns.
Proof. split; [by intros w|]. intros w1 w2 w3 [A1 O1] [A2 O2]. split; congruence. Qed.
Definition steady {A} (m : W A) : Prop := ∀ w, same_conns w (m w).2.

Lemma conn_count_app answers i l1 l2 :
  conn_count answers i (l1 ++ l2) = conn_count answers i l1 + conn_count answers (i + length l1) l2.
Proof.
  revert i. induction l1 as [|c l1 IH]; intros i; cbn; [by rewrite Nat.add_0_r|]. rewrite IH.
  replace (S i + length l1)%nat with (i + S (length l1))%nat by lia. lia.
Qed.

Lemma invoke_conns c w : w_answers (invoke c w).2 = w_answers w /\
  open_conns (invoke c w).2 = open_conns w + conn_weight (w_answers w) (length (w_log w)) c.
Proof.
  assert (open_conns (mkWorld (w_log w ++ [c]) (w_answers w)) =
    open_conns w + conn_weight (w_answers w) (length (w_log w)) c) as E.
  { unfold open_conns. cbn. rewrite conn_count_app. cbn. lia. }
  unfold invoke. by case_match.
Qed.
Lemma do_snd c w : (do c w).2 = (invoke c w).2.
Proof. unfold do, mbind, act_bind. by destruct (invoke c w) as [[]]. Qed.

Definition neutral (c : call) : bool := match c with PortoConnect | PortoClose => false | _ => true end.
Lemma steady_invoke c : neutral c = true -> steady (invoke c).
Proof.
  intros Hc w. destruct (invoke_conns c w) as [A O]. split; [done|]. rewrite O.
  destruct c; try done; cbn; lia.
Qed.
Lemma steady_ret {A} (a : A) : steady (mret a).
Proof. by intros w. Qed.
Lemma steady_throw {A} e : steady (throw e : W A).
Proof. by intros w. Qed.
Lemma steady_bind {A B} (m : W A) (k : A -> W B) : steady m -> (∀ a, steady (k a)) -> steady (m ≫= k).
Proof.
  intros Hm Hk w. specialize (Hm w). unfold mbind, act_bind. destruct (m w) as [[a|e] w']; [|done].
  etrans; [exact Hm|apply Hk].
Qed.
Lemma steady_do c : neutral c = true -> steady (do c).
Proof. intros Hc. apply steady_bind; [by apply steady_invoke|intros; apply steady_ret]. Qed.
Lemma steady_try {A} (m : W A) : steady m -> steady (try m).
Proof. intros H w. specialize (H w). unfold try. by destruct (m w) as [[]]. Qed.
(** A handler for the error of [m]. *)
Lemma steady_handle {A B} (m : W A) (ok : A -> W B) (h : porto_error -> W B) :
  steady m -> (∀ a, steady (ok a)) -> (∀ e, steady (h e)) ->
  steady (λ w, match m w with (Ok a, w') => ok a w' | (Err e, w') => h e w' end).
Proof.
  intros Hm Ho Hh w. specialize (Hm w). destruct (m w) as [[a|e] w']; (etrans; [exact Hm|]); [apply Ho|apply Hh].
Qed.

Create HintDb conns.
#[export] Hint Resolve steady_ret steady_throw steady_try : conns.
#[export] Hint Extern 1 (steady (invoke _)) => by apply steady_invoke : conns.
#[export] Hint Extern 1 (steady (do _)) => by apply steady_do : conns.
#[export] Hint Extern 2 (steady (mbind _ _)) => apply steady_bind; [|intros] : conns.
#[export] Hint Extern 2 (steady (_ ≫= _)) => apply steady_bind; [|intros] : conns.
#[export] Hint Extern 3 (steady (if ?b then _ else _)) => destruct b : conns.
#[export] Hint Extern 3 (steady (match ?x with _ => _ end)) => destruct x : conns.
Ltac steady := auto 40 with conns.

(** ** The operations that keep the number *)

Lemma steady_Volume_Destroy v : steady (Volume_Destroy v).
Proof. unfold Volume_Destroy, portoVolume_Destroy. steady. Qed.
#[export] Hint Resolve steady_Volume_Destroy : conns.
Lemma steady_destroy_all vols : steady (destroy_all vols).
Proof. induction vols as [|v vols IH]; cbn [destroy_all]; steady. Qed.
#[export] Hint Resolve steady_destroy_all : conns.
Lemma steady_or_clean {A} vols (m : W A) : steady m -> steady (or_clean vols m).
Proof. intros H. refine (steady_handle m mret (λ e, _ ← destroy_all vols; throw e) _ _ _); steady. Qed.
Lemma steady_or_destroy {A} v (m : W A) : steady m -> steady (or_destroy v m).
Proof. intros H. refine (steady_handle m mret (λ e, _ ← try (Volume_Destroy v); throw e) _ _ _); steady. Qed.
#[export] Hint Resolve steady_or_clean steady_or_destroy : conns.

Lemma steady_CreateRootVolume c : steady (CreateRootVolume c).
Proof. unfold CreateRootVolume. cbv zeta. steady. Qed.
Lemma steady_extra_loop c root vps vols : steady (extra_loop c root vps vols).
Proof. revert vols. induction vps as [|vp vps IH]; intros vols; cbn [extra_loop]; cbv zeta; steady. Qed.
Lemma steady_link id v : steady (link_or_destroy id v).
Proof.
  refine (steady_handle (Volume_Link v) mret (λ e, _ ← try (do (Destroy id)); throw e) _ _ _); [|steady|steady].
  unfold Volume_Link. steady.
Qed.
#[export] Hint Resolve steady_CreateRootVolume steady_extra_loop steady_link : conns.
Lemma steady_link_all id vols : steady (link_all id vols).
Proof. induction vols as [|v vols IH]; cbn [link_all]; steady. Qed.
Lemma steady_set_properties id props : steady (set_properties id props).
Proof. induction props as [|[k v] props IH]; cbn [set_properties]; steady. Qed.
#[export] Hint Resolve steady_link_all steady_set_properties : conns.

Lemma steady_CreateContainer range_ c root extra : steady (CreateContainer range_ c root extra).
Proof.
  unfold CreateContainer. apply steady_bind; [steady|intros _].
  refine (steady_handle (setup_container range_ c root extra) mret (λ e, _ ← try (do (Destroy (c_ID c))); throw e) _ _ _);
    [|steady|steady].
  unfold setup_container, network_properties. cbv zeta. steady.
Qed.
#[export] Hint Resolve steady_CreateContainer : conns.
Lemma steady_newContainer range_ c : steady (newContainer range_ c).
Proof. unfold newContainer, CreateExtraVolumes. steady. Qed.
Lemma steady_Cleanup k : steady (Cleanup k).
Proof. unfold Cleanup. refine (steady_bind _ _ _ _); steady. Qed.
#[export] Hint Resolve steady_newContainer steady_Cleanup : conns.

Lemma steady_data_or_empty id name : steady (data_or_empty id name).
Proof.
  intros w. unfold data_or_empty. pose proof (steady_invoke (GetData id name) eq_refl w) as H.
  by destruct (invoke (GetData id name) w) as [[[]|] w'].
Qed.
Lemma steady_property_or_empty id name : steady (property_or_empty id name).
Proof.
  intros w. unfold property_or_empty. pose proof (steady_invoke (GetProperty id name) eq_refl w) as H.
  by destruct (invoke (GetProperty id name) w) as [[] w'].
Qed.
#[export] Hint Resolve steady_data_or_empty steady_property_or_empty : conns.
Lemma steady_kill_body k : steady (kill_body k).
Proof. unfold kill_body. cbv zeta. steady. Qed.
Lemma steady_gc_containers meta names ips : steady (gc_containers meta names ips).
Proof. revert ips. induction names as [|n names IH]; intros ips; cbn [gc_containers]; steady. Qed.
Lemma steady_free_allocs box l : steady (free_allocs box l).
Proof. induction l as [|a l IH]; cbn [free_allocs]; steady. Qed.
Lemma steady_unlink_volumes label vols : steady (unlink_volumes label vols).
Proof. induction vols as [|v vols IH]; cbn [unlink_volumes]; steady. Qed.
Lemma steady_gc_volumes label : steady (gc_volumes label).
Proof.
  intros w. unfold gc_volumes. pose proof (steady_invoke ListVolumes eq_refl w) as H.
  destruct (invoke ListVolumes w) as [[[]|] w']; try exact H. etrans; [exact H|apply steady_unlink_volumes].
Qed.
#[export] Hint Resolve steady_kill_body steady_gc_containers steady_free_allocs steady_gc_volumes : conns.

Lemma steady_gc connected b : steady (gc connected b).
Proof.
  intros w. unfold gc. destruct (cfg_Gc (b_config b)); [|done]. destruct connected; [|done]. cbn [negb].
  pose proof (steady_invoke List eq_refl w) as H1.
  assert (∃ names w1, same_conns w w1 /\ (match invoke List w with (Ok (GotNames l), w') => (l, w') | (_, w') => ([], w') end) =
    (names, w1)) as (names & w1 & S1 & ->).
  { destruct (invoke List w) as [[[]|] w']; by eexists _, _. }
  pose proof (steady_invoke UsedAllocationsCall eq_refl w1) as H2.
  destruct (invoke UsedAllocationsCall w1) as [[a|e] w2]; [|by etrans].
  etrans; [exact S1|]. etrans; [exact H2|]. refine ((_ : steady _) w2). cbv zeta. steady.
Qed.

Lemma steady_helper_loop dir ls layers : steady (helper_loop dir ls layers).
Proof. revert layers. induction ls as [|l ls IH]; intros layers; cbn [helper_loop]; cbv zeta; unfold import_layer; steady. Qed.
Lemma steady_registry_loop ds layers : steady (registry_loop ds layers).
Proof. revert layers. induction ds as [|d ds IH]; intros layers; cbn [registry_loop]; cbv zeta; unfold import_layer; steady. Qed.

(** ** Opening and closing *)

Lemma connect_conns w : let '(r, w') := do PortoConnect w in
  w_answers w' = w_answers w /\ open_conns w' = open_conns w + match r with Ok _ => 1 | Err _ => 0 end.
Proof.
  destruct (invoke_conns PortoConnect w) as [A O]. cbn in O. unfold do, mbind, act_bind, invoke in *. cbn in *.
  by destruct (w_answers w (length (w_log w)) PortoConnect).
Qed.
Lemma close_conns w : w_answers (do PortoClose w).2 = w_answers w /\ open_conns (do PortoClose w).2 = open_conns w - 1.
Proof. rewrite do_snd. destruct (invoke_conns PortoClose w) as [A O]. split; [done|]. rewrite O. cbn. lia. Qed.

(** A connection that is opened, used and closed. *)
Lemma bracket w w1 w2 : (∃ r, do PortoConnect w = (Ok r, w1)) -> same_conns w1 w2 -> same_conns w (do PortoClose w2).2.
Proof.
  intros [r E] [A2 O2]. pose proof (connect_conns w) as H. rewrite E in H. destruct H as [A1 O1].
  destruct (close_conns w2) as [A3 O3]. split; [congruence|lia].
Qed.
Lemma failed_connect w e w1 : do PortoConnect w = (Err e, w1) -> same_conns w w1.
Proof. intros E. pose proof (connect_conns w) as H. rewrite E in H. destruct H as [A O]. split; [done|lia]. Qed.

Lemma steady_with_porto {A} (m : W A) : steady m -> steady (with_porto m).
Proof.
  intros Hm w. unfold with_porto. unfold mbind, act_bind. destruct (do PortoConnect w) as [[r|e] w1] eqn:E.
  - specialize (Hm w1). destruct (m w1) as [x w2]. cbn in *. by eapply bracket; [eexists|].
  - by eapply failed_connect.
Qed.
#[export] Hint Resolve steady_with_porto steady_helper_loop steady_registry_loop : conns.

Lemma steady_after_kill k w : same_conns w (after_kill k w).2.
Proof.
  unfold after_kill. destruct (do PortoConnect w) as [[r|e] w1] eqn:E; [|by eapply failed_connect].
  pose proof (steady_try _ (steady_kill_body k) w1) as H1. destruct (try (kill_body k) w1) as [x w2].
  pose proof (steady_Cleanup k w2) as H2. destruct (Cleanup k w2) as [[k'|e] w3] eqn:EC.
  - assert ((try (do PortoClose) w3).2 = (do PortoClose w3).2) as ->.
    { unfold try. by destruct (do PortoClose w3) as [[]]. }
    eapply bracket; [by eexists|]. by etrans.
  - by destruct (Cleanup_ok k w2) as (k' & w' & E' & _); rewrite E' in EC.
Qed.

Definition loop_conns (connected : bool) : Z := if connected then 1 else 0.

Lemma poll_conns ids cs w : ∀ r cs' w', poll ids cs w = (r, cs', w') ->
  w_answers w' = w_answers w /\
  match r with
  | WNext connected => open_conns w' = open_conns w - 1 + loop_conns connected
  | WPanic => open_conns w' = open_conns w
  | WStop => False
  end.
Proof.
  revert cs w. induction ids as [|id ids IH]; intros cs w r cs' w'; cbn [poll].
  { intros [= <- <- <-]. split; [done|]. cbn. lia. }
  pose proof (steady_invoke (GetProperty id "state") eq_refl w) as [A1 O1].
  assert (∀ w1, same_conns w w1 -> (let '(cs, w) := reap id cs w1 in poll ids cs w) = (r, cs', w') ->
    w_answers w' = w_answers w /\ match r with
      | WNext connected => open_conns w' = open_conns w - 1 + loop_conns connected
      | WPanic => open_conns w' = open_conns w | WStop => False end) as Hreap.
  { intros w1 [A O] E. unfold reap in E. destruct (cs !! id) as [k|].
    - destruct (IH _ _ _ _ _ E) as [A' Hc]. destruct (steady_after_kill k w1) as [A2 O2]. split; [congruence|].
      rewrite <- O, <- O2. exact Hc.
    - destruct (IH _ _ _ _ _ E) as [A' Hc]. split; [congruence|]. by rewrite <- O. }
  destruct (invoke (GetProperty id "state") w) as [[a|[errno|]] w1]; cbn [snd] in *.
  - case_decide; [by apply Hreap|]. intros E. destruct (IH _ _ _ _ _ E) as [A' Hc].
    split; [congruence|]. by rewrite <- O1.
  - destruct (errno =? EError_ContainerDoesNotExist); [by apply Hreap|]. intros [= <- <- <-].
    destruct (close_conns w1) as [A2 O2]. split; [congruence|]. cbn. lia.
  - intros [= <- <- <-]. by split.
Qed.

Lemma wait_iteration_conns order closed cancelled connected b w r b' w' :
  wait_iteration order closed cancelled connected b w = (r, b', w') ->
  w_answers w' = w_answers w /\
  match r with
  | WNext connected' => open_conns w' = open_conns w - loop_conns connected + loop_conns connected'
  | WStop => open_conns w' = open_conns w - loop_conns connected
  | WPanic => True
  end.
Proof.
  unfold wait_iteration. destruct closed.
  { intros [= <- <- <-]. destruct connected; cbn; [|split; [done|lia]]. destruct (close_conns w). split; [done|lia]. }
  assert (∃ x w1, (if connected then (Ok tt, w) else do PortoConnect w) = (x, w1) /\ w_answers w1 = w_answers w /\
    open_conns w1 = open_conns w - loop_conns connected + match x with Ok _ => 1 | Err _ => 0 end) as (x & w1 & -> & A1 & O1).
  { destruct connected; [eexists _, _; split; [done|]; split; [done|]; cbn; lia|].
    pose proof (connect_conns w) as H. destruct (do PortoConnect w) as [x w1]. destruct H as [A O].
    eexists _, _. split; [done|]. split; [done|]. cbn in *. lia. }
  destruct x as [u|e].
  - destruct (poll _ _ w1) as [[r1 cs] w2] eqn:E. intros [= <- <- <-]. apply poll_conns in E as [A2 H].
    split; [congruence|]. destruct r1; [cbn in *; lia|done|done].
  - destruct cancelled; intros [= <- <- <-]; (split; [done|]); cbn in *; lia.
Qed.

Lemma wait_loop_conns order turns connected b w r b' w' : wait_loop order turns connected b w = (r, b', w') ->
  match r with
  | LoopRuns connected' => open_conns w' = open_conns w - loop_conns connected + loop_conns connected'
  | LoopReturned => open_conns w' = open_conns w - loop_conns connected
  | LoopGcReturned => False
  | LoopPanicked => True
  end.
Proof.
  revert connected b w. induction turns as [|t turns IH]; intros connected b w; cbn [wait_loop].
  { intros [= <- <- <-]. lia. }
  destruct (wait_iteration _ _ _ _ _ w) as [[r1 b1] w1] eqn:E. apply wait_iteration_conns in E as [A H].
  destruct r1 as [c| |].
  - intros E. apply IH in E. destruct r; [lia|lia|done|done].
  - by intros [= <- <- <-].
  - intros [= <- <- <-]. done.
Qed.

Lemma steady_spawn_container range_ cc b w : same_conns w (spawn_container range_ cc b w).2.
Proof.
  unfold spawn_container. pose proof (steady_newContainer range_ cc w) as H1.
  destruct (newContainer range_ cc w) as [[pr|e] w1]; [|done]. cbn in H1.
  pose proof (steady_do (Start (k_containerID pr)) eq_refl w1 : same_conns w1 (container_start pr w1).2) as H2.
  destruct (container_start pr w1) as [[u|e] w2]; cbn in H2.
  - cbn. etrans; [exact H1|]. etrans; [exact H2|]. apply (steady_do (OutputWrite "")). done.
  - pose proof (steady_Cleanup pr w2) as H3. destruct (Cleanup pr w2) as [[k|e'] w3]; cbn in *; by repeat (etrans; [eassumption|]).
Qed.

Lemma steady_get_layers name p b : steady (get_layers name p b).
Proof.
  assert (steady (getLayersViaRegistry name p b)) as HR by (unfold getLayersViaRegistry; cbv zeta; steady).
  assert (steady (getLayersViaDownloadHelper name p b)) as HH by (unfold getLayersViaDownloadHelper; steady).
  intros w. unfold get_layers. destruct (via_helper p b); [|apply HR]. specialize (HH w).
  destruct (getLayersViaDownloadHelper name p b w) as [[b1|e] w1]; [done|]. destruct (b_dhfEnable b); [|done].
  etrans; [exact HH|apply HR].
Qed.

Lemma steady_NewBox range_ decode uuid can_open mtn fs : steady (NewBox range_ decode uuid can_open mtn fs).
Proof.
  unfold NewBox, check_config, build_box, create_meta. cbv zeta. steady.
Qed.

(** ** Properties *)


(** When the allocations in use cannot be read at the start, the collection returns from
    the whole loop: no turn ever runs and no container is ever reaped. *)
Lemma gc_error_ends_loop order turns b w e :
  cfg_Gc (b_config b) = true -> (∀ i, w_answers w i PortoConnect = Done) -> (∀ i, w_answers w i UsedAllocationsCall = Fails e) ->
  ∃ w', waitLoop order turns b w = (LoopGcReturned, b, w').
Proof.
  intros Hg Hc Hu. unfold waitLoop, do, mbind, act_bind, invoke. rewrite Hc. cbn. unfold gc. rewrite Hg. cbn [negb].
  unfold invoke. cbn. match goal with |- context[w_answers w ?n List] => destruct (w_answers w n List) end;
    cbn; rewrite Hu; by eexists.
Qed.

(** When portod cannot be reached at the start, the collection calls a nil connection. *)
Lemma gc_without_portod_panics order turns b w e :
  cfg_Gc (b_config b) = true -> (∀ i, w_answers w i PortoConnect = Fails e) ->
  ∃ w', waitLoop order turns b w = (LoopPanicked, b, w').
Proof.
  intros Hg Hc. unfold waitLoop, do, mbind, act_bind, invoke. rewrite Hc. unfold gc. rewrite Hg. by eexists.
Qed.

(** A box that is closed after one turn: the loop connected once, polled its container,
    reaped it over a connection of its own and closed the first one. *)
Example demo_loop :
  let w := mkWorld [] (λ _ c, match c with
    | GetProperty _ _ => GotData "dead" | UsedAllocationsCall => GotAllocs [] | List => GotNames [] | _ => Done end) in
  let turn closed := mkTurn closed false (λ b, b) in
  match waitLoop (λ m, (map_to_list m).*1) [turn false; turn true] demo_tracked w with
  | (r, b, w') => (r, size (b_containers b), open_conns w',
      length (List.filter (λ c, match c with PortoConnect => true | _ => false end) (w_log w')))
  end = (LoopReturned, 0%nat, 0, 2%nat).
Proof. vm_compute. reflexivity. Qed.
