(* ===== verification/PortoAdmin.v ===== *)
(** * Inspection and shutdown of the Porto box (isolate/porto/box.go)

    [Inspect], [Close] and the goroutine that saves the journal at intervals and once
    more at the end. *)

From Stdlib Require Import ZArith Lia Ascii String.
From S2P Require Import Prelude Json MtnStore Mtn Journal PortoUtil World PortoContainer PortoBox.

(** ** Inspect *)

Inductive porto_inspect_error := InspectConnect (e : porto_error) | InspectGet (e : porto_error) | InspectJson.

(** What Porto answers: to the connection, to the two listings, to the query; [compact] is
    the check of [json.Marshal] on the text a marshaler returns, which it also compacts. *)
Record inspect_answers := mkInspect {
  i_connect : option porto_error;
  i_plist : option (list string);
  i_dlist : option (list string);
  i_get : list string -> result porto_error (gmap string (gmap string TPortoGetResponse))
}.

(** Also returns the cached names and the connections left open. *)
Definition porto_Inspect (range_ : gmap string container -> list (string * container))
    (compact : string -> option string) (a : inspect_answers) (cache : list string)
    (workeruuid : string) (b : portoBox) : result porto_inspect_error string * list string * nat :=
  match list_find (λ kv : string * container, k_uuid kv.2 = workeruuid) (range_ (b_containers b)) with
  | None => (Ok ""%string, cache, 0%nat)
  | Some (_, (cid, _)) =>
      match i_connect a with
      | Some e => (Err (InspectConnect e), cache, 0%nat)
      | None =>
          let '(names, cache) := getPListAndDlist cache (i_plist a) (i_dlist a) in
          match i_get a names with
          | Err e => (Err (InspectGet e), cache, 1%nat)
          | Ok result =>
              let d := result !! cid in
              match compact (MarshalJSON cache (match d with Some m => (map_to_list m).*1 | None => [] end) d) with
              | Some text => (Ok text, cache, 1%nat)
              | None => (Err InspectJson, cache, 1%nat)
              end
          end
      end
  end.

(** The connection an inspection opens is never closed. *)
Lemma inspect_leaks_connection range_ compact a cache uuid b id k :
  (forall m, range_ m ≡ₚ map_to_list m) -> b_containers b !! id = Some k -> k_uuid k = uuid ->
  i_connect a = None -> (porto_Inspect range_ compact a cache uuid b).2 = 1%nat.
Proof.
  intros Hr Hid Hu Hc. unfold porto_Inspect.
  destruct (list_find _ _) as [[i [cid k']]|] eqn:E.
  - rewrite Hc. destruct (getPListAndDlist _ _ _) as [names cache']. by repeat case_match.
  - apply list_find_None in E. rewrite Forall_forall in E. exfalso. apply (E (id, k)); [|done].
    by rewrite Hr, elem_of_map_to_list.
Qed.

(** Values are copied into the document as they are: one with a quote ends its string. *)
Lemma inspect_not_escaped :
  MarshalJSON ["command"%string] [] (Some {["command"%string := mkGet (quote_char +s+ "x" +s+ quote_char) 0 ""]}) =
  ("{" +s+ quote_char +s+ "command" +s+ quote_char +s+ ":" +s+ quote_char +s+ quote_char +s+ "x" +s+
   quote_char +s+ quote_char +s+ "}")%string.
Proof. reflexivity. Qed.

(** ** Close *)

Inductive close_step := CloseIdleConnections | DbClose | OnClose.

(** [Close]; closing the database of an allocator that has none is a nil dereference. *)
Definition porto_Close {Db} (db : option Db) : result unit (list close_step) :=
  match db with
  | None => Err tt
  | Some _ => Ok [CloseIdleConnections; DbClose; OnClose]
  end.

(** An allocator that is not enabled has no database, so closing a Porto box panics. *)
Lemma close_without_mtn_panics {Db} (b : boot Db) s c fs :
  s_Enable s = false ->
  exists c', CfgInit b s c None fs = Some (true, c', None, fs) /\ porto_Close (@None Db) = Err tt.
Proof. intros E. unfold CfgInit. rewrite E. cbn [negb]. by eexists. Qed.

(** ** Saving the journal *)

(** A tick of the timer, or the end of the context; the box as it is then. *)
Record save := mkSave { s_done : bool; s_env : dump_env; s_temp : string; s_box : portoBox }.

Fixpoint dumpJournalEvery (evs : list save) (fs : jfiles) : jfiles :=
  match evs with
  | [] => fs
  | ev :: evs =>
      let fs := (dumpJournal (s_env ev) (s_temp ev) (s_box ev) fs).2 in
      if s_done ev then fs else dumpJournalEvery evs fs
  end.

(** The last dump is the one at the end: when it succeeds, the box that is started next
    has the journal of the box that was closed. *)
Lemma journal_survives_close evs last rest b fs :
  Forall (λ ev, s_done ev = false) evs -> s_done last = true ->
  d_temp (s_env last) = true -> d_write (s_env last) = true -> d_rename (s_env last) = true ->
  journal_ok (b_journal (s_box last)) ->
  s_temp last <> cfg_Journal (b_config (s_box last)) ->
  cfg_Journal (b_config b) = cfg_Journal (b_config (s_box last)) ->
  b_journal b = newJournal (UUID (b_journal b)) ->
  loadJournal true b (dumpJournalEvery (evs ++ last :: rest) fs) = Ok (set_journal (b_journal (s_box last)) b).
Proof.
  intros Hevs Hl He1 He2 He3 Hok Ht Hc HL. revert fs. induction Hevs as [|ev evs Hev _ IH]; intros fs; cbn [app dumpJournalEvery].
  - rewrite Hl. unfold dumpJournal. rewrite He1, He2, He3. cbn [snd]. unfold loadJournal.
    rewrite Hc, lookup_delete_ne, lookup_insert_eq, HL, <- (app_nil_r (Dump _)) by done. by rewrite Load_Dump.
  - rewrite Hev. apply IH.
Qed.
