(* ===== verification/Profiles.v ===== *)
(** * The codecs of the profiles (isolate/process/profile_encodable.go,
      isolate/porto/profile_decodable.go)

    The generated decoders and encoders of the profiles a client may send.  A
    decoder walks over a map, switches on the key and skips what it does not know;
    it decodes into an existing value, and a repeated key decodes again into the
    slices and maps it finds. *)

From Stdlib Require Import ZArith Lia Ascii String Strings.Byte.
From S2P Require Import Prelude Fwd Msgp MsgpFacts MsgpSafe MsgpBytes Writer Stream Dispatch Codec CodecFacts PortoContainer.

(** ** The profile of the process box *)

Module process.
Record Profile := mkProfile { Spool : string }.

Definition field (key : string) (z : Profile) : act Reader rerror Profile :=
  if decide (key = "spool"%string) then s ← ReadString; mret (mkProfile s)
  else skip_field z.
Definition DecodeMsg (z : Profile) : act Reader rerror Profile := decode_fields field z.

Definition MarshalMsg (b : list byte) (z : Profile) : list byte :=
  let o := b ++ [x81; xa5; x73; x70; x6f; x6f; x6c] in
  AppendString o (Spool z).
End process.

(** ** The profile of the Porto box *)

Definition Layer_field (key : string) (z : Layer) : act Reader rerror Layer :=
  if decide (key = "digest"%string) then
    s ← ReadString; mret (mkLayer s (DigestType z) (Size z) (TorrentId z))
  else if decide (key = "digest_type"%string) then
    s ← ReadString; mret (mkLayer (Digest z) s (Size z) (TorrentId z))
  else if decide (key = "size"%string) then
    n ← ReadUint; mret (mkLayer (Digest z) (DigestType z) n (TorrentId z))
  else if decide (key = "torrent_id"%string) then
    s ← ReadString; mret (mkLayer (Digest z) (DigestType z) (Size z) s)
  else skip_field z.
Definition Layer_DecodeMsg (z : Layer) : act Reader rerror Layer := decode_fields Layer_field z.

Definition Layer_MarshalMsg (b : list byte) (z : Layer) : list byte :=
  let o := b ++ [x84; xa6; x64; x69; x67; x65; x73; x74] in
  let o := AppendString o (Digest z) in
  let o := o ++ [xab; x64; x69; x67; x65; x73; x74; x5f; x74; x79; x70; x65] in
  let o := AppendString o (DigestType z) in
  let o := o ++ [xa4; x73; x69; x7a; x65] in
  let o := AppendUint o (Size z) in
  let o := o ++ [xaa; x74; x6f; x72; x72; x65; x6e; x74; x5f; x69; x64] in
  AppendString o (TorrentId z).

Definition zero_Layer : Layer := mkLayer "" "" 0 "".

(** [ExtendedInfo], whose only field is the slice of the layers. *)
Definition ExtendedInfo_field (key : string) (z : slice Layer) : act Reader rerror (slice Layer) :=
  if decide (key = "layers"%string) then decode_slice zero_Layer Layer_DecodeMsg z
  else skip_field z.
Definition ExtendedInfo_DecodeMsg (z : slice Layer) : act Reader rerror (slice Layer) :=
  decode_fields ExtendedInfo_field z.

Definition ExtendedInfo_MarshalMsg (b : list byte) (z : list Layer) : list byte :=
  let o := b ++ [x81; xa6; x6c; x61; x79; x65; x72; x73] in
  let o := AppendArrayHeader o (uint 32 (zlen z)) in
  fold_left Layer_MarshalMsg z o.

Definition VolumeProfile_field (key : string) (z : VolumeProfile) : act Reader rerror VolumeProfile :=
  if decide (key = "target"%string) then s ← ReadString; mret (mkVolProfile s (Properties z))
  else if decide (key = "properties"%string) then m ← decode_map; mret (mkVolProfile (Target z) m)
  else skip_field z.
Definition VolumeProfile_DecodeMsg (z : VolumeProfile) : act Reader rerror VolumeProfile :=
  decode_fields VolumeProfile_field z.
Definition zero_VolumeProfile : VolumeProfile := mkVolProfile "" ∅.

Section marshal.
(** The order in which a map is ranged. *)
Context (range_ : gmap string string -> list (string * string)).

Definition VolumeProfile_MarshalMsg (b : list byte) (z : VolumeProfile) : list byte :=
  let o := b ++ [x82; xa6; x74; x61; x72; x67; x65; x74] in
  let o := AppendString o (Target z) in
  let o := o ++ [xaa; x70; x72; x6f; x70; x65; x72; x74; x69; x65; x73] in
  append_map range_ o (Properties z).

Definition Profile_MarshalMsg (b : list byte) (z : Profile) : list byte :=
  let o := b ++ [x8a; xa8; x72; x65; x67; x69; x73; x74; x72; x79] in
  let o := AppendString o (Registry z) in
  let o := o ++ [xaa; x72; x65; x70; x6f; x73; x69; x74; x6f; x72; x79] in
  let o := AppendString o (Repository z) in
  let o := o ++ [xac; x6e; x65; x74; x77; x6f; x72; x6b; x5f; x6d; x6f; x64; x65] in
  let o := AppendString o (NetworkMode z) in
  let o := o ++ [xa7; x6e; x65; x74; x77; x6f; x72; x6b] in
  let o := append_map range_ o (Network z) in
  let o := o ++ [xad; x65; x78; x74; x65; x6e; x64; x65; x64; x5f; x69; x6e; x66; x6f;
                 x81; xa6; x6c; x61; x79; x65; x72; x73] in
  let o := AppendArrayHeader o (uint 32 (zlen (ExtendedInfo_Layers z))) in
  let o := fold_left Layer_MarshalMsg (ExtendedInfo_Layers z) o in
  let o := o ++ [xa3; x63; x77; x64] in
  let o := AppendString o (Cwd z) in
  let o := o ++ [xa5; x62; x69; x6e; x64; x73] in
  let o := AppendArrayHeader o (uint 32 (zlen (Binds z))) in
  let o := fold_left AppendString (Binds z) o in
  let o := o ++ [xa9; x63; x6f; x6e; x74; x61; x69; x6e; x65; x72] in
  let o := append_map range_ o (ContainerProps z) in
  let o := o ++ [xa6; x76; x6f; x6c; x75; x6d; x65] in
  let o := append_map range_ o (VolumeProps z) in
  let o := o ++ [xac; x65; x78; x74; x72; x61; x76; x6f; x6c; x75; x6d; x65; x73] in
  let o := AppendArrayHeader o (uint 32 (zlen (ExtraVolumes z))) in
  fold_left VolumeProfile_MarshalMsg (ExtraVolumes z) o.
End marshal.

(** A profile under construction: its slices keep their backing arrays. *)
Record profile_state := mkPS {
  ps_Registry : string;
  ps_Repository : string;
  ps_NetworkMode : string;
  ps_Network : gmap string string;
  ps_Layers : slice Layer;
  ps_Cwd : string;
  ps_Binds : slice string;
  ps_Container : gmap string string;
  ps_Volume : gmap string string;
  ps_ExtraVolumes : slice VolumeProfile
}.
Definition new_profile : profile_state := mkPS "" "" "" ∅ nil_slice "" nil_slice ∅ ∅ nil_slice.
Definition profile_of (z : profile_state) : Profile :=
  mkProfile (ps_Registry z) (ps_Repository z) (ps_NetworkMode z) (ps_Network z) (elems (ps_Layers z))
    (ps_Cwd z) (elems (ps_Binds z)) (ps_Container z) (ps_Volume z) (elems (ps_ExtraVolumes z)).

Definition Profile_field (key : string) (z : profile_state) : act Reader rerror profile_state :=
  let '(mkPS reg rep nm nw ly cwd bi co vo ev) := z in
  if decide (key = "registry"%string) then s ← ReadString; mret (mkPS s rep nm nw ly cwd bi co vo ev)
  else if decide (key = "repository"%string) then s ← ReadString; mret (mkPS reg s nm nw ly cwd bi co vo ev)
  else if decide (key = "network_mode"%string) then s ← ReadString; mret (mkPS reg rep s nw ly cwd bi co vo ev)
  else if decide (key = "network"%string) then m ← decode_map; mret (mkPS reg rep nm m ly cwd bi co vo ev)
  else if decide (key = "extended_info"%string) then
    l ← ExtendedInfo_DecodeMsg ly; mret (mkPS reg rep nm nw l cwd bi co vo ev)
  else if decide (key = "cwd"%string) then s ← ReadString; mret (mkPS reg rep nm nw ly s bi co vo ev)
  else if decide (key = "binds"%string) then
    l ← decode_slice ""%string (λ _, ReadString) bi; mret (mkPS reg rep nm nw ly cwd l co vo ev)
  else if decide (key = "container"%string) then m ← decode_map; mret (mkPS reg rep nm nw ly cwd bi m vo ev)
  else if decide (key = "volume"%string) then m ← decode_map; mret (mkPS reg rep nm nw ly cwd bi co m ev)
  else if decide (key = "extravolumes"%string) then
    l ← decode_slice zero_VolumeProfile VolumeProfile_DecodeMsg ev;
    mret (mkPS reg rep nm nw ly cwd bi co vo l)
  else skip_field z.
Definition Profile_DecodeMsg : act Reader rerror Profile :=
  z ← decode_fields Profile_field new_profile; mret (profile_of z).

Section roundtrip.
Context (range_ : gmap string string -> list (string * string)).
Context (range_all : forall m, range_ m ≡ₚ map_to_list m).

(** *** Layers *)

Definition layer_ok (l : Layer) : bool :=
  str_ok (Digest l) && str_ok (DigestType l) && str_ok (TorrentId l) && (0 <=? Size l) && (Size l <? 2 ^ 64).

Definition layer_entries (l : Layer) : list (entry Layer) :=
  [mkEntry "digest" (AppendString [] (Digest l)) (λ z, mkLayer (Digest l) (DigestType z) (Size z) (TorrentId z));
   mkEntry "digest_type" (AppendString [] (DigestType l)) (λ z, mkLayer (Digest z) (DigestType l) (Size z) (TorrentId z));
   mkEntry "size" (AppendUint [] (Size l)) (λ z, mkLayer (Digest z) (DigestType z) (Size l) (TorrentId z));
   mkEntry "torrent_id" (AppendString [] (TorrentId l)) (λ z, mkLayer (Digest z) (DigestType z) (Size z) (TorrentId l))].

Lemma Layer_MarshalMsg_app b l : Layer_MarshalMsg b l =
  b ++ AppendMapHeader [] 4 ++ concat (map entry_bytes (layer_entries l)).
Proof.
  unfold Layer_MarshalMsg, AppendUint. cbv zeta.
  rewrite !(AppendString_app (_ ++ _)), !(AppendUint64_app (_ ++ _)).
  entry_form layer_entries. reflexivity.
Qed.

Lemma reads_Layer l z : layer_ok l = true -> reads (Layer_DecodeMsg z) (Layer_MarshalMsg [] l) l.
Proof.
  intros Hl. unfold layer_ok in Hl. bool_prop. rewrite Layer_MarshalMsg_app. cbn [app].
  replace l with (fold_left (λ z e, e_upd e z) (layer_entries l) z) at 2 by (by destruct l).
  apply (reads_fields Layer_field (layer_entries l)); [done|].
  each_entry z'.
  - eapply reads_bind_nil; [by apply reads_str|]. apply reads_ret.
  - eapply reads_bind_nil; [by apply reads_str|]. apply reads_ret.
  - eapply reads_bind_nil; [by apply reads_uint64|]. apply reads_ret.
  - eapply reads_bind_nil; [by apply reads_str|]. apply reads_ret.
  - apply Forall_nil_2.
Qed.

(** *** Volumes *)

Definition volume_ok (v : VolumeProfile) : Prop := str_ok (Target v) = true /\ map_ok range_ (Properties v).

Definition volume_entries (v : VolumeProfile) : list (entry VolumeProfile) :=
  [mkEntry "target" (AppendString [] (Target v)) (λ z, mkVolProfile (Target v) (Properties z));
   mkEntry "properties" (AppendMapStrStr [] (range_ (Properties v))) (λ z, mkVolProfile (Target z) (Properties v))].

Lemma VolumeProfile_MarshalMsg_app b v : VolumeProfile_MarshalMsg range_ b v =
  b ++ AppendMapHeader [] 2 ++ concat (map entry_bytes (volume_entries v)).
Proof.
  unfold VolumeProfile_MarshalMsg. cbv zeta. rewrite append_map_app, !(AppendString_app (_ ++ _)).
  entry_form volume_entries. reflexivity.
Qed.

Lemma reads_VolumeProfile v z :
  volume_ok v -> reads (VolumeProfile_DecodeMsg z) (VolumeProfile_MarshalMsg range_ [] v) v.
Proof.
  intros [H1 H2]. rewrite VolumeProfile_MarshalMsg_app. cbn [app].
  replace v with (fold_left (λ z e, e_upd e z) (volume_entries v) z) at 2 by (by destruct v).
  apply (reads_fields VolumeProfile_field (volume_entries v)); [done|].
  each_entry z'.
  - eapply reads_bind_nil; [by apply reads_str|]. apply reads_ret.
  - eapply reads_bind_nil; [by apply reads_decode_map|]. apply reads_ret.
  - apply Forall_nil_2.
Qed.

(** *** Profiles *)

Record profile_ok (p : Profile) : Prop := {
  pk_Registry : str_ok (Registry p) = true;
  pk_Repository : str_ok (Repository p) = true;
  pk_NetworkMode : str_ok (NetworkMode p) = true;
  pk_Network : map_ok range_ (Network p);
  pk_Layers : list_ok (λ l, layer_ok l = true) (ExtendedInfo_Layers p);
  pk_Cwd : str_ok (Cwd p) = true;
  pk_Binds : list_ok (λ s, str_ok s = true) (Binds p);
  pk_Container : map_ok range_ (ContainerProps p);
  pk_Volume : map_ok range_ (VolumeProps p);
  pk_ExtraVolumes : list_ok volume_ok (ExtraVolumes p)
}.

Definition ext_entries (l : list Layer) : list (entry (slice Layer)) :=
  [mkEntry "layers" (array_bytes (Layer_MarshalMsg []) l) (refill zero_Layer l)].

Definition profile_entries (p : Profile) : list (entry profile_state) :=
  [mkEntry "registry" (AppendString [] (Registry p)) (λ '(mkPS reg rep nm nw ly cwd bi co vo ev),
     mkPS (Registry p) rep nm nw ly cwd bi co vo ev);
   mkEntry "repository" (AppendString [] (Repository p)) (λ '(mkPS reg rep nm nw ly cwd bi co vo ev),
     mkPS reg (Repository p) nm nw ly cwd bi co vo ev);
   mkEntry "network_mode" (AppendString [] (NetworkMode p)) (λ '(mkPS reg rep nm nw ly cwd bi co vo ev),
     mkPS reg rep (NetworkMode p) nw ly cwd bi co vo ev);
   mkEntry "network" (AppendMapStrStr [] (range_ (Network p))) (λ '(mkPS reg rep nm nw ly cwd bi co vo ev),
     mkPS reg rep nm (Network p) ly cwd bi co vo ev);
   mkEntry "extended_info" (AppendMapHeader [] 1 ++ concat (map entry_bytes (ext_entries (ExtendedInfo_Layers p))))
     (λ '(mkPS reg rep nm nw ly cwd bi co vo ev),
     mkPS reg rep nm nw (refill zero_Layer (ExtendedInfo_Layers p) ly) cwd bi co vo ev);
   mkEntry "cwd" (AppendString [] (Cwd p)) (λ '(mkPS reg rep nm nw ly cwd bi co vo ev),
     mkPS reg rep nm nw ly (Cwd p) bi co vo ev);
   mkEntry "binds" (array_bytes (AppendString []) (Binds p)) (λ '(mkPS reg rep nm nw ly cwd bi co vo ev),
     mkPS reg rep nm nw ly cwd (refill ""%string (Binds p) bi) co vo ev);
   mkEntry "container" (AppendMapStrStr [] (range_ (ContainerProps p))) (λ '(mkPS reg rep nm nw ly cwd bi co vo ev),
     mkPS reg rep nm nw ly cwd bi (ContainerProps p) vo ev);
   mkEntry "volume" (AppendMapStrStr [] (range_ (VolumeProps p))) (λ '(mkPS reg rep nm nw ly cwd bi co vo ev),
     mkPS reg rep nm nw ly cwd bi co (VolumeProps p) ev);
   mkEntry "extravolumes" (array_bytes (VolumeProfile_MarshalMsg range_ []) (ExtraVolumes p))
     (λ '(mkPS reg rep nm nw ly cwd bi co vo ev),
     mkPS reg rep nm nw ly cwd bi co vo (refill zero_VolumeProfile (ExtraVolumes p) ev))].

Lemma Layer_app b l : Layer_MarshalMsg b l = b ++ Layer_MarshalMsg [] l.
Proof. by rewrite !Layer_MarshalMsg_app. Qed.
Lemma VolumeProfile_app b v : VolumeProfile_MarshalMsg range_ b v = b ++ VolumeProfile_MarshalMsg range_ [] v.
Proof. by rewrite !VolumeProfile_MarshalMsg_app. Qed.

Lemma Profile_MarshalMsg_app p : profile_ok p -> Profile_MarshalMsg range_ [] p =
  AppendMapHeader [] 10 ++ concat (map entry_bytes (profile_entries p)).
Proof.
  intros Hp. unfold Profile_MarshalMsg. cbv zeta.
  rewrite (append_array Layer_MarshalMsg) by (apply Layer_app || apply Hp).
  rewrite (append_array AppendString) by (apply AppendString_app || apply Hp).
  rewrite (append_array (VolumeProfile_MarshalMsg range_)) by (apply VolumeProfile_app || apply Hp).
  rewrite !append_map_app, !(AppendString_app (_ ++ _)).
  entry_form profile_entries. entry_form ext_entries. reflexivity.
Qed.

Lemma reads_Profile p : profile_ok p ->
  reads (decode_fields Profile_field new_profile) (Profile_MarshalMsg range_ [] p)
    (fold_left (λ z e, e_upd e z) (profile_entries p) new_profile).
Proof.
  intros Hp. rewrite Profile_MarshalMsg_app by done. destruct Hp as [P1 P2 P3 P4 [L1 L2] P6 [B1 B2] P8 P9 [V1 V2]].
  apply (reads_fields Profile_field (profile_entries p)); [done|].
  each_entry z'; try (destruct z'; cbn [e_key]).
  - eapply reads_bind_nil; [by apply reads_str|]. apply reads_ret.
  - eapply reads_bind_nil; [by apply reads_str|]. apply reads_ret.
  - eapply reads_bind_nil; [by apply reads_str|]. apply reads_ret.
  - eapply reads_bind_nil; [by apply reads_decode_map|]. apply reads_ret.
  - eapply reads_bind_nil; [|apply reads_ret].
    apply (reads_fields ExtendedInfo_field (ext_entries (ExtendedInfo_Layers p))); [done|].
    each_entry z''; [|apply Forall_nil_2]. apply reads_slice; [done| |].
    + intros x. rewrite Layer_MarshalMsg_app. done.
    + intros z x Hx. apply reads_Layer. by apply (proj1 (Forall_forall _ _) L2).
  - eapply reads_bind_nil; [by apply reads_str|]. apply reads_ret.
  - eapply reads_bind_nil; [|apply reads_ret]. apply reads_slice; [done|apply AppendString_nonempty|].
    intros z x Hx. apply reads_str. by apply (proj1 (Forall_forall _ _) B2).
  - eapply reads_bind_nil; [by apply reads_decode_map|]. apply reads_ret.
  - eapply reads_bind_nil; [by apply reads_decode_map|]. apply reads_ret.
  - eapply reads_bind_nil; [|apply reads_ret]. apply reads_slice; [done| |].
    + intros x. rewrite VolumeProfile_MarshalMsg_app. done.
    + intros z x Hx. apply reads_VolumeProfile. by apply (proj1 (Forall_forall _ _) V2).
  - apply Forall_nil_2.
Qed.
Lemma Profile_MarshalMsg_cons p : profile_ok p -> exists x l, Profile_MarshalMsg range_ [] p = x :: l.
Proof. intros Hp. rewrite Profile_MarshalMsg_app by done. cbn. eauto. Qed.

(** C33: a profile of the Porto box survives the trip: decoding the raw profile the
    client encoded gives back every field, layers, maps and volumes included,
    whatever order the maps were ranged in. *)
Theorem porto_profile_roundtrip p :
  profile_ok p ->
  profile_DecodeTo Profile_DecodeMsg (Some (Profile_MarshalMsg range_ [] p)) = (Ok p, None).
Proof.
  intros Hp. destruct (Profile_MarshalMsg_cons p Hp) as (x & l & E). unfold profile_DecodeTo. rewrite E.
  set (r := NewReader _ _ _ _).
  destruct (reads_Profile p Hp r []) as (r' & Er & _).
  { rewrite E, app_nil_r. unfold r, pending. unfold cat. cbn. by rewrite app_nil_r. }
  unfold Profile_DecodeMsg. rewrite (act_bind_ok _ _ _ _ _ Er). cbn.
  do 2 f_equal. unfold profile_of. cbn. rewrite !elems_refill. by destruct p.
Qed.
End roundtrip.

Definition demo_porto_profile : Profile :=
  mkProfile "registry.example" "repo" "host" {[ "mtn"%string := "enable"%string; "netid"%string := "42"%string ]}
    [mkLayer "abc" "sha256" 1234 "t1"; mkLayer "def" "sha256" 99 "t2"] "/app" ["/a /b"%string]
    {[ "memory_limit"%string := "1G"%string ]} ∅
    [mkVolProfile "/data" {[ "storage"%string := "/place"%string ]}].

Lemma porto_profile_roundtrip_witness :
  profile_DecodeTo Profile_DecodeMsg (Some (Profile_MarshalMsg map_to_list [] demo_porto_profile)) =
  (Ok demo_porto_profile, None).
Proof.
  apply (porto_profile_roundtrip map_to_list (λ m, Permutation_refl _)).
  split; try (apply (bool_decide_unpack _); vm_compute; exact I); try reflexivity;
    (split; [by vm_compute|repeat constructor]); by vm_compute.
Defined.

Lemma Layer_tame z : tame (Layer_DecodeMsg z) /\ eats (Layer_DecodeMsg z).
Proof. apply decode_fields_tame. intros k z'. unfold Layer_field. auto 12 with tame. Qed.
Lemma VolumeProfile_tame z : tame (VolumeProfile_DecodeMsg z) /\ eats (VolumeProfile_DecodeMsg z).
Proof. apply decode_fields_tame. intros k z'. unfold VolumeProfile_field. auto 12 with tame. Qed.
Lemma ExtendedInfo_tame z : tame (ExtendedInfo_DecodeMsg z).
Proof.
  apply decode_fields_tame. intros k z'. unfold ExtendedInfo_field. apply tame_if; [|apply tame_skip].
  apply decode_slice_tame; intros l; apply Layer_tame.
Qed.
Lemma Profile_field_tame k z : tame (Profile_field k z).
Proof.
  unfold Profile_field. destruct z as [reg rep nm nw ly cwd bi co vo ev].
  assert (tame (decode_slice ""%string (λ _, ReadString) bi)) as Hb.
  { apply decode_slice_tame; intros _; [apply tame_ReadString|apply ReadString_wb]. }
  assert (tame (decode_slice zero_VolumeProfile VolumeProfile_DecodeMsg ev)) as Hv.
  { apply decode_slice_tame; intros l; apply VolumeProfile_tame. }
  pose proof (ExtendedInfo_tame ly). auto 30 with tame.
Qed.

(** Whatever bytes a client sends as a profile, decoding them ends: with a
    profile or with an error, never for ever; declared sizes do not matter. *)
Theorem porto_profile_total raw :
  exists res, profile_DecodeTo Profile_DecodeMsg (Some raw) = (res, None) /\ res <> Err (DecodeError Diverged).
Proof.
  unfold profile_DecodeTo. eexists. split; [done|].
  assert (tame Profile_DecodeMsg) as [Hs _].
  { apply tame_bind; [apply decode_fields_tame, Profile_field_tame|intros; apply tame_ret]. }
  set (r := NewReader _ _ _ _). destruct (Hs r ltac:(done)) as [H1 _].
  destruct (Profile_DecodeMsg r).1; congruence.
Qed.

(** ** The process profile *)

(** A process profile is read back too. *)
Lemma process_profile_roundtrip z p :
  str_ok (process.Spool p) = true -> reads (process.DecodeMsg z) (process.MarshalMsg [] p) p.
Proof.
  intros Hp. unfold process.MarshalMsg. cbv zeta. rewrite AppendString_app.
  pose proof (reads_fields process.field
    [mkEntry "spool" (AppendString [] (process.Spool p)) (λ _, process.mkProfile (process.Spool p))] z eq_refl) as R.
  cbn [map concat fold_left e_upd] in R. unfold entry_bytes in R. cbn [e_key e_val] in R.
  rewrite app_nil_r in R. destruct p. apply R. apply Forall_singleton. split; [done|]. intros z'.
  cbn [e_key e_val e_upd]. eapply reads_bind_nil; [by apply reads_str|]. apply reads_ret.
Qed.
