(* ===== verification/ProfileCodecs.v ===== *)
(** * The other generated methods of the Porto and process profiles

    [UnmarshalMsg], [EncodeMsg] and [Msgsize] of isolate/porto/profile_decodable.go
    and isolate/process/profile_encodable.go, against [DecodeMsg] and [MarshalMsg] of
    [Profiles].  [msgp.WrapError] adds the path of a field to an error; the cause is
    what is modelled. *)

From Stdlib Require Import ZArith Lia Ascii String Strings.Byte.
From S2P Require Import Prelude Fwd Msgp MsgpFacts MsgpSafe MsgpBytes Writer Stream Dispatch Codec CodecFacts PortoContainer Profiles.

(** ** [UnmarshalMsg] *)

Definition process_field_bytes (key : string) (z : process.Profile) : parser process.Profile :=
  if decide (key = "spool"%string) then s ← ReadStringBytes; mret (process.mkProfile s)
  else skip_field_bytes z.
Definition process_UnmarshalMsg (z : process.Profile) : parser process.Profile :=
  unmarshal_fields process_field_bytes z.

Definition Layer_field_bytes (key : string) (z : Layer) : parser Layer :=
  if decide (key = "digest"%string) then
    s ← ReadStringBytes; mret (mkLayer s (DigestType z) (Size z) (TorrentId z))
  else if decide (key = "digest_type"%string) then
    s ← ReadStringBytes; mret (mkLayer (Digest z) s (Size z) (TorrentId z))
  else if decide (key = "size"%string) then
    n ← ReadUintBytes; mret (mkLayer (Digest z) (DigestType z) n (TorrentId z))
  else if decide (key = "torrent_id"%string) then
    s ← ReadStringBytes; mret (mkLayer (Digest z) (DigestType z) (Size z) s)
  else skip_field_bytes z.
Definition Layer_UnmarshalMsg (z : Layer) : parser Layer := unmarshal_fields Layer_field_bytes z.

Definition ExtendedInfo_field_bytes (key : string) (z : slice Layer) : parser (slice Layer) :=
  if decide (key = "layers"%string) then unmarshal_slice zero_Layer Layer_UnmarshalMsg z
  else skip_field_bytes z.
Definition ExtendedInfo_UnmarshalMsg (z : slice Layer) : parser (slice Layer) :=
  unmarshal_fields ExtendedInfo_field_bytes z.

Definition VolumeProfile_field_bytes (key : string) (z : VolumeProfile) : parser VolumeProfile :=
  if decide (key = "target"%string) then s ← ReadStringBytes; mret (mkVolProfile s (Properties z))
  else if decide (key = "properties"%string) then m ← unmarshal_map; mret (mkVolProfile (Target z) m)
  else skip_field_bytes z.
Definition VolumeProfile_UnmarshalMsg (z : VolumeProfile) : parser VolumeProfile :=
  unmarshal_fields VolumeProfile_field_bytes z.

Definition Profile_field_bytes (key : string) (z : profile_state) : parser profile_state :=
  let '(mkPS reg rep nm nw ly cwd bi co vo ev) := z in
  if decide (key = "registry"%string) then
    s ← ReadStringBytes; mret (mkPS s rep nm nw ly cwd bi co vo ev)
  else if decide (key = "repository"%string) then
    s ← ReadStringBytes; mret (mkPS reg s nm nw ly cwd bi co vo ev)
  else if decide (key = "network_mode"%string) then
    s ← ReadStringBytes; mret (mkPS reg rep s nw ly cwd bi co vo ev)
  else if decide (key = "network"%string) then
    m ← unmarshal_map; mret (mkPS reg rep nm m ly cwd bi co vo ev)
  else if decide (key = "extended_info"%string) then
    l ← ExtendedInfo_UnmarshalMsg ly; mret (mkPS reg rep nm nw l cwd bi co vo ev)
  else if decide (key = "cwd"%string) then
    s ← ReadStringBytes; mret (mkPS reg rep nm nw ly s bi co vo ev)
  else if decide (key = "binds"%string) then
    l ← unmarshal_slice ""%string (λ _, ReadStringBytes) bi; mret (mkPS reg rep nm nw ly cwd l co vo ev)
  else if decide (key = "container"%string) then
    m ← unmarshal_map; mret (mkPS reg rep nm nw ly cwd bi m vo ev)
  else if decide (key = "volume"%string) then
    m ← unmarshal_map; mret (mkPS reg rep nm nw ly cwd bi co m ev)
  else if decide (key = "extravolumes"%string) then
    l ← unmarshal_slice zero_VolumeProfile VolumeProfile_UnmarshalMsg ev;
    mret (mkPS reg rep nm nw ly cwd bi co vo l)
  else skip_field_bytes z.
Definition Profile_UnmarshalMsg : parser Profile :=
  z ← unmarshal_fields Profile_field_bytes new_profile; mret (profile_of z).

(** ** [EncodeMsg] *)

Definition process_EncodeMsg (z : process.Profile) : act Writer rerror unit :=
  _ ← Append [x81; xa5; x73; x70; x6f; x6f; x6c];
  WriteString (process.Spool z).

Definition Layer_EncodeMsg (z : Layer) : act Writer rerror unit :=
  _ ← Append [x84; xa6; x64; x69; x67; x65; x73; x74];
  _ ← WriteString (Digest z);
  _ ← Append [xab; x64; x69; x67; x65; x73; x74; x5f; x74; x79; x70; x65];
  _ ← WriteString (DigestType z);
  _ ← Append [xa4; x73; x69; x7a; x65];
  _ ← WriteUint (Size z);
  _ ← Append [xaa; x74; x6f; x72; x72; x65; x6e; x74; x5f; x69; x64];
  WriteString (TorrentId z).

Definition ExtendedInfo_EncodeMsg (z : list Layer) : act Writer rerror unit :=
  _ ← Append [x81; xa6; x6c; x61; x79; x65; x72; x73];
  encode_slice Layer_EncodeMsg z.

Section encode.
(** The order in which a map is ranged. *)
Context (range_ : gmap string string -> list (string * string)).

Definition VolumeProfile_EncodeMsg (z : VolumeProfile) : act Writer rerror unit :=
  _ ← Append [x82; xa6; x74; x61; x72; x67; x65; x74];
  _ ← WriteString (Target z);
  _ ← Append [xaa; x70; x72; x6f; x70; x65; x72; x74; x69; x65; x73];
  encode_map range_ (Properties z).

Definition Profile_EncodeMsg (z : Profile) : act Writer rerror unit :=
  _ ← Append [x8a; xa8; x72; x65; x67; x69; x73; x74; x72; x79];
  _ ← WriteString (Registry z);
  _ ← Append [xaa; x72; x65; x70; x6f; x73; x69; x74; x6f; x72; x79];
  _ ← WriteString (Repository z);
  _ ← Append [xac; x6e; x65; x74; x77; x6f; x72; x6b; x5f; x6d; x6f; x64; x65];
  _ ← WriteString (NetworkMode z);
  _ ← Append [xa7; x6e; x65; x74; x77; x6f; x72; x6b];
  _ ← encode_map range_ (Network z);
  _ ← Append [xad; x65; x78; x74; x65; x6e; x64; x65; x64; x5f; x69; x6e; x66; x6f;
              x81; xa6; x6c; x61; x79; x65; x72; x73];
  _ ← encode_slice Layer_EncodeMsg (ExtendedInfo_Layers z);
  _ ← Append [xa3; x63; x77; x64];
  _ ← WriteString (Cwd z);
  _ ← Append [xa5; x62; x69; x6e; x64; x73];
  _ ← encode_slice WriteString (Binds z);
  _ ← Append [xa9; x63; x6f; x6e; x74; x61; x69; x6e; x65; x72];
  _ ← encode_map range_ (ContainerProps z);
  _ ← Append [xa6; x76; x6f; x6c; x75; x6d; x65];
  _ ← encode_map range_ (VolumeProps z);
  _ ← Append [xac; x65; x78; x74; x72; x61; x76; x6f; x6c; x75; x6d; x65; x73];
  encode_slice VolumeProfile_EncodeMsg (ExtraVolumes z).

(** ** [Msgsize] *)

Definition process_Msgsize (z : process.Profile) : Z :=
  1 + 6 + StringPrefixSize + slen (process.Spool z).

Definition Layer_Msgsize (z : Layer) : Z :=
  1 + 7 + StringPrefixSize + slen (Digest z) + 12 + StringPrefixSize + slen (DigestType z) +
  5 + UintSize + 11 + StringPrefixSize + slen (TorrentId z).

Definition ExtendedInfo_Msgsize (z : list Layer) : Z :=
  add_sizes Layer_Msgsize z (1 + 7 + ArrayHeaderSize).

Definition VolumeProfile_Msgsize (z : VolumeProfile) : Z :=
  add_map_sizes range_ (Properties z) (1 + 7 + StringPrefixSize + slen (Target z) + 11 + MapHeaderSize).

Definition Profile_Msgsize (z : Profile) : Z :=
  let s := 1 + 9 + StringPrefixSize + slen (Registry z) + 11 + StringPrefixSize + slen (Repository z) +
           13 + StringPrefixSize + slen (NetworkMode z) + 8 + MapHeaderSize in
  let s := add_map_sizes range_ (Network z) s in
  let s := s + (14 + 1 + 7 + ArrayHeaderSize) in
  let s := add_sizes Layer_Msgsize (ExtendedInfo_Layers z) s in
  let s := s + (4 + StringPrefixSize + slen (Cwd z) + 6 + ArrayHeaderSize) in
  let s := add_sizes (λ b, StringPrefixSize + slen b) (Binds z) s in
  let s := s + (10 + MapHeaderSize) in
  let s := add_map_sizes range_ (ContainerProps z) s in
  let s := s + (7 + MapHeaderSize) in
  let s := add_map_sizes range_ (VolumeProps z) s in
  let s := s + (13 + ArrayHeaderSize) in
  add_sizes VolumeProfile_Msgsize (ExtraVolumes z) s.
End encode.

(** ** Both decoders agree *)

Lemma agree_process z : agree (process.DecodeMsg z) (process_UnmarshalMsg z).
Proof. apply agree_fields. intros k z'. unfold process.field, process_field_bytes. auto 12 with agree. Qed.
Lemma agree_ReadUint : agree ReadUint ReadUintBytes.
Proof. apply agree_ReadUint64. Qed.
#[local] Hint Resolve agree_ReadUint : agree.
Lemma agree_Layer z : agree (Layer_DecodeMsg z) (Layer_UnmarshalMsg z).
Proof. apply agree_fields. intros k z'. unfold Layer_field, Layer_field_bytes. auto 20 with agree. Qed.
Lemma agree_ExtendedInfo z : agree (ExtendedInfo_DecodeMsg z) (ExtendedInfo_UnmarshalMsg z).
Proof.
  apply agree_fields. intros k z'. apply agree_decide; [|apply agree_skip_field].
  apply agree_slice, agree_Layer.
Qed.
Lemma agree_VolumeProfile z : agree (VolumeProfile_DecodeMsg z) (VolumeProfile_UnmarshalMsg z).
Proof. apply agree_fields. intros k z'. unfold VolumeProfile_field, VolumeProfile_field_bytes. auto 12 with agree. Qed.
Lemma agree_Profile : agree Profile_DecodeMsg Profile_UnmarshalMsg.
Proof.
  apply agree_bind; [|intros; apply agree_ret]. apply agree_fields.
  intros k [reg rep nm nw ly cwd bi co vo ev]. unfold Profile_field, Profile_field_bytes.
  pose proof (agree_ExtendedInfo ly).
  pose proof (agree_slice zero_VolumeProfile _ _ ev agree_VolumeProfile).
  pose proof (agree_slice ""%string (λ _, ReadString) (λ _, ReadStringBytes) bi (λ _, agree_ReadString)).
  auto 40 with agree.
Qed.


(** An empty key is where they part. *)
Lemma empty_key_parts :
  let r := NewReader 2048 [(x81, [xa0; xc0])] EOF false in
  (Profile_DecodeMsg r).1 = Err ErrShortBytes /\
  Profile_UnmarshalMsg (pending r) = Ok (profile_of new_profile, []).
Proof. by vm_compute. Qed.

(** ** Round trips *)

Lemma process_unmarshal_roundtrip z p rest :
  str_ok (process.Spool p) = true ->
  process_UnmarshalMsg z (process.MarshalMsg [] p ++ rest) = Ok (p, rest).
Proof. intros Hp. eapply agree_reads; [apply agree_process|by apply process_profile_roundtrip]. Qed.

Lemma process_decode_total z : ptame (process_UnmarshalMsg z).
Proof.
  apply unmarshal_fields_tame. intros k z'. unfold process_field_bytes. auto with ptame.
Qed.

Section roundtrip.
Context (range_ : gmap string string -> list (string * string)).
Context (range_all : forall m, range_ m ≡ₚ map_to_list m).

Lemma reads_decoded p :
  profile_ok range_ p -> reads Profile_DecodeMsg (Profile_MarshalMsg range_ [] p) p.
Proof using range_all.
  intros Hp. unfold Profile_DecodeMsg. eapply reads_bind_nil; [by apply (reads_Profile range_ range_all)|].
  replace p with (profile_of (fold_left (λ z e, e_upd e z) (profile_entries range_ p) new_profile)) at 2.
  - apply reads_ret.
  - unfold profile_of. cbn. rewrite !elems_refill. by destruct p.
Qed.

(** A Porto profile encoded into a byte slice is decoded by [UnmarshalMsg] to the
    same value, and what follows it in the slice is returned untouched. *)
Theorem porto_unmarshal_roundtrip p rest :
  profile_ok range_ p -> Profile_UnmarshalMsg (Profile_MarshalMsg range_ [] p ++ rest) = Ok (p, rest).
Proof.
  intros Hp. eapply agree_reads; [apply agree_Profile|by apply reads_decoded].
Qed.
End roundtrip.

Lemma porto_unmarshal_roundtrip_witness :
  Profile_UnmarshalMsg (Profile_MarshalMsg map_to_list [] demo_porto_profile ++ [xc0]) =
  Ok (demo_porto_profile, [xc0]).
Proof.
  apply (porto_unmarshal_roundtrip map_to_list (λ m, Permutation_refl _)).
  split; try (apply (bool_decide_unpack _); vm_compute; exact I); try reflexivity;
    (split; [by vm_compute|repeat constructor]); by vm_compute.
Defined.

(** ** [UnmarshalMsg] ends on every input *)

Lemma Layer_ptame z : ptame (Layer_UnmarshalMsg z) /\ peats (Layer_UnmarshalMsg z).
Proof. apply unmarshal_fields_tame. intros k z'. unfold Layer_field_bytes. auto 20 with ptame. Qed.
Lemma VolumeProfile_ptame z : ptame (VolumeProfile_UnmarshalMsg z) /\ peats (VolumeProfile_UnmarshalMsg z).
Proof. apply unmarshal_fields_tame. intros k z'. unfold VolumeProfile_field_bytes. auto 20 with ptame. Qed.
Lemma ExtendedInfo_ptame z : ptame (ExtendedInfo_UnmarshalMsg z).
Proof.
  apply unmarshal_fields_tame. intros k z'. apply ptame_if; [|apply ptame_skip_field].
  apply unmarshal_slice_tame; intros l; apply Layer_ptame.
Qed.
(** Whatever the slice holds, [UnmarshalMsg] returns. *)
Lemma porto_unmarshal_total b : Profile_UnmarshalMsg b <> Err Diverged.
Proof.
  assert (ptame Profile_UnmarshalMsg) as H.
  { apply ptame_bind; [|intros; apply ptame_ret]. apply unmarshal_fields_tame.
    intros k [reg rep nm nw ly cwd bi co vo ev]. unfold Profile_field_bytes.
    pose proof (ExtendedInfo_ptame ly).
    assert (ptame (unmarshal_slice zero_VolumeProfile VolumeProfile_UnmarshalMsg ev))
      by (apply unmarshal_slice_tame; intros l; apply VolumeProfile_ptame).
    assert (ptame (unmarshal_slice ""%string (λ _, ReadStringBytes) bi))
      by (apply unmarshal_slice_tame; intros _; apply ReadStringBytes_tame).
    auto 40 with ptame. }
  specialize (H b). destruct (Profile_UnmarshalMsg b) as [[??]|]; congruence.
Qed.

(** ** Both encoders write the same bytes *)

Lemma writes_process p :
  str_ok (process.Spool p) = true -> writes (process_EncodeMsg p) (process.MarshalMsg [] p).
Proof.
  intros Hp. eapply writes_eq; [unfold process_EncodeMsg; writes_seq|].
  unfold process.MarshalMsg. cbv zeta. by rewrite (AppendString_app (_ ++ _)).
Qed.

Lemma writes_Layer l : layer_ok l = true -> writes (Layer_EncodeMsg l) (Layer_MarshalMsg [] l).
Proof.
  intros Hl. unfold layer_ok in Hl. apply andb_true_iff in Hl as [Hl _]. apply andb_true_iff in Hl as [Hl _].
  bool_prop. eapply writes_eq; [unfold Layer_EncodeMsg; writes_seq|].
  unfold Layer_MarshalMsg, AppendUint. cbv zeta.
  rewrite !(AppendString_app (_ ++ _)), !(AppendUint64_app (_ ++ _)), <- !app_assoc. reflexivity.
Qed.
Lemma writes_ExtendedInfo z : list_ok (λ l, layer_ok l = true) z ->
  writes (ExtendedInfo_EncodeMsg z) (ExtendedInfo_MarshalMsg [] z).
Proof.
  intros [Hl Hz]. rewrite Forall_forall in Hz. eapply writes_eq.
  - unfold ExtendedInfo_EncodeMsg. writes_seq. apply writes_slice; [done|]. intros x Hx. apply writes_Layer. auto.
  - unfold ExtendedInfo_MarshalMsg. cbv zeta. by rewrite append_array by (apply Layer_app || done).
Qed.

Section encoders.
Context (range_ : gmap string string -> list (string * string)).

Lemma writes_VolumeProfile v :
  volume_ok range_ v -> writes (VolumeProfile_EncodeMsg range_ v) (VolumeProfile_MarshalMsg range_ [] v).
Proof.
  intros [H1 H2]. eapply writes_eq; [unfold VolumeProfile_EncodeMsg; writes_seq|].
  unfold VolumeProfile_MarshalMsg. cbv zeta.
  rewrite append_map_app, !(AppendString_app (_ ++ _)), <- !app_assoc. reflexivity.
Qed.

Lemma writes_Profile p :
  profile_ok range_ p -> writes (Profile_EncodeMsg range_ p) (Profile_MarshalMsg range_ [] p).
Proof.
  intros [P1 P2 P3 P4 [L1 L2] P6 [B1 B2] P8 P9 [V1 V2]]. rewrite Forall_forall in L2. rewrite Forall_forall in B2. rewrite Forall_forall in V2.
  eapply writes_eq.
  - unfold Profile_EncodeMsg. writes_seq; apply writes_slice; try done; intros x Hx.
    + apply writes_Layer. auto.
    + apply writes_str. auto.
    + apply writes_VolumeProfile. auto.
  - unfold Profile_MarshalMsg. cbv zeta.
    rewrite (append_array Layer_MarshalMsg) by (apply Layer_app || done).
    rewrite (append_array AppendString) by (apply AppendString_app || done).
    rewrite (append_array (VolumeProfile_MarshalMsg range_)) by (apply VolumeProfile_app || done).
    rewrite !append_map_app, !(AppendString_app (_ ++ _)), <- !app_assoc. reflexivity.
Qed.

(** [msgp.Encode] of a Porto profile hands the writer exactly the bytes that
    [MarshalMsg] appends, through the buffer and past it; when the writer fails, it
    has received a prefix of them and the error is reported. *)
Theorem porto_encode_streams p out answers :
  profile_ok range_ p ->
  match Encode (Profile_EncodeMsg range_ p) (NewWriter out answers) with
  | (Ok _, mw) => mw_sink mw = out ++ Profile_MarshalMsg range_ [] p
  | (Err _, mw) => answers <> [] /\ exists rest, out ++ Profile_MarshalMsg range_ [] p = mw_sink mw ++ rest
  end.
Proof. intros Hp. by apply Encode_outcome, writes_Profile. Qed.
End encoders.

Lemma porto_encode_streams_witness :
  match Encode (Profile_EncodeMsg map_to_list demo_porto_profile) (NewWriter [] [Some (5%nat, 32)]) with
  | (Ok _, mw) => mw_sink mw = [] ++ Profile_MarshalMsg map_to_list [] demo_porto_profile
  | (Err _, mw) => [Some (5%nat, 32)] <> [] /\
      exists rest, [] ++ Profile_MarshalMsg map_to_list [] demo_porto_profile = mw_sink mw ++ rest
  end.
Proof.
  apply (porto_encode_streams map_to_list demo_porto_profile [] [Some (5%nat, 32)]).
  split; try (apply (bool_decide_unpack _); vm_compute; exact I); try reflexivity;
    (split; [by vm_compute|repeat constructor]); by vm_compute.
Defined.

(** A writer of the smallest size [NewWriterSize] makes is too small for the constant
    in front of the layers, and four bytes of it are lost without an error. *)
Lemma small_writer_truncates :
  let name := [xad; x65; x78; x74; x65; x6e; x64; x65; x64; x5f; x69; x6e; x66; x6f;
               x81; xa6; x6c; x61; x79; x65; x72; x73] in
  let '(res, mw) := Encode (Append name) (mkWriter [] [] [] 18) in
  res = Ok tt /\ mw_sink mw = take 18 name.
Proof. by vm_compute. Qed.

(** ** [Msgsize] bounds the encoding *)

Lemma process_msgsize_bounds p : zlen (process.MarshalMsg [] p) <= process_Msgsize p.
Proof.
  unfold process.MarshalMsg, process_Msgsize. cbv zeta.
  rewrite (AppendString_app (_ ++ _)), !zlen_app. pose proof (size_string (process.Spool p)).
  change (zlen [x81; xa5; x73; x70; x6f; x6f; x6c]) with 7. rewrite zlen_nil. lia.
Qed.

Lemma Layer_size l : zlen (Layer_MarshalMsg [] l) <= Layer_Msgsize l.
Proof.
  unfold Layer_MarshalMsg, AppendUint, Layer_Msgsize. cbv zeta.
  rewrite !(AppendString_app (_ ++ _)), !(AppendUint64_app (_ ++ _)). const_sizes.
  pose proof (size_string (Digest l)). pose proof (size_string (DigestType l)).
  pose proof (size_string (TorrentId l)). pose proof (size_uint64 (Size l)). unfold Uint64Size, UintSize in *. lia.
Qed.

Section sizes.
Context (range_ : gmap string string -> list (string * string)).

Lemma VolumeProfile_size v : zlen (VolumeProfile_MarshalMsg range_ [] v) <= VolumeProfile_Msgsize range_ v.
Proof.
  unfold VolumeProfile_MarshalMsg, VolumeProfile_Msgsize. cbv zeta.
  rewrite append_map_app, !(AppendString_app (_ ++ _)). const_sizes.
  pose proof (size_string (Target v)). etrans; [|apply size_map]. lia.
Qed.

(** The size [Msgsize] announces, and [MarshalMsg] reserves, is never less than
    the length of the encoded profile, whatever it holds. *)
Theorem porto_msgsize_bounds p :
  profile_ok range_ p -> zlen (Profile_MarshalMsg range_ [] p) <= Profile_Msgsize range_ p.
Proof.
  intros [_ _ _ _ [L1 _] _ [B1 _] _ _ [V1 _]]. unfold Profile_MarshalMsg, Profile_Msgsize. cbv zeta.
  rewrite (append_array Layer_MarshalMsg) by (apply Layer_app || done).
  rewrite (append_array AppendString) by (apply AppendString_app || done).
  rewrite (append_array (VolumeProfile_MarshalMsg range_)) by (apply VolumeProfile_app || done).
  rewrite !append_map_app, !(AppendString_app (_ ++ _)). const_sizes.
  pose proof (size_string (Registry p)). pose proof (size_string (Repository p)).
  pose proof (size_string (NetworkMode p)). pose proof (size_string (Cwd p)).
  pose proof (size_map range_ (Network p) 0). pose proof (size_map range_ (ContainerProps p) 0).
  pose proof (size_map range_ (VolumeProps p) 0).
  pose proof (size_array Layer_Msgsize (Layer_MarshalMsg []) (ExtendedInfo_Layers p) 0 (λ x _, Layer_size x)).
  pose proof (size_array (λ b, StringPrefixSize + slen b) (AppendString []) (Binds p) 0 (λ x _, size_string x)).
  pose proof (size_array (VolumeProfile_Msgsize range_) (VolumeProfile_MarshalMsg range_ []) (ExtraVolumes p) 0
    (λ x _, VolumeProfile_size x)).
  rewrite !(add_sizes_shift _ _ (_ + _)), !(map_sizes_shift _ _ (_ + _)) in *. lia.
Qed.
End sizes.

Lemma porto_msgsize_bounds_witness :
  zlen (Profile_MarshalMsg map_to_list [] demo_porto_profile) <= Profile_Msgsize map_to_list demo_porto_profile.
Proof.
  apply (porto_msgsize_bounds map_to_list).
  split; try (apply (bool_decide_unpack _); vm_compute; exact I); try reflexivity;
    (split; [by vm_compute|repeat constructor]); by vm_compute.
Defined.

(** ** Decoded profiles can be encoded *)

Definition layer_fits (l : Layer) : Prop := layer_ok l = true.
Definition volume_fits (v : VolumeProfile) : Prop := str_fits (Target v) /\ map_fits (Properties v).
Record state_fits (z : profile_state) : Prop := {
  sf_Registry : str_fits (ps_Registry z);
  sf_Repository : str_fits (ps_Repository z);
  sf_NetworkMode : str_fits (ps_NetworkMode z);
  sf_Network : map_fits (ps_Network z);
  sf_Layers : slice_fits layer_fits (ps_Layers z);
  sf_Cwd : str_fits (ps_Cwd z);
  sf_Binds : slice_fits str_fits (ps_Binds z);
  sf_Container : map_fits (ps_Container z);
  sf_Volume : map_fits (ps_Volume z);
  sf_ExtraVolumes : slice_fits volume_fits (ps_ExtraVolumes z)
}.

Lemma layer_fits_spec l : layer_fits l <->
  str_fits (Digest l) /\ str_fits (DigestType l) /\ str_fits (TorrentId l) /\ u64 (Size l).
Proof. unfold layer_fits, layer_ok, str_fits, u64. rewrite !andb_true_iff, Z.leb_le, Z.ltb_lt. tauto. Qed.

Lemma returns_Layer z : layer_fits z -> returns layer_fits (Layer_DecodeMsg z).
Proof.
  intros Hz. apply returns_decode_fields; [done|]. clear z Hz. intros k z Hz. unfold Layer_field, ReadUint.
  members; rewrite layer_fits_spec in *; cbn; tauto.
Qed.
Lemma returns_ExtendedInfo z :
  slice_fits layer_fits z -> returns (slice_fits layer_fits) (ExtendedInfo_DecodeMsg z).
Proof.
  intros Hz. apply returns_decode_fields; [done|]. clear z Hz. intros k z Hz.
  apply returns_decide; [|by apply returns_skip_field].
  apply returns_decode_slice; [by vm_compute|apply returns_Layer|done].
Qed.
Lemma returns_VolumeProfile z : volume_fits z -> returns volume_fits (VolumeProfile_DecodeMsg z).
Proof.
  intros Hz. apply returns_decode_fields; [done|]. clear z Hz. intros k z Hz. unfold VolumeProfile_field.
  members; unfold volume_fits in *; cbn; tauto.
Qed.
Lemma returns_Profile_field k z : state_fits z -> returns state_fits (Profile_field k z).
Proof.
  intros Hz. unfold Profile_field. destruct z as [reg rep nm nw ly cwd bi co vo ev].
  assert (state_fits (mkPS reg rep nm nw ly cwd bi co vo ev)) as Hz' by done.
  destruct Hz as [F1 F2 F3 F4 F5 F6 F7 F8 F9 F10]; cbn in *.
  pose proof (returns_ExtendedInfo ly F5).
  pose proof (returns_decode_slice str_fits ""%string (λ _, ReadString) bi eq_refl (λ _ _, returns_ReadString) F7).
  assert (volume_fits zero_VolumeProfile) as HV by (split; [done|apply empty_fits]).
  pose proof (returns_decode_slice volume_fits zero_VolumeProfile VolumeProfile_DecodeMsg ev HV
    returns_VolumeProfile F10).
  members; split; cbn; done.
Qed.
Lemma returns_Profile : returns (λ p, exists z, p = profile_of z /\ state_fits z) Profile_DecodeMsg.
Proof.
  unfold Profile_DecodeMsg. eapply (returns_bind_P state_fits).
  - apply returns_decode_fields; [|apply returns_Profile_field].
    split; cbn; try done; try apply empty_fits; apply nil_slice_fits.
  - intros z Hz. apply returns_ret. eauto.
Qed.

Section typed.
Context (range_ : gmap string string -> list (string * string)).
Context (range_all : forall m, range_ m ≡ₚ map_to_list m).

Lemma profile_of_ok z : state_fits z -> profile_ok range_ (profile_of z).
Proof using range_all.
  intros [F1 F2 F3 F4 F5 F6 F7 F8 F9 F10].
  split; cbn; try done; try (by apply map_fits_ok); try by apply elems_fit.
  destruct (elems_fit _ _ F10) as [H1 H2]. split; [done|]. eapply Forall_impl; [exact H2|].
  intros v [Hv1 Hv2]. split; [done|by apply map_fits_ok].
Qed.

(** C25: whatever bytes a Porto profile was decoded from, it is well formed: every
    string, list, map and number fits what MessagePack can carry, so it can be encoded
    again, and decoding that, from a connection or from a slice, gives the same profile. *)
Theorem porto_profile_well_formed raw p :
  (profile_DecodeTo Profile_DecodeMsg (Some raw)).1 = Ok p ->
  profile_ok range_ p /\
  (forall rest, Profile_UnmarshalMsg (Profile_MarshalMsg range_ [] p ++ rest) = Ok (p, rest)) /\
  forall r rest, pending r = Profile_MarshalMsg range_ [] p ++ rest ->
    exists r', Profile_DecodeMsg r = (Ok p, r') /\ pending r' = rest.
Proof using range_all.
  intros E. unfold profile_DecodeTo in E. cbn [fst] in E.
  match type of E with context [Profile_DecodeMsg ?r0] => set (r0' := r0) in E;
    pose proof (returns_Profile r0') as HR; destruct (Profile_DecodeMsg r0') as [[p'|e] r1] end; [|done].
  cbn in E. simplify_eq. destruct (HR p r1 eq_refl) as (z & -> & Hz).
  pose proof (profile_of_ok z Hz) as Hok. split_and!; [done|by intros; apply porto_unmarshal_roundtrip|]. intros r rest Hr.
  destruct (reads_decoded range_ range_all (profile_of z) Hok r rest Hr) as (r' & E1 & E2 & _). eauto.
Qed.
End typed.

Definition demo_raw : list byte := [x81; xa3; x63; x77; x64; xa1; x2f].
Definition demo_decoded : Profile := mkProfile "" "" "" ∅ [] "/" [] ∅ ∅ [].
Lemma porto_profile_well_formed_witness :
  profile_ok map_to_list demo_decoded /\
  (forall rest, Profile_UnmarshalMsg (Profile_MarshalMsg map_to_list [] demo_decoded ++ rest) =
    Ok (demo_decoded, rest)) /\
  forall r rest, pending r = Profile_MarshalMsg map_to_list [] demo_decoded ++ rest ->
    exists r', Profile_DecodeMsg r = (Ok demo_decoded, r') /\ pending r' = rest.
Proof. apply (porto_profile_well_formed map_to_list (λ m, Permutation_refl _) demo_raw). reflexivity. Defined.
