(* ===== verification/DockerProfile.v ===== *)
(** * The profile of the Docker box and its codec
      (isolate/docker/profile.go, profile_decodable.go)

    The profile a client sends for the Docker box, the defaults it is decoded into, and
    the five generated methods of [Profile] and [Resources]. *)

From Stdlib Require Import ZArith Lia Ascii String Strings.Byte.
From S2P Require Import Prelude Fwd Msgp MsgpFacts MsgpSafe MsgpBytes Writer Stream Dispatch Codec CodecFacts Number.

Record Resources := mkResources {
  Memory : Number;
  CPUShares : Number;
  CPUPeriod : Number;
  CPUQuota : Number;
  CpusetCpus : string;
  CpusetMems : string
}.
Record Profile := mkProfile {
  Registry : string;
  Repository : string;
  Endpoint : string;
  NetworkMode : string;
  RuntimePath : string;
  Cwd : string;
  Resources_ : Resources;
  Tmpfs : gmap string string;
  Binds : list string
}.

Definition defaultRuntimePath : string := "/var/run/cocaine".
Definition no_number : Number := mkNumber 0 InvalidType.
Definition zero_Resources : Resources := mkResources no_number no_number no_number no_number "" "".

(** A profile under construction: its slice keeps its backing array. *)
Record profile_state := mkDS {
  ds_Registry : string;
  ds_Repository : string;
  ds_Endpoint : string;
  ds_NetworkMode : string;
  ds_RuntimePath : string;
  ds_Cwd : string;
  ds_Resources : Resources;
  ds_Tmpfs : gmap string string;
  ds_Binds : slice string
}.
Definition profile_of (z : profile_state) : Profile :=
  mkProfile (ds_Registry z) (ds_Repository z) (ds_Endpoint z) (ds_NetworkMode z) (ds_RuntimePath z)
    (ds_Cwd z) (ds_Resources z) (ds_Tmpfs z) (elems (ds_Binds z)).
(** What [decodeProfile] decodes into. *)
Definition default_state : profile_state :=
  mkDS "" "" "" "bridge" defaultRuntimePath "" zero_Resources ∅ nil_slice.
Definition default_profile : Profile := profile_of default_state.

(** ** [DecodeMsg] *)

Definition Resources_field (key : string) (z : Resources) : act Reader rerror Resources :=
  let '(mkResources me sh pe qu cpus mems) := z in
  if decide (key = "memory"%string) then n ← Number_DecodeMsg; mret (mkResources n sh pe qu cpus mems)
  else if decide (key = "CpuShares"%string) then n ← Number_DecodeMsg; mret (mkResources me n pe qu cpus mems)
  else if decide (key = "CpuPeriod"%string) then n ← Number_DecodeMsg; mret (mkResources me sh n qu cpus mems)
  else if decide (key = "CpuQuota"%string) then n ← Number_DecodeMsg; mret (mkResources me sh pe n cpus mems)
  else if decide (key = "CpusetCpus"%string) then s ← ReadString; mret (mkResources me sh pe qu s mems)
  else if decide (key = "CpusetMems"%string) then s ← ReadString; mret (mkResources me sh pe qu cpus s)
  else skip_field z.
Definition Resources_DecodeMsg (z : Resources) : act Reader rerror Resources := decode_fields Resources_field z.

Definition Profile_field (key : string) (z : profile_state) : act Reader rerror profile_state :=
  let '(mkDS reg rep ep nm rp cwd res tm bi) := z in
  if decide (key = "registry"%string) then s ← ReadString; mret (mkDS s rep ep nm rp cwd res tm bi)
  else if decide (key = "repository"%string) then s ← ReadString; mret (mkDS reg s ep nm rp cwd res tm bi)
  else if decide (key = "endpoint"%string) then s ← ReadString; mret (mkDS reg rep s nm rp cwd res tm bi)
  else if decide (key = "network_mode"%string) then s ← ReadString; mret (mkDS reg rep ep s rp cwd res tm bi)
  else if decide (key = "runtime-path"%string) then s ← ReadString; mret (mkDS reg rep ep nm s cwd res tm bi)
  else if decide (key = "cwd"%string) then s ← ReadString; mret (mkDS reg rep ep nm rp s res tm bi)
  else if decide (key = "resources"%string) then
    r ← Resources_DecodeMsg res; mret (mkDS reg rep ep nm rp cwd r tm bi)
  else if decide (key = "tmpfs"%string) then m ← decode_map; mret (mkDS reg rep ep nm rp cwd res m bi)
  else if decide (key = "binds"%string) then
    l ← decode_slice ""%string (λ _, ReadString) bi; mret (mkDS reg rep ep nm rp cwd res tm l)
  else skip_field z.
Definition Profile_DecodeMsg (z : profile_state) : act Reader rerror profile_state := decode_fields Profile_field z.

(** [decodeProfile] of the raw profile. *)
Definition decodeProfile (raw : option (list byte)) : result decode_error Profile * option (list byte) :=
  profile_DecodeTo (z ← Profile_DecodeMsg default_state; mret (profile_of z)) raw.

(** ** [UnmarshalMsg] *)

Definition Resources_field_bytes (key : string) (z : Resources) : parser Resources :=
  let '(mkResources me sh pe qu cpus mems) := z in
  if decide (key = "memory"%string) then n ← Number_UnmarshalMsg; mret (mkResources n sh pe qu cpus mems)
  else if decide (key = "CpuShares"%string) then n ← Number_UnmarshalMsg; mret (mkResources me n pe qu cpus mems)
  else if decide (key = "CpuPeriod"%string) then n ← Number_UnmarshalMsg; mret (mkResources me sh n qu cpus mems)
  else if decide (key = "CpuQuota"%string) then n ← Number_UnmarshalMsg; mret (mkResources me sh pe n cpus mems)
  else if decide (key = "CpusetCpus"%string) then s ← ReadStringBytes; mret (mkResources me sh pe qu s mems)
  else if decide (key = "CpusetMems"%string) then s ← ReadStringBytes; mret (mkResources me sh pe qu cpus s)
  else skip_field_bytes z.
Definition Resources_UnmarshalMsg (z : Resources) : parser Resources := unmarshal_fields Resources_field_bytes z.

Definition Profile_field_bytes (key : string) (z : profile_state) : parser profile_state :=
  let '(mkDS reg rep ep nm rp cwd res tm bi) := z in
  if decide (key = "registry"%string) then s ← ReadStringBytes; mret (mkDS s rep ep nm rp cwd res tm bi)
  else if decide (key = "repository"%string) then s ← ReadStringBytes; mret (mkDS reg s ep nm rp cwd res tm bi)
  else if decide (key = "endpoint"%string) then s ← ReadStringBytes; mret (mkDS reg rep s nm rp cwd res tm bi)
  else if decide (key = "network_mode"%string) then s ← ReadStringBytes; mret (mkDS reg rep ep s rp cwd res tm bi)
  else if decide (key = "runtime-path"%string) then s ← ReadStringBytes; mret (mkDS reg rep ep nm s cwd res tm bi)
  else if decide (key = "cwd"%string) then s ← ReadStringBytes; mret (mkDS reg rep ep nm rp s res tm bi)
  else if decide (key = "resources"%string) then
    r ← Resources_UnmarshalMsg res; mret (mkDS reg rep ep nm rp cwd r tm bi)
  else if decide (key = "tmpfs"%string) then m ← unmarshal_map; mret (mkDS reg rep ep nm rp cwd res m bi)
  else if decide (key = "binds"%string) then
    l ← unmarshal_slice ""%string (λ _, ReadStringBytes) bi; mret (mkDS reg rep ep nm rp cwd res tm l)
  else skip_field_bytes z.
Definition Profile_UnmarshalMsg (z : profile_state) : parser profile_state := unmarshal_fields Profile_field_bytes z.

(** ** [MarshalMsg] and [EncodeMsg] *)

Definition Resources_MarshalMsg (b : list byte) (z : Resources) : list byte :=
  let o := b ++ [x86; xa6; x6d; x65; x6d; x6f; x72; x79] in
  let o := Number_MarshalMsg o (Memory z) in
  let o := o ++ [xa9; x43; x70; x75; x53; x68; x61; x72; x65; x73] in
  let o := Number_MarshalMsg o (CPUShares z) in
  let o := o ++ [xa9; x43; x70; x75; x50; x65; x72; x69; x6f; x64] in
  let o := Number_MarshalMsg o (CPUPeriod z) in
  let o := o ++ [xa8; x43; x70; x75; x51; x75; x6f; x74; x61] in
  let o := Number_MarshalMsg o (CPUQuota z) in
  let o := o ++ [xaa; x43; x70; x75; x73; x65; x74; x43; x70; x75; x73] in
  let o := AppendString o (CpusetCpus z) in
  let o := o ++ [xaa; x43; x70; x75; x73; x65; x74; x4d; x65; x6d; x73] in
  AppendString o (CpusetMems z).

Definition Resources_EncodeMsg (z : Resources) : act Writer rerror unit :=
  _ ← Append [x86; xa6; x6d; x65; x6d; x6f; x72; x79];
  _ ← Number_EncodeMsg (Memory z);
  _ ← Append [xa9; x43; x70; x75; x53; x68; x61; x72; x65; x73];
  _ ← Number_EncodeMsg (CPUShares z);
  _ ← Append [xa9; x43; x70; x75; x50; x65; x72; x69; x6f; x64];
  _ ← Number_EncodeMsg (CPUPeriod z);
  _ ← Append [xa8; x43; x70; x75; x51; x75; x6f; x74; x61];
  _ ← Number_EncodeMsg (CPUQuota z);
  _ ← Append [xaa; x43; x70; x75; x73; x65; x74; x43; x70; x75; x73];
  _ ← WriteString (CpusetCpus z);
  _ ← Append [xaa; x43; x70; x75; x73; x65; x74; x4d; x65; x6d; x73];
  WriteString (CpusetMems z).

Definition Resources_Msgsize (z : Resources) : Z :=
  1 + 7 + Number_Msgsize (Memory z) + 10 + Number_Msgsize (CPUShares z) + 10 + Number_Msgsize (CPUPeriod z) +
  9 + Number_Msgsize (CPUQuota z) + 11 + StringPrefixSize + slen (CpusetCpus z) +
  11 + StringPrefixSize + slen (CpusetMems z).

Section encode.
(** The order in which a map is ranged. *)
Context (range_ : gmap string string -> list (string * string)).

Definition Profile_MarshalMsg (b : list byte) (z : Profile) : list byte :=
  let o := b ++ [x89; xa8; x72; x65; x67; x69; x73; x74; x72; x79] in
  let o := AppendString o (Registry z) in
  let o := o ++ [xaa; x72; x65; x70; x6f; x73; x69; x74; x6f; x72; x79] in
  let o := AppendString o (Repository z) in
  let o := o ++ [xa8; x65; x6e; x64; x70; x6f; x69; x6e; x74] in
  let o := AppendString o (Endpoint z) in
  let o := o ++ [xac; x6e; x65; x74; x77; x6f; x72; x6b; x5f; x6d; x6f; x64; x65] in
  let o := AppendString o (NetworkMode z) in
  let o := o ++ [xac; x72; x75; x6e; x74; x69; x6d; x65; x2d; x70; x61; x74; x68] in
  let o := AppendString o (RuntimePath z) in
  let o := o ++ [xa3; x63; x77; x64] in
  let o := AppendString o (Cwd z) in
  let o := o ++ [xa9; x72; x65; x73; x6f; x75; x72; x63; x65; x73] in
  let o := Resources_MarshalMsg o (Resources_ z) in
  let o := o ++ [xa5; x74; x6d; x70; x66; x73] in
  let o := append_map range_ o (Tmpfs z) in
  let o := o ++ [xa5; x62; x69; x6e; x64; x73] in
  let o := AppendArrayHeader o (uint 32 (zlen (Binds z))) in
  fold_left AppendString (Binds z) o.

Definition Profile_EncodeMsg (z : Profile) : act Writer rerror unit :=
  _ ← Append [x89; xa8; x72; x65; x67; x69; x73; x74; x72; x79];
  _ ← WriteString (Registry z);
  _ ← Append [xaa; x72; x65; x70; x6f; x73; x69; x74; x6f; x72; x79];
  _ ← WriteString (Repository z);
  _ ← Append [xa8; x65; x6e; x64; x70; x6f; x69; x6e; x74];
  _ ← WriteString (Endpoint z);
  _ ← Append [xac; x6e; x65; x74; x77; x6f; x72; x6b; x5f; x6d; x6f; x64; x65];
  _ ← WriteString (NetworkMode z);
  _ ← Append [xac; x72; x75; x6e; x74; x69; x6d; x65; x2d; x70; x61; x74; x68];
  _ ← WriteString (RuntimePath z);
  _ ← Append [xa3; x63; x77; x64];
  _ ← WriteString (Cwd z);
  _ ← Append [xa9; x72; x65; x73; x6f; x75; x72; x63; x65; x73];
  _ ← Resources_EncodeMsg (Resources_ z);
  _ ← Append [xa5; x74; x6d; x70; x66; x73];
  _ ← encode_map range_ (Tmpfs z);
  _ ← Append [xa5; x62; x69; x6e; x64; x73];
  encode_slice WriteString (Binds z).

Definition Profile_Msgsize (z : Profile) : Z :=
  let s := 1 + 9 + StringPrefixSize + slen (Registry z) + 11 + StringPrefixSize + slen (Repository z) +
    9 + StringPrefixSize + slen (Endpoint z) + 13 + StringPrefixSize + slen (NetworkMode z) +
    13 + StringPrefixSize + slen (RuntimePath z) + 4 + StringPrefixSize + slen (Cwd z) +
    10 + Resources_Msgsize (Resources_ z) + 6 + MapHeaderSize in
  let s := add_map_sizes range_ (Tmpfs z) s in
  let s := s + (6 + ArrayHeaderSize) in
  add_sizes (λ b, StringPrefixSize + slen b) (Binds z) s.
End encode.

(** ** Round trip *)

(** The resources and the profile as the wire carries them: see [Number.wire]. *)
Definition wire_resources (r : Resources) : Resources :=
  mkResources (wire (Memory r)) (wire (CPUShares r)) (wire (CPUPeriod r)) (wire (CPUQuota r))
    (CpusetCpus r) (CpusetMems r).
Definition wire_profile (p : Profile) : Profile :=
  mkProfile (Registry p) (Repository p) (Endpoint p) (NetworkMode p) (RuntimePath p) (Cwd p)
    (wire_resources (Resources_ p)) (Tmpfs p) (Binds p).

(** The limits the daemon passes on to Docker. *)
Definition limits (p : Profile) : list Z :=
  map (λ n, (Int n).1) [Memory (Resources_ p); CPUShares (Resources_ p); CPUPeriod (Resources_ p); CPUQuota (Resources_ p)].

Record resources_ok (r : Resources) : Prop := {
  rk_Memory : number_ok (Memory r);
  rk_CPUShares : number_ok (CPUShares r);
  rk_CPUPeriod : number_ok (CPUPeriod r);
  rk_CPUQuota : number_ok (CPUQuota r);
  rk_Cpus : str_fits (CpusetCpus r);
  rk_Mems : str_fits (CpusetMems r)
}.

Lemma wire_limits p : resources_ok (Resources_ p) -> limits (wire_profile p) = limits p.
Proof. intros [H1 H2 H3 H4 _ _]. unfold limits.
  cbn [map wire_profile wire_resources Resources_ Memory CPUShares CPUPeriod CPUQuota]. by rewrite !wire_Int. Qed.

Definition resources_entries (r : Resources) : list (entry Resources) :=
  [mkEntry "memory" (Number_MarshalMsg [] (Memory r)) (λ '(mkResources me sh pe qu cpus mems),
     mkResources (wire (Memory r)) sh pe qu cpus mems);
   mkEntry "CpuShares" (Number_MarshalMsg [] (CPUShares r)) (λ '(mkResources me sh pe qu cpus mems),
     mkResources me (wire (CPUShares r)) pe qu cpus mems);
   mkEntry "CpuPeriod" (Number_MarshalMsg [] (CPUPeriod r)) (λ '(mkResources me sh pe qu cpus mems),
     mkResources me sh (wire (CPUPeriod r)) qu cpus mems);
   mkEntry "CpuQuota" (Number_MarshalMsg [] (CPUQuota r)) (λ '(mkResources me sh pe qu cpus mems),
     mkResources me sh pe (wire (CPUQuota r)) cpus mems);
   mkEntry "CpusetCpus" (AppendString [] (CpusetCpus r)) (λ '(mkResources me sh pe qu cpus mems),
     mkResources me sh pe qu (CpusetCpus r) mems);
   mkEntry "CpusetMems" (AppendString [] (CpusetMems r)) (λ '(mkResources me sh pe qu cpus mems),
     mkResources me sh pe qu cpus (CpusetMems r))].

Lemma Resources_MarshalMsg_app b r : Resources_MarshalMsg b r =
  b ++ AppendMapHeader [] 6 ++ concat (map entry_bytes (resources_entries r)).
Proof.
  unfold Resources_MarshalMsg. cbv zeta.
  rewrite !(AppendString_app (_ ++ _)), !(Number_app (_ ++ _)).
  entry_form resources_entries. reflexivity.
Qed.
Lemma Resources_app b r : Resources_MarshalMsg b r = b ++ Resources_MarshalMsg [] r.
Proof. by rewrite !Resources_MarshalMsg_app. Qed.

Lemma reads_Resources r z :
  resources_ok r -> reads (Resources_DecodeMsg z) (Resources_MarshalMsg [] r) (wire_resources r).
Proof.
  intros [H1 H2 H3 H4 H5 H6]. rewrite Resources_MarshalMsg_app. cbn [app].
  replace (wire_resources r) with (fold_left (λ z e, e_upd e z) (resources_entries r) z) by (by destruct z).
  apply (reads_fields Resources_field (resources_entries r)); [done|].
  each_entry z'; try apply Forall_nil_2; destruct z'; cbn [e_key];
    (eapply reads_bind_nil; [|apply reads_ret]); by apply reads_Number || by apply reads_str.
Qed.

Section roundtrip.
Context (range_ : gmap string string -> list (string * string)).
Context (range_all : forall m, range_ m ≡ₚ map_to_list m).

Record profile_ok (p : Profile) : Prop := {
  pk_Registry : str_fits (Registry p);
  pk_Repository : str_fits (Repository p);
  pk_Endpoint : str_fits (Endpoint p);
  pk_NetworkMode : str_fits (NetworkMode p);
  pk_RuntimePath : str_fits (RuntimePath p);
  pk_Cwd : str_fits (Cwd p);
  pk_Resources : resources_ok (Resources_ p);
  pk_Tmpfs : map_ok range_ (Tmpfs p);
  pk_Binds : list_ok str_fits (Binds p)
}.

Definition profile_entries (p : Profile) : list (entry profile_state) :=
  [mkEntry "registry" (AppendString [] (Registry p)) (λ '(mkDS reg rep ep nm rp cwd res tm bi),
     mkDS (Registry p) rep ep nm rp cwd res tm bi);
   mkEntry "repository" (AppendString [] (Repository p)) (λ '(mkDS reg rep ep nm rp cwd res tm bi),
     mkDS reg (Repository p) ep nm rp cwd res tm bi);
   mkEntry "endpoint" (AppendString [] (Endpoint p)) (λ '(mkDS reg rep ep nm rp cwd res tm bi),
     mkDS reg rep (Endpoint p) nm rp cwd res tm bi);
   mkEntry "network_mode" (AppendString [] (NetworkMode p)) (λ '(mkDS reg rep ep nm rp cwd res tm bi),
     mkDS reg rep ep (NetworkMode p) rp cwd res tm bi);
   mkEntry "runtime-path" (AppendString [] (RuntimePath p)) (λ '(mkDS reg rep ep nm rp cwd res tm bi),
     mkDS reg rep ep nm (RuntimePath p) cwd res tm bi);
   mkEntry "cwd" (AppendString [] (Cwd p)) (λ '(mkDS reg rep ep nm rp cwd res tm bi),
     mkDS reg rep ep nm rp (Cwd p) res tm bi);
   mkEntry "resources" (Resources_MarshalMsg [] (Resources_ p)) (λ '(mkDS reg rep ep nm rp cwd res tm bi),
     mkDS reg rep ep nm rp cwd (wire_resources (Resources_ p)) tm bi);
   mkEntry "tmpfs" (AppendMapStrStr [] (range_ (Tmpfs p))) (λ '(mkDS reg rep ep nm rp cwd res tm bi),
     mkDS reg rep ep nm rp cwd res (Tmpfs p) bi);
   mkEntry "binds" (array_bytes (AppendString []) (Binds p)) (λ '(mkDS reg rep ep nm rp cwd res tm bi),
     mkDS reg rep ep nm rp cwd res tm (refill ""%string (Binds p) bi))].

Lemma docker_MarshalMsg_app p : profile_ok p -> Profile_MarshalMsg range_ [] p =
  AppendMapHeader [] 9 ++ concat (map entry_bytes (profile_entries p)).
Proof.
  intros Hp. unfold Profile_MarshalMsg. cbv zeta.
  rewrite (append_array AppendString) by (apply AppendString_app || apply Hp).
  rewrite append_map_app, (Resources_app (_ ++ _)), !(AppendString_app (_ ++ _)).
  entry_form profile_entries. reflexivity.
Qed.

Lemma docker_reads_Profile p z : profile_ok p ->
  exists z', profile_of z' = wire_profile p /\
    reads (Profile_DecodeMsg z) (Profile_MarshalMsg range_ [] p) z'.
Proof using range_all.
  intros Hp. rewrite docker_MarshalMsg_app by done. destruct Hp as [P1 P2 P3 P4 P5 P6 P7 P8 [B1 B2]].
  exists (fold_left (λ z e, e_upd e z) (profile_entries p) z). split.
  { destruct z. unfold profile_of. cbn. by rewrite elems_refill. }
  apply (reads_fields Profile_field (profile_entries p)); [done|].
  each_entry z'; try apply Forall_nil_2; destruct z'; cbn [e_key];
    (eapply reads_bind_nil; [|apply reads_ret]);
    try (by apply reads_str); try (by apply reads_Resources); try (by apply reads_decode_map).
  apply reads_slice; [done|apply AppendString_nonempty|].
  intros w x Hx. apply reads_str. by apply (proj1 (Forall_forall _ _) B2).
Qed.

Lemma decodeProfile_encoded p : profile_ok p ->
  decodeProfile (Some (Profile_MarshalMsg range_ [] p)) = (Ok (wire_profile p), None).
Proof using range_all.
  intros Hp.
  destruct (docker_reads_Profile p default_state Hp) as (z' & Ez & HR).
  unfold decodeProfile, profile_DecodeTo.
  assert (exists x l, Profile_MarshalMsg range_ [] p = x :: l) as (x & l & E).
  { rewrite docker_MarshalMsg_app by done. cbn. eauto. }
  rewrite E. set (r := NewReader _ _ _ _). destruct (HR r []) as (r' & Er & _).
  { rewrite E, app_nil_r. unfold r, pending, cat. cbn. by rewrite app_nil_r. }
  rewrite (act_bind_ok _ _ _ _ _ Er). cbn. by rewrite Ez.
Qed.

End roundtrip.

Definition demo_docker_profile : Profile :=
  mkProfile "registry.example" "repo" "unix:///var/run/docker.sock" "host" "/run/cocaine" "/app"
    (mkResources (AsInt 536870912) (AsUint 50) (AsUint 100000) (AsInt (-1)) "0-3" "0")
    {[ "/tmp"%string := "size=100m"%string ]} ["/a:/b"%string].
Lemma demo_docker_ok : profile_ok map_to_list demo_docker_profile.
Proof.
  split; try reflexivity.
  - split; try reflexivity; apply (bool_decide_unpack _); vm_compute; exact I.
  - apply (bool_decide_unpack _). vm_compute. exact I.
  - split; [by vm_compute|]. repeat constructor.
Qed.

(** ** The other methods *)

Lemma agree_Resources z : agree (Resources_DecodeMsg z) (Resources_UnmarshalMsg z).
Proof.
  apply agree_fields. intros k [me sh pe qu cpus mems]. unfold Resources_field, Resources_field_bytes.
  pose proof agree_Number. auto 30 with agree.
Qed.
Lemma docker_agree_Profile z : agree (Profile_DecodeMsg z) (Profile_UnmarshalMsg z).
Proof.
  apply agree_fields. intros k [reg rep ep nm rp cwd res tm bi]. unfold Profile_field, Profile_field_bytes.
  pose proof (agree_Resources res).
  pose proof (agree_slice ""%string (λ _, ReadString) (λ _, ReadStringBytes) bi (λ _, agree_ReadString)).
  auto 40 with agree.
Qed.

Lemma Resources_tame z : tame (Resources_DecodeMsg z) /\ eats (Resources_DecodeMsg z).
Proof.
  apply decode_fields_tame. intros k [me sh pe qu cpus mems]. unfold Resources_field.
  pose proof tame_Number. auto 30 with tame.
Qed.
(** Whatever bytes a client sends, [decodeProfile] returns. *)
Lemma docker_profile_total raw : (decodeProfile (Some raw)).1 <> Err (DecodeError Diverged).
Proof.
  unfold decodeProfile, profile_DecodeTo. cbn [fst].
  assert (tame (z ← Profile_DecodeMsg default_state; mret (profile_of z))) as [Hs _].
  { apply tame_bind; [|intros; apply tame_ret]. apply decode_fields_tame.
    intros k [reg rep ep nm rp cwd res tm bi]. unfold Profile_field. destruct (Resources_tame res) as [HR _].
    assert (tame (decode_slice ""%string (λ _, ReadString) bi)) as Hb.
    { apply decode_slice_tame; intros _; [apply tame_ReadString|apply ReadString_wb]. }
    auto 40 with tame. }
  set (r := NewReader _ _ _ _). destruct (Hs r ltac:(done)) as [H1 _].
  destruct ((z ← Profile_DecodeMsg default_state; mret (profile_of z)) r).1; congruence.
Qed.

Lemma writes_Resources r : resources_ok r -> writes (Resources_EncodeMsg r) (Resources_MarshalMsg [] r).
Proof.
  intros [H1 H2 H3 H4 H5 H6]. eapply writes_eq; [unfold Resources_EncodeMsg; writes_seq; apply writes_Number|].
  unfold Resources_MarshalMsg. cbv zeta.
  rewrite !(AppendString_app (_ ++ _)), !(Number_app (_ ++ _)), <- !app_assoc. reflexivity.
Qed.
Lemma Resources_size r : zlen (Resources_MarshalMsg [] r) <= Resources_Msgsize r.
Proof.
  unfold Resources_MarshalMsg, Resources_Msgsize. cbv zeta.
  rewrite !(AppendString_app (_ ++ _)), !(Number_app (_ ++ _)). const_sizes.
  pose proof (size_string (CpusetCpus r)). pose proof (size_string (CpusetMems r)).
  pose proof (size_Number (Memory r)). pose proof (size_Number (CPUShares r)).
  pose proof (size_Number (CPUPeriod r)). pose proof (size_Number (CPUQuota r)). lia.
Qed.

Section methods.
Context (range_ : gmap string string -> list (string * string)).
Context (range_all : forall m, range_ m ≡ₚ map_to_list m).

Lemma docker_writes_Profile p :
  profile_ok range_ p -> writes (Profile_EncodeMsg range_ p) (Profile_MarshalMsg range_ [] p).
Proof.
  intros [P1 P2 P3 P4 P5 P6 P7 P8 [B1 B2]]. rewrite Forall_forall in B2. eapply writes_eq.
  - unfold Profile_EncodeMsg. writes_seq; [by apply writes_Resources|]. apply writes_slice; [done|].
    intros x Hx. apply writes_str. by apply B2.
  - unfold Profile_MarshalMsg. cbv zeta.
    rewrite (append_array AppendString) by (apply AppendString_app || done).
    rewrite append_map_app, (Resources_app (_ ++ _)), !(AppendString_app (_ ++ _)), <- !app_assoc. reflexivity.
Qed.
Lemma Profile_size p :
  profile_ok range_ p -> zlen (Profile_MarshalMsg range_ [] p) <= Profile_Msgsize range_ p.
Proof.
  intros [_ _ _ _ _ _ _ _ [B1 _]]. unfold Profile_MarshalMsg, Profile_Msgsize. cbv zeta.
  rewrite (append_array AppendString) by (apply AppendString_app || done).
  rewrite append_map_app, (Resources_app (_ ++ _)), !(AppendString_app (_ ++ _)). const_sizes.
  pose proof (size_string (Registry p)). pose proof (size_string (Repository p)).
  pose proof (size_string (Endpoint p)). pose proof (size_string (NetworkMode p)).
  pose proof (size_string (RuntimePath p)). pose proof (size_string (Cwd p)).
  pose proof (Resources_size (Resources_ p)). pose proof (size_map range_ (Tmpfs p) 0).
  pose proof (size_array (λ b, StringPrefixSize + slen b) (AppendString []) (Binds p) 0 (λ x _, size_string x)).
  rewrite !(add_sizes_shift _ _ (_ + _)), !(map_sizes_shift _ _ (_ + _)) in *. lia.
Qed.

(** the generated methods of the Docker profile fit together: [UnmarshalMsg] reads
    back what [MarshalMsg] appended and returns the rest, [Encode] writes those bytes
    or, on a failing writer, a prefix of them, and [Msgsize] is at least their number. *)
Theorem docker_codec_coherent p rest out answers :
  profile_ok range_ p ->
  (exists z, Profile_UnmarshalMsg default_state (Profile_MarshalMsg range_ [] p ++ rest) = Ok (z, rest) /\
     profile_of z = wire_profile p) /\
  match Encode (Profile_EncodeMsg range_ p) (NewWriter out answers) with
  | (Ok _, mw) => mw_sink mw = out ++ Profile_MarshalMsg range_ [] p
  | (Err _, mw) => answers <> [] /\ exists rest, out ++ Profile_MarshalMsg range_ [] p = mw_sink mw ++ rest
  end /\
  zlen (Profile_MarshalMsg range_ [] p) <= Profile_Msgsize range_ p.
Proof using range_all.
  intros Hp. split_and!; [|by apply Encode_outcome, docker_writes_Profile|by apply Profile_size].
  destruct (docker_reads_Profile range_ range_all p default_state Hp) as (z & Ez & HR).
  exists z. split; [|done]. eapply agree_reads; [apply docker_agree_Profile|exact HR].
Qed.
End methods.

Lemma docker_codec_coherent_witness :
  (exists z, Profile_UnmarshalMsg default_state (Profile_MarshalMsg map_to_list [] demo_docker_profile ++ [xc0]) =
     Ok (z, [xc0]) /\ profile_of z = wire_profile demo_docker_profile) /\
  match Encode (Profile_EncodeMsg map_to_list demo_docker_profile) (NewWriter [] []) with
  | (Ok _, mw) => mw_sink mw = [] ++ Profile_MarshalMsg map_to_list [] demo_docker_profile
  | (Err _, mw) => @nil (option (nat * Z)) <> [] /\
      exists rest, [] ++ Profile_MarshalMsg map_to_list [] demo_docker_profile = mw_sink mw ++ rest
  end /\
  zlen (Profile_MarshalMsg map_to_list [] demo_docker_profile) <= Profile_Msgsize map_to_list demo_docker_profile.
Proof. apply (docker_codec_coherent map_to_list (λ m, Permutation_refl _)), demo_docker_ok. Defined.
