(* ===== verification/Docker.v ===== *)
(** * The Docker box (isolate/docker/box.go, container.go, profile.go)

    Pulling an image and detecting a failed pull, building the configuration of a
    container, forwarding its output, and the life of the containers between
    [Spawn], [Kill] and the events of the Docker daemon. *)

From Stdlib Require Import ZArith Lia Ascii String Strings.Byte.
From S2P Require Import Prelude Fwd Number DockerProfile GoPath.

(** ** Pulling an image *)

Record spoolResponseProtocol := mkResp { Error : string; Status : string }.

(** [PullError msg] is [fmt.Errorf(msg)]: the message of the reply is the format. *)
Inductive pull_error := PullError (msg : string) | PullJSON | PullRead | PullEmptyLine.

Section pull.
(** What a [json.Decoder] reads off a line: the values, and whether only the end of
    the line ([io.EOF]) stopped it. *)
Context (json_docs : list byte -> list spoolResponseProtocol * bool).

Fixpoint first_error (docs : list spoolResponseProtocol) : option string :=
  match docs with
  | [] => None
  | d :: docs => if decide (Error d = ""%string) then first_error docs else Some (Error d)
  end.

Definition decodePullLine (line : list byte) : option pull_error :=
  let '(docs, eof) := json_docs line in
  match first_error docs with
  | Some e => Some (PullError e)
  | None => if eof then None else Some PullJSON
  end.

(** [rd.ReadBytes('\n')]: the line with its newline and the rest, or all that is left. *)
Fixpoint ReadBytes (data : list byte) : list byte * option (list byte) :=
  match data with
  | [] => ([], None)
  | b :: data =>
      if decide (b = x0a) then ([b], Some data)
      else let '(line, rest) := ReadBytes data in (b :: line, rest)
  end.

(** [line[len(line)-1] == '\n'] cuts the newline. *)
Definition cut_newline (line : list byte) : list byte :=
  match last line with
  | Some b => if decide (b = x0a) then take (length line - 1) line else line
  | None => line
  end.

(** [decodeImagePull]; [clean]: the stream ends with [io.EOF] and not with another error.
    Every round takes a line off, so the fuel is the length of the stream and one. *)
Fixpoint pull_loop (fuel : nat) (clean : bool) (data : list byte) : option pull_error :=
  match fuel with
  | O => None
  | S fuel =>
      let '(line, rest) := ReadBytes data in
      match rest with
      | None =>
          if clean then
            match line with
            | [] => None
            | _ => decodePullLine (cut_newline line)
            end
          else Some PullRead
      | Some rest =>
          match line with
          | [] => Some PullEmptyLine
          | _ => match decodePullLine (cut_newline line) with
                 | Some e => Some e
                 | None => pull_loop fuel clean rest
                 end
          end
      end
  end.
Definition decodeImagePull (clean : bool) (data : list byte) : option pull_error :=
  pull_loop (S (length data)) clean data.

(** The reference: the lines of the reply, and the first that is not fine. *)
Fixpoint complete_lines (data : list byte) : list (list byte) * list byte :=
  match data with
  | [] => ([], [])
  | b :: data =>
      let '(ls, tl) := complete_lines data in
      if decide (b = x0a) then ([] :: ls, tl)
      else match ls with
           | l :: ls => ((b :: l) :: ls, tl)
           | [] => ([], b :: tl)
           end
  end.
Fixpoint first_bad (ls : list (list byte)) : option pull_error :=
  match ls with
  | [] => None
  | l :: ls => match decodePullLine l with Some e => Some e | None => first_bad ls end
  end.
Definition pull_verdict (clean : bool) (data : list byte) : option pull_error :=
  let '(ls, tl) := complete_lines data in
  match first_bad ls with
  | Some e => Some e
  | None => if clean then match tl with [] => None | _ => decodePullLine tl end else Some PullRead
  end.

Lemma ReadBytes_complete data :
  match ReadBytes data with
  | (line, None) => complete_lines data = ([], line) /\ (last line <> Some x0a)
  | (line, Some rest) => exists l, line = l ++ [x0a] /\
      complete_lines data = (l :: (complete_lines rest).1, (complete_lines rest).2) /\
      (length rest < length data)%nat
  end.
Proof.
  induction data as [|b data IH]; cbn; [done|]. destruct (decide (b = x0a)) as [->|Hb].
  - exists []. split_and!; [done| |cbn; lia]. by destruct (complete_lines data).
  - destruct (ReadBytes data) as [line [rest|]].
    + destruct IH as (l & -> & E & Hl). exists (b :: l). rewrite E. split_and!; [done|done|cbn; lia].
    + destruct IH as [E Hl]. rewrite E. split; [done|]. destruct line; cbn in *; congruence.
Qed.
Lemma cut_newline_snoc l : cut_newline (l ++ [x0a]) = l.
Proof.
  unfold cut_newline. rewrite last_snoc, decide_True by done. rewrite length_app. cbn.
  replace (length l + 1 - 1)%nat with (length l) by lia. apply take_app_length.
Qed.
Lemma cut_newline_id line : last line <> Some x0a -> cut_newline line = line.
Proof.
  intros H. unfold cut_newline. destruct (last line) as [b|]; [|done].
  rewrite decide_False; [done|congruence].
Qed.

(** A pull fails exactly with the error of the first line of the reply that is
    not well-formed JSON or reports an error, the last line with or without its
    newline, or with the error of the stream; otherwise it succeeds. *)
Theorem decodeImagePull_spec clean data : decodeImagePull clean data = pull_verdict clean data.
Proof.
  unfold decodeImagePull. assert (length data < S (length data))%nat as Hf by lia. revert Hf.
  generalize (S (length data)) as fuel. intros fuel. revert data.
  induction fuel as [|fuel IH]; intros data Hf; [lia|]. cbn [pull_loop].
  pose proof (ReadBytes_complete data) as R. unfold pull_verdict.
  destruct (ReadBytes data) as [line [rest|]].
  - destruct R as (l & -> & -> & Hl). cbn [first_bad]. rewrite cut_newline_snoc.
    destruct (l ++ [x0a]) as [|x y] eqn:E; [by destruct l|].
    destruct (decodePullLine l); [done|]. rewrite IH by lia. unfold pull_verdict.
    by destruct (complete_lines rest).
  - destruct R as [-> Hl]. cbn [first_bad]. destruct clean; [|done].
    by rewrite cut_newline_id.
Qed.
End pull.

(** ** Forwarding the output of a container *)

Definition headerSize : nat := 8.

(** The attached stream, as the chunks that single reads of the connection bring. *)
Definition stream : Type := list (list byte).

(** [hjResp.Reader.Read(header)]: at most eight bytes, of one chunk; what is read
    overwrites the beginning of the buffer, the rest of the buffer stays. *)
Fixpoint Read (header : list byte) (s : stream) : option (list byte * stream) :=
  match s with
  | [] => None                                     (* io.EOF *)
  | [] :: s => Read header s
  | c :: s =>
      let got := take headerSize c in
      Some (got ++ drop (length got) header,
            match drop headerSize c with [] => s | rest => rest :: s end)
  end.

(** [io.CopyN(writer, reader, n)]: what was copied, and the stream unless it ended
    before. *)
Fixpoint CopyN (n : nat) (s : stream) : list byte * option stream :=
  match s with
  | [] => ([], if decide (n = 0)%nat then Some [] else None)
  | c :: s =>
      if decide (n < length c)%nat then (take n c, Some (drop n c :: s))
      else let '(w, r) := CopyN (n - length c) s in (c ++ w, r)
  end.

(** The big-endian size in the second half of the header. *)
Definition be32_at4 (h : list byte) : Z :=
  fold_left (λ acc b, acc * 256 + b2z b) (take 4 (drop 4 h)) 0.

(** [collectOutput] after the attach: what each round of the loop copies to the
    writer, until a read or a copy fails.  Every round but the last takes bytes off the stream, so its length is
    fuel enough. *)
Fixpoint collect_loop (fuel : nat) (header : list byte) (s : stream) : list (list byte) :=
  match fuel with
  | O => []
  | S fuel =>
      match Read header s with
      | None => []
      | Some (header, s) =>
          match CopyN (Z.to_nat (be32_at4 header)) s with
          | (w, Some s) => w :: collect_loop fuel header s
          | (w, None) => [w]
          end
      end
  end.
Definition collectOutput (s : stream) : list (list byte) :=
  collect_loop (S (length (concat s))) (replicate headerSize x00) s.

(** A frame of the attach protocol. *)
Definition be32_bytes (n : Z) : list byte := [z2b (n ≫ 24); z2b (n ≫ 16); z2b (n ≫ 8); z2b n].
Definition frame (t : byte) (payload : list byte) : list byte :=
  [t; x00; x00; x00] ++ be32_bytes (zlen payload) ++ payload.

(** Dropping [n] bytes of a stream, and the chunks this empties. *)
Fixpoint drop_bytes (n : nat) (s : stream) : stream :=
  match s with
  | [] => []
  | c :: s => if decide (n < length c)%nat then drop n c :: s else drop_bytes (n - length c) s
  end.
(** No header is split between two chunks. *)
Fixpoint aligned (frames : list (byte * list byte)) (s : stream) : Prop :=
  match frames with
  | [] => True
  | f :: frames =>
      (exists c s', drop_bytes 0 s = c :: s' /\ (headerSize <= length c)%nat) /\
      aligned frames (drop_bytes (headerSize + length f.2) s)
  end.

Lemma concat_drop_bytes n s : concat (drop_bytes n s) = drop n (concat s).
Proof.
  revert n. induction s as [|c s IH]; intros n; cbn; [by rewrite drop_nil|].
  destruct (decide (n < length c)%nat) as [Hn|Hn]; cbn.
  - rewrite drop_app_le by lia. done.
  - rewrite IH. rewrite drop_app_ge by lia. done.
Qed.
Lemma be32_at4_frame t n l : 0 <= n < 2 ^ 32 -> be32_at4 ([t; x00; x00; x00] ++ be32_bytes n ++ l) = n.
Proof.
  intros Hn. unfold be32_at4, be32_bytes. cbn [app drop take fold_left]. rewrite !z2b_b2z_mod.
  rewrite !Z.shiftr_div_pow2 by lia. change (2 ^ 24) with 16777216. change (2 ^ 16) with 65536.
  change (2 ^ 8) with 256. change (2 ^ 32) with 4294967296 in Hn.
  assert (n / 65536 = n / 256 / 256) as E1 by (by rewrite Z.div_div).
  assert (n / 16777216 = n / 256 / 256 / 256) as E2 by (by rewrite !Z.div_div).
  rewrite E2, E1.
  pose proof (Z.div_mod n 256 ltac:(lia)). pose proof (Z.div_mod (n / 256) 256 ltac:(lia)).
  pose proof (Z.div_mod (n / 256 / 256) 256 ltac:(lia)).
  assert (0 <= n / 256 / 256 / 256 < 256).
  { rewrite !Z.div_div by lia. split; [apply Z.div_pos; lia|]. apply Z.div_lt_upper_bound; lia. }
  rewrite (Z.mod_small (n / 256 / 256 / 256)) by done. rewrite take_0. cbn [fold_left]. lia.
Qed.

Lemma CopyN_ok n s : (n <= length (concat s))%nat ->
  exists s', CopyN n s = (take n (concat s), Some s') /\ drop_bytes 0 s' = drop_bytes n s.
Proof.
  revert n. induction s as [|c s IH]; intros n Hn; cbn in *.
  { rewrite take_nil. destruct n; [|lia]. by eexists. }
  rewrite length_app in Hn. destruct (decide (n < length c)%nat) as [Hl|Hl].
  - rewrite take_app_le by lia. eexists. split; [done|]. cbn. rewrite length_drop.
    rewrite decide_True by lia. by rewrite drop_drop, Nat.add_0_r.
  - destruct (IH (n - length c)%nat ltac:(lia)) as (s' & -> & D). exists s'. split; [|done].
    rewrite take_app_ge by lia. done.
Qed.

Lemma drop_drop_bytes m n s : drop_bytes m (drop_bytes n s) = drop_bytes (n + m) s.
Proof.
  revert n. induction s as [|c s IH]; intros n; cbn; [done|].
  destruct (decide (n < length c)%nat) as [Hn|Hn].
  - cbn. rewrite length_drop. destruct (decide (m < length c - n)%nat) as [Hm|Hm].
    + rewrite decide_True by lia. by rewrite drop_drop.
    + rewrite decide_False by lia. f_equal. lia.
  - rewrite IH, decide_False by lia. f_equal. lia.
Qed.
Lemma drop_bytes_0 k s : drop_bytes k (drop_bytes 0 s) = drop_bytes k s.
Proof. apply drop_drop_bytes. Qed.
Lemma aligned_norm frames s1 s2 : drop_bytes 0 s1 = drop_bytes 0 s2 -> aligned frames s1 -> aligned frames s2.
Proof.
  revert s1 s2. induction frames as [|f frames IH]; intros s1 s2 E; [done|]. cbn. rewrite E.
  intros [H1 H2]. split; [done|]. revert H2. apply IH. rewrite !drop_drop_bytes.
  rewrite <- (drop_bytes_0 _ s1), E. apply drop_bytes_0.
Qed.

Lemma Read_whole header s c s' :
  length header = headerSize -> drop_bytes 0 s = c :: s' -> (headerSize <= length c)%nat ->
  exists r, Read header s = Some (take headerSize (concat s), r) /\ drop_bytes 0 r = drop_bytes headerSize s /\
    concat r = drop headerSize (concat s).
Proof.
  intros Hh. revert s'. induction s as [|x s IH]; intros s' E Hc; cbn in E; [done|].
  destruct (decide (0 < length x)%nat) as [Hx|Hx].
  - rewrite drop_0 in E. injection E as -> ->. destruct c as [|b c]; [cbn in Hx; lia|].
    assert (Read header ((b :: c) :: s') = Some (take headerSize (b :: c) ++ drop (length (take headerSize (b :: c))) header,
      match drop headerSize (b :: c) with [] => s' | rest => rest :: s' end)) as -> by done.
    set (cc := b :: c) in *. clearbody cc. cbn [concat].
    rewrite length_take, drop_ge, app_nil_r by lia. rewrite take_app_le, drop_app_le by lia.
    eexists. split; [done|]. cbn [drop_bytes]. destruct (decide (headerSize < length cc)%nat) as [Hl|Hl].
    + destruct (drop headerSize cc) as [|y l] eqn:Ed.
      { apply (f_equal length) in Ed. rewrite length_drop in Ed. cbn in Ed. lia. }
      cbn. done.
    + rewrite drop_ge by lia. replace (headerSize - length cc)%nat with 0%nat by lia. done.
  - destruct x; [|cbn in Hx; lia]. cbn [Read concat app drop_bytes].
    destruct (IH s' E Hc) as (r & ? & ? & ?). exists r. split_and!; try done.
Qed.

Lemma Read_end header s : concat s = [] -> Read header s = None.
Proof. induction s as [|[|b c] s IH]; cbn; [done| |done]. apply IH. Qed.

Definition frames_bytes (frames : list (byte * list byte)) : list byte :=
  concat (map (λ f, frame f.1 f.2) frames).

(** C34: as long as no header of the attach protocol is split between two reads, the
    output of the container reaches the client whole and in order, frame by frame,
    however the payloads are segmented. *)
Theorem collectOutput_frames frames s :
  concat s = frames_bytes frames -> aligned frames s -> Forall (λ f, zlen f.2 < 2 ^ 32) frames ->
  collectOutput s = map snd frames.
Proof.
  unfold collectOutput. assert (length (replicate headerSize x00) = headerSize) as Hh by done. revert Hh.
  generalize (replicate headerSize x00) as header.
  assert (length (concat s) < S (length (concat s)))%nat as Hf by lia. revert Hf.
  generalize (S (length (concat s))) as fuel. intros fuel Hf header Hh Hs Ha Hz. revert header s Hf Hh Hs Ha.
  revert frames Hz. induction fuel as [|fuel IH]; intros frames Hz header s Hf Hh Hs Ha; [lia|]. cbn [collect_loop].
  destruct frames as [|[t p] frames]; cbn [map snd].
  { by rewrite Read_end. }
  destruct Ha as [(c & s' & E & Hc) Ha]. apply Forall_cons in Hz as [Hp Hz]. cbn [snd] in *.
  destruct (Read_whole header s c s' Hh E Hc) as (r & -> & D & C).
  unfold frames_bytes in Hs. cbn [map concat fst snd] in Hs. unfold frame in Hs. rewrite <- !app_assoc in Hs.
  assert (concat r = p ++ frames_bytes frames) as Hr by (rewrite C, Hs; done).
  assert (Z.to_nat (be32_at4 (take headerSize (concat s))) = length p) as ->.
  { rewrite Hs. change (take headerSize _) with ([t; x00; x00; x00] ++ be32_bytes (zlen p) ++ []).
    rewrite be32_at4_frame by (split; [apply zlen_nonneg|done]). unfold zlen. lia. }
  destruct (CopyN_ok (length p) r) as (r' & -> & D').
  { rewrite Hr, length_app. lia. }
  rewrite Hr, take_app_length. f_equal. apply IH; [done| | | |].
  - pose proof (f_equal (@concat _) D') as Q. rewrite !concat_drop_bytes, drop_0, Hr, drop_app_length in Q.
    rewrite Q. pose proof (f_equal length Hr) as Q1. pose proof (f_equal length C) as Q2.
    rewrite length_app in Q1. rewrite length_drop in Q2. pose proof (f_equal length Hs) as Q3.
    rewrite !length_app in Q3. cbn in Q3. unfold headerSize in *. lia.
  - rewrite Hs. done.
  - pose proof (f_equal (@concat _) D') as Q. rewrite !concat_drop_bytes, drop_0, Hr, drop_app_length in Q. done.
  - revert Ha. apply aligned_norm. rewrite D'. rewrite drop_drop_bytes, Nat.add_0_r.
    rewrite <- (drop_bytes_0 (length p) r), D, drop_drop_bytes. done.
Qed.

Lemma collectOutput_frames_witness :
  let hello := str_bytes "hello" in
  let all := frame x01 hello ++ frame x02 (str_bytes "!") in
  collectOutput [take 10 all; drop 10 all] = [hello; str_bytes "!"].
Proof.
  intros hello all. apply (collectOutput_frames [(x01, hello); (x02, str_bytes "!")]).
  - reflexivity.
  - cbn. split; [|split; [|done]]; eexists _, _; (split; [vm_compute; reflexivity|apply Nat.leb_le; vm_compute; reflexivity]).
  - repeat constructor.
Defined.

(** A header that comes in two reads is misread: the bytes it lacks are those of the
    header before, and the stream is out of step. *)
Lemma split_header_loses_output :
  let all := frame x01 (str_bytes "hello") ++ frame x01 (str_bytes "world") in
  concat (collectOutput [take 17 all; drop 17 all]) <> str_bytes "helloworld".
Proof. by vm_compute. Qed.

(** ** The life of containers *)

Definition sleep0 : Z := 1.                        (* time.Second *)
Definition maxSleep : Z := 32.

(** Who asked the daemon to remove a container: its own [process], once, or the
    listener for a container it does not know. *)
Inductive removal := ByProcess (id : string) | ByListener (id : string).

Record dbox := mkDbox {
  d_removed : gmap string bool;          (* the [removed] flag of every process made *)
  d_containers : gset string;            (* Box.containers *)
  d_removals : list removal;             (* ContainerRemove requests *)
  d_kills : list string;                 (* ContainerKill requests *)
  d_sleep : Z;
  d_since : Z
}.
Definition newDbox (now : Z) : dbox := mkDbox ∅ ∅ [] [] sleep0 now.

(** [process.remove]: the compare-and-swap lets one call through. *)
Definition remove (id : string) (b : dbox) : dbox :=
  match d_removed b !! id with
  | Some false => mkDbox (<[id := true]> (d_removed b)) (d_containers b) (d_removals b ++ [ByProcess id])
                    (d_kills b) (d_sleep b) (d_since b)
  | _ => b
  end.

(** [process.Kill]: the request, then the deferred [remove]. *)
Definition process_Kill (id : string) (b : dbox) : dbox :=
  remove id (mkDbox (d_removed b) (d_containers b) (d_removals b) (d_kills b ++ [id]) (d_sleep b) (d_since b)).

(** The case of the die event in [watchEvents]. *)
Definition die (id : string) (time : Z) (b : dbox) : dbox :=
  let tracked := bool_decide (id ∈ d_containers b) in
  let b := mkDbox (d_removed b) (d_containers b ∖ {[id]}) (d_removals b) (d_kills b) (d_sleep b) time in
  if tracked then remove id b
  else mkDbox (d_removed b) (d_containers b) (d_removals b ++ [ByListener id]) (d_kills b) (d_sleep b) (d_since b).

Inductive devent :=
  | DSpawned (id : string)               (* newContainer succeeded and was registered *)
  | DKill (id : string)
  | DListening                           (* client.Events succeeded *)
  | DListenError                         (* it failed: back off *)
  | DDie (id : string) (time : Z)
  | DOther (time : Z).                   (* an event with another status *)

Definition with_sleep (n : Z) (b : dbox) : dbox :=
  mkDbox (d_removed b) (d_containers b) (d_removals b) (d_kills b) n (d_since b).

Definition dexec (e : devent) (b : dbox) : option dbox :=
  match e with
  | DSpawned id => match d_removed b !! id with
      | None => Some (mkDbox (<[id := false]> (d_removed b)) ({[id]} ∪ d_containers b) (d_removals b)
                        (d_kills b) (d_sleep b) (d_since b))
      | Some _ => None                   (* the daemon does not reuse an id *)
      end
  | DKill id => match d_removed b !! id with Some _ => Some (process_Kill id b) | None => None end
  | DListening => Some (with_sleep sleep0 b)
  | DListenError => Some (with_sleep (Z.min (d_sleep b * 2) maxSleep) b)
  | DDie id time => Some (die id time b)
  | DOther time => Some (mkDbox (d_removed b) (d_containers b) (d_removals b) (d_kills b) (d_sleep b) time)
  end.

Inductive dreach (now : Z) : dbox -> Prop :=
  | dreach_new : dreach now (newDbox now)
  | dreach_exec e b b' : dreach now b -> dexec e b = Some b' -> dreach now b'.

Definition is_own (id : string) (r : removal) : bool :=
  match r with ByProcess i => bool_decide (i = id) | ByListener _ => false end.
Fixpoint own_removals (id : string) (l : list removal) : nat :=
  match l with [] => 0 | r :: l => (if is_own id r then 1 else 0) + own_removals id l end.
Lemma own_removals_app id l k : own_removals id (l ++ k) = (own_removals id l + own_removals id k)%nat.
Proof. induction l as [|r l IH]; cbn; lia. Qed.

Record DInv (b : dbox) : Prop := {
  di_once : forall id, own_removals id (d_removals b) =
    match d_removed b !! id with Some true => 1%nat | _ => 0%nat end;
  di_tracked : forall id, id ∈ d_containers b -> is_Some (d_removed b !! id);
  di_live : forall id, d_removed b !! id = Some false -> id ∈ d_containers b;
  di_killed : forall id, id ∈ d_kills b -> d_removed b !! id = Some true;
  di_sleep : sleep0 <= d_sleep b <= maxSleep
}.

Lemma remove_removed id b i : d_removed (remove id b) !! i =
  if decide (i = id) then match d_removed b !! id with Some _ => Some true | None => None end
  else d_removed b !! i.
Proof.
  unfold remove. destruct (decide (i = id)) as [->|Hne].
  - destruct (d_removed b !! id) as [[]|] eqn:E; cbn; rewrite ?lookup_insert_eq; done.
  - destruct (d_removed b !! id) as [[]|]; cbn; rewrite ?lookup_insert_ne by done; done.
Qed.
Lemma remove_same id b : d_containers (remove id b) = d_containers b /\ d_kills (remove id b) = d_kills b /\
  d_sleep (remove id b) = d_sleep b.
Proof. unfold remove. by destruct (d_removed b !! id) as [[]|]. Qed.

(** The flag counts the removals of a process. *)
Definition counted (b : dbox) : Prop := forall id, own_removals id (d_removals b) =
  match d_removed b !! id with Some true => 1%nat | _ => 0%nat end.
Lemma remove_counted id b : counted b -> counted (remove id b).
Proof.
  intros I i. rewrite remove_removed. unfold remove.
  destruct (d_removed b !! id) as [[]|] eqn:E; cbn; rewrite ?own_removals_app, I; cbn;
    destruct (decide (i = id)) as [->|Hne]; rewrite ?E, ?bool_decide_true, ?bool_decide_false by congruence; lia.
Qed.

(** After [remove] on a known process its flag is up, whatever else changed. *)
Lemma DInv_removes id b b0 :
  DInv b -> d_removed b0 = d_removed b -> d_removals b0 = d_removals b -> d_sleep b0 = d_sleep b ->
  is_Some (d_removed b !! id) ->
  (forall i, i ∈ d_containers b0 -> i ∈ d_containers b) ->
  (forall i, i ∈ d_containers b -> i <> id -> i ∈ d_containers b0) ->
  (forall i, i ∈ d_kills b0 -> i ∈ d_kills b \/ i = id) ->
  DInv (remove id b0).
Proof.
  intros [I1 I2 I3 I4 I5] E1 E2 E3 [x Hx] Hc1 Hc2 Hk. destruct (remove_same id b0) as (S1 & S2 & S3).
  split.
  - apply remove_counted. intros i. rewrite E1, E2. apply I1.
  - intros i. rewrite S1, remove_removed, E1. intros Hi%Hc1.
    destruct (decide (i = id)) as [->|]; [rewrite Hx; eauto|by apply I2].
  - intros i. rewrite S1, remove_removed, E1. destruct (decide (i = id)) as [->|]; [by rewrite Hx|].
    intros Hi. apply Hc2; [by apply I3|done].
  - intros i. rewrite S2, remove_removed, E1. intros [Hi| ->]%Hk.
    + destruct (decide (i = id)) as [->|]; [by rewrite Hx|by apply I4].
    + rewrite decide_True by done. by rewrite Hx.
  - by rewrite S3, E3.
Qed.

Lemma DInv_exec e b b' : DInv b -> dexec e b = Some b' -> DInv b'.
Proof.
  intros I E. pose proof I as [I1 I2 I3 I4 I5]. destruct e as [id|id| | |id t|t]; cbn in E.
  - destruct (d_removed b !! id) as [|] eqn:Eid; [done|]. injection E as <-. split; cbn; [| | | |done].
    + intros i. rewrite I1. destruct (decide (i = id)) as [->|]; [by rewrite Eid, lookup_insert_eq|].
      by rewrite lookup_insert_ne.
    + intros i. rewrite elem_of_union, elem_of_singleton. destruct (decide (i = id)) as [->|].
      * rewrite lookup_insert_eq. eauto.
      * rewrite lookup_insert_ne by done. intros [?|?]; [done|by apply I2].
    + intros i. rewrite elem_of_union, elem_of_singleton. destruct (decide (i = id)) as [->|]; [by left|].
      rewrite lookup_insert_ne by done. intros ?. right. by apply I3.
    + intros i Hi. destruct (decide (i = id)) as [->|]; [|rewrite lookup_insert_ne by done; by apply I4].
      apply I4 in Hi. congruence.
  - destruct (d_removed b !! id) eqn:Eid; [|done]. injection E as <-.
    apply (DInv_removes id b); cbn; try done.
    intros i [?|?%list_elem_of_singleton]%elem_of_app; auto.
  - injection E as <-. split; cbn; try done.
  - injection E as <-. split; cbn; try done. unfold sleep0, maxSleep in *. lia.
  - injection E as <-. unfold die. case_bool_decide as Hd; cbn zeta.
    + apply (DInv_removes id b); cbn; try done; try (by apply I2); try set_solver; auto.
    + split; cbn; try done.
      * intros i. rewrite own_removals_app, I1. cbn. lia.
      * intros i. rewrite elem_of_difference. intros [? _]. by apply I2.
      * intros i Hi%I3. apply elem_of_difference. split; [done|]. intros ->%elem_of_singleton. done.
  - injection E as <-. split; cbn; try done.
Qed.
Lemma DInv_reach now b : dreach now b -> DInv b.
Proof.
  induction 1 as [|e b b' _ IH E]; [|by apply (DInv_exec e b)].
  split; cbn; try done; try (intros; set_solver).
Qed.

(** C35: however kills and die events interleave, a process asks the daemon to remove
    its container at most once; it has done so once the container was killed or left
    the map; and the back-off of the listener stays between one and 32 seconds. *)
Theorem docker_removes_once now b :
  dreach now b ->
  (forall id, (own_removals id (d_removals b) <= 1)%nat) /\
  (forall id, is_Some (d_removed b !! id) -> id ∈ d_kills b \/ id ∉ d_containers b ->
     own_removals id (d_removals b) = 1%nat) /\
  sleep0 <= d_sleep b <= maxSleep.
Proof.
  intros Hr. destruct (DInv_reach now b Hr) as [I1 I2 I3 I4 I5]. split_and!; [| |lia|lia].
  - intros id. rewrite I1. destruct (d_removed b !! id) as [[]|]; lia.
  - intros id [[] Hx] Hk; rewrite I1, Hx; [done|]. exfalso.
    destruct Hk as [Hk|Hk]; [apply I4 in Hk; congruence|]. apply Hk, I3, Hx.
Qed.

Lemma docker_removes_once_witness :
  let b := die "c1" 7 (process_Kill "c1" (mkDbox {[ "c1"%string := false ]} {[ "c1"%string ]} [] [] 1 0)) in
  own_removals "c1" (d_removals b) = 1%nat.
Proof.
  intros b. apply (docker_removes_once 0 b).
  - apply (dreach_exec 0 (DDie "c1" 7) (process_Kill "c1" (mkDbox {[ "c1"%string := false ]} {[ "c1"%string ]} [] [] 1 0)));
      [|reflexivity].
    apply (dreach_exec 0 (DKill "c1") (mkDbox {[ "c1"%string := false ]} {[ "c1"%string ]} [] [] 1 0)); [|reflexivity].
    apply (dreach_exec 0 (DSpawned "c1") (newDbox 0)); [constructor|reflexivity].
  - vm_compute. eauto.
  - left. vm_compute. constructor.
Defined.

(** ** Building a container *)

(** What is sent with [ContainerCreate]. *)
Record container_config := mkCC {
  cc_Env : list string;
  cc_Cmd : list string;
  cc_Image : string;
  cc_WorkingDir : string;
  cc_Label : string;                     (* of cocaine-isolate *)
  cc_Memory : Z;
  cc_CPUShares : Z;
  cc_CPUPeriod : Z;
  cc_CPUQuota : Z;
  cc_CpusetCpus : string;
  cc_CpusetMems : string;
  cc_NetworkMode : string;
  cc_Binds : list string;
  cc_Tmpfs : gmap string string
}.

Definition getk (m : gmap string string) (k : string) : string := default ""%string (m !! k).

Section container.
(** The order in which a map is ranged. *)
Context (range_ : gmap string string -> list (string * string)).

(** [newContainer] up to [ContainerCreate]: the configuration, the uuid of the worker,
    and the arguments, in which the endpoint is rewritten in place. *)
Definition build_container (p : Profile) (name executable : string) (args env : gmap string string)
  : container_config * string * gmap string string :=
  let image := if decide (Registry p = ""%string) then name else (Registry p ++ "/" ++ name)%string in
  let Env := map (λ kv, (kv.1 ++ "=" ++ kv.2)%string) (range_ env) in
  let binds := (Dir (getk args "--endpoint") ++ ":" ++ RuntimePath p)%string :: Binds p in
  let workeruuid := getk args "--uuid" in
  let args := <["--endpoint"%string := Join [RuntimePath p; Base (getk args "--endpoint")]]> args in
  let Cmd := executable :: concat (map (λ kv, [kv.1; kv.2]) (range_ args)) in
  let r := Resources_ p in
  (mkCC Env Cmd image (Cwd p) name (Int (Memory r)).1 (Int (CPUShares r)).1 (Int (CPUPeriod r)).1
     (Int (CPUQuota r)).1 (CpusetCpus r) (CpusetMems r) (NetworkMode p) binds (Tmpfs p), workeruuid, args).

(** The worker finds its endpoint: the directory of the socket on the host is bound to
    the runtime path, under which the rewritten argument looks for it. *)
Lemma endpoint_bound p name executable args env :
  let '(cc, _, args') := build_container p name executable args env in
  head (cc_Binds cc) = Some (Dir (getk args "--endpoint") ++ ":" ++ RuntimePath p)%string /\
  getk args' "--endpoint" = Join [RuntimePath p; Base (getk args "--endpoint")].
Proof. cbn. split; [done|]. unfold getk at 1. by rewrite lookup_insert_eq. Qed.

(** A limit sent as a floating-point number is applied as the integer its bits spell:
    1.0 as 4607182418800017408 bytes. *)
Lemma float_limit_misread p name executable args env :
  let one := mkNumber 4607182418800017408 Float64Type in
  let p := mkProfile (Registry p) (Repository p) (Endpoint p) (NetworkMode p) (RuntimePath p) (Cwd p)
    (mkResources one no_number no_number no_number "" "") (Tmpfs p) (Binds p) in
  cc_Memory (build_container p name executable args env).1.1 = 4607182418800017408 /\ (Int one).2 = false.
Proof. by vm_compute. Qed.

(** *** [Spawn] *)

Inductive spawn_error := DecodeErr | EAGAIN | Cancelled | CreateErr | StartErr.

(** What the daemon answers: [ContainerCreate] with an id, [ContainerStart]. *)
Record daemon := { dm_create : option string; dm_start : bool }.

(** [Spawn]: the box, the counter, and what was written to the output (the
    notification about the start). *)
Definition Spawn (dm : daemon) (profile : option Profile) (acquired : bool) (b : dbox) (queue : Z)
  : result spawn_error string * dbox * Z :=
  match profile with
  | None => (Err DecodeErr, b, queue)
  | Some p =>
      let queue := queue + 1 in
      if 10 <? queue then (Err EAGAIN, b, queue - 1)
      else
        let queue := queue - 1 in
        if acquired then
          match dm_create dm with
          | None => (Err CreateErr, b, queue)
          | Some id =>
              let b := mkDbox (<[id := false]> (d_removed b)) ({[id]} ∪ d_containers b) (d_removals b)
                         (d_kills b) (d_sleep b) (d_since b) in
              if dm_start dm then (Ok id, b, queue) else (Err StartErr, b, queue)
          end
        else (Err Cancelled, b, queue)
  end.

(** A container that cannot be started is not removed: it stays in the map and in the
    daemon, and no die event will come for it. *)
Lemma failed_start_leaks dm p id b q :
  q < 10 -> dm_create dm = Some id -> dm_start dm = false -> d_removed b !! id = None ->
  exists b', Spawn dm (Some p) true b q = (Err StartErr, b', q) /\ id ∈ d_containers b' /\
    d_removed b' !! id = Some false /\ d_removals b' = d_removals b.
Proof.
  intros Hq Hc Hs Hn. unfold Spawn. destruct (Z.ltb_spec 10 (q + 1)); [lia|]. rewrite Hc, Hs.
  eexists. split; [do 2 f_equal; lia|]. cbn. split_and!; [set_solver|by rewrite lookup_insert_eq|done].
Qed.
End container.

(** *** [Spool] *)

Inductive spool_error := SpoolPullRequest | SpoolReply (e : pull_error).

(** [Spool]: a local image needs nothing; [pull] is the reply of the registry to the
    reference and the credentials. *)
Definition Spool (json_docs : list byte -> list spoolResponseProtocol * bool) (auth : gmap string string)
    (pull : string -> option string -> option (bool * list byte)) (p : Profile) (name : string)
  : option spool_error :=
  if decide (Registry p = ""%string) then None
  else
    match pull (Join [Registry p; Repository p; name]) (auth !! Registry p) with
    | None => Some SpoolPullRequest
    | Some (clean, body) =>
        match decodeImagePull json_docs clean body with
        | Some e => Some (SpoolReply e)
        | None => None
        end
    end.
