(* ===== verification/DockerBox.v ===== *)
(** * Requests to the Docker box

    [Spawn] of the Docker box from the bytes of the request to the calls it makes, and
    [Inspect] (isolate/docker/box.go, isolate/docker/container.go). *)

From Stdlib Require Import ZArith Lia Ascii String.
From S2P Require Import Prelude Fwd Msgp MsgpFacts Stream Dispatch Codec CodecFacts Number DockerProfile GoPath Docker.

(** What a spawn does outside of the box, in order. *)
Inductive effect :=
  | ContainerCreate (c : container_config)
  | ContainerStart (id : string)
  | Notify                              (* the empty write to the output *)
  | StopOutput.                         (* cancellation of the process context *)

(** A [process]: its container and the uuid of its worker. *)
Record process := mkProcess { pr_containerID : string; pr_uuid : string }.

Section spawn.
Context (range_ : gmap string string -> list (string * string)).

(** [newContainer]: [create] answers with the id of the container. *)
Definition newContainer (create : option string) (p : Profile) (name executable : string)
    (args env : gmap string string) : option process * list effect :=
  let '(cc, uuid, _) := build_container range_ p name executable args env in
  (match create with Some id => Some (mkProcess id uuid) | None => None end, [ContainerCreate cc]).

(** [startContainer]: the worker is announced only after it was started. *)
Definition startContainer (start : bool) (pr : process) : bool * list effect :=
  if start then (true, [ContainerStart (pr_containerID pr); Notify])
  else (false, [ContainerStart (pr_containerID pr); StopOutput]).

(** [Spawn] past the gate, on the bytes of the profile. *)
Definition spawn_request (dm : daemon) (opts : list byte) (name executable : string)
    (args env : gmap string string) (containers : gmap string process)
  : result spawn_error process * gmap string process * list effect :=
  match (decodeProfile (Some opts)).1 with
  | Err _ => (Err DecodeErr, containers, [])
  | Ok p =>
      match newContainer (dm_create dm) p name executable args env with
      | (None, l) => (Err CreateErr, containers, l)
      | (Some pr, l) =>
          let containers := <[pr_containerID pr := pr]> containers in
          match startContainer (dm_start dm) pr with
          | (true, l') => (Ok pr, containers, l ++ l')
          | (false, l') => (Err StartErr, containers, l ++ l')
          end
      end
  end.

(** The image [Spool] pulls. *)
Definition spool_ref (p : Profile) (name : string) : string := Join [Registry p; Repository p; name].
End spawn.

(** [Inspect]: [raw] is the daemon's answer about a container. *)
Definition docker_Inspect {Er} (range_ : gmap string process -> list (string * process))
    (raw : string -> result Er string) (workeruuid : string) (containers : gmap string process) : result Er string :=
  match list_find (λ kv : string * process, pr_uuid kv.2 = workeruuid) (range_ containers) with
  | Some (_, (cid, _)) => raw cid
  | None => Ok "{}"%string
  end.

(** A worker that was spawned is found by the uuid it was given, as long as it is tracked
    and no other has the same. *)
Lemma inspect_found {Er} range_ (raw : string -> result Er string) uuid containers id pr :
  (forall m, range_ m ≡ₚ map_to_list m) -> containers !! id = Some pr -> pr_uuid pr = uuid ->
  (forall id' pr', containers !! id' = Some pr' -> pr_uuid pr' = uuid -> id' = id) ->
  docker_Inspect range_ raw uuid containers = raw id.
Proof.
  intros Hr Hid Hu Huniq. unfold docker_Inspect.
  destruct (list_find _ _) as [[i [cid pr']]|] eqn:E.
  - apply list_find_Some in E as (Hi & Hp & _). apply list_elem_of_lookup_2 in Hi.
    rewrite Hr, elem_of_map_to_list in Hi. by rewrite (Huniq cid pr' Hi Hp).
  - apply list_find_None in E. rewrite Forall_forall in E. exfalso. apply (E (id, pr)); [|done].
    by rewrite Hr, elem_of_map_to_list.
Qed.

(** With a repository in the profile the image that is pulled and the image the worker
    is started from have different names. *)
Lemma spooled_image_differs :
  let p := mkProfile "registry" "repo" "" "bridge" defaultRuntimePath "" zero_Resources ∅ [] in
  spool_ref p "app" = "registry/repo/app"%string /\
  cc_Image (build_container map_to_list p "app" "/w" ∅ ∅).1.1 = "registry/app"%string.
Proof. by vm_compute. Qed.

Section facts.
Context (range_ : gmap string string -> list (string * string)).
Context (range_all : forall m, range_ m ≡ₚ map_to_list m).

(** What a spawn request makes the Docker box do, from the bytes of the profile on:
    a profile that does not decode touches nothing; otherwise one container is created,
    with the image, environment and limits of the decoded profile; only a created one is
    tracked, under its own id with the uuid of the worker, and started; the output is
    notified exactly when it started. *)
Theorem docker_spawn_request dm p name executable args env containers :
  profile_ok range_ p ->
  let '(r, containers', l) :=
    spawn_request range_ dm (Profile_MarshalMsg range_ [] p) name executable args env containers in
  let '(cc, uuid, _) := build_container range_ (wire_profile p) name executable args env in
  head l = Some (ContainerCreate cc) /\
  match dm_create dm with
  | None => r = Err CreateErr /\ containers' = containers /\ tail l = []
  | Some id =>
      containers' = <[id := mkProcess id uuid]> containers /\
      if dm_start dm then r = Ok (mkProcess id uuid) /\ tail l = [ContainerStart id; Notify]
      else r = Err StartErr /\ tail l = [ContainerStart id; StopOutput]
  end.
Proof using range_all.
  intros Hp. unfold spawn_request. rewrite (decodeProfile_encoded range_ range_all p Hp). cbn [fst].
  unfold newContainer. destruct (build_container range_ (wire_profile p) name executable args env) as [[cc uuid] args'].
  destruct (dm_create dm) as [id|]; [|done]. unfold startContainer. by destruct (dm_start dm).
Qed.
End facts.

Lemma docker_spawn_request_witness :
  let opts := Profile_MarshalMsg map_to_list [] demo_docker_profile in
  exists cc, spawn_request map_to_list {| dm_create := Some "c1"%string; dm_start := false |} opts "app" "/w"
      {["--uuid" := "u1"]}%string ∅ ∅ =
    (Err StartErr, {["c1" := mkProcess "c1" "u1"]}%string, [ContainerCreate cc; ContainerStart "c1"; StopOutput]).
Proof.
  intros opts. pose proof (docker_spawn_request map_to_list (λ m, Permutation_refl _)
    {| dm_create := Some "c1"%string; dm_start := false |} demo_docker_profile "app" "/w"
    {["--uuid" := "u1"]}%string ∅ ∅ demo_docker_ok) as H.
  fold opts in H. destruct (spawn_request _ _ opts _ _ _ _ _) as [[r cs] l].
  destruct (build_container _ _ _ _ _ _) as [[cc uuid] args'] eqn:Eb. cbn in H.
  destruct H as (Hh & -> & -> & Ht). exists cc. destruct l as [|e l]; [done|]. cbn in Hh, Ht. simplify_eq.
  unfold build_container in Eb. injection Eb as _ <- _. reflexivity.
Defined.
