(* ===== verification/CodeStorage.v ===== *)
(** * The code storage client (isolate/process/cocaine_code_storage.go)

    The process box reads the archive of an application from the storage service of
    Cocaine.  The framework library that talks to the service is not part of the
    program: each of its calls may succeed or fail.  The reply carries one MessagePack
    value, a string or a binary, which is decoded here. *)

From Stdlib Require Import ZArith Lia Strings.Byte.
From S2P Require Import Prelude Fwd Msgp MsgpFacts MsgpSafe MsgpBytes Number.

(** A value of the reply as the framework hands it over: [[]byte] or something else. *)
Inductive reply_value := VBytes (raw : list byte) | VOther.

(** The outcomes of [NewService], [Call], [Get] and [Result]. *)
Record service := mkService {
  sv_connect : bool;
  sv_call : bool;
  sv_get : bool;
  sv_result : result unit (Z * list reply_value)
}.

Inductive storage_error :=
  | NoService
  | CallFailed
  | GetFailed
  | InvalidReply
  | InvalidValue
  | InvalidType (t : Type_)
  | BadArchive (e : rerror).

(** [log] is the number of bytes left over, when some are. *)
Definition read_archive (raw : list byte) : result storage_error (list byte) * option Z :=
  let finish (x : result rerror (list byte * list byte)) :=
    match x with
    | Ok (data, rest) => (Ok data, if zlen rest =? 0 then None else Some (zlen rest))
    | Err e => (Err (BadArchive e), None)
    end in
  match NextTypeBytes raw with
  | BinType => finish (ReadBytesZC raw)
  | StrType => finish (ReadStringZC raw)
  | tp => (Err (InvalidType tp), None)
  end.

Definition storage_Spool (s : service) : result storage_error (list byte) :=
  if negb (sv_connect s) then Err NoService
  else if negb (sv_call s) then Err CallFailed
  else if negb (sv_get s) then Err GetFailed
  else match sv_result s with
       | Err _ => Err InvalidReply
       | Ok (num, val) =>
           if negb (num =? 0) then Err InvalidReply
           else match val with
                | [VBytes raw] => (read_archive raw).1
                | [VOther] => Err InvalidValue
                | _ => Err InvalidReply
                end
       end.

(** [AppendBytes], the encoder of the other side. *)
Definition AppendBytes (b bts : list byte) : list byte :=
  let sz := zlen bts in
  (if sz <=? MaxUint8 then b ++ prefixu8 mbin8 (uint 8 sz)
   else if sz <=? MaxUint16 then b ++ prefixu16 mbin16 (uint 16 sz)
   else b ++ prefixu32 mbin32 (uint 32 sz)) ++ bts.

(** ** Facts *)

Lemma NextTypeBytes_is b l t : getType (b2z b) = t -> t <> ExtensionType ->
  NextTypeBytes (b :: l) = t.
Proof.
  intros <- Ht. unfold NextTypeBytes. rewrite zlen_cons. pose proof (zlen_nonneg l).
  destruct (Z.eqb_spec (1 + zlen l) 0); [lia|]. cbv zeta. unfold getType in *. by rewrite decide_False.
Qed.

Lemma ReadBytesZC_ok data rest :
  zlen data < 2 ^ 32 -> ReadBytesZC (AppendBytes [] data ++ rest) = Ok (data, rest).
Proof.
  intros Hn. pose proof (zlen_nonneg data). unfold AppendBytes, ReadBytesZC, fixed.
  cbn [app]. rewrite <- app_assoc.
  destruct (Z.leb_spec (zlen data) MaxUint8) as [H2|H2]; unfold MaxUint8 in H2.
  { destruct (slice_header (prefixu8 mbin8 (uint 8 (zlen data))) 2 (data ++ rest) eq_refl
      ltac:(lia)) as (-> & E & -> & ->). cbv zeta.
    change (at_ (prefixu8 mbin8 (uint 8 (zlen data))) 0) with mbin8. lead_if. rewrite E.
    apply take_payload. rewrite at_prefix by done.
    unfold prefixu8, at_, uint; cbn [lookup list_lookup].
    rewrite z2b_low, Zmod_mod, Z.mod_small; lia. }
  destruct (Z.leb_spec (zlen data) MaxUint16) as [H3|H3]; unfold MaxUint16 in H3.
  { destruct (slice_header (prefixu16 mbin16 (uint 16 (zlen data))) 3 (data ++ rest) eq_refl
      ltac:(lia)) as (-> & E & -> & ->). cbv zeta.
    change (at_ (prefixu16 mbin16 (uint 16 (zlen data))) 0) with mbin16. lead_if. rewrite E.
    apply take_payload. rewrite be16_app, be16_prefix by done. unfold uint.
    rewrite Zmod_mod, Z.mod_small; lia. }
  destruct (slice_header (prefixu32 mbin32 (uint 32 (zlen data))) 5 (data ++ rest) eq_refl
    ltac:(lia)) as (-> & E & -> & ->). cbv zeta.
  change (at_ (prefixu32 mbin32 (uint 32 (zlen data))) 0) with mbin32. lead_if. rewrite E.
  apply take_payload. rewrite be32_app, be32_prefix by done. unfold uint.
  rewrite Zmod_mod, Z.mod_small; lia.
Qed.

Lemma bin_type data rest : NextTypeBytes (AppendBytes [] data ++ rest) = BinType.
Proof.
  unfold AppendBytes. rewrite <- app_assoc.
  repeat case_match; apply NextTypeBytes_is; done.
Qed.

Lemma str_type str rest : NextTypeBytes (AppendStringFromBytes [] str ++ rest) = StrType.
Proof.
  unfold AppendStringFromBytes. rewrite <- app_assoc. pose proof (zlen_nonneg str).
  destruct (Z.leb_spec (zlen str) 31) as [Hs|_].
  - pose proof (Zrange_check (λ u, bool_decide (getType (b2z (wfixstr (uint 8 u))) = StrType)) 32
      eq_refl (zlen str) ltac:(lia)) as Ht%bool_decide_eq_true.
    by apply NextTypeBytes_is.
  - repeat case_match; apply NextTypeBytes_is; done.
Qed.

(** A length and the payload after a header of at most five bytes. *)
Lemma sized_part (b data rest : list byte) x :
  match x with
  | Err e => Err e
  | Ok (read, o) => if zlen o <? read then Err ErrShortBytes else Ok (ztake read o, zdrop read o)
  end = Ok (data, rest) :> result rerror (list byte * list byte) ->
  (forall n o, x = Ok (n, o) -> exists k, 1 <= k <= 5 /\ o = zdrop k b) ->
  exists h, b = h ++ data ++ rest /\ zlen h <= 5.
Proof.
  intros E Hx. destruct x as [[n o]|e]; [|done]. destruct (zlen o <? n); [done|]. simplify_eq.
  destruct (Hx n o eq_refl) as (k & Hk & ->). exists (ztake k b). rewrite !ztake_zdrop. split; [done|].
  unfold zlen, ztake. rewrite length_take. lia.
Qed.

Lemma read_archive_part raw data : (read_archive raw).1 = Ok data ->
  exists h rest, raw = h ++ data ++ rest /\ zlen h <= 5.
Proof.
  unfold read_archive. intros E.
  assert (exists rest, ReadBytesZC raw = Ok (data, rest) \/ ReadStringZC raw = Ok (data, rest)) as [rest Hr].
  { destruct (NextTypeBytes raw); try done; [destruct (ReadStringZC raw) as [[d r]|]|destruct (ReadBytesZC raw) as [[d r]|]];
      try done; cbn in E; simplify_eq; eauto. }
  destruct Hr as [Hr|Hr]; [unfold ReadBytesZC, fixed in Hr|unfold ReadStringZC in Hr];
    (destruct (_ <? 1); [done|]); cbv zeta in Hr;
    destruct (sized_part raw data rest _ Hr) as (h & Hh); eauto 10;
    intros n o Eo; repeat (case_match; simplify_eq); eexists; (split; [|done]); lia.
Qed.

(** The archive the storage returns is the one that was stored: whether the service
    sends it as a binary or as a string, and whatever follows it in the reply; and
    whatever the reply is, the bytes unpacked are a contiguous part of it, right after a
    header of at most five bytes: a reply of another type, number or shape is refused. *)
Theorem storage_roundtrip data rest s :
  zlen data < 2 ^ 32 ->
  sv_connect s = true -> sv_call s = true -> sv_get s = true ->
  (sv_result s = Ok (0, [VBytes (AppendBytes [] data ++ rest)]) \/
   sv_result s = Ok (0, [VBytes (AppendStringFromBytes [] data ++ rest)]) -> storage_Spool s = Ok data) /\
  (forall d, storage_Spool s = Ok d -> exists raw h rest,
     sv_result s = Ok (0, [VBytes raw]) /\ raw = h ++ d ++ rest /\ zlen h <= 5).
Proof.
  intros Hn H1 H2 H3. unfold storage_Spool. rewrite H1, H2, H3. cbn [negb]. split.
  - unfold read_archive. intros [-> | ->]; cbn.
    + by rewrite bin_type, ReadBytesZC_ok.
    + by rewrite str_type, ReadStringZC_ok.
  - intros d. destruct (sv_result s) as [[num val]|]; [|done].
    destruct (Z.eqb_spec num 0) as [->|]; [cbn [negb]|done].
    destruct val as [|[raw|] [|]]; try done. intros (h & rest' & -> & Hh)%read_archive_part. eauto 10.
Qed.

Lemma storage_roundtrip_witness :
  storage_Spool (mkService true true true (Ok (0, [VBytes (AppendStringFromBytes [] [x1f; x8b] ++ [x00])]))) =
    Ok [x1f; x8b].
Proof.
  apply (storage_roundtrip [x1f; x8b] [x00]); [reflexivity..|]. right. reflexivity.
Defined.

(** A value of another type is refused, not unpacked. *)
Lemma array_refused : (read_archive [x90]).1 = Err (InvalidType ArrayType).
Proof. reflexivity. Qed.
