(* ===== verification/Config.v ===== *)
(** * Configuration and the registry of boxes

    The configuration of the daemon, its validation and the two fields that decode
    themselves (isolate/isolate.go, pkg/logutils/level.go), and the list of isolation
    plugins (isolate/plugins.go).  What [json.Unmarshal] makes of a document and what
    [time.ParseDuration] makes of a text are arguments. *)

From Stdlib Require Import ZArith Lia Ascii String Strings.Byte.
From S2P Require Import Prelude Json MtnStore Mtn.

(** ** Fields that decode themselves *)

(** [strings.Trim(s, cut)] for a cut set of one byte. *)
Fixpoint trim_left (c : byte) (l : list byte) : list byte :=
  match l with
  | [] => []
  | b :: l' => if decide (b = c) then trim_left c l' else l
  end.
Definition Trim (c : byte) (l : list byte) : list byte :=
  reverse (trim_left c (reverse (trim_left c l))).

Definition quote : byte := x22.

(** [time.Duration] in nanoseconds. *)
Definition Second : Z := 1000000000.

Definition JSONEncodedDuration_UnmarshalJSON {Er : Type} (ParseDuration : string -> result Er Z)
    (b : list byte) (d : Z) : result Er Z * Z :=
  match ParseDuration (bytes_str (Trim quote b)) with
  | Err e => (Err e, d)
  | Ok parsed => (Ok parsed, parsed)
  end.

Definition DebugLevel : Z := 0.
Definition InfoLevel : Z := 1.
Definition WarnLevel : Z := 2.
Definition ErrorLevel : Z := 3.
Definition FatalLevel : Z := 4.

(** [strings.ToLower] as far as a comparison with an ASCII word can tell: besides the
    ASCII capitals, the letters U+0130 and U+212A have ASCII lower cases. *)
Fixpoint ToLower (l : list byte) : list byte :=
  match l with
  | [] => []
  | xc4 :: ((xb0 :: l') as t) => x69 :: ToLower l'
  | xe2 :: ((x84 :: xaa :: l') as t) => x6b :: ToLower l'
  | b :: l' =>
      (if (65 <=? b2z b) && (b2z b <=? 90) then z2b (b2z b + 32) else b) :: ToLower l'
  end.

Definition ParseLevel (s : list byte) : option Z :=
  let name := bytes_str (ToLower s) in
  if decide (name = "debug"%string) then Some DebugLevel
  else if decide (name = "info"%string) then Some InfoLevel
  else if decide (name = "warn"%string \/ name = "warning"%string) then Some WarnLevel
  else if decide (name = "error"%string) then Some ErrorLevel
  else if decide (name = "fatal"%string) then Some FatalLevel
  else None.

(** [levelNames]; [None] is an index out of range. *)
Definition levelNames : list string := ["debug"; "info"; "warn"; "error"; "fatal"]%string.
Definition Level_String (l : Z) : option string :=
  if l <? 0 then None else levelNames !! Z.to_nat l.

Definition Level_UnmarshalJSON (data : list byte) (l : Z) : option Z * Z :=
  match ParseLevel (Trim quote data) with
  | None => (None, l)
  | Some level => (Some level, level)
  end.

(** ** The configuration *)

Abbreviation BoxConfig := (gmap string json).

Record BoxSection := mkBoxSection { bx_Type : string; bx_Args : BoxConfig }.

Record Config := mkConf {
  c_Version : Z;
  c_Endpoints : list string;
  c_DebugServer : string;
  c_LogLevel : Z;
  c_LogOutput : string;
  c_MetricsType : string;
  c_MetricsPeriod : Z;
  c_MetricsArgs : list byte;
  c_Isolate : gmap string BoxSection;
  c_Mtn : MtnSection;
  c_AllowLocalState : bool
}.

Definition no_mtn : MtnSection := Build_MtnSection false 0 "" "" "" "" ∅.
Definition zero_config : Config := mkConf 0 [] "" 0 "" "" 0 [] ∅ no_mtn false.

Inductive invalid := NoIsolate | NoEndpoints.

Definition Validate (c : Config) : option invalid :=
  if decide (size (c_Isolate c) = 0%nat) then Some NoIsolate
  else if decide (length (c_Endpoints c) = 0%nat) then Some NoEndpoints
  else None.

Inductive parse_error (Er : Type) := BadJson (e : Er) | Invalid (i : invalid).
Arguments BadJson {Er}.
Arguments Invalid {Er}.

(** [json.Unmarshal(data, &config)] decodes into the value it is given. *)
Definition Parse {Er} (unmarshal : list byte -> Config -> result Er Config) (data : list byte)
  : result (parse_error Er) Config :=
  match unmarshal data zero_config with
  | Err e => Err (BadJson e)
  | Ok config =>
      match Validate config with
      | Some i => Err (Invalid i)
      | None => Ok config
      end
  end.

(** ** The registry *)

Inductive construct_error (Er : Type) := NotAvailable (name : string) | Refused (e : Er).
Arguments NotAvailable {Er}.
Arguments Refused {Er}.

Section plugins.
Context {St Er Bx : Type}.

(** A constructor runs in the shared state, which the global state it is handed
    points into. *)
Definition BoxConstructor : Type := BoxConfig -> act St Er Bx.

Definition RegisterBox (name : string) (constructor : BoxConstructor)
    (plugins : gmap string BoxConstructor) : gmap string BoxConstructor :=
  <[name := constructor]> plugins.

Definition ConstructBox (plugins : gmap string BoxConstructor) (name : string) (cfg : BoxConfig)
  : act St (construct_error Er) Bx := λ st,
  match plugins !! name with
  | None => (Err (NotAvailable name), st)
  | Some constructor =>
      match constructor cfg st with
      | (Ok b, st) => (Ok b, st)
      | (Err e, st) => (Err (Refused e), st)
      end
  end.

(** The [init] functions of the three box packages, in the order of the imports. *)
Definition registered (docker porto process : BoxConstructor) : gmap string BoxConstructor :=
  RegisterBox "process" process (RegisterBox "porto" porto (RegisterBox "docker" docker ∅)).

Lemma registered_dom docker porto process :
  dom (registered docker porto process) = {["docker"; "porto"; "process"]}.
Proof. unfold registered, RegisterBox. rewrite !dom_insert_L, dom_empty_L. set_solver. Qed.
End plugins.

(** ** Facts *)

Lemma trim_left_quoted c l : hd_error l <> Some c -> trim_left c l = l.
Proof. destruct l as [|b l]; cbn; [done|]. intros H. destruct (decide _); congruence. Qed.

Lemma Trim_quoted c l :
  hd_error l <> Some c -> last l <> Some c -> Trim c (c :: l ++ [c]) = l.
Proof.
  intros Hh Hl. unfold Trim. cbn [trim_left]. destruct (decide (c = c)) as [_|]; [|done].
  destruct l as [|b l].
  - cbn. by destruct (decide (c = c)).
  - rewrite (trim_left_quoted c ((b :: l) ++ [c])) by exact Hh. rewrite reverse_snoc.
    cbn [trim_left]. destruct (decide (c = c)) as [_|]; [|done].
    rewrite trim_left_quoted; [apply reverse_involutive|by rewrite head_reverse].
Qed.

(** A level survives being written as JSON and read back, in any case of its letters
    that [ToLower] undoes. *)
Lemma level_roundtrip l name old :
  Level_String l = Some name ->
  Level_UnmarshalJSON (quote :: str_bytes name ++ [quote]) old = (Some l, l).
Proof.
  unfold Level_String. destruct (Z.ltb_spec l 0); [done|]. intros E.
  destruct (Z.to_nat l) as [|[|[|[|[|n]]]]] eqn:En; cbn in E; simplify_eq;
    match type of En with _ = ?k => replace l with (Z.of_nat k) by lia end; reflexivity.
Qed.

Lemma Validate_None c :
  Validate c = None <-> c_Isolate c <> ∅ /\ c_Endpoints c <> [].
Proof.
  unfold Validate. rewrite <- length_zero_iff_nil, <- map_size_empty_iff.
  repeat destruct (decide _); split; intros; naive_solver.
Qed.
