(* ===== verification/ConfigJson.v ===== *)
(** * The configuration file

    [json.Unmarshal] into the configuration (isolate/isolate.go [Config], [Parse]), into
    the section of the Graphite exporter (pkg/exportmetrics/graphite.go) and into the older
    copy of the configuration (pkg/config/config.go).  Decoding works on the text of each
    value, as the decoder of encoding/json does, because some fields keep or decode their
    text themselves.  An error of any field makes [Parse] fail, so what was stored before
    it is not kept. *)

From Stdlib Require Import ZArith Lia Ascii String Strings.Byte.
From stdpp Require Import pretty.
From S2P Require Import Prelude Json Duration MtnStore Mtn Config.

(** ** The members of an object, with their texts *)

(** The text of the value at the head of [l] and what follows it. *)
Definition raw_value (l : list byte) : option (list byte * list byte) :=
  let l := skip_ws l in
  '(_, r) ← parse_value (S (2 * length l)) l; Some (take (length l - length r) l, r).

Fixpoint raw_members (fuel : nat) (l : list byte) : option (list (string * list byte)) :=
  match fuel with
  | O => None
  | S fuel =>
      l ← strip [x22] (skip_ws l); '(k, l) ← parse_str 0 l;
      l ← strip [x3a] (skip_ws l); '(v, l) ← raw_value l;
      match strip [x2c] (skip_ws l) with
      | Some l => ms ← raw_members fuel l; Some ((bytes_str k, v) :: ms)
      | None => Some [(bytes_str k, v)]
      end
  end.

Definition raw_object (l : list byte) : option (list (string * list byte)) :=
  l ← strip [x7b] (skip_ws l);
  match strip [x7d] (skip_ws l) with
  | Some _ => Some []
  | None => raw_members (S (length l)) l
  end.

(** ** Decoders

    [dec A]: from the text of a value and the value stored so far to the new one; [None]
    when decoding reports an error.  [null] leaves a value as it is, and empties a slice
    or a map. *)
Definition dec (A : Type) : Type := list byte -> A -> option A.

Definition dec_string : dec string := λ raw old,
  match parse raw with Some (JStr s) => Some s | Some JNull => Some old | _ => None end.
Definition dec_bool : dec bool := λ raw old,
  match parse raw with Some (JBool b) => Some b | Some JNull => Some old | _ => None end.

(** [strconv.ParseInt(s, 10, 64)] on a number of the grammar. *)
Definition ParseInt (lit : list byte) : option Z :=
  let '(neg, l) := match lit with x2d :: l => (true, l) | _ => (false, lit) end in
  if forallb digit l && negb (bool_decide (l = [])) then
    let n := fold_left (λ n b, n * 10 + (b2z b - 48)) l 0 in
    let n := if neg then - n else n in
    if (- 2 ^ 63 <=? n) && (n <? 2 ^ 63) then Some n else None
  else None.
Definition dec_int : dec Z := λ raw old,
  match parse raw with Some (JNum n) => ParseInt (str_bytes n) | Some JNull => Some old | _ => None end.

Definition json_string (j : json) : option string :=
  match j with JStr s => Some s | JNull => Some ""%string | _ => None end.
Definition dec_strings : dec (list string) := λ raw _,
  match parse raw with Some (JArr l) => mapM json_string l | Some JNull => Some [] | _ => None end.

(** A map of strings: members are added to the map there is. *)
Definition dec_strmap : dec (gmap string string) := λ raw old,
  match parse raw with
  | Some (JObj fs) => fold_left (λ m kv, m ← m; s ← json_string kv.2; Some (<[kv.1 := s]> m)) fs (Some old)
  | Some JNull => Some ∅
  | _ => None
  end.

(** [map[string]interface{}]; a number keeps its text (a literal beyond the range of float64,
    which the decoder rejects, is not told apart). *)
Definition dec_args : dec BoxConfig := λ raw old,
  match parse raw with
  | Some (JObj fs) => Some (fold_left (λ m kv, <[kv.1 := kv.2]> m) fs old)
  | Some JNull => Some ∅
  | _ => None
  end.

(** [json.RawMessage] *)
Definition dec_raw : dec (list byte) := λ raw _, Some raw.

Definition dec_level : dec Z := λ raw old, (Level_UnmarshalJSON raw old).1.
Definition dec_period : dec Z := λ raw old,
  match (JSONEncodedDuration_UnmarshalJSON ParseDuration raw old).1 with Ok d => Some d | Err _ => None end.

(** A struct: [field] is the decoder of a member by its key, keys matching up to ASCII
    case; other members are ignored. *)
Definition dec_struct {A} (field : string -> option (dec A)) : dec A := λ raw old,
  match parse raw with
  | Some JNull => Some old
  | Some (JObj _) =>
      ms ← raw_object raw;
      fold_left (λ a kv, a ← a; match field (lower kv.1) with Some d => d kv.2 a | None => Some a end) ms (Some old)
  | _ => None
  end.

(** A map of structs: each member is decoded into a new value. *)
Definition dec_map {A} (zero : A) (elem : dec A) : dec (gmap string A) := λ raw old,
  match parse raw with
  | Some JNull => Some ∅
  | Some (JObj _) =>
      ms ← raw_object raw;
      fold_left (λ m kv, m ← m; a ← elem kv.2 zero; Some (<[kv.1 := a]> m)) ms (Some old)
  | _ => None
  end.

(** A field of a record. *)
Definition at_field {A B} (get : A -> B) (set : B -> A -> A) (d : dec B) : dec A := λ raw a,
  b ← d raw (get a); Some (set b a).

(** ** The configuration *)

Definition set_Version v c := mkConf v (c_Endpoints c) (c_DebugServer c) (c_LogLevel c) (c_LogOutput c) (c_MetricsType c) (c_MetricsPeriod c) (c_MetricsArgs c) (c_Isolate c) (c_Mtn c) (c_AllowLocalState c).
Definition set_Endpoints v c := mkConf (c_Version c) v (c_DebugServer c) (c_LogLevel c) (c_LogOutput c) (c_MetricsType c) (c_MetricsPeriod c) (c_MetricsArgs c) (c_Isolate c) (c_Mtn c) (c_AllowLocalState c).
Definition set_DebugServer v c := mkConf (c_Version c) (c_Endpoints c) v (c_LogLevel c) (c_LogOutput c) (c_MetricsType c) (c_MetricsPeriod c) (c_MetricsArgs c) (c_Isolate c) (c_Mtn c) (c_AllowLocalState c).
Definition set_LogLevel v c := mkConf (c_Version c) (c_Endpoints c) (c_DebugServer c) v (c_LogOutput c) (c_MetricsType c) (c_MetricsPeriod c) (c_MetricsArgs c) (c_Isolate c) (c_Mtn c) (c_AllowLocalState c).
Definition set_LogOutput v c := mkConf (c_Version c) (c_Endpoints c) (c_DebugServer c) (c_LogLevel c) v (c_MetricsType c) (c_MetricsPeriod c) (c_MetricsArgs c) (c_Isolate c) (c_Mtn c) (c_AllowLocalState c).
Definition set_MetricsType v c := mkConf (c_Version c) (c_Endpoints c) (c_DebugServer c) (c_LogLevel c) (c_LogOutput c) v (c_MetricsPeriod c) (c_MetricsArgs c) (c_Isolate c) (c_Mtn c) (c_AllowLocalState c).
Definition set_MetricsPeriod v c := mkConf (c_Version c) (c_Endpoints c) (c_DebugServer c) (c_LogLevel c) (c_LogOutput c) (c_MetricsType c) v (c_MetricsArgs c) (c_Isolate c) (c_Mtn c) (c_AllowLocalState c).
Definition set_MetricsArgs v c := mkConf (c_Version c) (c_Endpoints c) (c_DebugServer c) (c_LogLevel c) (c_LogOutput c) (c_MetricsType c) (c_MetricsPeriod c) v (c_Isolate c) (c_Mtn c) (c_AllowLocalState c).
Definition set_Isolate v c := mkConf (c_Version c) (c_Endpoints c) (c_DebugServer c) (c_LogLevel c) (c_LogOutput c) (c_MetricsType c) (c_MetricsPeriod c) (c_MetricsArgs c) v (c_Mtn c) (c_AllowLocalState c).
Definition set_Mtn v c := mkConf (c_Version c) (c_Endpoints c) (c_DebugServer c) (c_LogLevel c) (c_LogOutput c) (c_MetricsType c) (c_MetricsPeriod c) (c_MetricsArgs c) (c_Isolate c) v (c_AllowLocalState c).
Definition set_AllowLocalState v c := mkConf (c_Version c) (c_Endpoints c) (c_DebugServer c) (c_LogLevel c) (c_LogOutput c) (c_MetricsType c) (c_MetricsPeriod c) (c_MetricsArgs c) (c_Isolate c) (c_Mtn c) v.

Definition fields {A} (l : list (string * dec A)) (k : string) : option (dec A) :=
  match list_find (λ kd, kd.1 = k) l with Some (_, (_, d)) => Some d | None => None end.

Definition logger_fields : list (string * dec Config) :=
  [("level", at_field c_LogLevel set_LogLevel dec_level);
   ("output", at_field c_LogOutput set_LogOutput dec_string)]%string.
Definition metrics_fields : list (string * dec Config) :=
  [("type", at_field c_MetricsType set_MetricsType dec_string);
   ("period", at_field c_MetricsPeriod set_MetricsPeriod dec_period);
   ("args", at_field c_MetricsArgs set_MetricsArgs dec_raw)]%string.
Definition section_fields : list (string * dec BoxSection) :=
  [("type", at_field bx_Type (λ t b, mkBoxSection t (bx_Args b)) dec_string);
   ("args", at_field bx_Args (λ a b, mkBoxSection (bx_Type b) a) dec_args)]%string.

Definition mtn_at {B} (get : MtnSection -> B) (set : B -> MtnSection -> MtnSection) (d : dec B) : dec Config :=
  at_field (λ c, get (c_Mtn c)) (λ b c, set_Mtn (set b (c_Mtn c)) c) d.
Definition mtn_fields : list (string * dec Config) :=
  [("enable", mtn_at s_Enable (λ b m, Build_MtnSection b (s_Allocbuffer m) (s_Url m) (s_Label m) (s_Ident m) (s_DbPath m) (s_Headers m)) dec_bool);
   ("allocbuffer", mtn_at s_Allocbuffer (λ b m, Build_MtnSection (s_Enable m) b (s_Url m) (s_Label m) (s_Ident m) (s_DbPath m) (s_Headers m)) dec_int);
   ("url", mtn_at s_Url (λ b m, Build_MtnSection (s_Enable m) (s_Allocbuffer m) b (s_Label m) (s_Ident m) (s_DbPath m) (s_Headers m)) dec_string);
   ("label", mtn_at s_Label (λ b m, Build_MtnSection (s_Enable m) (s_Allocbuffer m) (s_Url m) b (s_Ident m) (s_DbPath m) (s_Headers m)) dec_string);
   ("ident", mtn_at s_Ident (λ b m, Build_MtnSection (s_Enable m) (s_Allocbuffer m) (s_Url m) (s_Label m) b (s_DbPath m) (s_Headers m)) dec_string);
   ("dbpath", mtn_at s_DbPath (λ b m, Build_MtnSection (s_Enable m) (s_Allocbuffer m) (s_Url m) (s_Label m) (s_Ident m) b (s_Headers m)) dec_string);
   ("allowlocalstate", at_field c_AllowLocalState set_AllowLocalState dec_bool);
   ("headers", mtn_at s_Headers (λ b m, Build_MtnSection (s_Enable m) (s_Allocbuffer m) (s_Url m) (s_Label m) (s_Ident m) (s_DbPath m) b) dec_strmap)]%string.

Definition config_fields : list (string * dec Config) :=
  [("version", at_field c_Version set_Version dec_int);
   ("endpoints", at_field c_Endpoints set_Endpoints dec_strings);
   ("debugserver", at_field c_DebugServer set_DebugServer dec_string);
   ("logger", dec_struct (fields logger_fields));
   ("metrics", dec_struct (fields metrics_fields));
   ("isolate", at_field c_Isolate set_Isolate
      (dec_map (mkBoxSection "" ∅) (dec_struct (fields section_fields))));
   ("mtn", dec_struct (fields mtn_fields))]%string.

Inductive unmarshal_error := BadSyntax | BadValue.

(** [json.Unmarshal(data, &config)] *)
Definition unmarshal_config (data : list byte) (c : Config) : result unmarshal_error Config :=
  match parse data with
  | None => Err BadSyntax
  | Some _ => match dec_struct (fields config_fields) data c with Some c => Ok c | None => Err BadValue end
  end.

(** [Parse] of the program, from the text of the file. *)
Definition parse_config : list byte -> result (parse_error unmarshal_error) Config := Parse unmarshal_config.

(** ** The default configuration *)

(** A line of a text; quotes are written as accents here. *)
Fixpoint text (lines : list string) : list byte :=
  match lines with
  | [] => []
  | s :: lines => map (λ b, if decide (b = x60) then x22 else b) (str_bytes s) ++ [x0a] ++ text lines
  end.

(** stout-default.conf *)
Definition stout_default_conf : list byte := text
  ["{";
   "    `version`: 2,";
   "    `metrics`: {";
   "        `type`: `graphite`,";
   "        `period`: `10s`,";
   "        `args`: {";
   "            `prefix`: `someprefix.{{hostname}}`,";
   "            `addr`: `:42000`";
   "        }";
   "    },";
   "    `logger`: {";
   "        `level`: `debug`,";
   "        `output`: `/dev/stderr`";
   "    },";
   "    `endpoints`: [`0.0.0.0:29042`],";
   "    `debugserver`: `127.0.0.1:9000`,";
   "    `isolate`: {";
   "        `docker`: {";
   "            `type`: `docker`,";
   "            `args`: {";
   "                `endpoint`: `unix:///var/run/docker.sock`,";
   "                `version`: `v1.19`,";
   "                `concurrency`: 10,";
   "                `registryauth`: {";
   "                    `registry.images.net`: `abcde`";
   "                }";
   "            }";
   "        },";
   "        `process`: {";
   "            `type`: `process`,";
   "            `args`: {";
   "                `spool`: `/var/spool/cocaine`,";
   "                `locator`: `localhost:10053`";
   "            }";
   "        },";
   "        `porto`: {";
   "            `type`: `porto`,";
   "            `args`: {";
   "                `layers`: `/var/tmp/layers`,";
   "                `defaultresolv_conf`: `default`,";
   "                `containers`: `/var/tmp/containers`,";
   "                `journal`: `/var/tmp/portojournal.jrnl`,";
   "                `defaultulimits`: `core: unlimited unlimited`,";
   "                `registryauth`: {";
   "                    `registry.images.net`: `OAuth token`";
   "                }";
   "            }";
   "        }";
   "    }";
   "}"]%string.

Definition conf_summary (c : Config) :=
  (c_Version c, c_Endpoints c, c_DebugServer c, c_LogLevel c, c_LogOutput c, c_MetricsType c, c_MetricsPeriod c,
   (λ k, bx_Type <$> c_Isolate c !! k) <$> ["docker"; "process"; "porto"]%string, size (c_Isolate c),
   (c_Isolate c !! "docker" ≫= λ b, bx_Args b !! "concurrency")%string).

Example default_conf_parses :
  match parse_config stout_default_conf with Ok c => Some (conf_summary c) | Err _ => None end =
  Some (2, ["0.0.0.0:29042"], "127.0.0.1:9000", DebugLevel, "/dev/stderr", "graphite", 10 * Second,
    [Some "docker"; Some "process"; Some "porto"], 3%nat, Some (JNum "10"))%string.
Proof. vm_compute. reflexivity. Qed.

(** ** What a written object decodes to *)

Lemma raw_value_print j k : json_ok j -> stops k = true -> raw_value (print j ++ k) = Some (print j, k).
Proof.
  intros Hok Hk. unfold raw_value. destruct (print_head j Hok) as (b & l & E & Hb & _).
  assert (skip_ws (print j ++ k) = print j ++ k) as -> by (rewrite E; by apply skip_ws_other).
  rewrite parse_print_value by (done || lia). cbn [mbind option_bind].
  by rewrite length_app, Nat.add_sub, take_app_length.
Qed.

Lemma raw_members_print fs rest f : json_ok (JObj fs) -> fs <> [] -> (length fs <= f)%nat ->
  raw_members f (join (map member fs) ++ x7d :: rest) = Some (map (λ kv, (kv.1, print kv.2)) fs).
Proof.
  revert f. induction fs as [|[k v] fs IH]; [done|]. intros f [[Okk Okv] Ok2] _ Hf. cbn [fst snd] in *.
  destruct f as [|f]; [cbn in Hf; lia|]. cbn [raw_members].
  destruct (members_text k v fs rest) as (k' & E & Hk & Ek).
  rewrite E. unfold quoted. rewrite <- !app_assoc. cbn [app].
  rewrite skip_ws_other by done. rewrite strip_same. cbn [mbind option_bind].
  rewrite parse_print_str by done. cbn [mbind option_bind]. rewrite skip_ws_other by done. rewrite strip_same.
  cbn [mbind option_bind]. rewrite raw_value_print by done. cbn [mbind option_bind]. rewrite bytes_str_bytes.
  destruct (decide (fs = [])) as [->|Hne]; subst k'.
  - rewrite skip_ws_other by done. by rewrite strip_other by done.
  - rewrite skip_ws_other by done. rewrite strip_same, IH; [done|done|done|cbn in Hf; lia].
Qed.

Lemma length_members fs : (length fs <= length (join (map member fs)))%nat.
Proof.
  induction fs as [|m fs IH]; [done|]. destruct fs as [|m' fs]; [cbn; lia|]. cbn [map] in *. rewrite join_cons.
  rewrite !length_app. cbn [length] in *. lia.
Qed.

Lemma raw_object_print fs : json_ok (JObj fs) ->
  raw_object (print (JObj fs)) = Some (map (λ kv, (kv.1, print kv.2)) fs).
Proof.
  intros Hok. unfold raw_object. cbn [print app].
  change (map (λ kv : string * json, quoted kv.1 ++ x3a :: print kv.2) fs) with (map member fs).
  rewrite skip_ws_other by done. rewrite strip_same. cbn [mbind option_bind].
  destruct fs as [|m fs]; [done|].
  assert (strip [x7d] (skip_ws (join (map member (m :: fs)) ++ [x7d])) = None) as -> by (by destruct fs).
  apply raw_members_print; [done|done|]. rewrite length_app. pose proof (length_members (m :: fs)). lia.
Qed.

Section decoded.
Context {A : Type}.

(** Decoding a written struct decodes its members in order. *)
Definition dec_members (field : string -> option (dec A)) (fs : list (string * json)) (old : A) : option A :=
  fold_left (λ a kv, a ← a; match field (lower kv.1) with Some d => d (print kv.2) a | None => Some a end) fs (Some old).

Lemma fold_left_map {X Y Z} (f : Z -> Y -> Z) (g : X -> Y) l z :
  fold_left f (map g l) z = fold_left (λ z x, f z (g x)) l z.
Proof. revert z. induction l as [|x l IH]; intros z; cbn; [done|apply IH]. Qed.

Lemma dec_struct_print field fs old : json_ok (JObj fs) ->
  dec_struct field (print (JObj fs)) old = dec_members field fs old.
Proof.
  intros Hok. unfold dec_struct. rewrite parse_print_id, raw_object_print by done. cbn [mbind option_bind].
  by rewrite fold_left_map.
Qed.

Lemma dec_map_print zero (elem : dec A) fs old : json_ok (JObj fs) ->
  dec_map zero elem (print (JObj fs)) old =
  fold_left (λ m kv, m ← m; a ← elem (print kv.2) zero; Some (<[kv.1 := a]> m)) fs (Some old).
Proof.
  intros Hok. unfold dec_map. rewrite parse_print_id, raw_object_print by done. cbn [mbind option_bind].
  by rewrite fold_left_map.
Qed.

Lemma dec_members_cons field k v fs old d : field (lower k) = Some d ->
  dec_members field ((k, v) :: fs) old =
  match d (print v) old with Some a => dec_members field fs a | None => None end.
Proof.
  intros E. unfold dec_members. cbn. rewrite E. destruct (d (print v) old); [done|].
  induction fs; cbn; auto.
Qed.
End decoded.

(** ** Values that are written and read back *)

Lemma json_ok_int n : json_ok (JNum (pretty (n : Z))).
Proof. apply scan_pretty. Qed.

Lemma dec_string_print s old : str_ok s -> dec_string (print (JStr s)) old = Some s.
Proof. intros Hs. unfold dec_string. by rewrite parse_print_id. Qed.
Lemma dec_bool_print b old : dec_bool (print (JBool b)) old = Some b.
Proof. unfold dec_bool. by rewrite parse_print_id. Qed.

Lemma fold_digits x acc l :
  fold_left (λ n b, n * 10 + (b2z b - 48)) (str_bytes (pretty_N_go x "") ++ l) acc =
  fold_left (λ n b, n * 10 + (b2z b - 48)) l
    (fold_left (λ n b, n * 10 + (b2z b - 48)) (str_bytes (pretty_N_go x "")) acc).
Proof. apply fold_left_app. Qed.
Lemma fold_digits_go x : fold_left (λ n b, n * 10 + (b2z b - 48)) (str_bytes (pretty_N_go x "")) 0 = Z.of_N x.
Proof.
  induction (N.lt_wf_0 x) as [x _ IH]. destruct (decide (0 < x)%N) as [Hx|Hx].
  - rewrite pretty_N_go_step by done. rewrite pretty_N_go_app, str_bytes_app, fold_digits.
    rewrite IH by (apply N.div_lt; lia).
    destruct (digit_char (x mod 10)%N) as (b & -> & _ & Hb); [by apply N.mod_lt|]. cbn [fold_left].
    rewrite Hb, N2Z.inj_mod, N2Z.inj_div. change (Z.of_N 10) with 10. pose proof (Z.div_mod (Z.of_N x) 10). lia.
  - assert (x = 0%N) as -> by lia. by rewrite pretty_N_go_0.
Qed.

Lemma ParseInt_pretty n : - 2 ^ 63 <= n < 2 ^ 63 -> ParseInt (str_bytes (pretty n)) = Some n.
Proof.
  intros Hn. assert ((- 2 ^ 63 <=? n) && (n <? 2 ^ 63) = true) as Hr
    by (apply andb_true_iff; rewrite Z.leb_le, Z.ltb_lt; lia).
  destruct n as [|p|p]; [done| |]; destruct (go_head (Npos p)) as (b & l & E & _); try lia;
    pose proof (go_digits (Npos p)) as Hd; pose proof (fold_digits_go (Npos p)) as Hf; rewrite E in *.
  - change (str_bytes (pretty (Zpos p))) with (str_bytes (pretty_N_go (Npos p) "")). rewrite E.
    assert (match b :: l with x2d :: l => (true, l) | _ => (false, b :: l) end = (false, b :: l)) as Hm.
    { cbn in Hd. apply andb_true_iff in Hd as [Hd _]. clear - Hd. by destruct b. }
    unfold ParseInt. rewrite Hm, Hd. cbn [andb negb]. rewrite bool_decide_eq_false_2 by done. cbn [negb].
    rewrite Hf. change (Z.of_N (Npos p)) with (Zpos p). by rewrite Hr.
  - change (str_bytes (pretty (Zneg p))) with (x2d :: str_bytes (pretty_N_go (Npos p) "")). rewrite E.
    unfold ParseInt. rewrite Hd. rewrite bool_decide_eq_false_2 by done. cbn [andb negb].
    rewrite Hf. change (- Z.of_N (Npos p)) with (Zneg p). by rewrite Hr.
Qed.
Lemma dec_int_print n old : - 2 ^ 63 <= n < 2 ^ 63 -> dec_int (print (JNum (pretty n))) old = Some n.
Proof. intros Hn. unfold dec_int. rewrite parse_print_id by apply json_ok_int. by apply ParseInt_pretty. Qed.

Lemma dec_strings_print l old : Forall str_ok l -> dec_strings (print (JArr (map JStr l))) old = Some l.
Proof.
  intros Hl. unfold dec_strings. rewrite parse_print_id by (apply json_ok_arr, Forall_map, Hl).
  clear. induction l as [|s l IH]; [done|]. cbn. by rewrite IH.
Qed.

(** A map built member by member, when every member is decoded first. *)
Lemma fold_decode {B C} (f : C -> option B) (g : B -> C) (l : list (string * B)) (m0 : gmap string B) :
  Forall (λ kv, f (g kv.2) = Some kv.2) l ->
  fold_left (λ m kv, m ← m; a ← f kv.2; Some (<[kv.1 := a]> m)) (map (λ kv, (kv.1, g kv.2)) l) (Some m0) =
  Some (fold_left (λ m kv, <[kv.1 := kv.2]> m) l m0).
Proof.
  intros H. revert m0. induction H as [|[k v] l Hv _ IH]; intros m0; cbn [map fold_left fst snd]; [done|].
  cbn [mbind option_bind snd] in *. rewrite Hv. cbn. apply IH.
Qed.

Definition strmap_json (m : gmap string string) : json :=
  JObj (map (λ kv : string * string, (kv.1, JStr kv.2)) (map_to_list m)).
Definition strmap_ok (m : gmap string string) : Prop :=
  Forall (λ kv : string * string, str_ok kv.1 /\ str_ok kv.2) (map_to_list m).

Lemma strmap_json_ok m : strmap_ok m -> json_ok (strmap_json m).
Proof. intros H. apply json_ok_obj, Forall_map, H. Qed.
Lemma dec_strmap_print m : strmap_ok m -> dec_strmap (print (strmap_json m)) ∅ = Some m.
Proof.
  intros Hm. unfold dec_strmap. rewrite parse_print_id by (by apply strmap_json_ok). cbn [strmap_json].
  rewrite (fold_decode json_string JStr); [by rewrite fold_insert_all|]. by apply Forall_true.
Qed.

Definition args_ok (m : BoxConfig) : Prop :=
  Forall (λ kv : string * json, str_ok kv.1 /\ json_ok kv.2) (map_to_list m).
Lemma dec_args_print m : args_ok m -> dec_args (print (JObj (map_to_list m))) ∅ = Some m.
Proof.
  intros Hm. unfold dec_args. rewrite parse_print_id by (by apply json_ok_obj). f_equal. apply fold_insert_all.
Qed.

(** ** A configuration as a document *)

Definition section_json (b : BoxSection) : json :=
  JObj [("type", JStr (bx_Type b)); ("args", JObj (map_to_list (bx_Args b)))]%string.
Definition mtn_json (m : MtnSection) (allow : bool) : json :=
  JObj [("enable", JBool (s_Enable m)); ("allocbuffer", JNum (pretty (s_Allocbuffer m))); ("url", JStr (s_Url m));
    ("label", JStr (s_Label m)); ("ident", JStr (s_Ident m)); ("dbpath", JStr (s_DbPath m));
    ("allowlocalstate", JBool allow); ("headers", strmap_json (s_Headers m))]%string.

(** The level by its name, the period in seconds, the arguments of the exporter as a
    document. *)
Definition config_json (c : Config) (level : string) (secs : Z) (args : json) : json :=
  JObj [("version", JNum (pretty (c_Version c)));
    ("endpoints", JArr (map JStr (c_Endpoints c)));
    ("debugserver", JStr (c_DebugServer c));
    ("logger", JObj [("level", JStr level); ("output", JStr (c_LogOutput c))]);
    ("metrics", JObj [("type", JStr (c_MetricsType c)); ("period", JStr (pretty secs +:+ "s")); ("args", args)]);
    ("isolate", JObj (map (λ kv, (kv.1, section_json kv.2)) (map_to_list (c_Isolate c))));
    ("mtn", mtn_json (c_Mtn c) (c_AllowLocalState c))]%string.

Definition int64_ok (n : Z) : Prop := - 2 ^ 63 <= n < 2 ^ 63.
Definition section_ok (b : BoxSection) : Prop := str_ok (bx_Type b) /\ args_ok (bx_Args b).

Record mtn_ok (m : MtnSection) : Prop := {
  mo_buffer : int64_ok (s_Allocbuffer m);
  mo_strs : Forall str_ok [s_Url m; s_Label m; s_Ident m; s_DbPath m];
  mo_headers : strmap_ok (s_Headers m)
}.

Record conf_ok (c : Config) (level : string) (secs : Z) (args : json) : Prop := {
  co_version : int64_ok (c_Version c);
  co_endpoints : Forall str_ok (c_Endpoints c);
  co_strs : Forall str_ok [c_DebugServer c; c_LogOutput c; c_MetricsType c];
  co_level : Level_String (c_LogLevel c) = Some level;
  co_period : c_MetricsPeriod c = secs * Duration.Second /\ 0 <= secs /\ secs * Duration.Second <= maxInt64;
  co_args : json_ok args /\ c_MetricsArgs c = print args;
  co_isolate : Forall (λ kv : string * BoxSection, str_ok kv.1 /\ section_ok kv.2) (map_to_list (c_Isolate c));
  co_mtn : mtn_ok (c_Mtn c)
}.

Lemma dec_level_print l name old : Level_String l = Some name ->
  dec_level (print (JStr name)) old = Some l /\ str_ok name.
Proof.
  intros E. assert (In name levelNames) as Hn.
  { unfold Level_String in E. destruct (l <? 0); [done|]. by apply list_elem_of_In, (list_elem_of_lookup_2 _ (Z.to_nat l)). }
  assert (forallb (λ b, digit b || between 97 122 b) (str_bytes name) = true) as Hp.
  { by repeat (destruct Hn as [<-|Hn]; [reflexivity|]). }
  destruct (print_plain _ Hp) as [P U]. split; [|done]. unfold dec_level. cbn [print]. unfold quoted. rewrite P.
  change ([x22] ++ str_bytes name ++ [x22]) with (quote :: str_bytes name ++ [quote]). by rewrite (level_roundtrip l).
Qed.

Lemma pretty_plain (n : Z) : 0 <= n -> forallb digit (str_bytes (pretty n)) = true.
Proof. intros Hn. destruct n as [|p|p]; [done|apply (go_digits (Npos p))|lia]. Qed.

Lemma dec_period_print secs old : 0 <= secs -> secs * Duration.Second <= maxInt64 ->
  dec_period (print (JStr (pretty secs +:+ "s"))) old = Some (secs * Duration.Second) /\ str_ok (pretty secs +:+ "s").
Proof.
  intros H0 Hm. pose proof (pretty_plain secs H0) as Hd.
  assert (forallb (λ b, digit b || between 97 122 b) (str_bytes (pretty secs +:+ "s")) = true) as Hp.
  { rewrite str_bytes_app, forallb_app. apply andb_true_iff. split; [|done].
    rewrite forallb_forall in *. intros b Hb. by rewrite (Hd b Hb). }
  destruct (print_plain _ Hp) as [P U]. split; [|done]. unfold dec_period, JSONEncodedDuration_UnmarshalJSON.
  cbn [print]. unfold quoted. rewrite P.
  change ([x22] ++ ?l ++ [x22]) with (quote :: l ++ [quote]). rewrite Trim_quoted.
  - rewrite bytes_str_bytes, ParseDuration_seconds by done. done.
  - rewrite str_bytes_app. destruct (pretty_head secs H0) as (b & l & -> & Hb). cbn. intros [= ->]. done.
  - rewrite str_bytes_app. change (str_bytes "s") with [x73]. by rewrite last_snoc.
Qed.

(** One member of a struct, with the decoder of its key and what that decodes. *)
Lemma dec_member {A} (field : string -> option (dec A)) k v fs old d a r : field (lower k) = Some d ->
  d (print v) old = Some a -> dec_members field fs a = r -> dec_members field ((k, v) :: fs) old = r.
Proof. intros E Ed <-. by rewrite (dec_members_cons _ _ _ _ _ _ E), Ed. Qed.
Lemma at_field_do {A B} (get : A -> B) (set : B -> A -> A) (d : dec B) raw a b :
  d raw (get a) = Some b -> at_field get set d raw a = Some (set b a).
Proof. unfold at_field. by intros ->. Qed.

Create HintDb decoding.
#[export] Hint Resolve dec_string_print dec_bool_print dec_int_print dec_strings_print dec_strmap_print dec_args_print : decoding.

(** The state so far is evaluated after every member. *)
Ltac state_eval :=
  match goal with
  | |- dec_members _ _ ?a = _ => let a' := eval cbv -[pretty] in a in change a with a'
  end.
Ltac member_step := eapply dec_member; [reflexivity|apply at_field_do; eauto with decoding|].

Lemma section_print b : section_ok b ->
  dec_struct (fields section_fields) (print (section_json b)) (mkBoxSection "" ∅) = Some b /\ json_ok (section_json b).
Proof.
  intros [Ht Ha]. assert (json_ok (section_json b)) as Hok.
  { obj_ok. by apply json_ok_obj. }
  split; [|done]. unfold section_json. rewrite dec_struct_print by done. do 2 member_step. by destruct b.
Qed.

Lemma mtn_print m allow c : mtn_ok m -> c_Mtn c = no_mtn ->
  dec_struct (fields mtn_fields) (print (mtn_json m allow)) c = Some (set_AllowLocalState allow (set_Mtn m c)) /\
  json_ok (mtn_json m allow).
Proof.
  intros [Hb Hs Hh] Hc. rewrite !Forall_cons in Hs. destruct Hs as (S1 & S2 & S3 & S4 & _).
  assert (json_ok (mtn_json m allow)) as Hok.
  { obj_ok; [apply json_ok_int|by apply strmap_json_ok]. }
  split; [|done]. unfold mtn_json. rewrite dec_struct_print by done. destruct c; cbn in Hc; subst.
  destruct m as [en bf ur lb id db hd]; cbn [s_Allocbuffer s_Enable s_Url s_Label s_Ident s_DbPath s_Headers] in *.
  do 7 (member_step; state_eval). eapply dec_member; [reflexivity|apply at_field_do; by apply dec_strmap_print|].
  reflexivity.
Qed.

Lemma logger_print name out c : str_ok out -> Level_String (c_LogLevel c) = Some name ->
  ∀ old, dec_struct (fields logger_fields) (print (JObj [("level", JStr name); ("output", JStr out)]%string)) old =
    Some (set_LogOutput out (set_LogLevel (c_LogLevel c) old)) /\
  json_ok (JObj [("level", JStr name); ("output", JStr out)]%string).
Proof.
  intros Ho Hl old. assert (json_ok (JObj [("level", JStr name); ("output", JStr out)]%string)) as Hok.
  { obj_ok. by apply (dec_level_print _ _ 0 Hl). }
  split; [|done]. rewrite dec_struct_print by done.
  eapply dec_member; [reflexivity|apply at_field_do; by apply dec_level_print|]. by member_step.
Qed.

Lemma metrics_print type secs args : str_ok type -> json_ok args -> 0 <= secs -> secs * Duration.Second <= maxInt64 ->
  let j := JObj [("type", JStr type); ("period", JStr (pretty secs +:+ "s")); ("args", args)]%string in
  ∀ old, dec_struct (fields metrics_fields) (print j) old =
    Some (set_MetricsArgs (print args) (set_MetricsPeriod (secs * Duration.Second) (set_MetricsType type old))) /\
  json_ok j.
Proof.
  intros Ht Ha H0 Hm j old. assert (json_ok j) as Hok.
  { obj_ok. by apply (dec_period_print secs 0 H0 Hm). }
  split; [|done]. subst j. rewrite dec_struct_print by done. member_step.
  eapply dec_member; [reflexivity|apply at_field_do; by apply dec_period_print|].
  eapply dec_member; [reflexivity|by apply at_field_do|]. done.
Qed.

Lemma isolate_print (m : gmap string BoxSection) :
  Forall (λ kv : string * BoxSection, str_ok kv.1 /\ section_ok kv.2) (map_to_list m) ->
  let j := JObj (map (λ kv : string * BoxSection, (kv.1, section_json kv.2)) (map_to_list m)) in
  dec_map (mkBoxSection "" ∅) (dec_struct (fields section_fields)) (print j) ∅ = Some m /\ json_ok j.
Proof.
  intros Hm j. assert (json_ok j) as Hok.
  { apply json_ok_obj, Forall_map. eapply Forall_impl; [exact Hm|]. intros [k b] [Hk Hb]. split; [done|].
    by apply section_print. }
  split; [|done]. subst j. rewrite dec_map_print by done.
  rewrite (fold_decode (λ j, dec_struct (fields section_fields) (print j) (mkBoxSection "" ∅)) section_json).
  - by rewrite fold_insert_all.
  - eapply Forall_impl; [exact Hm|]. intros [k b] [_ Hb]. by apply section_print.
Qed.

Lemma config_print c level secs args : conf_ok c level secs args ->
  dec_struct (fields config_fields) (print (config_json c level secs args)) zero_config = Some c /\
  json_ok (config_json c level secs args).
Proof.
  intros [Hv He Hs Hl (Hp & H0 & Hm) [Ha Hra] Hi Ht]. rewrite !Forall_cons in Hs. destruct Hs as (S1 & S2 & S3 & _).
  assert (json_ok (config_json c level secs args)) as Hok.
  { obj_ok; [apply json_ok_int|by apply json_ok_arr, Forall_map|by apply (logger_print _ _ _ S2 Hl c)
      |by apply (metrics_print _ _ _ S3 Ha H0 Hm c)|by apply isolate_print|by apply (mtn_print _ _ zero_config)]. }
  split; [|done]. unfold config_json. rewrite dec_struct_print by done. do 3 member_step.
  eapply dec_member; [reflexivity|by apply logger_print|].
  eapply dec_member; [reflexivity|by apply metrics_print|].
  eapply dec_member; [reflexivity|apply at_field_do; by apply isolate_print|].
  eapply dec_member; [reflexivity|by apply mtn_print|].
  destruct c; cbn in *. by subst.
Qed.

(** ** The older copy of the configuration

    pkg/config/config.go has the same [Config] without the [mtn] section. *)
Module pkg_config.
Definition JSONEncodedDuration_UnmarshalJSON (b : list byte) (d : Z) : option duration_error * Z :=
  match ParseDuration (bytes_str (Trim quote b)) with
  | Err err => (Some err, d)
  | Ok parsed => (None, parsed)
  end.
Definition dec_period : dec Z := λ raw old,
  match JSONEncodedDuration_UnmarshalJSON raw old with (None, d) => Some d | (Some _, _) => None end.

Definition metrics_fields : list (string * dec Config) :=
  [("type", at_field c_MetricsType set_MetricsType dec_string);
   ("period", at_field c_MetricsPeriod set_MetricsPeriod dec_period);
   ("args", at_field c_MetricsArgs set_MetricsArgs dec_raw)]%string.

Definition config_fields : list (string * dec Config) :=
  [("version", at_field c_Version set_Version dec_int);
   ("endpoints", at_field c_Endpoints set_Endpoints dec_strings);
   ("debugserver", at_field c_DebugServer set_DebugServer dec_string);
   ("logger", dec_struct (fields logger_fields));
   ("metrics", dec_struct (fields metrics_fields));
   ("isolate", at_field c_Isolate set_Isolate
      (dec_map (mkBoxSection "" ∅) (dec_struct (fields section_fields))))]%string.

Definition Validate (c : Config) : option invalid :=
  if decide (size (c_Isolate c) = 0%nat) then Some NoIsolate
  else if decide (length (c_Endpoints c) = 0%nat) then Some NoEndpoints
  else None.

Definition Parse (data : list byte) : result (parse_error unmarshal_error) Config :=
  match parse data with
  | None => Err (BadJson BadSyntax)
  | Some _ =>
      match dec_struct (fields config_fields) data zero_config with
      | None => Err (BadJson BadValue)
      | Some config => match Validate config with Some i => Err (Invalid i) | None => Ok config end
      end
  end.
End pkg_config.

(** The configuration without its [mtn] section. *)
Definition without_mtn (c : Config) : Config := set_AllowLocalState false (set_Mtn no_mtn c).

(** A decoder that does not look at the section, with its twin of the older copy, and
    decoders that touch nothing but the section. *)
Definition apart (d d' : dec Config) : Prop :=
  ∀ raw a b, d raw a = Some b -> d' raw (without_mtn a) = Some (without_mtn b).
Definition only_mtn (d : dec Config) : Prop := ∀ raw a b, d raw a = Some b -> without_mtn b = without_mtn a.

Lemma apart_at {B} (get : Config -> B) (set : B -> Config -> Config) (d d' : dec B) :
  (∀ raw b, d' raw b = d raw b) ->
  (∀ c, get (without_mtn c) = get c) -> (∀ b c, set b (without_mtn c) = without_mtn (set b c)) ->
  apart (at_field get set d) (at_field get set d').
Proof.
  intros Hd Hg Hs raw a b. unfold at_field. rewrite Hg, Hd. destruct (d raw (get a)); [|done]. cbn. intros [= <-].
  by rewrite Hs.
Qed.
Lemma only_mtn_at {B} (get : Config -> B) (set : B -> Config -> Config) d :
  (∀ b c, without_mtn (set b c) = without_mtn c) -> only_mtn (at_field get set d).
Proof. intros Hs raw a b. unfold at_field. destruct (d raw (get a)); [|done]. cbn. by intros [= <-]. Qed.

(** The two decoders of a period agree. *)
Lemma dec_period_same raw old : pkg_config.dec_period raw old = dec_period raw old.
Proof.
  unfold pkg_config.dec_period, dec_period, pkg_config.JSONEncodedDuration_UnmarshalJSON, JSONEncodedDuration_UnmarshalJSON.
  by destruct (ParseDuration _).
Qed.

Definition table : Type := string -> option (dec Config).
(** Member by member, [f] with the section and [g] without. *)
Definition tables_apart (f g : table) : Prop := ∀ k,
  match f k, g k with
  | Some d, Some d' => apart d d'
  | Some d, None => only_mtn d
  | None, None => True
  | None, Some _ => False
  end.

Lemma fold_none (h : table) (ms : list (string * list byte)) (b : Config) : fold_left (λ a kv, a ← a;
  match h (lower kv.1) with Some d => d kv.2 a | None => Some a end) ms None <> Some b.
Proof. induction ms; cbn; auto. Qed.

Lemma fold_apart f g : tables_apart f g -> ∀ (ms : list (string * list byte)) a b,
  fold_left (λ a kv, a ← a; match f (lower kv.1) with Some d => d kv.2 a | None => Some a end) ms (Some a) = Some b ->
  fold_left (λ a kv, a ← a; match g (lower kv.1) with Some d => d kv.2 a | None => Some a end) ms (Some (without_mtn a)) =
    Some (without_mtn b).
Proof.
  intros Hfg. induction ms as [|[k v] ms IH]; intros a b; cbn; [by intros [= <-]|].
  specialize (Hfg (lower k)). destruct (f (lower k)) as [d|], (g (lower k)) as [d'|]; [| |done|apply IH].
  - destruct (d v a) as [a'|] eqn:E; [|by intros ?%fold_none]. intros H%IH. by rewrite (Hfg _ _ _ E).
  - destruct (d v a) as [a'|] eqn:E; [|by intros ?%fold_none]. intros H%IH. by rewrite <- (Hfg _ _ _ E).
Qed.

Lemma struct_apart f g : tables_apart f g -> apart (dec_struct f) (dec_struct g).
Proof.
  intros H raw a b. unfold dec_struct. destruct (parse raw) as [[]|]; try done; [by intros [= <-]|].
  destruct (raw_object raw); [|done]. by apply fold_apart.
Qed.
Lemma struct_only_mtn f : tables_apart f (λ _, None) -> only_mtn (dec_struct f).
Proof.
  intros H raw a b E. apply (struct_apart _ _ H) in E. revert E.
  unfold dec_struct. destruct (parse raw) as [[]|]; try done; [by intros ->%(inj Some)|].
  destruct (raw_object raw) as [ms|]; [|done]. cbn. clear. revert a.
  induction ms as [|m ms IH]; intros a; cbn; [by intros ->%(inj Some)|]. apply IH.
Qed.

(** Tables are compared key by key. *)
Ltac tables := intros k; unfold fields; cbn; repeat (case_decide; cbn; [|]); try exact I.

Lemma logger_apart : tables_apart (fields logger_fields) (fields logger_fields).
Proof. tables; by apply apart_at. Qed.
Lemma metrics_apart : tables_apart (fields metrics_fields) (fields pkg_config.metrics_fields).
Proof. tables; apply apart_at; try done. apply dec_period_same. Qed.
Lemma mtn_apart : tables_apart (fields mtn_fields) (λ _, None).
Proof. tables; by apply only_mtn_at. Qed.

Lemma config_apart : tables_apart (fields config_fields) (fields pkg_config.config_fields).
Proof.
  tables; first [by apply apart_at|apply struct_apart, logger_apart|apply struct_apart, metrics_apart
    |apply struct_only_mtn, mtn_apart].
Qed.

Definition map_ok {E A B} (f : A -> B) (r : result E A) : result E B :=
  match r with Ok a => Ok (f a) | Err e => Err e end.

(** ** The section of the Graphite exporter *)

Definition graphite_fields : list (string * dec (string * string * string)) :=
  [("prefix", at_field (λ c, c.1.1) (λ s c, (s, c.1.2, c.2)) dec_string);
   ("addr", at_field (λ c, c.1.2) (λ s c, (c.1.1, s, c.2)) dec_string);
   ("duration", at_field snd (λ s c, (c.1, s)) dec_string)]%string.

(** [json.Unmarshal(configuration.Metrics.Args, &cfg)]: [Prefix], [Addr], [DurationUnit]. *)
Definition unmarshal_graphite (data : list byte) : result unmarshal_error (string * string * string) :=
  match parse data with
  | None => Err BadSyntax
  | Some _ =>
      match dec_struct (fields graphite_fields) data ("", "", "")%string with
      | Some c => Ok c
      | None => Err BadValue
      end
  end.

(** ** Properties *)


Definition sample_conf : Config :=
  mkConf 2 ["[::]:29042"]%string "127.0.0.1:9000" DebugLevel "/dev/stderr" "graphite" (10 * Second)
    (print (JObj [("addr", JStr ":42000")]%string))
    {["porto" := mkBoxSection "porto" {["layers" := JStr "/var/tmp/layers"]}]}%string
    (Build_MtnSection true 4 "http://mtn/" "cocaine" "host" "/run/mtn.db" {["Host" := "mtn"]}%string) true.


(** The two copies of the configuration agree: on every text, [Parse] of pkg/config
    returns what [Parse] of isolate returns, the same error or the same configuration less
    its [mtn] section, unless isolate rejects a value (which may be one of that section,
    unknown to the older copy). *)
Lemma older_copy_agrees data : parse_config data <> Err (BadJson BadValue) ->
  pkg_config.Parse data = map_ok without_mtn (parse_config data).
Proof.
  unfold parse_config, Parse, unmarshal_config, pkg_config.Parse. destruct (parse data); [|done].
  destruct (dec_struct (fields config_fields) data zero_config) as [c|] eqn:E; [|done]. intros _.
  rewrite (struct_apart _ _ config_apart _ _ _ E : _ data zero_config = _).
  change (pkg_config.Validate (without_mtn c)) with (Validate c). by destruct (Validate c).
Qed.

Example older_copy_default :
  pkg_config.Parse stout_default_conf = map_ok without_mtn (parse_config stout_default_conf).
Proof.
  apply older_copy_agrees. intros E.
  assert (match parse_config stout_default_conf with Ok _ => true | Err _ => false end = true) as H by (vm_compute; reflexivity).
  by rewrite E in H.
Qed.
