(* ===== verification/DockerEvents.v ===== *)
(** * The events of the Docker daemon

    The inner loop of [watchEvents] (isolate/docker/box.go) on the bytes of the stream of
    events: every JSON document is decoded into the same variable, and a die event removes
    its container. *)

From Stdlib Require Import ZArith Lia Ascii String Strings.Byte.
From stdpp Require Import pretty.
From S2P Require Import Prelude Json Duration MtnStore Mtn Config ConfigJson Docker.

Record eventResponse := mkEvent { ev_Status : string; ev_ID : string; ev_Time : Z }.
Definition no_event : eventResponse := mkEvent "" "" 0.

Definition event_fields : list (string * dec eventResponse) :=
  [("status", at_field ev_Status (λ x e, mkEvent x (ev_ID e) (ev_Time e)) dec_string);
   ("id", at_field ev_ID (λ x e, mkEvent (ev_Status e) x (ev_Time e)) dec_string);
   ("time", at_field ev_Time (λ x e, mkEvent (ev_Status e) (ev_ID e) x) dec_int)]%string.

(** One member: one of the wrong type is an error, and the next ones are stored still. *)
Definition event_member (fe : bool * eventResponse) (kv : string * list byte) : bool * eventResponse :=
  match fields event_fields (lower kv.1) with
  | Some d => match d kv.2 fe.2 with Some e => (fe.1, e) | None => (true, fe.2) end
  | None => fe
  end.
(** [Decode(&eventResponse)] of one document: whether it fails, and the variable. *)
Definition event_into (raw : list byte) (e : eventResponse) : bool * eventResponse :=
  match parse raw, raw_object raw with
  | Some JNull, _ => (false, e)
  | Some (JObj _), Some ms =>
      fold_left event_member ms (false, e)
  | _, _ => (true, e)
  end.

Definition dieEvent : string := "die".

(** What the loop does with a decoded event. *)
Definition on_event (e : eventResponse) (b : dbox) : dbox :=
  if decide (ev_Status e = dieEvent) then die (ev_ID e) (ev_Time e) b
  else mkDbox (d_removed b) (d_containers b) (d_removals b) (d_kills b) (d_sleep b) (ev_Time e).

(** The loop: it ends at the end of the stream and at what it cannot decode. *)
Fixpoint listen (fuel : nat) (data : list byte) (e : eventResponse) (b : dbox) : eventResponse * dbox :=
  match fuel with
  | O => (e, b)
  | S fuel =>
      match raw_value data with
      | None => (e, b)
      | Some (raw, data) =>
          match event_into raw e with
          | (true, e) => (e, b)
          | (false, e) => listen fuel data e (on_event e b)
          end
      end
  end.
(** Every document has a byte. *)
Definition watch (data : list byte) (e : eventResponse) (b : dbox) : eventResponse * dbox :=
  listen (S (length data)) data e b.

(** ** Facts *)

(** The loop is the events of the box (Docker.v) in order. *)
Lemma on_event_exec e b :
  dexec (if decide (ev_Status e = dieEvent) then DDie (ev_ID e) (ev_Time e) else DOther (ev_Time e)) b = Some (on_event e b).
Proof. unfold on_event. by case_decide. Qed.

Lemma listen_reach now fuel data e b : dreach now b -> dreach now (listen fuel data e b).2.
Proof.
  revert data e b. induction fuel as [|fuel IH]; intros data e b Hb; cbn [listen]; [done|].
  destruct (raw_value data) as [[raw rest]|]; [|done]. destruct (event_into raw e) as [[] e']; [done|].
  apply IH. eapply dreach_exec; [exact Hb|apply on_event_exec].
Qed.

Definition event_json (e : eventResponse) : json :=
  JObj [("status", JStr (ev_Status e)); ("id", JStr (ev_ID e)); ("time", JNum (pretty (ev_Time e)))]%string.
Definition event_ok (e : eventResponse) : Prop := str_ok (ev_Status e) /\ str_ok (ev_ID e) /\ int64_ok (ev_Time e).
Definition event_line (e : eventResponse) : list byte := print (event_json e) ++ [x0a].

Lemma event_json_ok e : event_ok e -> json_ok (event_json e).
Proof. intros (Hs & Hi & Ht). obj_ok. apply json_ok_int. Qed.

Lemma event_member_ok k raw o o' d : fields event_fields (lower k) = Some d -> d raw o = Some o' ->
  event_member (false, o) (k, raw) = (false, o').
Proof. intros E1 E2. unfold event_member. cbn [fst snd]. by rewrite E1, E2. Qed.

(** A document with all three members replaces the variable. *)
Lemma event_into_print e old : event_ok e -> event_into (print (event_json e)) old = (false, e).
Proof.
  intros He. pose proof (event_json_ok e He) as Hok. unfold event_into. rewrite parse_print_id by done.
  change (event_json e) with (JObj [("status", JStr (ev_Status e)); ("id", JStr (ev_ID e)); ("time", JNum (pretty (ev_Time e)))]%string) in *.
  rewrite raw_object_print by done. destruct He as (Hs & Hi & Ht).
  cbn [map fst snd fold_left].
  do 3 (erewrite event_member_ok; [|reflexivity|apply at_field_do; eauto with decoding]). by destruct e.
Qed.


Lemma raw_value_event e k : event_ok e -> stops k = true -> raw_value (print (event_json e) ++ k) = Some (print (event_json e), k).
Proof. intros He Hk. apply raw_value_print; [by apply event_json_ok|done]. Qed.

(** White space in front of a document is skipped. *)
Lemma raw_value_newline l : raw_value (x0a :: l) = raw_value l.
Proof. done. Qed.

Lemma listen_events es rest fuel old b : Forall event_ok es -> (length es <= fuel)%nat ->
  listen fuel (concat (map event_line es) ++ rest) old b =
  listen (fuel - length es) rest (List.last es old) (fold_left (λ b e, on_event e b) es b).
Proof.
  intros Hes. revert fuel old b. induction Hes as [|e es He _ IH]; intros fuel old b Hf.
  { cbn. by rewrite Nat.sub_0_r. }
  destruct fuel as [|fuel]; [cbn in Hf; lia|]. cbn [map concat listen length fold_left]. unfold event_line at 1.
  rewrite <- !app_assoc. cbn [app]. rewrite raw_value_event by done. rewrite event_into_print by done.
  assert (∀ f l o d, listen f (x0a :: l) o d = listen f l o d) as Hnl.
  { intros f l o d. destruct f; [done|]. cbn [listen]. by rewrite raw_value_newline. }
  rewrite Hnl, IH by (cbn in Hf; lia). cbn [Nat.sub]. f_equal. clear. revert e. induction es as [|e' es IH]; intros e; [done|].
  destruct es; [done|]. cbn in *. apply IH.
Qed.

(** Events only take containers out of the map, and no flag is forgotten. *)
Lemma on_event_removed e b i : is_Some (d_removed b !! i) -> is_Some (d_removed (on_event e b) !! i).
Proof.
  intros Hi. unfold on_event, die. case_decide; [|done]. case_match; [|done]. rewrite remove_removed. cbn.
  destruct (decide (i = ev_ID e)) as [->|]; [|done]. by destruct Hi as [x ->].
Qed.
Lemma on_event_containers e b i : i ∈ d_containers (on_event e b) ->
  i ∈ d_containers b /\ (ev_Status e = dieEvent -> i <> ev_ID e).
Proof.
  unfold on_event, die. case_decide as Hs; [|by intros Hi]. case_match.
  - rewrite (proj1 (remove_same _ _)). cbn. set_solver.
  - cbn. set_solver.
Qed.
Lemma events_containers es b i : i ∈ d_containers (fold_left (λ b e, on_event e b) es b) ->
  i ∈ d_containers b /\ Forall (λ e, ev_Status e = dieEvent -> i <> ev_ID e) es.
Proof.
  revert b. induction es as [|e es IH]; intros b; cbn; [by intros Hi|]. intros [[Hi He]%on_event_containers Hes]%IH. auto.
Qed.
Lemma events_removed es b i : is_Some (d_removed b !! i) -> is_Some (d_removed (fold_left (λ b e, on_event e b) es b) !! i).
Proof. revert b. induction es as [|e es IH]; intros b Hi; cbn; [done|]. by apply IH, on_event_removed. Qed.

Lemma event_lines_length es : (length es <= length (concat (map event_line es)))%nat.
Proof. induction es as [|e es IH]; cbn; [lia|]. rewrite length_app. cbn. lia. Qed.

Lemma watch_all es old b : Forall event_ok es ->
  watch (concat (map event_line es)) old b = (List.last es old, fold_left (λ b e, on_event e b) es b).
Proof.
  intros Hes. unfold watch. rewrite <- (app_nil_r (concat (map event_line es))) at 2. pose proof (event_lines_length es).
  rewrite listen_events by (done || lia). by destruct (S _ - length es)%nat.
Qed.

(** ** Properties *)


Definition demo_events : list eventResponse := [mkEvent "die" "c1" 7; mkEvent "start" "c2" 8; mkEvent "die" "c1" 9]%string.
Definition demo_dbox : dbox := default (newDbox 0) (dexec (DSpawned "c1") (newDbox 0)).


(** The variable is not reset between events: an event without an id is taken for one of
    the container before it. *)
Lemma stale_event_id :
  d_removals (watch (event_line (mkEvent "die" "c1" 7) ++
    print (JObj [("status", JStr "die"); ("time", JNum "8")]%string)) no_event demo_dbox).2 = [ByProcess "c1"; ByListener "c1"]%string.
Proof. vm_compute. reflexivity. Qed.
