(* ===== verification/DockerPull.v ===== *)
(** * The reply to an image pull

    [decodePullLine] (isolate/docker/box.go) on bytes: the documents of a line are decoded
    one after the other into the same variable.  This instantiates the decoder that
    Docker.v takes as a parameter, so that [decodeImagePull] and [Spool] run on the bytes
    that the Docker daemon sends. *)

From Stdlib Require Import ZArith Lia Ascii String Strings.Byte.
From S2P Require Import Prelude Json MtnStore Number GoPath DockerProfile Docker.

Definition no_resp : spoolResponseProtocol := mkResp "" "".

(** A string field: [null] leaves it. *)
Definition resp_string (v : json) (old : string) : option string :=
  match v with JStr s => Some s | JNull => Some old | _ => None end.

(** One member, the key matched up to ASCII case; other members are ignored. *)
Definition resp_member (r : spoolResponseProtocol) (kv : string * json) : option spoolResponseProtocol :=
  if decide (lower kv.1 = "error"%string) then s ← resp_string kv.2 (Error r); Some (mkResp s (Status r))
  else if decide (lower kv.1 = "status"%string) then s ← resp_string kv.2 (Status r); Some (mkResp (Error r) s)
  else Some r.

(** [decoder.Decode(&resp)] of one document; [None]: a type error. *)
Definition decode_resp (j : json) (r : spoolResponseProtocol) : option spoolResponseProtocol :=
  match j with
  | JNull => Some r
  | JObj fs => fold_left (λ r kv, r ← r; resp_member r kv) fs (Some r)
  | _ => None
  end.

(** What the decoder reads off a line: every document has a byte, so the fuel is the
    length of the line and one. *)
Fixpoint docs_loop (fuel : nat) (l : list byte) (r : spoolResponseProtocol) : list spoolResponseProtocol * bool :=
  match fuel with
  | O => ([], false)
  | S fuel =>
      match skip_ws l with
      | [] => ([], true)                                         (* io.EOF *)
      | l =>
          match parse_value (S (2 * length l)) l with
          | None => ([], false)
          | Some (v, rest) =>
              match decode_resp v r with
              | None => ([], false)
              | Some r => let '(docs, eof) := docs_loop fuel rest r in (r :: docs, eof)
              end
          end
      end
  end.
Definition pull_docs (line : list byte) : list spoolResponseProtocol * bool :=
  docs_loop (S (length line)) line no_resp.

Definition pull_image (clean : bool) (reply : list byte) : option pull_error :=
  decodeImagePull pull_docs clean reply.
Definition spool_image := Spool pull_docs.

(** The replies of the tests of the package (docker/box_test.go). *)
Example pull_fixtures :
  let ok := str_bytes "{`Status`: `OK`}" in
  let quote := map (λ b, if decide (b = x60) then x22 else b) in
  map (λ r, pull_image true (quote (r ok (str_bytes "{`Error`: `blabla`}"))))
    [(λ ok _, ok ++ [x0a]); (λ ok _, ok ++ [x0a] ++ ok ++ [x0a]); (λ ok _, ok ++ [x0a] ++ ok);
     (λ ok err, ok ++ [x0a] ++ ok ++ err); (λ ok _, ok ++ ok); (λ ok err, ok ++ ok ++ err);
     (λ ok _, ok ++ [x0a] ++ ok ++ ok)] =
  [None; None; None; Some (PullError "blabla"); None; Some (PullError "blabla"); None].
Proof. vm_compute. reflexivity. Qed.

(** A reply that breaks off inside a document is an error. *)
Example pull_truncated : pull_image true (str_bytes "{") = Some PullJSON.
Proof. vm_compute. reflexivity. Qed.

(** More fuel than the line has bytes changes nothing. *)
Lemma docs_loop_fuel f1 f2 l r : (length l < f1)%nat -> (length l < f2)%nat -> docs_loop f1 l r = docs_loop f2 l r.
Proof.
  revert f2 l r. induction f1 as [|f1 IH]; intros [|f2] l r H1 H2; [lia..|]. cbn [docs_loop].
  pose proof (skip_ws_len l) as Hl. destruct (skip_ws l) as [|b k]; [done|].
  destruct (parse_value _ (b :: k)) as [[v rest]|] eqn:E; [|done].
  apply (proj1 (parse_shrinks _)) in E. destruct (decode_resp v r); [|done]. by rewrite (IH f2) by lia.
Qed.

(** ** Printed documents fit on a line *)

Definition no_newline (l : list byte) : Prop := x0a ∉ l.

Lemma no_newline_app l k : no_newline (l ++ k) <-> no_newline l /\ no_newline k.
Proof. unfold no_newline. rewrite elem_of_app. tauto. Qed.
Lemma no_newline_bool p l : p x0a = false -> forallb p l = true -> no_newline l.
Proof. intros Hp Hl Hin. rewrite forallb_forall in Hl. apply list_elem_of_In, Hl in Hin. congruence. Qed.

Lemma print_ascii_line a : no_newline (print_ascii a).
Proof. apply (no_newline_bool (λ b, negb (bool_decide (b = x0a)))); [done|]. by destruct a. Qed.
Lemma high_line l : Forall (λ b, 128 <= b2z b) l -> no_newline l.
Proof. intros Hl Hin. rewrite Forall_forall in Hl. apply Hl in Hin. by vm_compute in Hin. Qed.
Lemma print_3_line a b c : no_newline [a; b; c] -> no_newline (print_3 a b c).
Proof.
  intros H. unfold print_3. repeat (case_match; try exact H);
  (apply (no_newline_bool (λ b, negb (bool_decide (b = x0a)))); reflexivity).
Qed.

Lemma utf8_high : (∀ a b, utf8_2 a b = true -> no_newline [a; b]) /\
  (∀ a b c, utf8_3 a b c = true -> no_newline [a; b; c]) /\
  (∀ a b c d, utf8_4 a b c d = true -> no_newline [a; b; c; d]).
Proof.
  split_and!; intros *; unfold utf8_2, utf8_3, utf8_4, cont;
    rewrite ?andb_true_iff, ?orb_true_iff, ?andb_true_iff, !between_bounds;
    intros H; apply high_line; rewrite !Forall_cons, Forall_nil; lia.
Qed.

Lemma print_str_line s : utf8 s -> no_newline (print_str 0 s).
Proof.
  destruct utf8_high as (H2 & H3 & H4).
  induction 1 as [|a l Ha _ IH|a b l H _ IH|a b c l H _ IH|a b c d l H _ IH]; [by intros ?%elem_of_nil|..].
  - cbn [print_str]. rewrite Ha. apply no_newline_app. split; [apply print_ascii_line|done].
  - pose proof (utf8_2_lead a b H). rewrite print_str_lead by lia. unfold print_multi. cbn [multibyte].
    rewrite H. cbn [fst snd print_str]. apply no_newline_app. auto.
  - pose proof (utf8_3_lead a b c H). rewrite print_str_lead by lia. unfold print_multi. cbn [multibyte].
    rewrite not_utf8_2, H by lia. cbn [fst snd print_str]. apply no_newline_app. auto using print_3_line.
  - pose proof (utf8_4_lead a b c d H). rewrite print_str_lead by lia. unfold print_multi. cbn [multibyte].
    rewrite not_utf8_2, not_utf8_3, H by lia. cbn [fst snd print_str]. apply no_newline_app. auto.
Qed.
Lemma quoted_line s : utf8 (str_bytes s) -> no_newline (quoted s).
Proof.
  intros H%print_str_line. unfold quoted. rewrite !no_newline_app. split_and!; [|done|];
    by intros [=]%list_elem_of_singleton.
Qed.

(** The characters of a number. *)
Definition num_char (b : byte) : bool := digit b || is_byte x2e b || is_exp b || is_sign b.

Lemma digits_chars l : forallb num_char (digits l).1 = true.
Proof.
  induction l as [|b l IH]; [done|]. cbn [digits]. destruct (digit b) eqn:E; [|done].
  destruct (digits l) as [ds r]. cbn [fst forallb] in *. rewrite IH. unfold num_char. by rewrite E.
Qed.
Lemma digits1_chars l ds r : digits1 l = Some (ds, r) -> forallb num_char ds = true.
Proof.
  unfold digits1. pose proof (digits_chars l) as H. destruct (digits l) as [[] r']; [done|]. by intros [= <- <-].
Qed.
Lemma opt_char_chars p l : (∀ b, p b = true -> num_char b = true) -> forallb num_char (opt_char p l).1 = true.
Proof. intros Hp. destruct l as [|b l]; [done|]. cbn. destruct (p b) eqn:E; [|done]. cbn. by rewrite Hp. Qed.


(** What a scanner takes off. *)
Definition num_chars (o : option (list byte * list byte)) : Prop := ∀ x r, o = Some (x, r) -> forallb num_char x = true.

Lemma num_chars_bind o f : num_chars o -> (∀ x r, forallb num_char x = true -> num_chars (f (x, r))) -> num_chars (o ≫= f).
Proof. intros Ho Hf x r. destruct o as [[y k]|] eqn:E; [|done]. cbn. apply Hf. by eapply Ho. Qed.
Lemma num_chars_some x r : forallb num_char x = true -> num_chars (Some (x, r)).
Proof. by intros H y k [= <- <-]. Qed.

Lemma scan_num_chars l : num_chars (scan_num l).
Proof.
  assert (∀ l, num_chars (digits1 l)) as Hd by (intros k; exact (digits1_chars k)).
  assert (∀ l, num_chars (scan_int l)) as Hi.
  { intros k. unfold scan_int. pose proof (opt_char_chars (is_byte x30) k ltac:(by intros [])) as H.
    destruct (opt_char (is_byte x30) k) as [[] r]; [apply Hd|by apply num_chars_some]. }
  assert (∀ l, num_chars (scan_frac l)) as Hf.
  { intros k. unfold scan_frac. pose proof (opt_char_chars (is_byte x2e) k ltac:(by intros [])) as H.
    destruct (opt_char (is_byte x2e) k) as [[] r]; [by apply num_chars_some|]. apply num_chars_bind; [apply Hd|].
    intros x r' Hx. apply num_chars_some. rewrite forallb_app, andb_true_iff. auto. }
  assert (∀ l, num_chars (scan_exp l)) as He.
  { intros k. unfold scan_exp. pose proof (opt_char_chars is_exp k ltac:(by intros [])) as H.
    destruct (opt_char is_exp k) as [[] r]; [by apply num_chars_some|].
    pose proof (opt_char_chars is_sign r ltac:(by intros [])) as H'. destruct (opt_char is_sign r) as [sign r1].
    apply num_chars_bind; [apply Hd|]. intros x r' Hx. apply num_chars_some. rewrite !forallb_app, !andb_true_iff. auto. }
  unfold scan_num. pose proof (opt_char_chars (is_byte x2d) l ltac:(by intros [])) as Hm.
  destruct (opt_char (is_byte x2d) l) as [minus l1].
  apply num_chars_bind; [apply Hi|]. intros x r Hx. apply num_chars_bind; [apply Hf|]. intros y r1 Hy.
  apply num_chars_bind; [apply He|]. intros z r2 Hz. apply num_chars_some. rewrite !forallb_app, !andb_true_iff. auto.
Qed.

Lemma join_line ls : Forall no_newline ls -> no_newline (join ls).
Proof.
  induction 1 as [|x ls Hx _ IH]; [by intros ?%elem_of_nil|]. destruct ls as [|y ls]; [done|].
  rewrite join_cons, !no_newline_app. split_and!; [done| |done]. by intros [=]%list_elem_of_singleton.
Qed.

Ltac on_line :=
  rewrite ?no_newline_app; repeat match goal with |- _ /\ _ => split end;
  try (by apply (no_newline_bool (λ b, negb (bool_decide (b = x0a))))).


(** The text of a document has no newline. *)
Lemma print_line j : json_ok j -> no_newline (print j).
Proof.
  induction j as [|b|n|s|l Hl|fs Hl] using json_induction; intros Hok; cbn [print].
  - on_line.
  - destruct b; on_line.
  - eapply no_newline_bool, scan_num_chars; [|exact Hok]. done.
  - by apply quoted_line.
  - on_line. apply join_line, Forall_map. cbn [json_ok] in Hok. induction Hl; [constructor|]. cbn in Hok. naive_solver.
  - on_line. apply join_line, Forall_map. cbn [json_ok] in Hok.
    induction Hl as [|kv fs Hkv _ IH]; [constructor|]. cbn [fold_right] in Hok. destruct Hok as [[Hk Hv] Hfs].
    constructor; [|auto]. change (no_newline (quoted kv.1 ++ [x3a] ++ print kv.2)). on_line; [by apply quoted_line|auto].
Qed.

(** ** The documents of a line *)

(** White space between documents, on the same line. *)
Definition blank (b : byte) : bool := is_byte x20 b || is_byte x09 b || is_byte x0d b.

(** A document and the white space after it. *)
Definition item : Type := json * list byte.
Definition item_text (d : item) : list byte := print d.1 ++ d.2.
Definition line_text (ds : list item) : list byte := concat (map item_text ds).
Definition reply_text (lines : list (list item)) : list byte := concat (map (λ ds, line_text ds ++ [x0a]) lines).

(** A document of the reply: it has the types that the code expects. *)
Definition item_ok (d : item) : Prop :=
  json_ok d.1 /\ is_Some (decode_resp d.1 no_resp) /\ forallb blank d.2 = true.

(** The error that a document reports, read into a variable of its own. *)
Definition doc_error (j : json) : string :=
  match decode_resp j no_resp with Some r => Error r | None => ""%string end.
(** The reference: the first error of the documents, however they are spread over lines. *)
Definition reply_error (ds : list item) : option string :=
  head (filter (.≠ ""%string) (map (λ d, doc_error d.1) ds)).

Lemma item_line d : item_ok d -> no_newline (item_text d).
Proof.
  intros (Hj & _ & Hb). unfold item_text. rewrite no_newline_app. split; [by apply print_line|].
  by apply (no_newline_bool blank).
Qed.
Lemma line_text_line ds : Forall item_ok ds -> no_newline (line_text ds).
Proof.
  induction 1 as [|d ds Hd _ IH]; [by intros ?%elem_of_nil|]. cbn. apply no_newline_app. auto using item_line.
Qed.

(** What an earlier document stored as its status does not change the error. *)
Lemma resp_member_error r r' kv : Error r = Error r' -> Error <$> resp_member r kv = Error <$> resp_member r' kv.
Proof.
  intros E. unfold resp_member. rewrite E. repeat case_decide; [by destruct (resp_string _ _)| |by cbn; rewrite E].
  destruct kv.2; cbn; by rewrite ?E.
Qed.
Lemma decode_resp_error j r r' : Error r = Error r' -> Error <$> decode_resp j r = Error <$> decode_resp j r'.
Proof.
  intros E. destruct j as [| | | | |fs]; cbn; [by rewrite E|done..|].
  assert (∀ o o' : option spoolResponseProtocol, Error <$> o = Error <$> o' ->
    Error <$> fold_left (λ r kv, r ← r; resp_member r kv) fs o = Error <$> fold_left (λ r kv, r ← r; resp_member r kv) fs o') as H.
  { induction fs as [|kv fs IH]; intros o o' Ho; cbn; [done|]. apply IH.
    destruct o, o'; cbn in *; try done. apply resp_member_error. congruence. }
  apply H. cbn. by rewrite E.
Qed.

Lemma skip_blank ws l : forallb blank ws = true -> skip_ws (ws ++ l) = skip_ws l.
Proof.
  induction ws as [|b ws IH]; [done|]. cbn [forallb app skip_ws]. intros [Hb Hws]%andb_true_iff.
  unfold is_space. unfold blank in Hb. rewrite Hb. by apply IH.
Qed.
Lemma docs_loop_blank ws fuel l r : forallb blank ws = true -> docs_loop fuel (ws ++ l) r = docs_loop fuel l r.
Proof. intros H. destruct fuel; [done|]. cbn [docs_loop]. by rewrite skip_blank. Qed.

(** Documents end before the next one. *)
Lemma items_stop ds : Forall item_ok ds -> stops (line_text ds) = true.
Proof.
  intros [|d ds' (_ & Hd & _) _]; [done|]. destruct d as [[] ws]; try (by destruct Hd as [? [=]]); done.
Qed.
Lemma blank_stop ws l : forallb blank ws = true -> stops l = true -> stops (ws ++ l) = true.
Proof. destruct ws as [|b ws]; [done|]. cbn [forallb app]. intros [Hb _]%andb_true_iff _. by destruct b. Qed.

(** ** The verdict *)

(** The errors that the decoder leaves in its variable are those of the documents read
    apart, up to the first that is not empty. *)
Lemma docs_loop_items ds fuel r : Forall item_ok ds -> Error r = ""%string -> (length ds < fuel)%nat ->
  let '(docs, eof) := docs_loop fuel (line_text ds) r in
  first_error docs = reply_error ds /\ (reply_error ds = None -> eof = true).
Proof.
  intros Hds. revert fuel r. induction Hds as [|d ds Hd Hds IH]; intros fuel r Hr Hf;
    (destruct fuel as [|fuel]; [cbn in Hf; lia|]); [done|].
  pose proof Hd as (Hj & [r' Hr'] & Hb). change (line_text (d :: ds)) with ((print d.1 ++ d.2) ++ line_text ds).
  rewrite <- app_assoc. cbn [docs_loop].
  destruct (print_head d.1 Hj) as (b & k & E & Hsp & _).
  assert (skip_ws (print d.1 ++ d.2 ++ line_text ds) = print d.1 ++ d.2 ++ line_text ds) as Hs.
  { rewrite E. cbn [app]. by apply skip_ws_other. }
  rewrite Hs. destruct (print d.1 ++ _) eqn:Ep; [by rewrite E in Ep|]. rewrite <- Ep.
  rewrite parse_print_value; [|done|by apply blank_stop, items_stop|lia].
  pose proof (decode_resp_error d.1 r no_resp Hr) as He. rewrite Hr' in He. cbn in He.
  destruct (decode_resp d.1 r) as [r1|]; [|done]. injection He as He. rewrite docs_loop_blank by done.
  assert (doc_error d.1 = Error r1) as Hde by (unfold doc_error; by rewrite Hr', He).
  unfold reply_error. cbn [map]. rewrite filter_cons, Hde. specialize (IH fuel r1).
  destruct (docs_loop fuel (line_text ds) r1) as [docs eof]. cbn [first_error].
  destruct (decide (Error r1 = ""%string)) as [H0|H0].
  - rewrite !decide_False by auto. apply IH; [done|cbn in Hf; lia].
  - rewrite !decide_True by auto. done.
Qed.

Lemma line_text_length ds : Forall item_ok ds -> (length ds <= length (line_text ds))%nat.
Proof.
  induction 1 as [|d ds (Hj & _) _ IH]; [done|]. change (line_text (d :: ds)) with ((print d.1 ++ d.2) ++ line_text ds).
  destruct (print_head d.1 Hj) as (b & k & -> & _). rewrite !length_app. cbn. lia.
Qed.

Lemma decodePullLine_items ds : Forall item_ok ds ->
  decodePullLine pull_docs (line_text ds) = PullError <$> reply_error ds.
Proof.
  intros Hds. unfold decodePullLine, pull_docs. pose proof (line_text_length ds Hds) as Hl.
  pose proof (docs_loop_items ds (S (length (line_text ds))) no_resp Hds eq_refl ltac:(lia)) as H.
  destruct (docs_loop _ _ _) as [docs eof]. destruct H as [-> He].
  destruct (reply_error ds); [done|]. by rewrite He.
Qed.

Lemma complete_lines_cons l rest : no_newline l ->
  complete_lines (l ++ x0a :: rest) = (l :: (complete_lines rest).1, (complete_lines rest).2).
Proof.
  unfold no_newline. induction l as [|b l IH]; cbn [app complete_lines].
  - intros _. by destruct (complete_lines rest).
  - rewrite not_elem_of_cons. intros [Hb Hl]. by rewrite IH, decide_False by auto.
Qed.
Lemma complete_lines_last l : no_newline l -> complete_lines l = ([], l).
Proof.
  unfold no_newline. induction l as [|b l IH]; [done|]. rewrite not_elem_of_cons. intros [Hb Hl]. cbn.
  by rewrite IH, decide_False by auto.
Qed.

Lemma reply_error_app ds ds' :
  reply_error (ds ++ ds') = match reply_error ds with Some e => Some e | None => reply_error ds' end.
Proof.
  unfold reply_error. induction ds as [|d ds IH]; [done|]. cbn [app map]. rewrite !filter_cons.
  case_decide; [done|exact IH].
Qed.

Lemma pull_verdict_cons docs clean l rest : no_newline l ->
  pull_verdict docs clean (l ++ x0a :: rest) =
  match decodePullLine docs l with Some e => Some e | None => pull_verdict docs clean rest end.
Proof.
  intros Hl. unfold pull_verdict. rewrite complete_lines_cons by done. cbn [first_bad].
  destruct (decodePullLine docs l); [done|]. by destruct (complete_lines rest).
Qed.

Lemma pull_lines lines rest clean : Forall (Forall item_ok) lines ->
  pull_image clean (reply_text lines ++ rest) =
  match reply_error (concat lines) with Some e => Some (PullError e) | None => pull_image clean rest end.
Proof.
  unfold pull_image. rewrite !decodeImagePull_spec. induction 1 as [|ds lines Hds Hl IH]; [done|].
  cbn [concat]. rewrite reply_error_app.
  change (reply_text (ds :: lines)) with ((line_text ds ++ [x0a]) ++ reply_text lines).
  rewrite <- !app_assoc. cbn [app]. rewrite pull_verdict_cons by (by apply line_text_line).
  rewrite decodePullLine_items by done. destruct (reply_error ds); [done|exact IH].
Qed.
Lemma pull_last ds : Forall item_ok ds -> pull_image true (line_text ds) = PullError <$> reply_error ds.
Proof.
  intros Hds. unfold pull_image. rewrite decodeImagePull_spec. unfold pull_verdict.
  rewrite complete_lines_last by (by apply line_text_line). cbn [first_bad]. rewrite <- decodePullLine_items by done.
  by destruct (line_text ds).
Qed.

(** C29: Spooling an image fails with the first error that a document of the reply of the
    Docker daemon reports, whatever lines the documents are spread over, whatever other
    members they have and whatever follows the line with the error, a broken connection
    included; it succeeds when the whole reply is documents without an error, the last
    line with or without its newline.  What one document leaves in the variable that all
    are decoded into never counts for another. *)
Theorem spool_reports_error auth (pull : string -> option string -> option (bool * list byte)) p name
    (lines : list (list item)) (tail : list item) :
  Registry p <> ""%string -> Forall (Forall item_ok) lines -> Forall item_ok tail ->
  let reply r := pull (Join [Registry p; Repository p; name]) (auth !! Registry p) = Some r in
  (∀ clean rest e, reply_error (concat lines) = Some e -> reply (clean, reply_text lines ++ rest) ->
     spool_image auth pull p name = Some (SpoolReply (PullError e))) /\
  (reply (true, reply_text lines ++ line_text tail) ->
     spool_image auth pull p name = (λ e, SpoolReply (PullError e)) <$> reply_error (concat lines ++ tail)).
Proof.
  intros Hp Hl Ht reply. subst reply. split.
  - intros clean rest e He E. unfold spool_image, Spool. rewrite decide_False, E by done.
    change (decodeImagePull pull_docs) with pull_image. by rewrite pull_lines, He.
  - intros E. unfold spool_image, Spool. rewrite decide_False, E by done.
    change (decodeImagePull pull_docs) with pull_image. rewrite pull_lines, pull_last, reply_error_app by done.
    destruct (reply_error (concat lines)); [done|]. by destruct (reply_error tail).
Qed.

(** A registry that answers "status", then "progress" and an error on one line, and
    breaks off. *)
Definition demo_pulled : list item :=
  [(JObj [("status", JStr "Pulling"); ("progressDetail", JObj [("current", JNum "10")])]%string, [x20]);
   (JObj [("error", JStr "no space left")]%string, [])].
Definition demo_puller : Profile :=
  mkProfile "registry" "repo" "" "" "" "" zero_Resources ∅ [].
Lemma spool_reports_error_witness :
  spool_image ∅ (λ _ _, Some (false, reply_text [demo_pulled] ++ [x7b])) demo_puller "app" =
  Some (SpoolReply (PullError "no space left")).
Proof.
  refine (proj1 (spool_reports_error ∅ (λ _ _, Some (false, reply_text [demo_pulled] ++ [x7b])) demo_puller "app"
    [demo_pulled] [] _ _ _) false [x7b] _ _ eq_refl).
  - discriminate.
  - apply Forall_singleton. unfold demo_pulled. rewrite !Forall_cons, Forall_nil. split_and!; [..|exact I];
      (split_and!; [repeat (split || apply ascii_ok || exact I || reflexivity)|eexists; reflexivity|reflexivity]).
  - apply Forall_nil. exact I.
  - reflexivity.
Defined.
