(* ===== verification/RawProfile.v ===== *)
(** * Raw profiles from Go values

    [NewRawProfile] (isolate/profile.go) encodes any value with [msgp.AppendIntf]
    (write_bytes.go).  Values are trees of what the encoder tells apart; a map is the list
    of its pairs in the order they are ranged. *)

From Stdlib Require Import ZArith Lia Ascii String Strings.Byte.
From S2P Require Import Prelude Fwd Msgp MsgpFacts Writer Stream Dispatch CodecFacts Number Profiles CodeStorage.

(** ** Values *)

#[warnings="-register-all"]
Inductive goval :=
  | GoNil
  | GoMethod (MarshalMsg : list byte -> list byte * bool)   (* a Marshaler or an Extension, and whether it failed *)
  | GoBool (t : bool)
  | GoFloat32 (bits : Z)
  | GoFloat64 (bits : Z)
  | GoComplex64 (re im : Z)
  | GoComplex128 (re im : Z)
  | GoString (s : string)
  | GoBytes (bts : list byte)
  | GoInt (i : Z)                                  (* int8 to int64, int *)
  | GoUint (u : Z)                                 (* uint8 to uint64, uint *)
  | GoTime (sec nsec : Z)
  | GoMap (m : list (string * goval))              (* map[string]interface{} *)
  | GoStrMap (m : list (string * string))          (* map[string]string *)
  | GoSlice (l : list goval)                       (* []interface{}, any slice or array *)
  | GoNilPtr
  | GoPtr (v : goval)
  | GoOther.                                       (* structs, other maps, functions, channels *)

Definition mcomplex64 : list byte := [z2b mfixext8; z2b 3].
Definition mcomplex128 : list byte := [z2b mfixext16; z2b 4].

Definition AppendNil (b : list byte) : list byte := b ++ [z2b mnil].
Definition AppendBool (b : list byte) (t : bool) : list byte := b ++ [z2b (if t then mtrue else mfalse)].
(** The big-endian bytes behind a prefix. *)
Definition AppendComplex64 (b : list byte) (re im : Z) : list byte :=
  b ++ mcomplex64 ++ tail (prefixu32 0 re) ++ tail (prefixu32 0 im).
Definition AppendComplex128 (b : list byte) (re im : Z) : list byte :=
  b ++ mcomplex128 ++ tail (prefixu64 0 re) ++ tail (prefixu64 0 im).
(** [putUnix] *)
Definition AppendTime (b : list byte) (sec nsec : Z) : list byte :=
  b ++ [z2b mext8; z2b 12; z2b 5] ++ tail (prefixu64 0 (uint 64 sec)) ++ tail (prefixu32 0 (uint 32 nsec)).

(** [AppendIntf]: the bytes so far, and whether a type was not supported. *)
Fixpoint AppendIntf (b : list byte) (v : goval) : list byte * bool :=
  match v with
  | GoNil | GoNilPtr => (AppendNil b, false)
  | GoMethod f => f b
  | GoBool t => (AppendBool b t, false)
  | GoFloat32 bits => (AppendFloat32 b bits, false)
  | GoFloat64 bits => (AppendFloat64 b bits, false)
  | GoComplex64 re im => (AppendComplex64 b re im, false)
  | GoComplex128 re im => (AppendComplex128 b re im, false)
  | GoString s => (AppendString b s, false)
  | GoBytes bts => (AppendBytes b bts, false)
  | GoInt i => (AppendInt64 b i, false)
  | GoUint u => (AppendUint64 b u, false)
  | GoTime sec nsec => (AppendTime b sec nsec, false)
  | GoMap m =>
      (fix pairs (m : list (string * goval)) (b : list byte) : list byte * bool :=
         match m with
         | [] => (b, false)
         | (k, v) :: m =>
             match AppendIntf (AppendString b k) v with
             | (b, true) => (b, true)
             | (b, false) => pairs m b
             end
         end) m (AppendMapHeader b (uint 32 (zlen m)))
  | GoStrMap m => (AppendMapStrStr b m, false)
  | GoSlice l =>
      (fix elems (l : list goval) (b : list byte) : list byte * bool :=
         match l with
         | [] => (b, false)
         | v :: l =>
             match AppendIntf b v with
             | (b, true) => (b, true)
             | (b, false) => elems l b
             end
         end) l (AppendArrayHeader b (uint 32 (zlen l)))
  | GoPtr v => AppendIntf b v
  | GoOther => (b, true)
  end.

(** [NewRawProfile]: the buffer, and whether an error is returned with it. *)
Definition NewRawProfile (v : goval) : list byte * bool := AppendIntf [] v.

(** ** What comes out *)

(** Values that are encoded whole: supported types, within the widths of the format. *)
Fixpoint encodable (v : goval) : Prop :=
  match v with
  | GoNil | GoNilPtr | GoBool _ | GoFloat32 _ | GoFloat64 _ | GoComplex64 _ _ | GoComplex128 _ _ | GoTime _ _ => True
  | GoMethod f => exists bs, objs true 1 bs /\ forall b, f b = (b ++ bs, false)
  | GoString s => zlen (str_bytes s) < 2 ^ 32
  | GoBytes bts => zlen bts < 2 ^ 32
  | GoInt i => - 2 ^ 63 <= i < 2 ^ 63
  | GoUint u => 0 <= u < 2 ^ 64
  | GoMap m => zlen m < 2 ^ 32 /\
      fold_right (λ (kv : string * goval) P, (zlen (str_bytes kv.1) < 2 ^ 32 /\ encodable kv.2) /\ P) True m
  | GoStrMap m => zlen m < 2 ^ 32 /\ Forall (λ kv, zlen (str_bytes kv.1) < 2 ^ 32 /\ zlen (str_bytes kv.2) < 2 ^ 32) m
  | GoSlice l => zlen l < 2 ^ 32 /\ fold_right (λ v P, encodable v /\ P) True l
  | GoPtr v => encodable v
  | GoOther => False
  end.

Lemma goval_induction (P : goval -> Prop) :
  (forall v, match v with GoMap _ | GoSlice _ | GoPtr _ => False | _ => True end -> P v) ->
  (forall m, Forall (λ kv, P kv.2) m -> P (GoMap m)) -> (forall l, Forall P l -> P (GoSlice l)) ->
  (forall v, P v -> P (GoPtr v)) -> forall v, P v.
Proof.
  intros Hs Hm Hl Hp. fix IH 1. intros v. destruct v; try (by apply Hs).
  - apply Hm. induction m as [|kv m IHm]; [constructor|]. constructor; [apply IH|exact IHm].
  - apply Hl. induction l as [|x l IHl]; [constructor|]. constructor; [apply IH|exact IHl].
  - apply Hp, IH.
Qed.

(** The bytes of a value. *)
Definition encoding (v : goval) : list byte := (AppendIntf [] v).1.

Definition encodes (v : goval) : Prop := encodable v ->
  objs true 1 (encoding v) /\ forall b, AppendIntf b v = (b ++ encoding v, false).

Lemma objs_ext k bs : objs false k bs -> objs true k bs.
Proof. induction 1; [constructor|]. by econstructor. Qed.
Lemma encodes_scalar v p : AppendIntf [] v = (p, false) -> MsgpFacts.wire p 0 ->
  (forall b, AppendIntf b v = (b ++ p, false)) -> encodes v.
Proof.
  intros E Hw Hb _. unfold encoding. rewrite E. cbn [fst]. split; [by apply objs_ext, objs_scalar|done].
Qed.

Lemma wire_bin bts : zlen bts < 2 ^ 32 -> MsgpFacts.wire (AppendBytes [] bts) 0.
Proof.
  intros Hn. unfold AppendBytes. cbn [app]. pose proof (zlen_nonneg bts).
  destruct (Z.leb_spec (zlen bts) MaxUint8) as [H1|H1]; unfold MaxUint8 in H1.
  { wire_const. wire_mode. unfold prefixu8. split; [unfold zlen; rewrite length_app; cbn [length]; lia|].
    rewrite zlen_app, at_app_l by (cbn; lia). f_equal. f_equal. change (zlen [_; _]) with 2.
    unfold at_, uint; cbn [lookup list_lookup]. rewrite z2b_low, Zmod_mod, Z.mod_small; lia. }
  destruct (Z.leb_spec (zlen bts) MaxUint16) as [H2|H2]; unfold MaxUint16 in H2.
  { wire_const. wire_mode.
    assert (be16 (prefixu16 mbin16 (uint 16 (zlen bts)) ++ bts) = be16 (prefixu16 mbin16 (uint 16 (zlen bts)))) as E.
    { unfold be16. rewrite !at_app_l by (cbn; lia). done. }
    split; [unfold zlen; rewrite length_app; cbn [length prefixu16]; lia|]. rewrite E, be16_prefix, zlen_app.
    change (zlen (prefixu16 _ _)) with 3. unfold uint. by rewrite Zmod_mod, Z.mod_small by lia. }
  wire_const. wire_mode.
  assert (be32 (prefixu32 mbin32 (uint 32 (zlen bts)) ++ bts) = be32 (prefixu32 mbin32 (uint 32 (zlen bts)))) as E.
  { unfold be32. rewrite !at_app_l by (cbn; lia). done. }
  split; [unfold zlen; rewrite length_app; cbn [length prefixu32]; lia|]. rewrite E, be32_prefix, zlen_app.
  change (zlen (prefixu32 _ _)) with 5. unfold uint. by rewrite Zmod_mod, Z.mod_small by lia.
Qed.
Lemma AppendBytes_app b bts : AppendBytes b bts = b ++ AppendBytes [] bts.
Proof. unfold AppendBytes. cbn [app]. repeat case_match; by rewrite <- app_assoc. Qed.

(** Objects of a constant size. *)
Lemma wire_fixed p : (match p with [] => false | _ => true end) = true -> bs_extra (sizes (at_ p 0)) = 0 ->
  zlen p = bs_size (sizes (at_ p 0)) -> at_ p 0 <> mext32 -> MsgpFacts.wire p 0.
Proof.
  intros Hne He Hs Hx. split; [|done]. split; [by destruct p|]. rewrite He. cbn. split; [|done].
  rewrite <- Hs. destruct p; [done|]. rewrite zlen_cons. pose proof (zlen_nonneg p). lia.
Qed.

Lemma wire_time sec nsec : MsgpFacts.wire (AppendTime [] sec nsec) 0.
Proof. split; [|by vm_compute]. split; [done|]. split; [by vm_compute|]. vm_compute. split; [done|reflexivity]. Qed.

(** Maps: a header and pairs. *)
Definition pairs_of (n : Z) (kvs : list (string * list byte)) : list byte :=
  AppendMapHeader [] n ++ concat (map map_pair kvs).

Lemma objs_str s : zlen (str_bytes s) < 2 ^ 32 -> objs true 1 (AppendString [] s).
Proof. intros Hs. by apply objs_ext, objs_scalar, wire_string. Qed.
Lemma objs_pairs kvs : Forall (λ kv, zlen (str_bytes kv.1) < 2 ^ 32 /\ objs true 1 kv.2) kvs ->
  objs true (2 * zlen kvs) (concat (map map_pair kvs)).
Proof.
  induction 1 as [|kv kvs [Hk Hv] _ IH]; [constructor|]. cbn [map concat]. rewrite zlen_cons.
  replace (2 * (1 + zlen kvs)) with (1 + 1 + 2 * zlen kvs) by lia. apply objs_app; [|done].
  apply objs_app; [by apply objs_str|done].
Qed.
Lemma objs_map kvs : zlen kvs < 2 ^ 32 -> Forall (λ kv, zlen (str_bytes kv.1) < 2 ^ 32 /\ objs true 1 kv.2) kvs ->
  objs true 1 (pairs_of (zlen kvs) kvs).
Proof.
  intros Hn Hkvs. pose proof (zlen_nonneg kvs). destruct (wire_map_header (zlen kvs) ltac:(lia)) as [Hp Hx].
  eapply objs_prefix; [exact Hp|done|by apply objs_pairs].
Qed.
Lemma uint_small n : 0 <= n < 2 ^ 32 -> uint 32 n = n.
Proof. intros. unfold uint. by rewrite Z.mod_small. Qed.

Lemma AppendMapStrStr_pairs b m : zlen m < 2 ^ 32 ->
  AppendMapStrStr b m = b ++ pairs_of (zlen m) (map (λ kv, (kv.1, AppendString [] kv.2)) m).
Proof.
  intros Hm. pose proof (zlen_nonneg m). unfold AppendMapStrStr, pairs_of. rewrite uint_small, AppendMapHeader_app by lia.
  rewrite app_assoc. generalize (b ++ AppendMapHeader [] (zlen m)) as c. clear. induction m as [|kv m IH]; intros c; cbn [fold_left map concat].
  { by rewrite app_nil_r. }
  rewrite IH, AppendString_app, (AppendString_app c). unfold map_pair at 2. cbn [fst snd]. by rewrite <- !app_assoc.
Qed.

(** The loop over a map, and over a slice. *)
Lemma AppendIntf_map b m : zlen m < 2 ^ 32 -> Forall (λ kv, forall b, AppendIntf b kv.2 = (b ++ encoding kv.2, false)) m ->
  AppendIntf b (GoMap m) = (b ++ pairs_of (zlen m) (map (λ kv, (kv.1, encoding kv.2)) m), false).
Proof.
  intros Hn Hm. pose proof (zlen_nonneg m). cbn [AppendIntf]. unfold pairs_of. rewrite uint_small, AppendMapHeader_app by lia.
  rewrite app_assoc. generalize (b ++ AppendMapHeader [] (zlen m)) as c. clear Hn H.
  induction Hm as [|[k v] m Hv _ IH]; intros c; cbn [map concat].
  { by rewrite app_nil_r. }
  cbn [fst snd] in *. rewrite Hv, IH. rewrite (AppendString_app c). unfold map_pair at 2. cbn [fst snd]. by rewrite <- !app_assoc.
Qed.
Lemma AppendIntf_slice b l : zlen l < 2 ^ 32 -> Forall (λ v, forall b, AppendIntf b v = (b ++ encoding v, false)) l ->
  AppendIntf b (GoSlice l) = (b ++ AppendArrayHeader [] (zlen l) ++ concat (map encoding l), false).
Proof.
  intros Hn Hl. pose proof (zlen_nonneg l). cbn [AppendIntf]. rewrite uint_small, AppendArrayHeader_app by lia.
  rewrite app_assoc. generalize (b ++ AppendArrayHeader [] (zlen l)) as c. clear Hn H.
  induction Hl as [|v l Hv _ IH]; intros c; cbn [map concat].
  { by rewrite app_nil_r. }
  by rewrite Hv, IH, <- app_assoc.
Qed.

Lemma scalars_encode v : match v with GoMap _ | GoSlice _ | GoPtr _ => False | _ => True end -> encodes v.
Proof.
  destruct v; intros Hv; try done.
  - by apply (encodes_scalar _ [z2b mnil]); [|apply wire_fixed|].
  - intros (bs & Ho & Hf). cbn [AppendIntf] in *. unfold encoding. cbn [AppendIntf]. rewrite Hf. cbn [fst app]. auto.
  - apply (encodes_scalar _ [z2b (if t then mtrue else mfalse)]); [done|by destruct t; apply wire_fixed|done].
  - by apply (encodes_scalar _ (prefixu32 mfloat32 bits)); [|apply wire_fixed|].
  - by apply (encodes_scalar _ (prefixu64 mfloat64 bits)); [|apply wire_fixed|].
  - by apply (encodes_scalar _ (AppendComplex64 [] re im)); [|apply wire_fixed|].
  - by apply (encodes_scalar _ (AppendComplex128 [] re im)); [|apply wire_fixed|].
  - intros Hs. apply (encodes_scalar _ (AppendString [] s)); [done|by apply wire_string| |done].
    intros b. cbn [AppendIntf]. by rewrite AppendString_app.
  - intros Hs. apply (encodes_scalar _ (AppendBytes [] bts)); [done|by apply wire_bin| |done].
    intros b. cbn [AppendIntf]. by rewrite AppendBytes_app.
  - intros Hs. apply (encodes_scalar _ (AppendInt64 [] i)); [done|by apply wire_int64| |done].
    intros b. cbn [AppendIntf]. by rewrite AppendInt64_app.
  - intros Hs. apply (encodes_scalar _ (AppendUint64 [] u)); [done|by apply wire_uint64| |done].
    intros b. cbn [AppendIntf]. by rewrite AppendUint64_app.
  - by apply (encodes_scalar _ (AppendTime [] sec nsec)); [|apply wire_time|].
  - intros [Hn Hm]. assert (forall b, AppendIntf b (GoStrMap m) =
      (b ++ pairs_of (zlen m) (map (λ kv, (kv.1, AppendString [] kv.2)) m), false)) as E.
    { intros b. cbn [AppendIntf]. by rewrite AppendMapStrStr_pairs. }
    unfold encoding. rewrite (E []). cbn [fst app]. split; [|done].
    replace (zlen m) with (zlen (map (λ kv : string * string, (kv.1, AppendString [] kv.2)) m)) by (unfold zlen; by rewrite length_map).
    apply objs_map; [unfold zlen in *; by rewrite length_map|]. apply Forall_map. eapply Forall_impl; [exact Hm|].
    intros kv [Hk Hkv]. split; [done|by apply objs_str].
  - by apply (encodes_scalar _ [z2b mnil]); [|apply wire_fixed|].
Qed.

(** Every value that can be encoded is one object of the format. *)
Lemma goval_encodes v : encodes v.
Proof.
  induction v as [v Hv|m Hm|l Hl|v Hv] using goval_induction; [by apply scalars_encode| | |].
  - intros [Hn Hok]. assert (Forall (λ kv : string * goval, zlen (str_bytes kv.1) < 2 ^ 32 /\ objs true 1 (encoding kv.2) /\
      forall b, AppendIntf b kv.2 = (b ++ encoding kv.2, false)) m) as H.
    { clear Hn. induction Hm as [|kv m Hkv _ IH]; [constructor|]. cbn in Hok. destruct Hok as [[Hk Hv] Hok].
      constructor; [|auto]. destruct (Hkv Hv). auto. }
    assert (forall b, AppendIntf b (GoMap m) = (b ++ pairs_of (zlen m) (map (λ kv, (kv.1, encoding kv.2)) m), false)) as E.
    { intros b. apply AppendIntf_map; [done|]. eapply Forall_impl; [exact H|]. by intros kv (_ & _ & ?). }
    unfold encoding at 1 2. rewrite (E []). cbn [fst app]. split; [|done].
    replace (zlen m) with (zlen (map (λ kv : string * goval, (kv.1, encoding kv.2)) m)) by (unfold zlen; by rewrite length_map).
    apply objs_map; [unfold zlen in *; by rewrite length_map|]. apply Forall_map. eapply Forall_impl; [exact H|].
    intros kv (Hk & Hv & _). done.
  - intros [Hn Hok]. assert (Forall (λ v, objs true 1 (encoding v) /\ forall b, AppendIntf b v = (b ++ encoding v, false)) l) as H.
    { clear Hn. induction Hl as [|v l Hv _ IH]; [constructor|]. cbn in Hok. destruct Hok as [Hv' Hok]. constructor; auto. }
    assert (forall b, AppendIntf b (GoSlice l) = (b ++ AppendArrayHeader [] (zlen l) ++ concat (map encoding l), false)) as E.
    { intros b. apply AppendIntf_slice; [done|]. eapply Forall_impl; [exact H|]. by intros v [_ ?]. }
    unfold encoding at 1 2. rewrite (E []). cbn [fst app]. split; [|done].
    pose proof (zlen_nonneg l). destruct (wire_array_header (zlen l) ltac:(lia)) as [Hp Hx].
    eapply objs_prefix; [exact Hp|done|]. clear - H. induction H as [|v l [Hv _] _ IH]; [constructor|].
    cbn [map concat]. rewrite zlen_cons. by apply objs_app.
  - exact Hv.
Qed.


(** ** Errors *)

(** Whether a value has a part whose type is not supported. *)
Fixpoint has_other (v : goval) : bool :=
  match v with
  | GoOther => true
  | GoMethod f => (f []).2
  | GoMap m => existsb (λ kv, has_other kv.2) m
  | GoSlice l => existsb has_other l
  | GoPtr v => has_other v
  | _ => false
  end.

(** Whether a method fails does not depend on the bytes before it. *)
Fixpoint methods_ok (v : goval) : Prop :=
  match v with
  | GoMethod f => forall b, (f b).2 = (f []).2
  | GoMap m => fold_right (λ (kv : string * goval) P, methods_ok kv.2 /\ P) True m
  | GoSlice l => fold_right (λ v P, methods_ok v /\ P) True l
  | GoPtr v => methods_ok v
  | _ => True
  end.

(** The encoder fails exactly on those. *)
Lemma AppendIntf_fails v : methods_ok v -> forall b, (AppendIntf b v).2 = has_other v.
Proof.
  induction v as [v Hv|m Hm|l Hl|v Hv] using goval_induction; intros Hok b.
  - by destruct v; try done; apply Hok.
  - cbn [AppendIntf has_other]. generalize (AppendMapHeader b (uint 32 (zlen m))) as c. cbn [methods_ok] in Hok.
    induction Hm as [|[k v] m Hv _ IH]; intros c; [done|]. cbn in Hok |- *. destruct Hok as [Hv' Hok].
    specialize (Hv Hv' (AppendString c k)). cbn in Hv. destruct (AppendIntf (AppendString c k) v) as [b' []]; cbn in Hv; rewrite <- Hv; [done|].
    by apply IH.
  - cbn [AppendIntf has_other]. generalize (AppendArrayHeader b (uint 32 (zlen l))) as c. cbn [methods_ok] in Hok.
    induction Hl as [|v l Hv _ IH]; intros c; [done|]. cbn in Hok |- *. destruct Hok as [Hv' Hok].
    specialize (Hv Hv' c). destruct (AppendIntf c v) as [b' []]; cbn in Hv; rewrite <- Hv; [done|]. by apply IH.
  - by apply Hv.
Qed.

Lemma map_header_type n l : 0 <= n < 2 ^ 32 -> getType (at_ (AppendMapHeader [] n ++ l) 0) = MapType.
Proof.
  intros Hn. unfold AppendMapHeader. cbn [app]. destruct (Z.leb_spec n 15).
  - pose proof (Zrange_check (λ n, let z := Z.lor mfixmap (Z.land (uint 8 n) last4) in
      (0 <=? z) && (z <? 256) && bool_decide (getType z = MapType)) 16 eq_refl n ltac:(lia)) as H'. cbn beta zeta in H'.
    rewrite !andb_true_iff, bool_decide_eq_true, Z.leb_le, Z.ltb_lt in H'. destruct H' as [[? ?] <-].
    unfold wfixmap. cbn [app]. by rewrite lead_byte by lia.
  - destruct (Z.leb_spec n MaxUint16); by vm_compute.
Qed.

(** Profiles made of Go values.  [NewRawProfile] refuses exactly the values that have a
    part of an unsupported type; a map it takes becomes one object of the format, of which
    the daemon reads the type that the map had, wherever the map was ranged to, and which
    the handler takes off a connection byte by byte as it was made, whatever follows it. *)
Theorem raw_profile_faithful v :
  (methods_ok v -> (NewRawProfile v).2 = has_other v) /\
  (forall m t, v = GoMap m -> encodable v -> NoDup m.*1 -> (typeKey, GoString t) ∈ m ->
     exists buff, NewRawProfile v = (buff, false) /\ profile_Type buff = Ok t /\ dreads readProfile buff buff).
Proof.
  split; [intros Hok; by apply AppendIntf_fails|]. intros m t -> Henc Hnd Hin.
  destruct (goval_encodes (GoMap m) Henc) as [Ho E]. exists (encoding (GoMap m)).
  split; [exact (E [])|]. pose proof Henc as [Hn Hok].
  assert (Forall (λ kv : string * goval, zlen (str_bytes kv.1) < 2 ^ 32 /\ objs true 1 (encoding kv.2) /\
    forall b, AppendIntf b kv.2 = (b ++ encoding kv.2, false)) m) as H.
  { clear - Hok. cbn in Hok. induction m as [|kv m IH]; [constructor|]. destruct Hok as [[Hk Hv] Hok].
    constructor; [|auto]. destruct (goval_encodes kv.2 Hv). auto. }
  assert (encoding (GoMap m) = pairs_of (zlen m) (map (λ kv, (kv.1, encoding kv.2)) m)) as Eb.
  { unfold encoding at 1. rewrite AppendIntf_map; [done|done|]. eapply Forall_impl; [exact H|]. by intros kv (_ & _ & ?). }
  pose proof (zlen_nonneg m). split.
  - rewrite Eb. unfold pairs_of. apply list_elem_of_split in Hin as (pre & post & ->).
    rewrite map_app. cbn [map fst snd]. change (encoding (GoString t)) with (AppendString [] t).
    replace (zlen (pre ++ (typeKey, GoString t) :: post)) with
      (zlen (map (λ kv : string * goval, (kv.1, encoding kv.2)) pre ++ (typeKey, AppendString [] t) ::
        map (λ kv : string * goval, (kv.1, encoding kv.2)) post)) in * by
      (unfold zlen; rewrite !length_app; cbn; by rewrite !length_map).
    apply Forall_app in H as [Hpre Ht]. apply Forall_cons in Ht as [_ _].
    cbn in Hok. apply profile_Type_first; [| |done].
    + apply Forall_map. rewrite Forall_forall in Hpre |- *. intros kv Hkv. destruct (Hpre kv Hkv) as (Hk & Hv & _).
      split_and!; [done| |done]. cbn. intros Heq. rewrite fmap_app in Hnd. cbn in Hnd.
      apply NoDup_app in Hnd as (_ & Hdis & _). apply (Hdis kv.1); [by apply list_elem_of_fmap_2|]. rewrite Heq. left.
    + clear - Hok. induction pre as [|kv pre IH]; cbn in Hok; [tauto|]. apply IH. tauto.
  - apply dreads_profile. split; [done|]. rewrite Eb. unfold pairs_of. apply map_header_type. lia.
Qed.

(** The profile of the process box that its test makes (process_test.go), and one with a
    struct in it. *)
Example demo_raw_profile :
  (profile_DecodeTo (process.DecodeMsg (process.mkProfile ""))
     (Some (NewRawProfile (GoMap [("spool", GoString "somespool")]%string)).1)).1 = Ok (process.mkProfile "somespool") /\
  (NewRawProfile (GoMap [("a", GoInt 1); ("b", GoSlice [GoNil; GoOther])]%string)).2 = true.
Proof. vm_compute. split; reflexivity. Qed.
