(* ===== verification/Process.v ===== *)
(** * The process box (isolate/process/box.go, process.go, archive.go)

    Children are kept in a map by pid.  [Spawn] forks under the lock of the map; the
    handler of SIGCHLD calls [wait] under the same lock, which reaps every zombie
    there is.  [Spool] unpacks an archive of the application. *)

From Stdlib Require Import ZArith Lia Ascii String.
From S2P Require Import Prelude GoPath.

(** ** Children *)

Inductive syscall := Kill (target : Z) | CmdWait (pid : Z).

Record pbox := mkPbox {
  p_children : gmap Z string;            (* Box.children: the uuids by pid *)
  p_log : list syscall
}.

(** [killPg]: SIGKILL to the group, which a negative number names. *)
Definition killPg (pgid : Z) : syscall := Kill (if 0 <? pgid then - pgid else pgid).

(** The answer of [Wait4(-1, WNOHANG)]; a reaped pid is positive. *)
Inductive wait4 := Reaped (pid : Z) | EINTR | ECHILD | NoZombie | OtherErr.

(** [wait]: [answers] are those of the calls to come; [None] when they run out while
    the loop still asks. *)
Fixpoint wait (answers : list wait4) (b : pbox) : option (list wait4 * pbox) :=
  match answers with
  | [] => None
  | Reaped pid :: answers =>
      match p_children b !! pid with
      | Some _ => wait answers (mkPbox (delete pid (p_children b)) (p_log b ++ [killPg pid; CmdWait pid]))
      | None => wait answers b
      end
  | EINTR :: answers => wait answers b
  | (ECHILD | NoZombie | OtherErr) :: answers => Some (answers, b)
  end.

(** The zombies at the time of the signal: the kernel reports each once and then none. *)
Definition zombies_answers (zs : list Z) : list wait4 := map Reaped zs ++ [ECHILD].

Definition is_killpg (pid : Z) (c : syscall) : bool :=
  match c with Kill t => t =? - pid | _ => false end.
Definition is_cmdwait (pid : Z) (c : syscall) : bool :=
  match c with CmdWait p => p =? pid | _ => false end.
Fixpoint times (p : syscall -> bool) (l : list syscall) : nat :=
  match l with [] => 0 | c :: l => (if p c then 1 else 0) + times p l end.
Lemma times_app p l k : times p (l ++ k) = (times p l + times p k)%nat.
Proof. induction l as [|c l IH]; cbn; lia. Qed.

(** One run of [wait] reaps all zombies, also those whose signals were merged:
    the workers among them leave the map, the group of each is killed once and its
    command is waited for once; other children and other pids are left alone. *)
Theorem wait_reaps_all zs b :
  NoDup zs -> Forall (λ z, 0 < z) zs -> exists b', wait (zombies_answers zs) b = Some ([], b') /\
    forall pid,
      p_children b' !! pid = (if decide (pid ∈ zs) then None else p_children b !! pid) /\
      let n := if decide (pid ∈ zs /\ is_Some (p_children b !! pid)) then 1%nat else 0%nat in
      times (is_killpg pid) (p_log b') = (times (is_killpg pid) (p_log b) + n)%nat /\
      times (is_cmdwait pid) (p_log b') = (times (is_cmdwait pid) (p_log b) + n)%nat.
Proof.
  unfold zombies_answers. revert b. induction zs as [|z zs IH]; intros b Hnd Hpos; cbn [map app wait].
  { exists b. split; [done|]. intros pid. rewrite !decide_False by set_solver. split; [done|lia]. }
  apply NoDup_cons in Hnd as [Hz Hnd]. apply Forall_cons in Hpos as [Hz0 Hpos].
  destruct (p_children b !! z) as [u|] eqn:Hc.
  - destruct (IH (mkPbox (delete z (p_children b)) (p_log b ++ [killPg z; CmdWait z])) Hnd Hpos) as (b' & E & L).
    exists b'. split; [done|]. intros pid. specialize (L pid). cbn [p_children p_log] in L.
    destruct L as (C & L). rewrite !times_app in L. unfold killPg in L. cbn [times is_killpg is_cmdwait] in L.
    destruct (Z.ltb_spec 0 z); [|lia].
    assert ((- z =? - pid) = (z =? pid)) as Ez by (destruct (Z.eqb_spec z pid), (Z.eqb_spec (- z) (- pid)); lia).
    rewrite Ez in L. destruct (Z.eqb_spec z pid) as [->|Hne].
    + rewrite decide_False in C by done. rewrite decide_False in L by naive_solver. rewrite lookup_delete_eq in C.
      rewrite !decide_True by (rewrite ?Hc; set_solver). split; [done|]. destruct L as [-> ->]. lia.
    + rewrite lookup_delete_ne in C by done. rewrite lookup_delete_ne in L by done. rewrite C. destruct L as [-> ->]. split.
      * destruct (decide (pid ∈ zs)); [by rewrite decide_True by set_solver|by rewrite decide_False by set_solver].
      * destruct (decide (pid ∈ zs /\ _)); [rewrite decide_True by set_solver|rewrite decide_False by set_solver]; lia.
  - destruct (IH b Hnd Hpos) as (b' & E & L). exists b'. split; [done|].
    intros pid. specialize (L pid). destruct L as (C & -> & ->). rewrite C. destruct (decide (pid = z)) as [->|Hne].
    + rewrite !Hc. rewrite (decide_True (P := z ∈ z :: zs)) by set_solver.
      rewrite !(decide_False (P := _ /\ _)) by (by intros [_ [? ?]]). by rewrite decide_False.
    + split.
      * destruct (decide (pid ∈ zs)); [by rewrite decide_True by set_solver|by rewrite decide_False by set_solver].
      * destruct (decide (pid ∈ zs /\ _)); [rewrite decide_True by set_solver|rewrite decide_False by set_solver]; lia.
Qed.

Definition demo_children : gmap Z string := {[7 := ""; 8 := ""]}%string.
Lemma wait_reaps_all_witness :
  exists b', wait (zombies_answers [7; 9]) (mkPbox demo_children []) = Some ([], b') /\
    p_children b' !! 7 = None /\ times (is_killpg 7) (p_log b') = 1%nat /\ times (is_killpg 9) (p_log b') = 0%nat.
Proof.
  destruct (wait_reaps_all [7; 9] (mkPbox demo_children [])) as (b' & E & L).
  - apply (bool_decide_unpack _). vm_compute. exact I.
  - repeat constructor.
  - exists b'. split; [exact E|].
    exact (conj (proj1 (L 7)) (conj (proj1 (proj2 (L 7))) (proj1 (proj2 (L 9))))).
Defined.

(** ** Spawning *)

Inductive spawn_error := SpawnDecode | SpawnEAGAIN | SpawnCancelled | SpawnStart.

Record command := mkCommand {
  cmd_Path : string;
  cmd_Args : list string;
  cmd_Env : list string;
  cmd_Dir : string
}.

Section spawn.
(** The order in which a map is ranged. *)
Context (range_ : gmap string string -> list (string * string)).

(** The command of [Spawn]: [spool] is the path of the profile, empty for the box's. *)
Definition spawn_command (spoolPath spool name executable : string) (args env : gmap string string) : command :=
  let spoolPath := if decide (spool = ""%string) then spoolPath else spool in
  let workDir := Join [spoolPath; name] in
  let execPath := if IsAbs executable then executable else Join [workDir; executable] in
  mkCommand execPath (Base executable :: concat (map (λ kv, [kv.1; kv.2]) (range_ args)))
    (map (λ kv, (kv.1 ++ "=" ++ kv.2)%string) (range_ env)) workDir.

(** [Spawn]: [acquired], [cancelled] and [started] are what the semaphore, the context
    and [newProcess] (with the pid of the child) answer; the counter is returned too. *)
Definition Spawn (decoded : bool) (acquired cancelled : bool) (started : option Z) (b : pbox) (queue : Z)
  : result spawn_error Z * pbox * Z :=
  if negb decoded then (Err SpawnDecode, b, queue)
  else
    let queue := queue + 1 in
    if 10 <? queue then (Err SpawnEAGAIN, b, queue - 1)
    else
      let queue := queue - 1 in
      if negb acquired then (Err SpawnCancelled, b, queue)
      else if cancelled then (Err SpawnCancelled, b, queue)
      else match started with
           | None => (Err SpawnStart, b, queue)
           | Some pid => (Ok pid, mkPbox (<[pid := ""%string]> (p_children b)) (p_log b), queue)
           end.
End spawn.

(** Forking and registering happen under the lock that [wait] runs under, so a child
    that dies at once is still found: it is killed and waited for like any other. *)
Lemma spawned_is_reaped acquired pid b q :
  acquired = true -> q < 10 -> 0 < pid ->
  exists b1, Spawn true acquired false (Some pid) b q = (Ok pid, b1, q) /\
  exists b2, wait (zombies_answers [pid]) b1 = Some ([], b2) /\ p_children b2 !! pid = None /\
    p_log b2 = p_log b ++ [killPg pid; CmdWait pid].
Proof.
  intros -> Hq Hp. unfold Spawn. cbn [negb]. destruct (Z.ltb_spec 10 (q + 1)); [lia|].
  eexists. split; [do 2 f_equal; lia|]. cbn. rewrite lookup_insert_eq.
  eexists. split; [done|]. cbn. by rewrite lookup_delete_eq.
Qed.

(** ** Unpacking an archive *)

Record header := mkHeader { h_Name : string; h_IsDir : bool; h_data : list byte; h_complete : bool }.

Inductive fs_op :=
  | RemoveAll (path : string)
  | Mkdir (path : string)
  | MkdirAll (path : string)
  | WriteFile (path : string) (data : list byte).

(** What can fail: [ok] answers the operations by their number. *)
Definition unpack_state : Type := list fs_op.

Section unpack.
Context (ok : nat -> bool).
(** What [os.Stat] says of a directory: there, not there, or another error. *)
Context (stat : nat -> string -> option bool).

Definition op (o : fs_op) : act unpack_state unit unit := λ l,
  (if ok (length l) then Ok tt else Err tt, l ++ [o]).

(** One entry of the archive. *)
Definition unpack_entry (target : string) (h : header) : act unpack_state unit unit := λ l,
  let path := Join [target; h_Name h] in
  if h_IsDir h then op (MkdirAll path) l
  else
    let dirpath := Dir path in
    let '(r, l) := if decide (dirpath = "."%string) then (Ok tt, l)
                   else match stat (length l) dirpath with
                        | Some true => (Ok tt, l)
                        | Some false => op (MkdirAll dirpath) l
                        | None => (Err tt, l)
                        end in
    match r with
    | Err e => (Err e, l)
    | Ok _ =>
        let '(r, l) := op (WriteFile path (h_data h)) l in
        match r with
        | Err e => (Err e, l)
        | Ok _ => (if h_complete h then Ok tt else Err tt, l)
        end
    end.

(** The entries in order; [clean]: the archive ends with [io.EOF]. *)
Fixpoint unpack_entries (target : string) (hs : list header) (clean : bool) : act unpack_state unit unit :=
  match hs with
  | [] => if clean then mret tt else throw tt
  | h :: hs => _ ← unpack_entry target h; unpack_entries target hs clean
  end.

(** [unpackArchive]: the directory is made anew. *)
Definition unpackArchive (target : string) (hs : list header) (clean : bool) : act unpack_state unit unit :=
  _ ← op (RemoveAll target);
  _ ← op (Mkdir target);
  unpack_entries target hs clean.
End unpack.

(** A member named with dots is written outside the directory of the application. *)
Lemma unpack_escapes :
  (unpackArchive (λ _, true) (λ _ _, Some true) "/var/spool/cocaine/app"
     [mkHeader "../../../../etc/cron.d/x" false [] true] true []).2 =
  [RemoveAll "/var/spool/cocaine/app"; Mkdir "/var/spool/cocaine/app"; WriteFile "/etc/cron.d/x" []].
Proof. by vm_compute. Qed.

(** ** Spooling *)

Inductive spool_error := SpoolDecode | SpoolFetch | SpoolUnpack.

(** [Spool]: fetches the archive and, unless the request was cancelled meanwhile,
    unpacks it; [archive] are the entries the archive readers find in the data. *)
Definition Spool (ok : nat -> bool) (stat : nat -> string -> option bool) (spoolPath : string)
    (spool : option string) (name : string) (fetched : option (list header * bool)) (cancelled : bool)
  : option spool_error * unpack_state :=
  match spool with
  | None => (Some SpoolDecode, [])
  | Some spool =>
      let spoolPath := if decide (spool = ""%string) then spoolPath else spool in
      match fetched with
      | None => (Some SpoolFetch, [])
      | Some (hs, clean) =>
          if cancelled then (None, [])
          else match unpackArchive ok stat (Join [spoolPath; name]) hs clean [] with
               | (Ok _, l) => (None, l)
               | (Err _, l) => (Some SpoolUnpack, l)
               end
      end
  end.
