(* ===== verification/ProcessGroup.v ===== *)
(** * Process groups of the workers

    [newProcess] starts a worker with the attributes of [getSysProctAttr]
    (isolate/process/sysprocattr_linux.go): a process group of its own and a signal for the
    death of its parent.  [killPg] (isolate/process/process.go) relies on the first.  The
    machine here is the kernel's view of them: processes with their parents and groups,
    what fork, exit and [kill] do, and pids that are used again. *)

From Stdlib Require Import ZArith Lia.
From S2P Require Import Prelude Process.

(** [syscall.SysProcAttr], as far as it is used. *)
Record SysProcAttr := mkAttr { Setpgid : bool; Pdeathsig : bool (* SIGKILL *) }.

(** One file per platform: sysprocattr_linux.go and sysprocattr.go. *)
Inductive platform := Linux | NotLinux.
Definition getSysProctAttr (os : platform) : SysProcAttr :=
  match os with
  | Linux => mkAttr true true
  | NotLinux => mkAttr true false
  end.

(** A process: its parent, its group, whether it is killed when its parent dies.  The rest
    is known to the proof only: the spawn it comes from, and whether it or an ancestor went
    to another group. *)
Record task := mkTask {
  t_parent : Z;
  t_pgid : Z;
  t_deathsig : bool;
  t_worker : option nat;
  t_left : bool
}.

(** The processes, and the [process] values of the box, which are its spawns in order with
    the pids they got. *)
Record kernel := mkKernel { k_tasks : gmap Z task; k_procs : list Z }.

Inductive kevent :=
  | Spawn (pid : Z)                 (* newProcess *)
  | ProcKill (n : nat)              (* Kill of the n-th process *)
  | Fork (parent pid : Z)
  | Leave (pid : Z)                 (* a process moves to a group of its own *)
  | Stranger (pid : Z)              (* somebody else's process *)
  | Exit (pid : Z).                 (* it ends and is waited for *)

(** A pid that is free: neither a process nor a group has it. *)
Definition free (pid : Z) (t : gmap Z task) : bool :=
  (1 <? pid) && bool_decide (t !! pid = None) && bool_decide (map_Forall (λ _ x, t_pgid x <> pid) t).

(** Whom a signal to [target] from the process [self] reaches; the daemon is not root over
    processes of others for [-1], which makes no difference to it. *)
Definition reached (self target : Z) (t : gmap Z task) (pid : Z) (x : task) : bool :=
  if 0 <? target then pid =? target
  else if target =? 0 then bool_decide (t_pgid <$> t !! self = Some (t_pgid x))
  else if target =? -1 then negb (pid =? self) && (1 <? pid)
  else t_pgid x =? - target.

Definition signal (self : Z) (c : syscall) (t : gmap Z task) : gmap Z task :=
  match c with
  | Kill target => filter (λ px, reached self target t px.1 px.2 = false) t
  | CmdWait _ => t
  end.

Section machine.
(** The platform and the daemon. *)
Context (os : platform) (self : Z).

(** The machine stops when the daemon is gone. *)
Definition kexec (ev : kevent) (s : kernel) : option kernel :=
  let t := k_tasks s in
  d ← t !! self;
  match ev with
  | Spawn pid =>
      if free pid t then
        let n := length (k_procs s) in
        let pgid := if Setpgid (getSysProctAttr os) then pid else t_pgid d in
        Some (mkKernel (<[pid := mkTask self pgid (Pdeathsig (getSysProctAttr os)) (Some n) false]> t) (k_procs s ++ [pid]))
      else None
  | ProcKill n => pid ← k_procs s !! n; Some (mkKernel (signal self (killPg pid) t) (k_procs s))
  | Fork parent pid =>
      p ← t !! parent;
      if free pid t && negb (parent =? self)
      then Some (mkKernel (<[pid := mkTask parent (t_pgid p) false (t_worker p) (t_left p)]> t) (k_procs s)) else None
  | Leave pid =>
      x ← t !! pid;
      if bool_decide (map_Forall (λ _ y, t_pgid y <> pid) t) && negb (pid =? self)
      then Some (mkKernel (<[pid := mkTask (t_parent x) pid (t_deathsig x) (t_worker x) true]> t) (k_procs s)) else None
  | Stranger pid =>
      if free pid t then Some (mkKernel (<[pid := mkTask 1 pid false None false]> t) (k_procs s)) else None
  | Exit pid =>
      _ ← t !! pid;
      Some (mkKernel (filter (λ qx, negb (t_deathsig qx.2 && (t_parent qx.2 =? pid)) = true) (delete pid t)) (k_procs s))
  end.

(** The daemon starts in some group. *)
Definition kstart (pgid : Z) : kernel := mkKernel {[self := mkTask 1 pgid false None false]} [].

Inductive kreach (pgid : Z) : kernel -> Prop :=
  | kreach_start : kreach pgid (kstart pgid)
  | kreach_exec s ev s' : kreach pgid s -> kexec ev s = Some s' -> kreach pgid s'.

(** The worker of the [n]-th spawn still runs (or was not waited for). *)
Definition runs (s : kernel) (n : nat) (w : Z) : Prop :=
  k_procs s !! n = Some w /\ exists x, k_tasks s !! w = Some x /\ t_worker x = Some n /\ t_left x = false.

Record kinv (s : kernel) : Prop := {
  (** Who did not leave is in the group of the worker it comes from. *)
  ki_group : forall pid x n, k_tasks s !! pid = Some x -> t_worker x = Some n -> t_left x = false ->
    k_procs s !! n = Some (t_pgid x);
  (** The group of a running worker is its own. *)
  ki_own : forall n w pid x, runs s n w -> k_tasks s !! pid = Some x -> t_pgid x = w ->
    t_worker x = Some n /\ t_left x = false;
  (** A running worker has the death signal of the platform. *)
  ki_death : forall n w x, runs s n w -> k_tasks s !! w = Some x -> t_parent x = self /\ t_deathsig x = Pdeathsig (getSysProctAttr os);
  ki_self : forall x, k_tasks s !! self = Some x -> t_worker x = None;
  ki_pids : Forall (λ w, 1 < w) (k_procs s)
}.

Lemma free_inv pid t : free pid t = true ->
  1 < pid /\ t !! pid = None /\ forall q x, t !! q = Some x -> t_pgid x <> pid.
Proof.
  unfold free. rewrite !andb_true_iff, Z.ltb_lt, !bool_decide_eq_true. intros [[H1 H2] H3]. split_and!; [done|done|].
  intros q x. apply H3.
Qed.

Lemma kinv_start pgid : kinv (kstart pgid).
Proof.
  split; cbn.
  - intros pid x n [<- <-]%lookup_singleton_Some. done.
  - by intros n w pid x [? _].
  - by intros n w x [? _].
  - intros x. by rewrite lookup_singleton_eq; intros [= <-].
  - constructor.
Qed.

(** Taking processes away keeps the invariant. *)
Lemma kinv_shrink t t' procs : t' ⊆ t -> kinv (mkKernel t procs) -> kinv (mkKernel t' procs).
Proof.
  intros Hsub Hi.
  assert (forall n w, runs (mkKernel t' procs) n w -> runs (mkKernel t procs) n w) as Hr.
  { intros n w (Hn & x & Hx & Hw). split; [done|]. exists x. split; [by eapply lookup_weaken|done]. }
  split; cbn.
  - intros pid x n Hx. eapply (ki_group _ Hi). by eapply lookup_weaken.
  - intros n w pid x R%Hr Hx. eapply (ki_own _ Hi); [exact R|]. by eapply lookup_weaken.
  - intros n w x R%Hr Hx. eapply (ki_death _ Hi); [exact R|]. by eapply lookup_weaken.
  - intros x Hx. eapply (ki_self _ Hi). by eapply lookup_weaken.
  - apply (ki_pids _ Hi).
Qed.

(** A process is added that is not a worker itself. *)
Lemma kinv_insert s pid x : kinv s -> pid <> self ->
  (forall n, t_worker x = Some n -> t_left x = false -> k_procs s !! n = Some (t_pgid x) /\ t_pgid x <> pid) ->
  (forall n w, runs s n w -> t_pgid x = w -> w <> pid -> t_worker x = Some n /\ t_left x = false) ->
  kinv (mkKernel (<[pid := x]> (k_tasks s)) (k_procs s)).
Proof.
  intros Hi Hself Hx Hown. set (s' := mkKernel _ _).
  assert (forall n w, runs s' n w -> runs s n w /\ w <> pid) as Hr.
  { intros n w (Hn & y & Hy & Hw & Hl). cbn in Hn, Hy. destruct (decide (w = pid)) as [->|Hne].
    - rewrite lookup_insert_eq in Hy. injection Hy as <-. destruct (Hx n Hw Hl) as [E Hp]. congruence.
    - rewrite lookup_insert_ne in Hy by done. split; [|done]. split; [done|by exists y]. }
  split; cbn.
  - intros q y n [[<- <-]|[_ Hy]]%lookup_insert_Some; [intros; by eapply Hx|by eapply (ki_group _ Hi)].
  - intros n w q y [R Hw]%Hr [[<- <-]|[_ Hy]]%lookup_insert_Some Hp; [by apply (Hown n w)|by eapply (ki_own _ Hi)].
  - intros n w y [R Hw]%Hr. rewrite lookup_insert_ne by done. by apply (ki_death _ Hi n).
  - intros y. rewrite lookup_insert_ne by done. apply (ki_self _ Hi).
  - apply (ki_pids _ Hi).
Qed.

Lemma kinv_spawn s pid : kinv s -> pid <> self -> free pid (k_tasks s) = true ->
  kinv (mkKernel (<[pid := mkTask self pid (Pdeathsig (getSysProctAttr os)) (Some (length (k_procs s))) false]> (k_tasks s)) (k_procs s ++ [pid])).
Proof.
  intros Hi Hself (H1 & Hnone & Hfree)%free_inv. set (s' := mkKernel _ _).
  assert (forall n w, runs s' n w -> (w = pid /\ n = length (k_procs s)) \/ (runs s n w /\ w <> pid)) as Hr.
  { intros n w (Hn & y & Hy & Hw & Hl). cbn in Hn, Hy. destruct (decide (w = pid)) as [->|Hne].
    - rewrite lookup_insert_eq in Hy. injection Hy as <-. cbn in Hw. injection Hw as <-. by left.
    - rewrite lookup_insert_ne in Hy by done. right. split; [|done]. split; [|by exists y].
      apply lookup_app_Some in Hn as [?|[_ [_ Hn]%list_lookup_singleton_Some]]; [done|congruence]. }
  split; cbn.
  - intros q y n [[<- <-]|[_ Hy]]%lookup_insert_Some; cbn.
    + intros [= <-] _. by apply list_lookup_middle.
    + intros Hw Hl. apply lookup_app_l_Some. by eapply (ki_group _ Hi).
  - intros n w q y [[-> ->]|[R Hw]]%Hr [[<- <-]|[_ Hy]]%lookup_insert_Some Hp; cbn in *; [done| | |by eapply (ki_own _ Hi)].
    + by eapply Hfree in Hy.
    + done.
  - intros n w y [[-> ->]|[R Hw]]%Hr; [by rewrite lookup_insert_eq; intros [= <-]|].
    rewrite lookup_insert_ne by done. by apply (ki_death _ Hi n).
  - intros y. rewrite lookup_insert_ne by done. apply (ki_self _ Hi).
  - apply Forall_app. split; [apply (ki_pids _ Hi)|]. by apply Forall_singleton.
Qed.

Lemma kinv_exec s ev s' : kinv s -> kexec ev s = Some s' -> kinv s'.
Proof.
  intros Hi. unfold kexec. cbv zeta. destruct (k_tasks s !! self) as [d|] eqn:Ed; [|done]. cbn [mbind option_bind].
  destruct ev as [pid|n|parent pid|pid|pid|pid].
  - destruct (free pid (k_tasks s)) eqn:F; [|done]. replace (Setpgid (getSysProctAttr os)) with true by (by destruct os). intros [= <-].
    apply kinv_spawn; [done| |done]. apply free_inv in F. intros ->. destruct F as (_ & F & _). congruence.
  - destruct (k_procs s !! n) as [pid|]; [|done]. intros [= <-]. destruct s as [t0 procs].
    apply (kinv_shrink t0); [apply map_filter_subseteq|done].
  - destruct (k_tasks s !! parent) as [p|] eqn:Ep; [|done]. cbn [mbind option_bind].
    destruct (free pid (k_tasks s)) eqn:F; [|done]. destruct (parent =? self); [done|]. intros [= <-].
    apply free_inv in F as (_ & F1 & F2). apply kinv_insert; [done|congruence| |]; cbn.
    + intros n Hw Hl. split; [by eapply (ki_group _ Hi)|by eapply F2].
    + intros n w R Hp _. by eapply (ki_own _ Hi).
  - destruct (k_tasks s !! pid) as [x|] eqn:Ex; [|done]. cbn [mbind option_bind].
    case_bool_decide; [|done]. destruct (Z.eqb_spec pid self); [done|]. intros [= <-].
    by apply kinv_insert.
  - destruct (free pid (k_tasks s)) eqn:F; [|done]. intros [= <-]. apply free_inv in F as (_ & F1 & F2).
    apply kinv_insert; [done|congruence|done|]; cbn. by intros.
  - destruct (k_tasks s !! pid); [|done]. intros [= <-]. destruct s as [t0 procs].
    apply (kinv_shrink t0); [|done]. etrans; [apply map_filter_subseteq|apply delete_subseteq].
Qed.

Lemma kreach_inv pgid s : kreach pgid s -> kinv s.
Proof. induction 1; [apply kinv_start|by eapply kinv_exec]. Qed.


(** The [process] value outlives its process: once the group is gone the pid can be used
    again, and the kill that the client or the end of the connection still asks for hits
    whoever has it then. *)
Lemma stale_kill_hits_stranger pgid w : 1 < w -> w <> self -> pgid <> w ->
  exists s s', kreach pgid s /\ k_tasks s !! w = Some (mkTask 1 w false None false) /\
    kexec (ProcKill 0) s = Some s' /\ k_tasks s' !! w = None.
Proof.
  intros Hw Hself Hpg.
  set (d := mkTask 1 pgid false None false).
  assert (free w {[self := d]} = true) as Hf.
  { unfold free. rewrite !andb_true_iff, Z.ltb_lt, !bool_decide_eq_true. split_and!; [done|by rewrite lookup_singleton_ne|].
    intros q x [<- <-]%lookup_singleton_Some. done. }
  set (s1 := mkKernel (<[w := mkTask self w (Pdeathsig (getSysProctAttr os)) (Some 0%nat) false]> {[self := d]}) [w]).
  set (s2 := mkKernel {[self := d]} [w]).
  set (s3 := mkKernel (<[w := mkTask 1 w false None false]> {[self := d]}) [w]).
  assert (kexec (Spawn w) (kstart pgid) = Some s1) as E1.
  { unfold kexec, kstart. cbn [k_tasks k_procs]. cbv zeta. fold d. rewrite lookup_singleton_eq. cbn [mbind option_bind]. rewrite Hf. by destruct os. }
  assert (kexec (Exit w) s1 = Some s2) as E2.
  { unfold kexec, s1. cbn [k_tasks k_procs]. cbv zeta. rewrite lookup_insert_eq.
    rewrite lookup_insert_ne, lookup_singleton_eq by done.
    cbn [mbind option_bind]. unfold s2. do 2 f_equal. rewrite delete_insert_id by (by rewrite lookup_singleton_ne).
    rewrite map_filter_id; [done|]. by intros q x [<- <-]%lookup_singleton_Some. }
  assert (kexec (Stranger w) s2 = Some s3) as E3.
  { unfold kexec, s2. cbn [k_tasks k_procs]. cbv zeta. rewrite lookup_singleton_eq. cbn [mbind option_bind]. by rewrite Hf. }
  eexists s3, _. split_and!; [|by apply lookup_insert_eq| |].
  - eapply kreach_exec, E3. eapply kreach_exec, E2. eapply kreach_exec, E1. constructor.
  - unfold kexec, s3. cbn [k_tasks k_procs]. cbv zeta. rewrite lookup_insert_ne, lookup_singleton_eq by done. reflexivity.
  - cbn [k_tasks]. unfold signal, killPg. destruct (Z.ltb_spec 0 w); [|lia].
    apply map_lookup_filter_None. right. intros x. rewrite lookup_insert_eq. intros [= <-]. cbn. unfold reached.
    destruct (Z.ltb_spec 0 (- w)); [lia|]. destruct (Z.eqb_spec (- w) 0); [lia|].
    destruct (Z.eqb_spec (- w) (-1)); [lia|]. cbn. by rewrite Z.opp_involutive, Z.eqb_refl.
Qed.
End machine.

(** A worker with a child, and a stranger. *)
Fixpoint krun (os : platform) (self : Z) (evs : list kevent) (s : kernel) : option kernel :=
  match evs with [] => Some s | ev :: evs => s' ← kexec os self ev s; krun os self evs s' end.
Lemma krun_reach os self pgid evs s s' : kreach os self pgid s -> krun os self evs s = Some s' -> kreach os self pgid s'.
Proof.
  revert s. induction evs as [|ev evs IH]; intros s Hs; cbn; [by intros [= <-]|].
  destruct (kexec os self ev s) as [s1|] eqn:E; [|done]. cbn. apply IH. by eapply kreach_exec.
Qed.

Definition demo_kernel : kernel := default (kstart 10 9) (krun Linux 10 [Spawn 20; Fork 20 21; Stranger 30] (kstart 10 9)).
