(* ===== verification/ProcessBox.v ===== *)
(** * The process box as a whole (isolate/process/box.go)

    Its construction and configuration, the goroutine that handles SIGCHLD interleaved
    with spawns, exits and the delivery of signals, [Inspect], and [Spool] from the bytes
    of the profile and the reply of the storage to the files on disk. *)

From Stdlib Require Import ZArith Lia Ascii String.
From stdpp Require Import pretty.
From S2P Require Import Prelude Json Fwd Msgp MsgpFacts MsgpSafe MsgpBytes Stream Dispatch Codec CodecFacts Number PortoContainer Profiles MtnStore Mtn Config GoPath CodeStorage Process.

(** ** Construction *)

Definition defaultSpoolPath : string := "/var/spool/cocaine".

Record pconfig := mkPconfig { pc_spoolPath : string; pc_locator : list string }.

(** [NewBox]: a type assertion that fails leaves the default. *)
Definition process_NewBox (cfg : BoxConfig) : pconfig :=
  mkPconfig
    (match cfg !! "spool"%string with Some (JStr s) => s | _ => defaultSpoolPath end)
    (match cfg !! "locator"%string with Some (JStr s) => [s] | _ => [] end).

(** ** Zombies and signals *)

(** The handler: at its select, in the loop of [wait] (with the lock), or returned. *)
Inductive hpc := Select | Reaping | Ended.

Record reaper := mkReaper {
  z_alive : gset Z;                     (* children of the daemon that run *)
  z_zombies : gset Z;                   (* those that ended and were not waited for *)
  z_box : pbox;
  z_pending : bool;                     (* SIGCHLD raised, not yet delivered; merged *)
  z_chan : bool;                        (* the channel of capacity one *)
  z_pc : hpc;
  z_cancelled : bool                    (* the context of the box *)
}.

Inductive reaper_event :=
  | Forked (pid : Z)                    (* Spawn, under the lock *)
  | ForkedElsewhere (pid : Z)           (* a child that is not a worker *)
  | Exits (pid : Z)
  | WaitedElsewhere (pid : Z)
  | Deliver                             (* a send that does not block *)
  | Receive
  | Wait4 (pid : Z)                     (* an iteration of wait that reaps *)
  | WaitEnds                            (* the one that finds nothing *)
  | Cancel                              (* Close *)
  | Leave.

Definition with_box (b : pbox) (s : reaper) : reaper :=
  mkReaper (z_alive s) (z_zombies s) b (z_pending s) (z_chan s) (z_pc s) (z_cancelled s).
Definition with_pc (pc : hpc) (s : reaper) : reaper :=
  mkReaper (z_alive s) (z_zombies s) (z_box s) (z_pending s) (z_chan s) pc (z_cancelled s).
Definition with_procs (alive zombies : gset Z) (s : reaper) : reaper :=
  mkReaper alive zombies (z_box s) (z_pending s) (z_chan s) (z_pc s) (z_cancelled s).
Definition with_signals (pending chan : bool) (s : reaper) : reaper :=
  mkReaper (z_alive s) (z_zombies s) (z_box s) pending chan (z_pc s) (z_cancelled s).

#[export] Instance hpc_eq_dec : EqDecision hpc.
Proof. solve_decision. Defined.

(** The kernel gives a new child a pid no child has. *)
Definition fresh_pid (pid : Z) (s : reaper) : bool :=
  (0 <? pid) && bool_decide (pid ∉ z_alive s ∪ z_zombies s).

Definition reaper_exec (ev : reaper_event) (s : reaper) : option reaper :=
  match ev with
  | Forked pid =>
      if fresh_pid pid s && bool_decide (z_pc s <> Reaping) then
        Some (with_procs ({[pid]} ∪ z_alive s) (z_zombies s)
               (with_box (Spawn true true false (Some pid) (z_box s) 0).1.2 s))
      else None
  | ForkedElsewhere pid =>
      if fresh_pid pid s then
        Some (with_procs ({[pid]} ∪ z_alive s) (z_zombies s) s)
      else None
  | Exits pid =>
      if decide (pid ∈ z_alive s) then
        Some (with_signals true (z_chan s) (with_procs (z_alive s ∖ {[pid]}) ({[pid]} ∪ z_zombies s) s))
      else None
  | WaitedElsewhere pid =>
      if decide (pid ∈ z_zombies s /\ p_children (z_box s) !! pid = None) then
        Some (with_procs (z_alive s) (z_zombies s ∖ {[pid]}) s)
      else None
  | Deliver => if z_pending s then Some (with_signals false true s) else None
  | Receive =>
      match z_pc s, z_chan s with
      | Select, true => Some (with_pc Reaping (with_signals (z_pending s) false s))
      | _, _ => None
      end
  | Wait4 pid =>
      match z_pc s, wait [Reaped pid; NoZombie] (z_box s) with
      | Reaping, Some (_, b) =>
          if decide (pid ∈ z_zombies s) then
            Some (with_procs (z_alive s) (z_zombies s ∖ {[pid]}) (with_box b s))
          else None
      | _, _ => None
      end
  | WaitEnds =>
      if decide (z_pc s = Reaping /\ z_zombies s = ∅) then Some (with_pc Select s) else None
  | Cancel =>
      Some (mkReaper (z_alive s) (z_zombies s) (z_box s) (z_pending s) (z_chan s) (z_pc s) true)
  | Leave => if decide (z_pc s = Select /\ z_cancelled s = true) then Some (with_pc Ended s) else None
  end.

Definition reaper_start : reaper := mkReaper ∅ ∅ (mkPbox ∅ []) false false Select false.

Inductive reaches : reaper -> Prop :=
  | reaches_start : reaches reaper_start
  | reaches_step s ev s' : reaches s -> reaper_exec ev s = Some s' -> reaches s'.

(** A move of the runtime or of the handler, as opposed to the world. *)
Definition handler_event (ev : reaper_event) : bool :=
  match ev with Deliver | Receive | Wait4 _ | WaitEnds => true | _ => false end.

(** What the moves of the handler use up. *)
Definition work (s : reaper) : Z :=
  3 * Z.of_nat (size (z_zombies s)) + 3 * Z.b2z (z_pending s) + 2 * Z.b2z (z_chan s) +
  match z_pc s with Reaping => 1 | _ => 0 end.

Record reaper_inv (s : reaper) : Prop := {
  ri_tracked pid : is_Some (p_children (z_box s) !! pid) -> pid ∈ z_alive s ∪ z_zombies s;
  ri_woken : z_zombies s <> ∅ -> z_pending s = true \/ z_chan s = true \/ z_pc s = Reaping \/ z_pc s = Ended;
  ri_uuid pid u : p_children (z_box s) !! pid = Some u -> u = ""%string
}.

Lemma wait_once pid b : wait [Reaped pid; NoZombie] b =
  Some ([], match p_children b !! pid with
            | Some _ => mkPbox (delete pid (p_children b)) (p_log b ++ [killPg pid; CmdWait pid])
            | None => b
            end).
Proof. cbn. by destruct (p_children b !! pid). Qed.

Lemma wait_once_children pid b b' l :
  wait [Reaped pid; NoZombie] b = Some (l, b') -> p_children b' = delete pid (p_children b).
Proof.
  rewrite wait_once. intros E. simplify_eq. destruct (p_children b !! pid) eqn:Ep; [done|].
  symmetry. by apply delete_id.
Qed.

Lemma Spawn_children pid b q : q < 10 ->
  p_children (Spawn true true false (Some pid) b q).1.2 = <[pid := ""%string]> (p_children b).
Proof. intros Hq. unfold Spawn. cbn [negb]. by destruct (Z.ltb_spec 10 (q + 1)); [lia|]. Qed.

Lemma reaper_inv_step s ev s' : reaper_inv s -> reaper_exec ev s = Some s' -> reaper_inv s'.
Proof.
  intros [H1 H2 H3] E. destruct ev as [pid|pid|pid|pid| | |pid| | |]; cbn [reaper_exec] in E.
  - destruct (fresh_pid pid s && _); [|done]. simplify_eq.
    split; cbn [z_box z_zombies z_pending z_chan z_pc z_alive with_box with_procs]; rewrite ?Spawn_children by lia.
    + intros p. rewrite lookup_insert_is_Some. intros [->|[_ Hp%H1]]; set_solver.
    + done.
    + intros p u [[_ <-]|[_ Hp]]%lookup_insert_Some; [done|by apply H3 in Hp].
  - destruct (fresh_pid pid s); [|done]. simplify_eq. split; cbn; [|done|done].
    intros p Hp%H1. set_solver.
  - destruct (decide _); [|done]. simplify_eq. split; cbn; [|by left|done]. intros p Hp%H1.
    destruct (decide (p = pid)); set_solver.
  - destruct (decide _) as [[Hz Hn]|]; [|done]. simplify_eq. split; cbn; [| |done].
    + intros p Hp. pose proof (H1 p Hp). assert (p <> pid) by (intros ->; destruct Hp; congruence). set_solver.
    + intros Hne. apply H2. set_solver.
  - destruct (z_pending s); [|done]. simplify_eq. split; cbn; [done|auto|done].
  - destruct (z_pc s), (z_chan s); simplify_eq. split; cbn; [done|auto|done].
  - destruct (z_pc s) eqn:Epc; try done. destruct (wait _ _) as [[l b]|] eqn:Ew; [|done].
    destruct (decide _); [|done]. simplify_eq. apply wait_once_children in Ew. split; cbn.
    + intros p. rewrite Ew, lookup_delete_is_Some. intros [Hne Hp%H1]. set_solver.
    + auto.
    + intros p u. rewrite Ew. intros [_ Hp]%lookup_delete_Some. by apply H3 in Hp.
  - destruct (decide _) as [[Hp Hz]|]; [|done]. simplify_eq. split; cbn; [done|by rewrite Hz|done].
  - simplify_eq. by split.
  - destruct (decide _); [|done]. simplify_eq. split; cbn; auto.
Qed.

Lemma reaches_inv s : reaches s -> reaper_inv s.
Proof.
  induction 1 as [|s ev s' _ IH E]; [|by eapply reaper_inv_step].
  split; cbn; [by intros pid [? ?]|done|done].
Qed.

Lemma reaper_work s ev s' :
  reaper_exec ev s = Some s' -> handler_event ev = true -> work s' < work s.
Proof.
  intros E Hev. unfold work. destruct ev as [pid|pid|pid|pid| | |pid| | |]; try done; cbn [reaper_exec] in E.
  - destruct (z_pending s) eqn:Ep; [|done]. simplify_eq. cbn. destruct (z_chan s); cbn; lia.
  - destruct (z_pc s), (z_chan s) eqn:Ec; simplify_eq. cbn. lia.
  - destruct (z_pc s) eqn:Epc; try done. destruct (wait _ _) as [[l b]|] eqn:Ew; [|done].
    destruct (decide _) as [Hz|]; [|done]. simplify_eq. cbn. rewrite Epc.
    rewrite size_difference by set_solver. rewrite size_singleton.
    assert (size (z_zombies s) <> 0%nat) by (intros ?%size_empty_inv; set_solver). lia.
  - destruct (decide _) as [[Hp Hz]|]; [|done]. simplify_eq. cbn. rewrite Hp. lia.
Qed.


(** Runs the machine over a list of events. *)
Fixpoint reaper_run (evs : list reaper_event) (s : reaper) : option reaper :=
  match evs with
  | [] => Some s
  | ev :: evs => s ← reaper_exec ev s; reaper_run evs s
  end.
Lemma reaper_run_reaches evs s s' : reaches s -> reaper_run evs s = Some s' -> reaches s'.
Proof.
  revert s. induction evs as [|ev evs IH]; intros s Hs E; cbn in E; [by simplify_eq|].
  destruct (reaper_exec ev s) as [s1|] eqn:E1; [|done]. eapply IH; [|exact E]. by econstructor.
Qed.

(** Two workers end, the second while the handler is at work and its signal is still to
    be delivered; one wake-up is enough, and the second finds nothing to do. *)
Definition demo_reaper : list reaper_event :=
  [Forked 7; Forked 8; Exits 7; Deliver; Receive; Wait4 7; Exits 8; Wait4 8; WaitEnds].

(** [Close] cancels the context and waits for the handler, which can always go on to
    its return. *)
Lemma close_returns s : reaches s -> z_cancelled s = true -> z_pc s <> Ended ->
  exists ev s', (handler_event ev = true \/ ev = Leave) /\ reaper_exec ev s = Some s'.
Proof.
  intros Hs Hc Hpc. destruct (z_pc s) eqn:Epc; [| |done].
  - exists Leave. eexists. split; [by right|]. cbn. by rewrite decide_True.
  - destruct (decide (z_zombies s = ∅)) as [Hz|Hz].
    + exists WaitEnds. eexists. split; [by left|]. cbn. by rewrite decide_True.
    + apply set_choose_L in Hz as [pid Hpid]. exists (Wait4 pid). eexists. split; [by left|].
      cbn [reaper_exec]. rewrite Epc, wait_once. by rewrite decide_True.
Qed.

(** ** Inspect *)

Definition quote_str (s : string) : string :=
  (String (ascii_of_nat 34) EmptyString +:+ s +:+ String (ascii_of_nat 34) EmptyString)%string.

Definition process_Inspect (range_ : gmap Z string -> list (Z * string)) (worker : string) (b : pbox) : string :=
  match list_find (λ kv : Z * string, kv.2 = worker) (range_ (p_children b)) with
  | Some (_, (pid, _)) => ("{" +:+ quote_str "pid" +:+ ":" +:+ pretty pid +:+ "}")%string
  | None => "{}"%string
  end.

(** The uuids are never filled in: no worker is ever found by its uuid. *)
Lemma inspect_finds_none range_ s worker :
  (forall m, range_ m ≡ₚ map_to_list m) -> reaches s -> worker <> ""%string ->
  process_Inspect range_ worker (z_box s) = "{}"%string.
Proof.
  intros Hr Hs Hw. unfold process_Inspect.
  destruct (list_find _ _) as [[i [pid u]]|] eqn:E; [|done].
  apply list_find_Some in E as (Hi & Hu & _). apply list_elem_of_lookup_2 in Hi.
  rewrite Hr, elem_of_map_to_list in Hi. apply (ri_uuid _ (reaches_inv s Hs)) in Hi. cbn in Hu. congruence.
Qed.

(** ** Spool, from the request to the files *)

Section spool.
(** The readers of the archive formats: [gzip] and [zlib] may refuse the data, the
    plain reader does not; [tar] lists the members and says whether the archive ended
    properly. *)
Context {R : Type} (gzip zlib : list byte -> option R) (plain : list byte -> R).
Context (tar : R -> list header * bool).
Context (ok : nat -> bool) (stat : nat -> string -> option bool).

(** The loop over [constructors]. *)
Definition open_archive (data : list byte) : R :=
  match gzip data with
  | Some r => r
  | None => match zlib data with Some r => r | None => plain data end
  end.

Definition fetch (s : service) : result storage_error (list byte) := storage_Spool s.

(** The profile of a request, decoded into the zero value. *)
Definition process_profile (opts : option (list byte)) : result decode_error process.Profile :=
  (profile_DecodeTo (process.DecodeMsg (process.mkProfile "")) opts).1.

Definition process_Spool (cfg : pconfig) (opts : list byte) (name : string) (s : service) (cancelled : bool)
  : option spool_error * unpack_state :=
  Spool ok stat (pc_spoolPath cfg)
    (match process_profile (Some opts) with Ok p => Some (process.Spool p) | Err _ => None end) name
    (match fetch s with Ok data => Some (tar (open_archive data)) | Err _ => None end) cancelled.

(** The files of an archive, and those a list of operations writes. *)
Definition members (target : string) (hs : list header) : list (string * list byte) :=
  map (λ h, (Join [target; h_Name h], h_data h)) (filter (λ h, h_IsDir h = false) hs).
Fixpoint written (l : unpack_state) : list (string * list byte) :=
  match l with
  | [] => []
  | WriteFile path data :: l => (path, data) :: written l
  | _ :: l => written l
  end.

Lemma written_app l k : written (l ++ k) = written l ++ written k.
Proof. induction l as [|[] l IH]; cbn; congruence. Qed.

Lemma unpack_entries_ok target hs l :
  (forall n, ok n = true) -> (forall n d, stat n d <> None) -> Forall (λ h, h_complete h = true) hs ->
  exists l', unpack_entries ok stat target hs true l = (Ok tt, l ++ l') /\ written l' = members target hs.
Proof using Type.
  intros Hok Hst Hc. revert l. induction Hc as [|h hs Hh _ IH]; intros l; cbn [unpack_entries].
  { exists []. by rewrite app_nil_r. }
  assert (exists l1, unpack_entry ok stat target h l = (Ok tt, l ++ l1) /\ written l1 = members target [h]) as (l1 & E1 & W1).
  { unfold unpack_entry, op, members, filter. cbn [list_filter]. destruct (h_IsDir h); cbn.
    - exists [MkdirAll (Join [target; h_Name h])]. by rewrite Hok.
    - set (w := WriteFile (Join [target; h_Name h]) (h_data h)).
      destruct (decide _); [exists [w]; by rewrite Hok, Hh|].
      destruct (stat _ _) as [[]|] eqn:Es; [exists [w]; by rewrite Hok, Hh| |by destruct (Hst _ _ Es)].
      exists [MkdirAll (Dir (Join [target; h_Name h])); w]. by rewrite !Hok, Hh, <- app_assoc. }
  rewrite (act_bind_ok _ _ _ _ _ E1). destruct (IH (l ++ l1)) as (l2 & E2 & W2).
  exists (l1 ++ l2). rewrite E2, app_assoc. split; [done|]. rewrite written_app, W1, W2.
  unfold members. cbn. by destruct (decide _).
Qed.

(** A profile the client encoded is the one decoded. *)
Lemma process_profile_encoded p : str_ok (process.Spool p) = true ->
  process_profile (Some (process.MarshalMsg [] p)) = Ok p.
Proof using Type.
  intros Hp. unfold process_profile, profile_DecodeTo. cbn [fst].
  set (bs := process.MarshalMsg [] p).
  match goal with |- context [process.DecodeMsg _ ?r] =>
    destruct (process_profile_roundtrip (process.mkProfile "") p Hp r []) as (r' & Er & _) end.
  - rewrite app_nil_r. unfold bs, process.MarshalMsg, pending, cat. rewrite AppendString_app. cbn. by rewrite app_nil_r.
  - by rewrite Er.
Qed.

(** [Spool] with every call answered well. *)
Lemma process_Spool_ok cfg opts p name s data hs :
  process_profile (Some opts) = Ok p -> storage_Spool s = Ok data -> tar (open_archive data) = (hs, true) ->
  (forall n, ok n = true) -> (forall n d, stat n d <> None) -> Forall (λ h, h_complete h = true) hs ->
  let dir := Join [if decide (process.Spool p = ""%string) then pc_spoolPath cfg else process.Spool p; name] in
  process_Spool cfg opts name s true = (None, []) /\
  exists l, process_Spool cfg opts name s false = (None, [RemoveAll dir; Mkdir dir] ++ l) /\
    written l = members dir hs.
Proof using Type.
  intros Hp Hs Ht Hok Hst Hc dir. unfold process_Spool, fetch. rewrite Hp, Hs, Ht. unfold Spool. split; [done|].
  destruct (unpack_entries_ok dir hs [RemoveAll dir; Mkdir dir] Hok Hst Hc) as (l & E & W).
  exists l. split; [|done]. fold dir. unfold unpackArchive, op, mbind, act_bind. rewrite !Hok. cbn [app].
  by rewrite E.
Qed.

(** Spooling an application writes the members of its archive: the profile is decoded
    from the request, the archive from the reply of the storage, and when every call
    succeeds each file of the archive is written once, whole and in order, under the
    directory named after the application, which was removed and made anew before; a
    cancelled request touches nothing. *)
Theorem process_spool_writes cfg p name s data hs :
  str_ok (process.Spool p) = true -> storage_Spool s = Ok data -> tar (open_archive data) = (hs, true) ->
  (forall n, ok n = true) -> (forall n d, stat n d <> None) -> Forall (λ h, h_complete h = true) hs ->
  let dir := Join [if decide (process.Spool p = ""%string) then pc_spoolPath cfg else process.Spool p; name] in
  process_Spool cfg (process.MarshalMsg [] p) name s true = (None, []) /\
  exists l, process_Spool cfg (process.MarshalMsg [] p) name s false =
      (None, [RemoveAll dir; Mkdir dir] ++ l) /\ written l = members dir hs.
Proof using Type. intros Hp. apply process_Spool_ok. by apply process_profile_encoded. Qed.
End spool.

Definition demo_member : header := mkHeader "bin/worker" false [] true.
Lemma process_spool_writes_witness :
  exists l, process_Spool (λ _, None) (λ _, None) (λ d, d) (λ _, ([demo_member], true)) (λ _, true) (λ _ _, Some false)
      (process_NewBox ∅) (process.MarshalMsg [] (process.mkProfile "/spool")) "app"
      (mkService true true true (Ok (0, [VBytes (AppendBytes [] [])]))) false =
    (None, [RemoveAll "/spool/app"; Mkdir "/spool/app"] ++ l) /\
    written l = [("/spool/app/bin/worker"%string, [])].
Proof.
  destruct (process_spool_writes (λ _, None) (λ _, None) (λ d, d) (λ _, ([demo_member], true)) (λ _, true)
    (λ _ _, Some false) (process_NewBox ∅) (process.mkProfile "/spool") "app"
    (mkService true true true (Ok (0, [VBytes (AppendBytes [] [])]))) [] [demo_member]) as [_ H].
  - reflexivity.
  - reflexivity.
  - reflexivity.
  - done.
  - done.
  - repeat constructor.
  - exact H.
Defined.
