(* ===== verification/Output.v ===== *)
(** * The output of a worker

    How the output of a worker process reaches its client (isolate/process/process.go
    [newProcess], isolate/initialdispatch.go [OutputCollector], isolate/isolate.go
    [NotifyAboutStart], the [Wait] of isolate/process/box.go): two goroutines copy the
    pipes of the process into one collector while the spawning goroutine announces the
    start through it and the handler of signals closes the pipes.  Every step between two
    synchronisations is a step of the model. *)

From Stdlib Require Import ZArith Lia String Strings.Byte.
From S2P Require Import Prelude.

(** ** [newProcess] *)

(** What [StderrPipe], [StdoutPipe] and [Start] of package os/exec do: whether the pipes
    can be made and the executable started.  A pipe is two descriptors; a started command
    closes the ends of the child, a failed [Start] closes all. *)
Record exec_env := mkExecEnv { x_stderr : bool; x_stdout : bool; x_start : bool }.

(** Whether it is started, the descriptors left open and the goroutines left copying. *)
Definition newProcess (x : exec_env) : bool * Z * nat :=
  if x_stderr x then
    if x_stdout x then
      if x_start x then (true, 2, 2%nat) else (false, 0, 0%nat)
    else (false, 2, 0%nat)
  else (false, 0, 0%nat).

(** A process that is not started leaves nothing behind, unless it was the second pipe
    that could not be made: then the first one stays open. *)
Lemma newProcess_leaks x : (newProcess x).1.1 = false ->
  (newProcess x).1.2 = (if x_stderr x && negb (x_stdout x) then 2 else 0) /\ (newProcess x).2 = 0%nat.
Proof. by destruct x as [[] [] []]. Qed.

(** ** The goroutines *)

Inductive stream := Stderr | Stdout.
#[export] Instance stream_eq : EqDecision stream.
Proof. solve_decision. Defined.

(** A caller of [OutputCollector.Write(p)]: before the compare-and-swap, about to write
    the notification, about to write [p]. *)
Inductive writing := Swap (p : list byte) | Announce (p : list byte) | Emit (p : list byte).

(** A goroutine in [io.Copy]: reading, writing what it read, ended at the end of the
    file or by an error of its reader. *)
Inductive copier := Reading | Writing (w : writing) | AtEOF | Broken.

(** The spawning goroutine in [NotifyAboutStart]. *)
Inductive notifier := Starting | Notifying (w : writing) | Started.

(** A message of the stream: the notification, or data of its source. *)
Inductive message := Notification | Data (s : stream) (p : list byte) | Empty.

Record output := mkOutput {
  o_written : stream -> list byte;        (* what the process wrote *)
  o_pipe : stream -> list byte;           (* what is in the pipe *)
  o_copier : stream -> copier;
  o_notifier : notifier;
  o_notified : bool;                      (* OutputCollector.notified *)
  o_sent : list message;                  (* on the channel of the request *)
  o_exited : bool;                        (* nobody is left who could write *)
  o_waited : bool                         (* Cmd.Wait closed the readers *)
}.

Definition upd {A} (s : stream) (a : A) (f : stream -> A) : stream -> A := λ t, if decide (t = s) then a else f t.

Definition output_start : output :=
  mkOutput (λ _, []) (λ _, []) (λ _, Reading) Starting false [] false false.

(** A step of [OutputCollector.Write]: the next state of the caller, if it goes on, the
    flag and what is sent.  [CompareAndSwapUint32(&o.notified, 0, 1)]; an empty [p] ends
    after the notification. *)
Definition collector_step (msg : list byte -> message) (w : writing) (notified : bool)
  : option writing * bool * list message :=
  match w with
  | Swap p => if notified then (Some (Emit p), true, []) else (Some (Announce p), true, [])
  | Announce p => (if decide (p = []) then None else Some (Emit p), notified, [Notification])
  | Emit p => (None, notified, [msg p])
  end.

(** [HandlerWaits]: the handler of signals calls [Cmd.Wait], which closes the readers; it
    does so once the process itself has exited, at any time after that. *)
Inductive output_event :=
  | ProcessWrites (s : stream) (p : list byte)
  | ProcessExits
  | CopierReads (s : stream) (n : nat)
  | CopierWrites (s : stream)
  | NotifierMoves
  | HandlerWaits.

Definition worker_exec (e : output_event) (o : output) : option output :=
  match e with
  | ProcessWrites s p =>
      if o_exited o then None
      else Some (mkOutput (upd s (o_written o s ++ p) (o_written o)) (upd s (o_pipe o s ++ p) (o_pipe o))
                   (o_copier o) (o_notifier o) (o_notified o) (o_sent o) (o_exited o) (o_waited o))
  | ProcessExits =>
      Some (mkOutput (o_written o) (o_pipe o) (o_copier o) (o_notifier o) (o_notified o) (o_sent o) true (o_waited o))
  | CopierReads s n =>
      match o_copier o s with
      | Reading =>
          let goto c pipe := Some (mkOutput (o_written o) pipe (upd s c (o_copier o)) (o_notifier o)
                                     (o_notified o) (o_sent o) (o_exited o) (o_waited o)) in
          if o_waited o then goto Broken (o_pipe o)
          else match o_pipe o s with
               | [] => if o_exited o then goto AtEOF (o_pipe o) else None
               | _ => if decide (n = 0%nat) then None
                      else goto (Writing (Swap (take n (o_pipe o s)))) (upd s (drop n (o_pipe o s)) (o_pipe o))
               end
      | _ => None
      end
  | CopierWrites s =>
      match o_copier o s with
      | Writing w =>
          let '(next, notified, ms) := collector_step (Data s) w (o_notified o) in
          Some (mkOutput (o_written o) (o_pipe o) (upd s (from_option Writing Reading next) (o_copier o))
                  (o_notifier o) notified (o_sent o ++ ms) (o_exited o) (o_waited o))
      | _ => None
      end
  | NotifierMoves =>
      let go next notified ms := Some (mkOutput (o_written o) (o_pipe o) (o_copier o)
                                   (from_option Notifying Started next) notified (o_sent o ++ ms) (o_exited o) (o_waited o)) in
      match o_notifier o with
      | Starting => go (Some (Swap [])) (o_notified o) []
      | Notifying w =>
          let '(next, notified, ms) := collector_step (λ _, Empty) w (o_notified o) in go next notified ms
      | Started => None
      end
  | HandlerWaits =>
      Some (mkOutput (o_written o) (o_pipe o) (o_copier o) (o_notifier o) (o_notified o) (o_sent o) (o_exited o) true)
  end.

Inductive output_reach : output -> Prop :=
  | output_init : output_reach output_start
  | output_step e o o' : output_reach o -> worker_exec e o = Some o' -> output_reach o'.

(** ** What is delivered *)

Fixpoint delivered (s : stream) (ms : list message) : list byte :=
  match ms with
  | [] => []
  | Data t p :: ms => (if decide (t = s) then p else []) ++ delivered s ms
  | _ :: ms => delivered s ms
  end.
Fixpoint notifications (ms : list message) : nat :=
  match ms with
  | [] => 0
  | Notification :: ms => S (notifications ms)
  | _ :: ms => notifications ms
  end.

Definition payload (w : writing) : list byte := match w with Swap p | Announce p | Emit p => p end.
Definition announces (w : writing) : nat := match w with Announce _ => 1 | _ => 0 end.
Definition inflight (c : copier) : list byte := match c with Writing w => payload w | _ => [] end.
Definition announcing (o : output) : nat :=
  match o_copier o Stderr with Writing w => announces w | _ => 0 end +
  match o_copier o Stdout with Writing w => announces w | _ => 0 end +
  match o_notifier o with Notifying w => announces w | _ => 0 end.

Arguments announcing : simpl never.

(** Past the compare-and-swap. *)
Definition swapped (w : writing) : bool := match w with Swap _ => false | _ => true end.

Record output_inv (o : output) : Prop := {
  oi_bytes s : o_written o s = delivered s (o_sent o) ++ inflight (o_copier o s) ++ o_pipe o s;
  oi_once : (notifications (o_sent o) + announcing o = if o_notified o then 1 else 0)%nat;
  oi_eof s : o_copier o s = AtEOF -> o_pipe o s = [] /\ o_exited o = true;
  oi_swapped s w : o_copier o s = Writing w -> swapped w = true -> o_notified o = true;
  oi_notifier : match o_notifier o with
                | Starting => True
                | Notifying w => payload w = [] /\ (swapped w = true -> o_notified o = true)
                | Started => o_notified o = true
                end
}.

Lemma delivered_app s l k : delivered s (l ++ k) = delivered s l ++ delivered s k.
Proof. induction l as [|[|t p|] l IH]; cbn; [done|done| |done]. by rewrite IH, app_assoc. Qed.
Lemma notifications_app l k : notifications (l ++ k) = (notifications l + notifications k)%nat.
Proof. induction l as [|[|t p|] l IH]; cbn; lia. Qed.
Lemma upd_eq {A} s (a : A) f : upd s a f s = a.
Proof. unfold upd. by rewrite decide_True. Qed.
Lemma upd_ne {A} s t (a : A) f : t <> s -> upd s a f t = f t.
Proof. intros H. unfold upd. by rewrite decide_False. Qed.


Lemma output_inv_start : output_inv output_start.
Proof. by split. Qed.

Definition ann (c : copier) : nat := match c with Writing w => announces w | _ => 0 end.
Lemma announcing_upd o s c wr pi fl se ex wa :
  (announcing (mkOutput wr pi (upd s c (o_copier o)) (o_notifier o) fl se ex wa) + ann (o_copier o s) =
   announcing o + ann c)%nat.
Proof. unfold announcing. cbn [o_copier o_notifier]. destruct s; rewrite upd_eq, upd_ne by done; unfold ann; lia. Qed.

(** Case analysis on whether a stream is the one that changed. *)
Ltac at_stream t s :=
  destruct (decide (t = s)) as [->|?]; [rewrite ?upd_eq in *|rewrite ?(upd_ne s t) in * by done]; cbn in *.

Lemma inv_process_writes s p o : output_inv o -> o_exited o = false ->
  output_inv (mkOutput (upd s (o_written o s ++ p) (o_written o)) (upd s (o_pipe o s ++ p) (o_pipe o))
    (o_copier o) (o_notifier o) (o_notified o) (o_sent o) (o_exited o) (o_waited o)).
Proof.
  intros [Hb Ho He Hs Hn] Hx. split; cbn; try done.
  - intros t. at_stream t s; [|done]. by rewrite Hb, <- !app_assoc.
  - intros t Ht. destruct (He t Ht) as [_ H]. congruence.
Qed.

(** A copier that moves without sending anything: it keeps what it carries. *)
Lemma inv_copier_moves s c pipe o : output_inv o ->
  inflight (o_copier o s) ++ o_pipe o s = inflight c ++ pipe s -> (∀ t, t <> s -> pipe t = o_pipe o t) ->
  ann c = ann (o_copier o s) -> (c = AtEOF -> pipe s = [] /\ o_exited o = true) ->
  (∀ w, c = Writing w -> swapped w = true -> o_notified o = true) ->
  output_inv (mkOutput (o_written o) pipe (upd s c (o_copier o)) (o_notifier o) (o_notified o) (o_sent o)
    (o_exited o) (o_waited o)).
Proof.
  intros [Hb Ho He Hs Hn] Hk Hp Ha Hc Hw. split; cbn; try done.
  - intros t. at_stream t s; [by rewrite Hb, Hk|by rewrite Hb, Hp].
  - pose proof (announcing_upd o s c (o_written o) pipe (o_notified o) (o_sent o) (o_exited o) (o_waited o)). lia.
  - intros t. at_stream t s; [done|]. intros Ht. rewrite Hp by done. by apply He.
  - intros t w. at_stream t s; [apply Hw|apply Hs].
Qed.

(** What a step of the collector does. *)
Lemma collector_spec msg w fl next fl' ms : collector_step msg w fl = (next, fl', ms) ->
  (∀ p, msg p <> Notification) -> (swapped w = true -> fl = true) ->
  fl' = true /\
  (notifications ms + from_option announces 0 next + (if fl then 1 else 0) = 1 + announces w)%nat /\
  (∀ w', next = Some w' -> payload w' = payload w) /\
  (∀ t, (∀ p, delivered t [msg p] = []) -> delivered t ms = []) /\
  (∀ t, (∀ p, delivered t [msg p] = p) -> delivered t ms ++ from_option payload [] next = payload w).
Proof.
  intros E Hm Hs. destruct w as [p|p|p]; cbn in *.
  - destruct fl; injection E as <- <- <-; cbn; (split_and!; [done|done|by intros w' [= <-]|done|done]).
  - rewrite Hs in * by done. case_decide; injection E as <- <- <-; cbn; subst; (split_and!; [done|done|by intros w' [= <-]|done|done]).
  - rewrite Hs in * by done. injection E as <- <- <-. pose proof (Hm p) as Hp.
    split_and!; [done|by destruct (msg p)|done|intros t H; apply H|intros t H; rewrite app_nil_r; apply H].
Qed.

Lemma inv_copier_writes s w next fl ms o : output_inv o -> o_copier o s = Writing w ->
  collector_step (Data s) w (o_notified o) = (next, fl, ms) ->
  output_inv (mkOutput (o_written o) (o_pipe o) (upd s (from_option Writing Reading next) (o_copier o))
    (o_notifier o) fl (o_sent o ++ ms) (o_exited o) (o_waited o)).
Proof.
  intros [Hb Ho He Hs Hn] Hw Hc. pose proof (Hb s) as Hbs.
  destruct (collector_spec _ _ _ _ _ _ Hc ltac:(done) (Hs s w Hw)) as (-> & Hx & _ & Hd & Hp).
  pose proof (announcing_upd o s (from_option Writing Reading next) (o_written o) (o_pipe o) true (o_sent o ++ ms)
    (o_exited o) (o_waited o)) as Ha. rewrite Hw in Ha, Hbs. split; cbn.
  - intros t. rewrite delivered_app. at_stream t s.
    + rewrite Hbs, <- (Hp s); [by destruct next; rewrite <- ?app_assoc|]. intros p. cbn. by rewrite decide_True, app_nil_r.
    + rewrite Hd, app_nil_r; [apply Hb|]. intros p. cbn. by rewrite decide_False.
  - rewrite notifications_app. destruct next; cbn in *; lia.
  - intros t. at_stream t s; [by destruct next|apply He].
  - done.
  - destruct (o_notifier o); [done| |done]. by destruct Hn.
Qed.

Lemma inv_notifier_writes w next fl ms o : output_inv o -> o_notifier o = Notifying w ->
  collector_step (λ _, Empty) w (o_notified o) = (next, fl, ms) ->
  output_inv (mkOutput (o_written o) (o_pipe o) (o_copier o) (from_option Notifying Started next) fl (o_sent o ++ ms)
    (o_exited o) (o_waited o)).
Proof.
  intros [Hb Ho He Hs Hn] Hw Hc. rewrite Hw in Hn. destruct Hn as [Hp0 Hsw].
  destruct (collector_spec _ _ _ _ _ _ Hc ltac:(done) Hsw) as (-> & Hx & Hpay & Hd & _). split; cbn; try done.
  - intros t. rewrite delivered_app, (Hd t), app_nil_r by done. apply Hb.
  - rewrite notifications_app. unfold announcing in *. cbn. rewrite Hw in Ho. destruct next; cbn in *; lia.
  - destruct next as [w'|]; cbn; [|done]. split; [by rewrite (Hpay w')|done].
Qed.

Lemma output_inv_step e o o' : output_inv o -> worker_exec e o = Some o' -> output_inv o'.
Proof.
  intros Hi. destruct e as [s p| |s n|s| |]; cbn [worker_exec].
  - destruct (o_exited o) eqn:E; [done|]. intros [= <-]. rewrite <- E. by apply inv_process_writes.
  - intros [= <-]. destruct Hi as [Hb Ho He Hs Hn]. split; cbn; try done. intros t Ht. by destruct (He t Ht).
  - destruct (o_copier o s) eqn:Ec; try done. cbv zeta. destruct (o_waited o) eqn:Ew.
    { intros [= <-]. rewrite <- Ew. apply inv_copier_moves; rewrite ?Ec; done. }
    destruct (o_pipe o s) as [|x l] eqn:Ep.
    + destruct (o_exited o) eqn:Ex; [|done]. intros [= <-]. rewrite <- Ex, <- Ew.
      apply inv_copier_moves; rewrite ?Ec, ?Ep; done.
    + case_decide; [done|]. intros [= <-]. rewrite <- Ew. apply inv_copier_moves; rewrite ?Ec; try done.
      * rewrite upd_eq, Ep. cbn [inflight payload app]. by rewrite take_drop.
      * intros t Ht. by rewrite upd_ne.
      * by intros w [= <-].
  - destruct (o_copier o s) eqn:Ec; try done. destruct (collector_step (Data s) w (o_notified o)) as [[next fl] ms] eqn:E.
    intros [= <-]. by eapply inv_copier_writes.
  - destruct (o_notifier o) as [|w|] eqn:En; [|destruct (collector_step _ w _) as [[next fl] ms] eqn:E|done]; intros [= <-].
    + destruct Hi as [Hb Ho He Hs Hn]. split; cbn; rewrite ?app_nil_r; try done.
      unfold announcing in *. by rewrite En in Ho.
    + by eapply inv_notifier_writes.
  - intros [= <-]. destruct Hi as [Hb Ho He Hs Hn]. by split.
Qed.

Lemma output_reach_inv o : output_reach o -> output_inv o.
Proof. induction 1 as [|e o o' _ IH E]; [apply output_inv_start|by eapply output_inv_step]. Qed.

(** ** Properties *)


Fixpoint output_run (es : list output_event) (o : output) : option output :=
  match es with
  | [] => Some o
  | e :: es => o' ← worker_exec e o; output_run es o'
  end.
Lemma output_run_reach es o o' : output_reach o -> output_run es o = Some o' -> output_reach o'.
Proof.
  revert o. induction es as [|e es IH]; intros o Ho; cbn; [by intros [= <-]|].
  destruct (worker_exec e o) as [o1|] eqn:E; [|done]. cbn. apply IH. by eapply output_step.
Qed.

Definition demo_run (es : list output_event) : output := default output_start (output_run es output_start).
Lemma demo_run_reach es : output_reach (demo_run es).
Proof.
  unfold demo_run. destruct (output_run es output_start) as [o|] eqn:E; [|constructor].
  by eapply output_run_reach; [constructor|].
Qed.

(** Output of the process before its start is announced, and its end. *)
Definition demo_output_events : list output_event :=
  [ProcessWrites Stdout [x61; x62]; CopierReads Stdout 1; CopierWrites Stdout; CopierWrites Stdout; CopierWrites Stdout;
   NotifierMoves; NotifierMoves; NotifierMoves; CopierReads Stdout 5; CopierWrites Stdout; CopierWrites Stdout;
   ProcessExits; CopierReads Stdout 1; CopierReads Stderr 1; HandlerWaits].


(** The handler of signals closes the pipes at the exit of the process, whatever is left
    in them: the end of the output is lost. *)
Lemma output_lost_at_wait :
  let o := demo_run [NotifierMoves; NotifierMoves; NotifierMoves; ProcessWrites Stderr [x61; x62]; CopierReads Stderr 1;
    CopierWrites Stderr; CopierWrites Stderr; ProcessExits; HandlerWaits; CopierReads Stderr 1; CopierReads Stdout 1] in
  o_copier o Stderr = Broken /\ delivered Stderr (o_sent o) = [x61] /\ o_written o Stderr = [x61; x62].
Proof. split_and!; reflexivity. Qed.

(** A goroutine that finds the flag set by another does not wait for the notification
    itself: data can go out before it. *)
Lemma data_before_notification :
  o_sent (demo_run [ProcessWrites Stderr [x61]; ProcessWrites Stdout [x62]; CopierReads Stderr 1; CopierReads Stdout 1;
    CopierWrites Stderr; CopierWrites Stdout; CopierWrites Stdout; CopierWrites Stderr; CopierWrites Stderr]) =
  [Data Stdout [x62]; Notification; Data Stderr [x61]].
Proof. reflexivity. Qed.
