(* ===== verification/Session.v ===== *)
(** * Sessions, end to end

    The parts composed: the bytes a client sends on a connection (Conn, Dispatch), the box
    they reach with the profile in them decoded (DockerBox, ProcessBox), what the box
    answers and writes (SpawnOp, Docker, CodeStorage), and the bytes the client reads
    (Stream). *)

From Stdlib Require Import ZArith Lia Strings.Byte.
From S2P Require Import Prelude CodeStorage Process ProcessBox DockerProfile Docker DockerBox Fwd Msgp MsgpFacts MsgpSafe Stream Dispatch SpawnOp Conn.

Section served.
Context (boxes : gset string).

(** A connection at the top of its loop that has not seen channel [ch]. *)
Record awaits (s : conn) (ch : Z) : Prop := {
  aw_pc : c_pc s = HRecv;
  aw_sess : c_sess s !! ch = None;
  aw_new : c_highest s < ch;
  aw_range : 0 <= ch < 2 ^ 64
}.

(** The connection after the request of channel [ch] was accepted: the box [t] was called. *)
Definition accepted (ch : Z) (t : string) (req : request) (r : Reader) (s : conn) : conn :=
  let '(d, o) := match req with
                 | ReqSpool _ _ => (spoolCancelationDispatch, OpSpool new_spool)
                 | ReqSpawn _ _ _ _ _ => (spawnDispatch, OpSpawn new_spawn)
                 end in
  mkConn r (<[ch := d]> (c_sess s)) ch HRecv (c_done s) (<[ch := o]> (c_ops s)) (c_out s)
    (<[ch := (t, req)]> (c_jobs s)).

Definition req_opts (req : request) : list byte :=
  match req with ReqSpool opts _ => opts | ReqSpawn opts _ _ _ _ => opts end.
Definition req_id (req : request) : Z :=
  match req with ReqSpool _ _ => spool | ReqSpawn _ _ _ _ _ => spawn end.

(** Three moves of the handler take a request from the wire to its box. *)
Lemma request_accepted s ch bs rest req t :
  awaits s ch -> dreads (readRequest (req_id req)) bs req ->
  profile_Type (req_opts req) = Ok t -> t ∈ boxes ->
  pending (c_rd s) = header 3 ch (req_id req) ++ bs ++ rest ->
  exists r, crun boxes [EHandler; EHandler; EHandler] s = Some (accepted ch t req r s) /\ pending r = rest.
Proof.
  intros [Hpc Hs Hnew Hr] Hd Ht Hb Hp.
  assert (0 <= req_id req < 2 ^ 64) as Hid by (by destruct req).
  destruct (reads_next 3 ch (req_id req) ltac:(lia) Hr Hid _ _ Hp) as (r1 & E1 & P1 & _).
  destruct (Hd r1 rest P1) as (r2 & E2 & P2 & _). exists r2. split; [|done].
  unfold crun. cbn [fold_left mbind option_bind]. unfold exec at 3, handler. rewrite Hpc.
  unfold recv. rewrite E1. unfold Get. cbn [with_rd c_sess c_highest c_rd]. rewrite Hs.
  destruct (Z.leb_spec ch (c_highest s)); [lia|]. cbn [mbind option_bind Z.eqb Pos.eqb].
  unfold exec at 2, handler. cbn [goto c_pc]. unfold dispatch, Handle, initial_Handle.
  cbn [goto with_highest with_rd c_rd]. rewrite E2.
  destruct req as [opts name|opts name exe args env]; cbn [req_opts] in Ht.
  - unfold onSpool, find_box. rewrite Ht, decide_True by done. done.
  - unfold onSpawn, find_box. rewrite Ht, decide_True by done. done.
Qed.
End served.

(** ** The output of a worker *)

(** A worker that was announced, and the chunks it writes. *)
Definition worker_events (ch : Z) (chunks : list (list byte)) : list cevent :=
  ESpawn ch (SpawnReturn SpawnOk) :: ESpawn ch (Output []) :: map (λ p, ESpawn ch (Output p)) chunks.

Definition worker_replies (chunks : list (list byte)) : list reply :=
  RWrite 0 [] :: map (RWrite 0) chunks.

Lemma crun_cons boxes e es s s' : exec boxes e s = Some s' -> crun boxes (e :: es) s = crun boxes es s'.
Proof. intros E. unfold crun. cbn. by rewrite E. Qed.
Lemma crun_app boxes es es' s s' : crun boxes es s = Some s' -> crun boxes (es ++ es') s = crun boxes es' s'.
Proof. intros E. unfold crun in *. by rewrite fold_left_app, E. Qed.

Lemma spawn_move_eq ch e s o o' rs : c_ops s !! ch = Some (OpSpawn o) ->
  spawn_exec (c_done s) e o = Some o' -> so_sent o' = so_sent o ++ rs ->
  closes rs = false ->
  spawn_move ch e s = Some (mkConn (c_rd s) (c_sess s) (c_highest s) (c_pc s) (c_done s)
    (<[ch := OpSpawn o']> (c_ops s)) (c_out s ++ map (pair ch) rs) (c_jobs s)).
Proof.
  intros Ho E Hs Hc. unfold spawn_move. rewrite Ho, E, Hs, drop_app_length, sends_eq, Hc. done.
Qed.

(** The chunks of an announced worker go out one message each, in order. *)
Lemma worker_output boxes ch s o chunks :
  c_ops s !! ch = Some (OpSpawn o) -> so_notified o = true ->
  exists o', so_sent o' = so_sent o ++ map (RWrite 0) chunks /\
    crun boxes (map (λ p, ESpawn ch (Output p)) chunks) s =
    Some (mkConn (c_rd s) (c_sess s) (c_highest s) (c_pc s) (c_done s)
      (<[ch := OpSpawn o']> (c_ops s)) (c_out s ++ map (pair ch) (map (RWrite 0) chunks)) (c_jobs s)).
Proof.
  revert s o. induction chunks as [|p chunks IH]; intros s o Ho Hn; cbn [map].
  { exists o. rewrite !app_nil_r. split; [done|]. unfold crun. cbn. f_equal. destruct s. cbn in *.
    by rewrite insert_id. }
  assert (spawn_exec (c_done s) (Output p) o = Some (say [RWrite 0 p] (set_notified true o))) as E.
  { unfold spawn_exec. cbn. unfold collect. by rewrite Hn. }
  pose proof (spawn_move_eq ch (Output p) s o _ [RWrite 0 p] Ho E eq_refl eq_refl) as M.
  rewrite (crun_cons boxes (ESpawn ch (Output p)) _ s _ M).
  match goal with |- context [crun boxes _ ?s1] =>
    destruct (IH s1 (say [RWrite 0 p] (set_notified true o)) (lookup_insert_eq _ _ _) eq_refl) as (o' & So & ->) end.
  exists o'. split; [by rewrite So; cbn; rewrite <- app_assoc|]. cbn. rewrite insert_insert_eq, <- app_assoc. done.
Qed.

(** What the client reads of an announced worker. *)
Lemma worker_read ch chunks (r : Reader) : 0 <= ch < 2 ^ 64 -> Forall (λ p, zlen p < 2 ^ 32) chunks ->
  let l := map (pair ch) (worker_replies chunks) in
  pending r = concat (map reply_frame l) ->
  exists r', loop (zlen l) (λ acc, x ← read_reply; mret (acc ++ [x])) [] r = (Ok l, r') /\ pending r' = [].
Proof.
  intros Hch Hc l Hr. apply replies_read; [|done]. unfold l, worker_replies. cbn [map]. constructor; [done|].
  rewrite map_map. apply Forall_map. eapply Forall_impl; [exact Hc|]. intros p Hp. done.
Qed.

Lemma worker_events_run boxes ch s chunks : c_ops s !! ch = Some (OpSpawn new_spawn) ->
  exists s', crun boxes (worker_events ch chunks) s = Some s' /\
    c_out s' = c_out s ++ map (pair ch) (worker_replies chunks) /\ c_rd s' = c_rd s /\
    c_sess s' = c_sess s /\ c_jobs s' = c_jobs s.
Proof.
  intros Ho. unfold worker_events.
  pose proof (spawn_move_eq ch (SpawnReturn SpawnOk) s new_spawn (set_pc SpOffer (set_process new_spawn)) []
    Ho eq_refl eq_refl eq_refl) as M1.
  rewrite (crun_cons boxes (ESpawn ch (SpawnReturn SpawnOk)) _ s _ M1).
  match goal with |- context [crun boxes _ ?s1] =>
    pose proof (spawn_move_eq ch (Output []) s1 (set_pc SpOffer (set_process new_spawn))
      (say [RWrite 0 []] (set_notified true (set_pc SpOffer (set_process new_spawn)))) [RWrite 0 []]
      (lookup_insert_eq _ _ _) eq_refl eq_refl eq_refl) as M2;
    rewrite (crun_cons boxes (ESpawn ch (Output [])) _ s1 _ M2) end.
  match goal with |- context [crun boxes _ ?s2] =>
    destruct (worker_output boxes ch s2 _ chunks (lookup_insert_eq _ _ _) eq_refl) as (o' & _ & ->) end.
  eexists. split; [done|]. cbn. by rewrite app_nil_r, <- app_assoc.
Qed.

(** ** A worker in a container *)

Section docker.
Context (range_ : gmap string string -> list (string * string)).

(** The call of the Docker box for a request that reached it. *)
Definition docker_call (dm : daemon) (job : string * request)
  : option (result spawn_error process * gmap string process * list effect) :=
  match job with
  | (_, ReqSpawn opts name executable args env) =>
      Some (spawn_request range_ dm opts name executable args env ∅)
  | _ => None
  end.

End docker.

(** A profile of the Docker isolate as a client sends it, and a container that prints. *)
Definition demo_docker_opts : list byte :=
  AppendString (AppendString (AppendString (AppendString (AppendMapHeader [] 2) "type") "docker") "registry") "reg".
Definition demo_output : stream :=
  let all := frame x01 (str_bytes "hello") ++ frame x02 (str_bytes "!") in [take 10 all; drop 10 all].
Definition demo_session (bs : list byte) : conn :=
  newConnection (NewReader DefaultReaderSize (map (λ b, (b, [])) bs) EOF false).

Lemma objs_string s : zlen (str_bytes s) < 2 ^ 32 -> objs true 1 (AppendString [] s).
Proof.
  intros Hs. destruct (wire_string s Hs) as [Hp Hx]. rewrite <- (app_nil_r (AppendString [] s)).
  eapply objs_prefix; [done|done|constructor].
Qed.

Lemma demo_docker_obj : profile_obj demo_docker_opts.
Proof.
  split; [|by vm_compute].
  change demo_docker_opts with (AppendMapHeader [] 2 ++ AppendString [] "type" ++ AppendString [] "docker" ++
    AppendString [] "registry" ++ AppendString [] "reg").
  apply (objs_prefix _ _ 4); [apply (wire_map_header 2); lia|by vm_compute|].
  apply (objs_app _ 1 3); [by apply objs_string|]. apply (objs_app _ 1 2); [by apply objs_string|].
  apply (objs_app _ 1 1); by apply objs_string.
Qed.

Definition demo_docker_decoded : Profile := Eval vm_compute in
  match (decodeProfile (Some demo_docker_opts)).1 with Ok p => p | Err _ => demo_docker_profile end.
Definition demo_docker_daemon : daemon := {| dm_create := Some "c1"%string; dm_start := true |}.
Definition demo_docker_request : list byte :=
  header 3 1 spawn ++ spawn_args demo_docker_opts "app" "/w" [("--uuid", "u1")]%string [].


(** ** An application spooled *)

Section process_box.
Context {R : Type} (gzip zlib : list byte -> option R) (plain : list byte -> R).
Context (tar : R -> list Process.header * bool).
Context (ok : nat -> bool) (stat : nat -> string -> option bool).

(** The call of the process box for a request that reached it and was not cancelled. *)
Definition process_call (cfg : pconfig) (svc : service) (job : string * request)
  : option (option Process.spool_error * unpack_state) :=
  match job with
  | (_, ReqSpool opts name) => Some (process_Spool gzip zlib plain tar ok stat cfg opts name svc false)
  | _ => None
  end.

Lemma spool_answered boxes ch t opts name r s :
  exists s', crun boxes [ESpoolReturn ch None] (accepted ch t (ReqSpool opts name) r s) = Some s' /\
    c_out s' = c_out s ++ [(ch, RClose replySpoolOk)] /\ c_sess s' !! ch = None /\ c_rd s' = r.
Proof.
  unfold crun. cbn [fold_left mbind option_bind exec]. unfold spool_return, accepted. cbn [c_ops].
  rewrite lookup_insert_eq. cbn [sp_running new_spool]. unfold op_send. cbn [with_op c_ops].
  rewrite lookup_insert_eq. rewrite send_eq. eexists. split; [done|]. cbn. by rewrite lookup_delete_eq.
Qed.

End process_box.

Definition demo_process_opts : list byte :=
  AppendString (AppendString (AppendString (AppendString (AppendMapHeader [] 2) "type") "process") "spool") "/spool".
Definition demo_spool_request : list byte := header 3 1 spool ++ spool_args demo_process_opts "app".
Definition demo_service : service := mkService true true true (Ok (0, [VBytes (AppendBytes [] [])])).

Lemma demo_process_obj : profile_obj demo_process_opts.
Proof.
  split; [|by vm_compute].
  change demo_process_opts with (AppendMapHeader [] 2 ++ AppendString [] "type" ++ AppendString [] "process" ++
    AppendString [] "spool" ++ AppendString [] "/spool").
  apply (objs_prefix _ _ 4); [apply (wire_map_header 2); lia|by vm_compute|].
  apply (objs_app _ 1 3); [by apply objs_string|]. apply (objs_app _ 1 2); [by apply objs_string|].
  apply (objs_app _ 1 1); by apply objs_string.
Qed.

