(* ===== verification/PortoSession.v ===== *)
(** * An application in the Porto box, end to end

    The bytes of a spool request and of a spawn request on one connection, the calls of
    the Porto box they lead to, the journal that hands the layers from one to the other,
    and the replies. *)

From Stdlib Require Import ZArith Lia Strings.Byte Ascii String.
From S2P Require Import Prelude Json MtnStore Journal PortoUtil World GoPath PortoContainer PortoBox PortoBoxFacts PortoLoop Fwd Msgp MsgpFacts Stream Dispatch SpawnOp Conn CodecFacts Profiles Session.

(** ** An engine that does what it is asked *)

(** No call fails, and an address can be had. *)
Definition willing (w : world) : Prop := ∀ i c,
  match w_answers w i c with
  | Fails _ => False
  | GotAlloc _ => True
  | _ => match c with UseAllocCall _ _ _ => False | _ => True end
  end.

(** With such an engine [m] returns a value that satisfies [Q]. *)
Definition works {A} (m : W A) (Q : A -> Prop) : Prop :=
  ∀ w, willing w -> ∃ a w', m w = (Ok a, w') /\ w_answers w' = w_answers w /\ Q a.

Lemma willing_same w w' : w_answers w' = w_answers w -> willing w -> willing w'.
Proof. unfold willing. by intros ->. Qed.

Lemma works_ret {A} (a : A) (Q : A -> Prop) : Q a -> works (mret a) Q.
Proof. intros H w _. by exists a, w. Qed.
Lemma works_bind {A B} (m : W A) (k : A -> W B) P Q : works m P -> (∀ a, P a -> works (k a) Q) -> works (m ≫= k) Q.
Proof.
  intros Hm Hk w Hw. destruct (Hm w Hw) as (a & w1 & E1 & A1 & Ha).
  destruct (Hk a Ha w1 (willing_same _ _ A1 Hw)) as (b & w2 & E2 & A2 & Hb).
  exists b, w2. unfold mbind, act_bind. rewrite E1, E2. split_and!; [done|congruence|done].
Qed.
Lemma works_weaken {A} (m : W A) (P Q : A -> Prop) : works m P -> (∀ a, P a -> Q a) -> works m Q.
Proof. intros H HQ w Hw. destruct (H w Hw) as (a & w' & E & Aw & Ha). eauto 10. Qed.
Lemma works_invoke c : works (invoke c)
  (λ a, match c with UseAllocCall _ _ _ => ∃ x, a = GotAlloc x | _ => True end).
Proof.
  intros w Hw. specialize (Hw (length (w_log w)) c). unfold invoke.
  destruct (w_answers w (length (w_log w)) c) eqn:E; try done; eexists _, _; (split; [done|]); (split; [done|]);
    destruct c; try done; eauto.
Qed.
Lemma works_do c : works (do c) (λ _, True).
Proof. eapply works_bind; [apply works_invoke|]. intros a _. by apply works_ret. Qed.
(** What is tried succeeds. *)
Lemma works_try {A} (m : W A) : works m (λ _, True) -> works (try m) (eq None).
Proof.
  intros H w Hw. destruct (H w Hw) as (a & w' & E & Aw & _). exists None, w'. unfold try. by rewrite E.
Qed.
(** A handler of errors is not reached. *)
Lemma works_handle {A} (m : W A) (h : porto_error -> W A) Q : works m Q ->
  works (λ w, match m w with (Ok a, w') => (Ok a, w') | (Err e, w') => h e w' end) Q.
Proof. intros H w Hw. destruct (H w Hw) as (a & w' & E & Aw & Ha). exists a, w'. by rewrite E. Qed.

Create HintDb engine.
#[export] Hint Resolve works_do works_try : engine.
Ltac step := eapply works_bind; [eauto with engine|intros ? ?].

Lemma works_CreateRootVolume c : works (CreateRootVolume c) (λ _, True).
Proof. unfold CreateRootVolume. cbv zeta. step. step. subst. by apply works_ret. Qed.
Lemma works_extra_loop c root vps vols : Forall (λ vp, Target vp <> ""%string) vps ->
  works (extra_loop c root vps vols) (λ _, True).
Proof.
  intros Hvps. revert vols. induction Hvps as [|vp vps Hvp _ IH]; intros vols; cbn [extra_loop]; [by apply works_ret|].
  rewrite decide_False by done. cbv zeta. eapply works_bind; [apply works_handle, works_do|intros _ _].
  eapply works_bind; [case_decide; [by apply (works_ret _ (λ _, True))|]|intros v _].
  { eapply works_bind; [apply works_handle, works_do|intros _ _]. by apply works_ret. }
  eapply works_bind; [apply works_handle, works_do|intros _ _]. apply IH.
Qed.
Lemma works_link id v : works (link_or_destroy id v) (λ _, True).
Proof.
  apply (works_handle (Volume_Link v) (λ e, _ ← try (do (Destroy id)); throw e)). unfold Volume_Link.
  step. step. by apply works_ret.
Qed.
Lemma works_link_all id vols : works (link_all id vols) (λ _, True).
Proof.
  induction vols as [|v vols IH]; cbn [link_all]; [by apply works_ret|].
  eapply works_bind; [apply works_link|intros v' _]. eapply works_bind; [exact IH|intros vs _]. by apply works_ret.
Qed.
Lemma works_set_properties id props : works (set_properties id props) (λ _, True).
Proof. induction props as [|[k v] props IH]; cbn [set_properties]; [by apply works_ret|]. step. exact IH. Qed.
Lemma works_network c props : works (network_properties c props) (λ _, True).
Proof.
  unfold network_properties. destruct (c_MtnEnable c); cbn [negb]; [|by apply works_ret]. case_decide; [|by apply works_ret].
  eapply works_bind; [apply works_invoke|]. intros a [x ->]. by apply works_ret.
Qed.
Lemma works_CreateContainer range_ c root extra : works (CreateContainer range_ c root extra) (λ _, True).
Proof.
  unfold CreateContainer. step.
  apply (works_handle (setup_container range_ c root extra) (λ e, _ ← try (do (Destroy (c_ID c))); throw e)).
  unfold setup_container. eapply works_bind; [apply works_network|intros na _].
  eapply works_bind; [apply works_set_properties|intros _ _]. eapply works_bind; [apply works_link|intros r _].
  eapply works_bind; [apply works_link_all|intros e _]. by apply works_ret.
Qed.

Lemma works_newContainer range_ c : Forall (λ vp, Target vp <> ""%string) (ExtraVolumes (e_Profile (c_exec c))) ->
  works (newContainer range_ c) (λ _, True).
Proof.
  intros Hv. unfold newContainer. eapply works_bind; [apply works_CreateRootVolume|intros v _].
  eapply works_bind; [apply works_handle, works_extra_loop, Hv|intros ex _].
  eapply works_bind; [apply works_handle, works_CreateContainer|intros [[r e] al] _]. by apply works_ret.
Qed.

(** ** Spooling and spawning with it *)

(** The sums of the downloaded layers are right. *)
Definition honest (dir : string) (ls : list Layer) (w : world) : Prop :=
  ∀ i l, l ∈ ls -> w_answers w i (Sha256 (Join [dir; Digest l])) = GotData (Digest l).

Lemma helper_loop_works dir ls layers w : willing w -> honest dir ls w ->
  ∃ w', helper_loop dir ls layers w = (Ok (layers ++ map helper_name ls), w') /\ w_answers w' = w_answers w.
Proof.
  revert layers w. induction ls as [|l ls IH]; intros layers w Hw Hh; cbn [helper_loop].
  { exists w. by rewrite app_nil_r. }
  destruct (works_do (DownloadHelper (helper_timeout l) (TorrentId l)) w Hw) as ([] & w1 & E1 & A1 & _).
  rewrite (act_bind_ok _ _ _ _ _ E1). cbv zeta.
  assert (invoke (Sha256 (Join [dir; Digest l])) w1 =
    (Ok (GotData (Digest l)), mkWorld (w_log w1 ++ [Sha256 (Join [dir; Digest l])]) (w_answers w1))) as E2.
  { unfold invoke. by rewrite A1, Hh by apply list_elem_of_here. }
  rewrite (act_bind_ok _ _ _ _ _ E2). cbn [data]. rewrite decide_True by done. set (w2 := mkWorld _ _).
  assert (works (import_layer (helper_name l) (Join [dir; Digest l])) (λ _, True)) as Hi.
  { unfold import_layer. step. subst. by apply works_ret. }
  destruct (Hi w2) as ([] & w3 & E3 & A3 & _); [by eapply willing_same; [|exact Hw]|].
  assert (w_answers w3 = w_answers w) as A by (rewrite A3; exact A1).
  destruct (IH (layers ++ [helper_name l]) w3) as (w4 & E4 & A4).
  - by eapply willing_same; [|exact Hw].
  - intros i l' Hl. rewrite A. apply Hh. by apply list_elem_of_further.
  - exists w4. match goal with |- context [(mret () ≫= ?k) w2] => change ((mret () ≫= k) w2) with (k tt w2) end. cbv beta.
    rewrite (act_bind_ok _ _ _ _ _ E3), E4, <- app_assoc. split; [done|congruence].
Qed.

(** What the journal says of an application that was spooled. *)
Definition layers_of (p : Profile) : string := String.concat ";" (map helper_name (ExtendedInfo_Layers p)).

Lemma layers_of_some p : ExtendedInfo_Layers p <> [] -> layers_of p <> ""%string.
Proof.
  unfold layers_of. destruct (ExtendedInfo_Layers p) as [|l ls]; [done|]. intros _. cbn [map String.concat].
  assert (helper_name l <> ""%string) as H.
  { unfold helper_name. by destruct (DigestType l). }
  destruct (map helper_name ls); [done|]. destruct (helper_name l); [done|]. done.
Qed.

Lemma Spool_works name p b w : willing w -> honest (cfg_Layers (b_config b)) (ExtendedInfo_Layers p) w ->
  ExtendedInfo_Layers p <> [] -> b_dhEnable b = true ->
  ∃ w', PortoBox.Spool name p b w = (None, set_journal (InsertManifestLayers name (layers_of p) (b_journal b)) b, w') /\
    w_answers w' = w_answers w.
Proof.
  intros Hw Hh Hl Hd. unfold PortoBox.Spool, get_layers, via_helper.
  assert ((0 <? zlen (ExtendedInfo_Layers p)) = true) as ->.
  { apply Z.ltb_lt. unfold zlen. destruct (ExtendedInfo_Layers p); [done|]. cbn. lia. }
  rewrite Hd. cbn [andb]. unfold getLayersViaDownloadHelper.
  destruct (works_do PortoConnect w Hw) as ([] & w1 & E1 & A1 & _).
  destruct (helper_loop_works (cfg_Layers (b_config b)) (ExtendedInfo_Layers p) [] w1) as (w2 & E2 & A2).
  { by eapply willing_same; [|exact Hw]. } { intros i l. rewrite A1. apply Hh. }
  assert (with_porto (helper_loop (cfg_Layers (b_config b)) (ExtendedInfo_Layers p) []) w =
    (Ok (map helper_name (ExtendedInfo_Layers p)), (do PortoClose w2).2)) as E.
  { unfold with_porto. rewrite (act_bind_ok _ _ _ _ _ E1), E2. done. }
  rewrite (act_bind_ok _ _ _ _ _ E). destruct (close_conns w2) as [A3 _]. set (w3 := (do PortoClose w2).2) in *.
  cbn [mret act_ret]. change (String.concat ";" (map helper_name (ExtendedInfo_Layers p))) with (layers_of p).
  destruct (_ && _); [|exists w3; split; [done|congruence]].
  destruct (works_do (BindAllocsCall (get (Network p) "netid")) w3) as ([] & w4 & E4 & A4 & _).
  { eapply willing_same; [|exact Hw]. congruence. }
  rewrite E4. exists w4. split; [done|congruence].
Qed.

Section spawned.
Context (range_ : gmap string string -> list (string * string)).

Lemma spawn_container_works cc b w : willing w ->
  Forall (λ vp, Target vp <> ""%string) (ExtraVolumes (e_Profile (c_exec cc))) ->
  ∃ pr w', spawn_container range_ cc b w = (Ok pr, set_containers (<[c_ID cc := pr]> (b_containers b)) b, w') /\
    k_containerID pr = c_ID cc /\ Start (c_ID cc) ∈ w_log w' /\ w_answers w' = w_answers w.
Proof.
  intros Hw Hv. destruct (spawn_container range_ cc b w) as [[r b'] w'] eqn:E.
  pose proof (steady_spawn_container range_ cc b w) as [A _]. rewrite E in A. cbn in A.
  pose proof (spawn_container_effect range_ _ _ _ _ _ _ E) as H.
  destruct (works_newContainer range_ cc Hv w Hw) as (pr & w1 & E1 & A1 & _). unfold spawn_container in E. rewrite E1 in E.
  destruct (works_do (Start (k_containerID pr)) w1) as ([] & w2 & E2 & A2 & _); [by eapply willing_same; [|exact Hw]|].
  unfold container_start in E. rewrite E2 in E. injection E as <- <- <-. destruct H as (H1 & H2 & H3).
  eexists _, _. rewrite <- H1 at 1. done.
Qed.

Lemma Spawn_works p c b queue w : willing w -> Forall (λ vp, Target vp <> ""%string) (ExtraVolumes p) ->
  queue < 10 -> GetManifestLayers (s_Name c) (b_journal b) <> ""%string ->
  let id := addRootNamespacePrefix b (spawn_id c) in
  ∃ pr w', PortoBox.Spawn range_ (Some p) c true b queue w =
      (Ok pr, set_containers (<[id := pr]> (b_containers b)) b, queue, w') /\
    k_containerID pr = id /\ Start id ∈ w_log w'.
Proof.
  intros Hw Hv Hq Hl id. unfold PortoBox.Spawn. destruct (Z.ltb_spec 10 (queue + 1)); [lia|].
  rewrite decide_False by done. destruct (works_do PortoConnect w Hw) as ([] & w1 & E1 & A1 & _). rewrite E1. cbv zeta.
  destruct (spawn_container_works (spawn_config b (GetManifestLayers (s_Name c) (b_journal b)) p c) b w1)
    as (pr & w2 & E2 & H1 & H2 & _); [by eapply willing_same; [|exact Hw]|done|].
  rewrite E2. exists pr, (do PortoClose w2).2. replace (queue + 1 - 1) with queue by lia. split; [done|]. split; [done|].
  rewrite do_log. apply elem_of_app. by left.
Qed.
End spawned.

(** ** The session *)

(** The bytes of the profile, decoded. *)
Definition porto_decode (opts : list byte) : option Profile :=
  match (profile_DecodeTo Profile_DecodeMsg (Some opts)).1 with Ok p => Some p | Err _ => None end.

(** The calls of the Porto box for requests that reached it. *)
Definition porto_spool (b : portoBox) (w : world) (job : string * request) : option (option porto_error * portoBox * world) :=
  match job with
  | (_, ReqSpool opts name) =>
      Some (match porto_decode opts with
            | Some p => PortoBox.Spool name p b w
            | None => (Some (OtherError "decode"), b, w)
            end)
  | _ => None
  end.
Definition porto_spawn range_ (b : portoBox) (queue : Z) (w : world) (job : string * request)
  : option (result spawn_error container * portoBox * Z * world) :=
  match job with
  | (_, ReqSpawn opts name executable args env) =>
      Some (PortoBox.Spawn range_ (porto_decode opts) (PortoBox.mkSpawn name executable args env) true b queue w)
  | _ => None
  end.

(** A spool request that was answered: the handler waits for the next channel. *)
Lemma spool_answered_next boxes ch ch' t opts name r s : awaits s ch -> c_sess s !! ch' = None -> ch < ch' < 2 ^ 64 ->
  ∃ s', crun boxes [ESpoolReturn ch None] (accepted ch t (ReqSpool opts name) r s) = Some s' /\
    c_out s' = c_out s ++ [(ch, RClose replySpoolOk)] /\ awaits s' ch' /\ c_rd s' = r.
Proof.
  intros Ha Hs Hch. unfold crun. cbn [fold_left mbind option_bind exec]. unfold spool_return, accepted. cbn [c_ops].
  rewrite lookup_insert_eq. cbn [sp_running new_spool]. unfold op_send. cbn [with_op c_ops].
  rewrite lookup_insert_eq, send_eq. eexists. split; [done|]. cbn. split; [done|]. split; [|done].
  pose proof (aw_range _ _ Ha). split; cbn; [done| |lia|lia].
  rewrite lookup_delete_ne, lookup_insert_ne by lia. done.
Qed.


(** A profile with one layer, an engine that serves it, and a box with a download helper. *)
Definition demo_porto_opts : list byte :=
  AppendMapHeader [] 2 ++ AppendString [] "type" ++ AppendString [] "porto" ++ AppendString [] "extended_info" ++
  AppendMapHeader [] 1 ++ AppendString [] "layers" ++ AppendArrayHeader [] 1 ++ AppendMapHeader [] 2 ++
  AppendString [] "digest" ++ AppendString [] "abc" ++ AppendString [] "digest_type" ++ AppendString [] "sha256".
Definition demo_porto_decoded : Profile := Eval vm_compute in
  default (mkProfile "" "" "" ∅ [] "" [] ∅ ∅ []) (porto_decode demo_porto_opts).
Definition demo_porto_world : world :=
  mkWorld [] (λ _ c, match c with
    | Sha256 _ => GotData "abc"
    | UseAllocCall _ _ _ => GotAlloc no_alloc
    | _ => Done
    end).
Definition demo_porto_box : portoBox := mkBox "porto" demo_config false (newJournal "u") ∅ true false false "".
Definition demo_porto_wire : list byte :=
  header 3 1 spool ++ spool_args demo_porto_opts "app:1" ++
  header 3 2 spawn ++ spawn_args demo_porto_opts "app:1" "/w" [("--uuid", "u1")]%string [].

Lemma demo_porto_obj : profile_obj demo_porto_opts.
Proof.
  split; [|by vm_compute]. unfold demo_porto_opts.
  apply (objs_prefix _ _ 4); [apply (wire_map_header 2); lia|by vm_compute|].
  apply (objs_app _ 1 3); [by apply objs_string|]. apply (objs_app _ 1 2); [by apply objs_string|].
  apply (objs_app _ 1 1); [by apply objs_string|].
  apply (objs_prefix _ _ 2); [apply (wire_map_header 1); lia|by vm_compute|].
  apply (objs_app _ 1 1); [by apply objs_string|].
  apply (objs_prefix _ _ 1); [apply (wire_array_header 1); lia|by vm_compute|].
  apply (objs_prefix _ _ 4); [apply (wire_map_header 2); lia|by vm_compute|].
  apply (objs_app _ 1 3); [by apply objs_string|]. apply (objs_app _ 1 2); [by apply objs_string|].
  apply (objs_app _ 1 1); by apply objs_string.
Qed.

