(* ===== verification/Suite.v ===== *)
(** * The specification tests of the boxes (isolate/testsuite/boxsuite.go)

    [BoxSuite] is what every box is meant to pass: [TestSpawn] spools an application,
    spawns a worker that prints its arguments and its environment, inspects it, and checks
    what comes out.  Here it is an executable test of a record of operations, and the three
    boxes are shown to pass it.  The arguments are one map that the test shares with the
    box: the Docker and Porto boxes rewrite the endpoint in it, and the test compares with
    what they left there. *)

From Stdlib Require Import ZArith Lia Ascii String Strings.Byte.
From S2P Require Import Prelude Json Duration MtnStore Journal PortoUtil World GoPath PortoContainer PortoBox PortoBoxFacts PortoAdmin PortoSession Config Profiles CodeStorage DockerProfile Docker DockerPull DockerBox Process ProcessBox.

(** ** Go's [strings] *)

(** [strings.Split(s, sep)] for a separator of one byte. *)
Fixpoint Split (c : byte) (l : list byte) : list (list byte) :=
  match l with
  | [] => [[]]
  | b :: l =>
      if decide (b = c) then [] :: Split c l
      else match Split c l with w :: ws => (b :: w) :: ws | [] => [[b]] end
  end.

(** ** The test *)

Inductive failure :=
  | NoBox | SpoolFailed | InspectFailed | InspectEmpty | NilProcess
  | NoArgsLine | ArgsNumber | ArgsValue | EnvLine | EnvValue.

(** [for i := 0; i < len(cargs); i += 2]: the arguments come as keys and values. *)
Fixpoint check_pairs (args : gmap string string) (cargs : list (list byte)) : bool :=
  match cargs with
  | k :: v :: cargs => bool_decide (getk args (bytes_str k) = bytes_str v) && check_pairs args cargs
  | [] => true
  | [_] => false
  end.

(** The first line: the arguments; [args] is the map as the box left it. *)
Definition check_args (args : gmap string string) (line : list byte) : option failure :=
  let cargs := Split x20 (Trim x0a line) in
  if decide (length cargs = (size args * 2)%nat)
  then if check_pairs args cargs then None else Some ArgsValue
  else Some ArgsNumber.

(** The other lines: the environment.  A last line without its newline comes with
    [io.EOF] and is dropped.  Every turn takes a line, so the length is fuel enough. *)
Fixpoint read_env (fuel : nat) (data : list byte) (cenv : gmap string string) : result failure (gmap string string) :=
  match fuel with
  | O => Ok cenv
  | S fuel =>
      match ReadBytes data with
      | (_, None) => Ok cenv
      | (envline, Some data) =>
          match Split x3d (take (length envline - 1) envline) with
          | [k; v] => read_env fuel data (<[bytes_str k := bytes_str v]> cenv)
          | _ => Err EnvLine
          end
      end
  end.

Definition check_env (env cenv : gmap string string) : bool :=
  forallb (λ kv, bool_decide (getk cenv kv.1 = kv.2)) (map_to_list env).

(** What the main goroutine checks on the output. *)
Definition check_output (args env : gmap string string) (output : list byte) : list failure :=
  match ReadBytes output with
  | (_, None) => [NoArgsLine]
  | (line, Some data) =>
      match check_args args line with
      | Some f => [f]
      | None =>
          match read_env (S (length data)) data ∅ with
          | Err f => [f]
          | Ok cenv => if check_env env cenv then [] else [EnvValue]
          end
      end
  end.

(** A box under test: its Spool, and its Spawn: whether a process is returned, the shared
    arguments and environment after it, what the worker writes, and the Inspect of the box
    from then on. *)
Record suite_box := mkSuite {
  sb_Spool : string -> bool;
  sb_Spawn : string -> string -> gmap string string -> gmap string string ->
    bool * gmap string string * gmap string string * list byte * (string -> option string)
}.

(** The goroutine: the error of [Spawn] is overwritten by that of [Inspect]; killing the
    process of a spawn that failed is a nil dereference. *)
Definition check_worker (spawned : bool) (inspected : option string) : list failure :=
  match inspected with
  | None => [InspectFailed]
  | Some data =>
      (if decide (data = ""%string) then [InspectEmpty] else []) ++ (if spawned then [] else [NilProcess])
  end.

(** [TestSpawn] for any arguments and environment, with what failed. *)
Definition run_TestSpawn (b : suite_box) (args env : gmap string string) : list failure :=
  if sb_Spool b "worker" then
    let '(spawned, args, env, output, Inspect) := sb_Spawn b "worker" "worker.sh" args env in
    check_worker spawned (Inspect "some_uuid") ++ check_output args env output
  else [SpoolFailed].

Definition suite_args : gmap string string :=
  {["--uuid" := "some_uuid"; "--locator" := "127.0.0.1:10053";
    "--endpoint" := "/var/run/cocaine.sock"; "--app" := "appname"]}%string.
Definition suite_env : gmap string string := {["enva" := "a"; "envb" := "b"]}%string.
Definition TestSpawn (b : suite_box) : list failure := run_TestSpawn b suite_args suite_env.

(** [SetUpSuite], the test and [TearDownSuite]: [None] when the suite is skipped; whether
    the box was closed. *)
Definition run_suite (skip : string) (box : option suite_box) : option (list failure * bool) :=
  if decide (skip = ""%string) then
    match box with
    | Some b => Some (TestSpawn b, true)
    | None => Some ([NoBox], false)
    end
  else None.

(** ** The worker *)

Definition pack (kv : string * string) : string := (kv.1 ++ "=" ++ kv.2)%string.

(** Words with spaces between them. *)
Fixpoint unwords (c : byte) (ws : list (list byte)) : list byte :=
  match ws with
  | [] => []
  | [w] => w
  | w :: ws => w ++ c :: unwords c ws
  end.

(** What [echo $@] and [printenv] write. *)
Definition worker_text (argv : list string) (shown : list (string * string)) : list byte :=
  unwords x20 (map str_bytes argv) ++ x0a :: concat (map (λ kv, str_bytes (pack kv) ++ [x0a]) shown).

(** Words the shell passes on as they are: letters, digits and [- . / : _]; the first one
    is not taken for an option of [echo]. *)
Definition word_char (b : byte) : bool :=
  between 48 58 b || between 65 90 b || between 97 122 b || between 45 47 b || is_byte x5f b.
Definition word (s : string) : Prop := s <> ""%string /\ forallb word_char (str_bytes s) = true.
Definition echo_option (s : string) : bool :=
  match str_bytes s with
  | x2d :: l => negb (bool_decide (l = [])) && forallb (λ b, is_byte x6e b || is_exp b) l
  | _ => false
  end.
Definition words (argv : list string) : Prop := Forall word argv /\ forall w, head argv = Some w -> echo_option w = false.

(** Variables that are printed on a line of their own, each once. *)
Definition variables (env : list (string * string)) : Prop :=
  NoDup env.*1 /\ Forall (λ kv, word kv.1 /\ forallb word_char (str_bytes kv.2) = true) env.

(** The shell that runs the script ([ScriptWorkerSh]) with the arguments and the variables
    it is started with.  [own]: variables that the shell or the container sets for itself. *)
Definition runs_worker (own : gset string) (run : list string -> list string -> list byte) : Prop :=
  forall argv env, words argv -> variables env -> Forall (λ kv, kv.1 ∉ own) env ->
  exists shown, variables shown /\ (forall kv, kv ∈ env -> kv ∈ shown) /\
    run argv (map pack env) = worker_text argv shown.

(** ** The checks on the text of a worker *)

Lemma Split_word c w : c ∉ w -> Split c w = [w].
Proof.
  induction w as [|b w IH]; [done|]. rewrite not_elem_of_cons. intros [Hb Hw]. cbn.
  by rewrite decide_False, IH by auto.
Qed.
Lemma Split_cons c w l : c ∉ w -> Split c (w ++ c :: l) = w :: Split c l.
Proof.
  induction w as [|b w IH]; cbn.
  - intros _. by rewrite decide_True.
  - rewrite not_elem_of_cons. intros [Hb Hw]. by rewrite decide_False, IH by auto.
Qed.
Lemma Split_unwords c ws : ws <> [] -> Forall (λ w, c ∉ w) ws -> Split c (unwords c ws) = ws.
Proof.
  intros Hne Hws. induction Hws as [|w ws Hw Hws IH]; [done|]. destruct ws as [|w' ws]; [by apply Split_word|].
  change (unwords c (w :: w' :: ws)) with (w ++ c :: unwords c (w' :: ws)). rewrite Split_cons, IH by done. done.
Qed.

Lemma trim_left_none c l : c ∉ l -> trim_left c l = l.
Proof. destruct l as [|b l]; [done|]. rewrite not_elem_of_cons. intros [Hb _]. cbn. by rewrite decide_False by auto. Qed.
Lemma Trim_line l : no_newline l -> Trim x0a (l ++ [x0a]) = l.
Proof.
  intros Hl. unfold Trim. destruct l as [|b l]; [done|].
  assert (b <> x0a) as Hb by (intros ->; apply Hl; left).
  cbn [app trim_left]. rewrite decide_False by done. change (b :: l ++ [x0a]) with ((b :: l) ++ [x0a]).
  rewrite reverse_app, reverse_singleton. cbn [app trim_left]. rewrite decide_True by done.
  rewrite trim_left_none; [apply reverse_involutive|]. by rewrite elem_of_reverse.
Qed.
Lemma ReadBytes_line l rest : no_newline l -> ReadBytes (l ++ x0a :: rest) = (l ++ [x0a], Some rest).
Proof.
  unfold no_newline. induction l as [|b l IH]; cbn.
  - intros _. by rewrite decide_True.
  - rewrite not_elem_of_cons. intros [Hb Hl]. by rewrite decide_False, IH by auto.
Qed.

(** Characters of words are none of the separators. *)
Lemma word_char_not c l : word_char c = false -> forallb word_char l = true -> c ∉ l.
Proof. intros Hc Hl Hin. rewrite forallb_forall in Hl. apply list_elem_of_In, Hl in Hin. congruence. Qed.

Lemma pack_bytes kv : str_bytes (pack kv) = str_bytes kv.1 ++ x3d :: str_bytes kv.2.
Proof. unfold pack. by rewrite !str_bytes_app. Qed.

Lemma word_line s : forallb word_char (str_bytes s) = true -> no_newline (str_bytes s).
Proof. by apply word_char_not. Qed.

(** The environment as it was printed is read back. *)
Lemma read_env_shown shown fuel cenv :
  Forall (λ kv, word kv.1 /\ forallb word_char (str_bytes kv.2) = true) shown -> (length shown < fuel)%nat ->
  read_env fuel (concat (map (λ kv, str_bytes (pack kv) ++ [x0a]) shown)) cenv =
  Ok (fold_left (λ m kv, <[kv.1 := kv.2]> m) shown cenv).
Proof.
  intros Hs. revert fuel cenv. induction Hs as [|kv shown [[_ Hk] Hv] _ IH]; intros fuel cenv Hf;
    (destruct fuel as [|fuel]; [cbn in Hf; lia|]); [done|].
  cbn [map concat read_env fold_left]. rewrite <- app_assoc. cbn [app]. rewrite ReadBytes_line.
  - replace (length (_ ++ [x0a]) - 1)%nat with (length (str_bytes (pack kv))) by (rewrite length_app; cbn; lia).
    rewrite take_app_length, pack_bytes, Split_cons, Split_word by (by eapply word_char_not).
    rewrite !bytes_str_bytes. apply IH. cbn in Hf. lia.
  - rewrite pack_bytes. apply no_newline_app. split; [by apply word_line|].
    intros [?|?]%elem_of_cons; [done|]. by eapply word_line.
Qed.

Lemma check_pairs_range args l : (forall kv, kv ∈ l -> args !! kv.1 = Some kv.2) ->
  check_pairs args (map str_bytes (concat (map (λ kv, [kv.1; kv.2]) l))) = true.
Proof.
  induction l as [|kv l IH]; intros Hl; [done|]. cbn [map concat app check_pairs].
  rewrite !bytes_str_bytes, IH, andb_true_r by (intros; apply Hl; by right). apply bool_decide_eq_true.
  unfold getk. by rewrite (Hl kv) by left.
Qed.

Lemma flat_length {A} (l : list (A * A)) : length (concat (map (λ kv, [kv.1; kv.2]) l)) = (length l * 2)%nat.
Proof. induction l; cbn; lia. Qed.

Lemma unwords_line ws : Forall no_newline ws -> no_newline (unwords x20 ws).
Proof.
  induction 1 as [|w ws Hw _ IH]; [by intros ?%elem_of_nil|]. destruct ws as [|w' ws]; [done|].
  change (unwords x20 (w :: w' :: ws)) with (w ++ [x20] ++ unwords x20 (w' :: ws)).
  rewrite !no_newline_app. split_and!; [done| |done]. by intros [=]%list_elem_of_singleton.
Qed.

(** All checks pass on what the worker prints of the arguments it was given and an
    environment that has the variables asked for. *)
Lemma check_output_worker args env l shown : args <> ∅ -> l ≡ₚ map_to_list args ->
  Forall word (concat (map (λ kv, [kv.1; kv.2]) l)) -> variables shown ->
  (forall k v, env !! k = Some v -> (k, v) ∈ shown) ->
  check_output args env (worker_text (concat (map (λ kv, [kv.1; kv.2]) l)) shown) = [].
Proof.
  intros Hne Hl Hw [Hnd Hs] Henv. unfold check_output, worker_text. set (argv := concat _) in *.
  assert (Forall (λ w, forallb word_char w = true) (map str_bytes argv)) as Hc.
  { apply Forall_map. eapply Forall_impl; [exact Hw|]. by intros s [_ ?]. }
  assert (no_newline (unwords x20 (map str_bytes argv))) as Hn.
  { apply unwords_line. eapply Forall_impl; [exact Hc|]. intros w. by apply word_char_not. }
  rewrite ReadBytes_line by done. unfold check_args. rewrite Trim_line by done.
  assert (length argv = (size args * 2)%nat) as Hlen.
  { unfold argv. by rewrite flat_length, Hl, length_map_to_list. }
  assert (size args <> 0)%nat by (by rewrite map_size_non_empty_iff).
  rewrite Split_unwords; [|by intros ->%map_eq_nil; cbn in Hlen; lia|].
  2:{ eapply Forall_impl; [exact Hc|]. intros w. by apply word_char_not. }
  rewrite decide_True by (rewrite length_map; lia). unfold argv. rewrite check_pairs_range.
  2:{ intros [k v]. rewrite Hl. by rewrite elem_of_map_to_list. }
  rewrite read_env_shown; [|done|].
  - rewrite fold_insert, (right_id_L ∅ _) by done. enough (check_env env (list_to_map shown) = true) as -> by done.
    apply forallb_forall. intros [k v] Hin%list_elem_of_In. rewrite elem_of_map_to_list in Hin.
    apply bool_decide_eq_true. unfold getk. cbn [fst snd]. by rewrite (elem_of_list_to_map_1 _ _ v) by auto.
  - clear. induction shown as [|kv shown IH]; cbn; [lia|]. rewrite !length_app. cbn. lia.
Qed.

(** ** The properties of a Porto container, off the calls that set them *)

Definition set_call (id : string) (props : gmap string string) (c : call) : gmap string string :=
  match c with
  | SetProperty id' k v => if decide (id' = id) then <[k := v]> props else props
  | _ => props
  end.
Definition props_of (id : string) (w : world) : gmap string string := fold_left (set_call id) (w_log w) ∅.

Section props.
Context (id : string).

Definition sets (c : call) : Prop := (match c with SetProperty _ _ _ => true | _ => false end) = true.

(** When [m] returns, how it changed the properties. *)
Definition tracks {A} (m : W A) (Q : gmap string string -> A -> gmap string string -> Prop) : Prop :=
  forall w a w', m w = (Ok a, w') -> Q (props_of id w) a (props_of id w').
(** [m] sets none. *)
Definition quiet {A} (m : W A) : Prop := tracks m (λ s _ s', s' = s).

Lemma quiet_avoids {A} (m : W A) : avoids sets m -> quiet m.
Proof.
  intros Hm w a w' E. destruct (Hm w) as (l & L & F). rewrite E in L. cbn in L. unfold props_of. rewrite L, fold_left_app.
  clear L. induction F as [|c l Hc _ IH]; [done|]. cbn. by destruct c.
Qed.
Lemma tracks_bind {A B} (m : W A) (k : A -> W B) P Q : tracks m P ->
  (forall a, tracks (k a) (Q a)) -> tracks (m ≫= k) (λ s b s', exists a s1, P s a s1 /\ Q a s1 b s').
Proof.
  intros Hm Hk w b w'. unfold mbind, act_bind. destruct (m w) as [[a|e] w1] eqn:E; [|done]. intros Ek.
  exists a, (props_of id w1). split; [by apply Hm|by eapply Hk].
Qed.
Lemma tracks_weaken {A} (m : W A) (P Q : gmap string string -> A -> gmap string string -> Prop) :
  tracks m P -> (forall s a s', P s a s' -> Q s a s') -> tracks m Q.
Proof. intros H HQ w a w' E. by apply HQ, H. Qed.
Lemma quiet_bind {A B} (m : W A) (k : A -> W B) Q : quiet m -> (forall a, tracks (k a) Q) -> tracks (m ≫= k) Q.
Proof.
  intros Hm Hk. eapply tracks_weaken; [by eapply (tracks_bind _ _ _ (λ _, Q))|]. by intros s b s' (a & ? & -> & ?).
Qed.
Lemma bind_quiet {A B} (m : W A) (k : A -> W B) (R : gmap string string -> gmap string string -> Prop) :
  tracks m (λ s _ s', R s s') -> (forall a, quiet (k a)) -> tracks (m ≫= k) (λ s _ s', R s s').
Proof.
  intros Hm Hk. eapply tracks_weaken; [by eapply (tracks_bind _ _ _ (λ _ s _ s', s' = s))|].
  by intros s b s' (a & ? & ? & ->).
Qed.
(** A handler of errors does not count. *)
Lemma tracks_handle {A} (m : W A) (h : porto_error -> W A) Q : tracks m Q ->
  (forall e w, is_ok (h e w).1 = false) ->
  tracks (λ w, match m w with (Ok a, w') => (Ok a, w') | (Err e, w') => h e w' end) Q.
Proof.
  intros Hm Hh w a w'. destruct (m w) as [[b|e] w1] eqn:E; [intros [= <- <-]; by apply Hm|].
  intros Eh. specialize (Hh e w1). by rewrite Eh in Hh.
Qed.

(** A cleanup that ends with the error. *)
Lemma fails_after {A B} (m : W A) e w : is_ok ((_ ← try m; throw e : W B) w).1 = false.
Proof. unfold mbind, act_bind, try. by destruct (m w) as [[]]. Qed.

Lemma tracks_set_properties l : tracks (set_properties id l)
  (λ s _ s', s' = fold_left (λ m kv, <[kv.1 := kv.2]> m) l s).
Proof.
  induction l as [|[k v] l IH]; cbn [set_properties fold_left]; [by intros w a w' [= <- <-]|].
  assert (tracks (do (SetProperty id k v)) (λ s _ s', s' = <[k := v]> s)) as Hd.
  { intros w [] w' E. apply do_ok in E as ->. unfold props_of. cbn [w_log]. rewrite fold_left_app. cbn.
    by rewrite decide_True. }
  eapply tracks_weaken; [eapply (tracks_bind _ _ _ (λ _, _) Hd (λ _, IH))|]. by intros s a s' (? & ? & -> & ->).
Qed.

Lemma quiet_do c : ~ sets c -> quiet (do c).
Proof. intros H. by apply quiet_avoids, avoids_do. Qed.
Lemma quiet_ret {A} (a : A) : quiet (mret a).
Proof. apply quiet_avoids, avoids_ret. Qed.
Lemma avoids_Volume_Destroy v : avoids sets (Volume_Destroy v).
Proof. by apply avoids_Destroy. Qed.

Lemma quiet_CreateRootVolume c : quiet (CreateRootVolume c).
Proof.
  apply quiet_avoids. unfold CreateRootVolume. cbv zeta. apply avoids_bind; [by apply avoids_do|intros _].
  apply avoids_bind; [by apply avoids_try, avoids_do|]. intros [e|]; [|apply avoids_ret].
  apply avoids_bind; [apply avoids_try, avoids_Volume_Destroy|intros _]. apply avoids_throw.
Qed.
Lemma quiet_or_clean {A} vols (m : W A) : quiet m -> quiet (or_clean vols m).
Proof. intros Hm w a w' E%or_clean_ok. by apply (Hm w a w'). Qed.
Lemma quiet_extra c root vps vols : quiet (extra_loop c root vps vols).
Proof.
  revert vols. induction vps as [|vp vps IH]; intros vols; cbn [extra_loop]; [apply quiet_ret|].
  case_decide.
  { apply quiet_avoids, avoids_bind; [by apply avoids_destroy_all|intros _]. apply avoids_throw. }
  cbv zeta. apply quiet_bind; [by apply quiet_or_clean, quiet_do|intros _].
  apply quiet_bind; [case_decide; [apply quiet_ret|]|].
  { apply quiet_bind; [by apply quiet_or_clean, quiet_do|intros _]. apply quiet_ret. }
  intros v. apply quiet_bind; [by apply quiet_or_clean, quiet_do|intros _]. apply IH.
Qed.
Lemma quiet_link i v : quiet (link_or_destroy i v).
Proof.
  apply (tracks_handle (Volume_Link v) (λ e, _ ← try (do (Destroy i)); throw e)); [|intros; apply fails_after].
  apply quiet_avoids. unfold Volume_Link. apply avoids_bind; [by apply avoids_do|intros _].
  apply avoids_bind; [by apply avoids_try, avoids_do|intros _]. apply avoids_ret.
Qed.
Lemma quiet_link_all i vols : quiet (link_all i vols).
Proof.
  induction vols as [|v vols IH]; cbn [link_all]; [apply quiet_ret|].
  apply quiet_bind; [apply quiet_link|intros v']. apply quiet_bind; [exact IH|intros vs]. apply quiet_ret.
Qed.

(** The network changes neither the command nor the environment. *)
Lemma network_keeps c props k : k ∉ ["net"; "ip"; "hostname"]%string ->
  tracks (network_properties c props) (λ s na s', s' = s /\ na.1 !! k = props !! k).
Proof.
  intros Hk. rewrite !not_elem_of_cons in Hk. destruct Hk as (H1 & H2 & H3 & _). unfold network_properties.
  destruct (c_MtnEnable c); cbn [negb]; [|intros w a w' [= <- <-]; cbn [fst]; by rewrite lookup_insert_ne].
  case_decide; [|by intros w a w' [= <- <-]].
  apply quiet_bind; [by apply quiet_avoids, avoids_invoke|].
  intros [] w b w'; try done. intros [= <- <-]. cbn [fst]. by rewrite !lookup_insert_ne.
Qed.
End props.

(** A container that was made has the command and the environment of its configuration. *)
Lemma newContainer_props range_ c k : (forall m, range_ m ≡ₚ map_to_list m) -> k ∉ ["net"; "ip"; "hostname"]%string ->
  tracks (c_ID c) (PortoContainer.newContainer range_ c) (λ _ _ s', exists root_path v,
    container_properties range_ c root_path !! k = v /\ (is_Some v -> s' !! k = v)).
Proof.
  intros Hr Hk. unfold PortoContainer.newContainer. apply quiet_bind; [apply quiet_CreateRootVolume|intros root].
  apply quiet_bind.
  { apply (tracks_handle _ (CreateExtraVolumes c root) (λ e, _ ← try (Volume_Destroy root); throw e)); [apply quiet_extra|intros; apply fails_after]. }
  intros extra. apply bind_quiet; [|intros [[r e] al]; apply quiet_ret].
  apply (tracks_handle _ (CreateContainer range_ c root extra) (λ e, _ ← try (Volume_Destroy root); throw e)); [|intros; apply fails_after].
  unfold CreateContainer. apply quiet_bind; [by apply quiet_do|intros _].
  apply (tracks_handle _ (setup_container range_ c root extra) (λ e, _ ← try (do (Destroy (c_ID c))); throw e)); [|intros; apply fails_after].
  unfold setup_container. eapply tracks_weaken.
  { eapply tracks_bind; [by apply (network_keeps _ _ _ k)|intros na].
    eapply (bind_quiet _ _ _ (λ s s', s' = fold_left (λ m kv, <[kv.1 := kv.2]> m) (range_ na.1) s)); [apply tracks_set_properties|intros _].
    apply quiet_bind; [apply quiet_link|intros r]. apply quiet_bind; [apply quiet_link_all|intros e]. apply quiet_ret. }
  intros s _ s' (na & s1 & [-> Hna] & ->). exists (v_path root). eexists. split; [reflexivity|]. intros [v Hv].
  rewrite Hv in Hna |- *. rewrite fold_insert by (rewrite Hr; apply NoDup_fst_map_to_list).
  apply lookup_union_Some_l. apply elem_of_list_to_map_1; [rewrite Hr; apply NoDup_fst_map_to_list|].
  by rewrite Hr, elem_of_map_to_list.
Qed.

(** ** What the boxes start *)

Definition flat (l : list (string * string)) : list string := concat (map (λ kv, [kv.1; kv.2]) l).

(** Arguments and variables that reach the worker as they are. *)
Definition plain_args (args : gmap string string) : Prop :=
  args <> ∅ /\ map_Forall (λ k v, word k /\ word v /\ echo_option k = false) args.
Definition plain_env (own : gset string) (env : gmap string string) : Prop :=
  map_Forall (λ k v, word k /\ forallb word_char (str_bytes v) = true /\ k ∉ own) env.

Section launch.
Context (range_ : gmap string string -> list (string * string)).
Context (range_all : forall m, range_ m ≡ₚ map_to_list m).
Context (own : gset string) (run : list string -> list string -> list byte) (Hrun : runs_worker own run).

Lemma range_Forall (P : string -> string -> Prop) m : map_Forall P m -> Forall (λ kv, P kv.1 kv.2) (range_ m).
Proof using range_all.
  intros H. apply Forall_forall. intros [k v]. rewrite range_all, elem_of_map_to_list. apply H.
Qed.
Lemma range_variables env : plain_env own env ->
  variables (range_ env) /\ Forall (λ kv, kv.1 ∉ own) (range_ env).
Proof using range_all.
  intros He%range_Forall. split; [split|].
  - rewrite range_all. apply NoDup_fst_map_to_list.
  - eapply Forall_impl; [exact He|]. cbn. tauto.
  - eapply Forall_impl; [exact He|]. cbn. tauto.
Qed.

Lemma flat_words args : plain_args args -> words (flat (range_ args)).
Proof using range_all.
  intros [Hne H%range_Forall]. split.
  - induction H as [|kv l (Hk & Hv & _) _ IH]; [constructor|]. unfold flat. cbn [map concat app].
    rewrite !Forall_cons. auto.
  - unfold flat. destruct H as [|kv l (_ & _ & Ho) _]; [done|]. by intros w [= <-].
Qed.

(** A worker started with the arguments of [args] in any order and at least the variables
    of [env] writes what the test expects. *)
Lemma launch_passes args env env' : plain_args args -> plain_env own env' -> env ⊆ env' ->
  check_output args env (run (flat (range_ args)) (map pack (range_ env'))) = [].
Proof using range_all Hrun.
  intros Ha He Hsub. destruct (range_variables env' He) as [Hv Ho].
  destruct (Hrun (flat (range_ args)) (range_ env') (flat_words args Ha) Hv Ho) as (shown & Hs & Hin & ->).
  apply check_output_worker; [apply Ha|apply range_all|apply (flat_words args Ha)|done|].
  intros k v Hk. apply Hin. rewrite range_all, elem_of_map_to_list. by eapply lookup_weaken.
Qed.

(** *** The process box *)

(** [spool]: the application from the storage, unpacked ([process_Spool]); [started]: the
    pid of the child. *)
Definition process_under_test (rangeZ : gmap Z string -> list (Z * string))
    (spool : list byte -> string -> option Process.spool_error * unpack_state)
    (cfg : pconfig) (opts : list byte) (started : option Z) (b : pbox) (queue : Z) : suite_box := {|
  sb_Spool name := match (spool opts name).1 with None => true | Some _ => false end;
  sb_Spawn name executable args env :=
    let p := match process_profile (Some opts) with Ok p => process.Spool p | Err _ => ""%string end in
    let cmd := spawn_command range_ (pc_spoolPath cfg) p name executable args env in
    let '(r, b, _) := Process.Spawn (is_ok (process_profile (Some opts))) true false started b queue in
    (is_ok r, args, env, if is_ok r then run (tail (cmd_Args cmd)) (cmd_Env cmd) else [],
     λ uuid, Some (process_Inspect rangeZ uuid b))
|}.

Lemma process_Inspect_some rangeZ uuid b : process_Inspect rangeZ uuid b <> ""%string.
Proof. unfold process_Inspect. by repeat case_match. Qed.

Lemma process_passes rangeZ spool cfg opts p pid b queue args env :
  (spool opts "worker"%string).1 = None -> process_profile (Some opts) = Ok p -> queue < 10 ->
  plain_args args -> plain_env own env ->
  run_TestSpawn (process_under_test rangeZ spool cfg opts (Some pid) b queue) args env = [].
Proof using range_all Hrun.
  intros Hs Hp Hq Ha He. unfold run_TestSpawn, process_under_test. cbn [sb_Spool sb_Spawn]. rewrite Hs, Hp.
  unfold Process.Spawn. cbn [is_ok]. cbn [negb]. destruct (Z.ltb_spec 10 (queue + 1)); [lia|]. cbn [is_ok].
  unfold check_worker. rewrite decide_False by apply process_Inspect_some. cbn [app].
  by apply (launch_passes args env env).
Qed.

(** *** The Docker box *)

Definition docker_under_test {Er} (rangeP : gmap string DockerBox.process -> list (string * DockerBox.process))
    (raw : string -> result Er string) (auth : gmap string string)
    (pull : string -> option string -> option (bool * list byte)) (dm : daemon) (opts : list byte)
    (containers : gmap string DockerBox.process) : suite_box := {|
  sb_Spool name :=
    match (decodeProfile (Some opts)).1 with
    | Ok p => match spool_image auth pull p name with None => true | Some _ => false end
    | Err _ => false
    end;
  sb_Spawn name executable args env :=
    let '(r, containers, l) := spawn_request range_ dm opts name executable args env containers in
    (is_ok r,
     match (decodeProfile (Some opts)).1 with
     | Ok p => (build_container range_ p name executable args env).2
     | Err _ => args
     end, env,
     match l with
     | ContainerCreate cc :: _ => if is_ok r then run (tail (cc_Cmd cc)) (cc_Env cc) else []
     | _ => []
     end,
     λ uuid, match docker_Inspect rangeP raw uuid containers with Ok data => Some data | Err _ => None end)
|}.

(** The arguments with the endpoint as the container sees it. *)
Definition docker_args (p : DockerProfile.Profile) (args : gmap string string) : gmap string string :=
  <["--endpoint"%string := Join [DockerProfile.RuntimePath p; Base (getk args "--endpoint")]]> args.

Lemma docker_passes {Er} rangeP (raw : string -> result Er string) auth pull dm opts p id containers args env :
  (decodeProfile (Some opts)).1 = Ok p -> spool_image auth pull p "worker" = None ->
  dm_create dm = Some id -> dm_start dm = true ->
  (forall c, exists data, raw c = Ok data /\ data <> ""%string) ->
  plain_args (docker_args p args) -> plain_env own env ->
  run_TestSpawn (docker_under_test rangeP raw auth pull dm opts containers) args env = [].
Proof using range_all Hrun.
  intros Hp Hs Hc Hst Hraw Ha He. unfold run_TestSpawn, docker_under_test. cbn [sb_Spool sb_Spawn]. rewrite Hp, Hs.
  unfold spawn_request, DockerBox.newContainer. rewrite Hp, Hc. unfold build_container. cbv zeta.
  unfold startContainer. rewrite Hst. cbn [app is_ok snd cc_Cmd cc_Env tail fst].
  assert (forall uuid cs, exists data, docker_Inspect rangeP raw uuid cs = Ok data /\ data <> ""%string) as Hi.
  { intros uuid cs. unfold docker_Inspect. case_match; [|by eexists]. repeat case_match; auto. }
  edestruct Hi as (data & -> & Hd). unfold check_worker. rewrite decide_False by done. cbn [app].
  by apply (launch_passes (docker_args p args) env env).
Qed.
(** *** The Porto box *)

Lemma unwords_cons c w ws : unwords c (w :: ws) = w ++ concat (map (cons c) ws).
Proof.
  revert w. induction ws as [|w' ws IH]; intros w; [by rewrite app_nil_r|].
  change (unwords c (w :: w' :: ws)) with (w ++ c :: unwords c (w' :: ws)). by rewrite IH.
Qed.

Definition join_words (c : byte) (ws : list string) : string := bytes_str (unwords c (map str_bytes ws)).

(** [formatCommand] and [formatEnv] put separators between the words. *)
Lemma formatCommand_words executable args :
  formatCommand range_ executable args = join_words x20 (executable :: flat (range_ args)).
Proof.
  unfold formatCommand, join_words, flat. cbn [map]. rewrite unwords_cons. generalize (range_ args) as l. intros l.
  revert executable. induction l as [|kv l IH]; intros s; cbn [fold_left map concat app].
  { by rewrite app_nil_r, bytes_str_bytes. }
  rewrite IH, !str_bytes_app. f_equal. cbn. by repeat (rewrite <- app_assoc; cbn [app]).
Qed.

Lemma formatEnv_words env : Forall (λ kv, kv.1 <> ""%string) (range_ env) ->
  formatEnv range_ env = join_words x3b (map pack (range_ env)).
Proof.
  unfold formatEnv, join_words. intros [|kv l Hkv Hl]; [done|]. cbn [fold_left map].
  rewrite decide_True by done. rewrite unwords_cons.
  change (_ +s+ kv.1 +s+ _ +s+ kv.2)%string with (pack kv).
  assert (pack kv <> ""%string) as Hp by (unfold pack; by destruct kv.1).
  revert Hp. generalize (pack kv) as s. intros s. revert s. clear Hkv. induction Hl as [|kv' l' Hk' _ IH]; intros s Hs; cbn [fold_left map concat].
  { by rewrite app_nil_r, bytes_str_bytes. }
  rewrite decide_False by done. rewrite IH by (by destruct s). rewrite !str_bytes_app. f_equal.
  unfold pack. rewrite !str_bytes_app. cbn. by repeat (rewrite <- app_assoc; cbn [app]).
Qed.
(** The engine splits the command at blanks and the environment at semicolons. *)
Definition splits (cut_command cut_env : string -> list string) : Prop :=
  (forall ws, ws <> [] -> Forall word ws -> cut_command (join_words x20 ws) = ws) /\
  (forall env, variables env -> cut_env (join_words x3b (map pack env)) = map pack env).

Definition porto_args (args : gmap string string) : gmap string string :=
  <["--endpoint"%string := "/run/cocaine"%string]> args.
Definition porto_env (b : portoBox) (p : PortoContainer.Profile) (name : string) (env : gmap string string) : gmap string string :=
  if cfg_SetImgURI (b_config b) then <["image_uri"%string := (PortoContainer.Registry p +s+ "/" +s+ name)%string]> env else env.

(** The worker has the command and the environment that were set before its container was
    started.  A spawn that fails writes nothing, whatever it left of the arguments. *)
Definition porto_under_test (cut_command cut_env : string -> list string)
    (rangeC : gmap string container -> list (string * container)) (compact : string -> option string)
    (a : inspect_answers) (cache : list string) (opts : list byte) (b : portoBox) (queue : Z) (w : world) : suite_box := {|
  sb_Spool name :=
    match porto_decode opts with
    | Some p => match (PortoBox.Spool name p b w).1.1 with None => true | Some _ => false end
    | None => false
    end;
  sb_Spawn name executable args env :=
    let inspect b uuid := match (porto_Inspect rangeC compact a cache uuid b).1.1 with Ok t => Some t | Err _ => None end in
    match porto_decode opts with
    | None => (false, args, env, [], inspect b)
    | Some p =>
        let '(_, b, w) := PortoBox.Spool name p b w in
        let c := mkSpawn name executable args env in
        let '(r, b, _, w) := PortoBox.Spawn range_ (Some p) c true b queue w in
        let props := props_of (addRootNamespacePrefix b (spawn_id c)) w in
        if is_ok r then
          (true, porto_args args, porto_env b p name env,
           run (tail (cut_command (get props "command"))) (cut_env (get props "env")), inspect b)
        else (false, args, env, [], inspect b)
    end
|}.

Lemma newContainer_uuid c w k w' : PortoContainer.newContainer range_ c w = (Ok k, w') ->
  k_uuid k = get (e_args (c_exec c)) "--uuid" /\ k_containerID k = c_ID c.
Proof.
  unfold PortoContainer.newContainer. intros (v & w1 & _ & E)%act_bind_inv. apply act_bind_inv in E as (ex & w2 & _ & E).
  apply act_bind_inv in E as ([[r e] al] & w3 & _ & E). by injection E as <- <-.
Qed.

(** What [Spawn] leaves when it returns a container. *)
Lemma Spawn_started p c b queue w pr b' queue' w' :
  PortoBox.Spawn range_ (Some p) c true b queue w = (Ok pr, b', queue', w') ->
  let cc := spawn_config b (GetManifestLayers (s_Name c) (b_journal b)) p c in
  k_uuid pr = get (s_Args c) "--uuid" /\ b' = set_containers (<[c_ID cc := pr]> (b_containers b)) b /\
  forall k v, k ∉ ["net"; "ip"; "hostname"]%string -> (forall root, container_properties range_ cc root !! k = Some v) ->
    props_of (c_ID cc) w' !! k = Some v.
Proof using range_all.
  unfold PortoBox.Spawn. case_match; [done|]. case_decide; [done|]. destruct (do PortoConnect w) as [[u|e] w1]; [|done].
  cbv zeta. set (cc := spawn_config _ _ _ _). unfold spawn_container.
  destruct (PortoContainer.newContainer range_ cc w1) as [[k|e] w2] eqn:En; [|done].
  destruct (newContainer_uuid _ _ _ _ En) as [Hu Hid].
  destruct (container_start k w2) as [[u'|e] w3] eqn:Es; [|by destruct (Cleanup k w3) as [[]]].
  intros [= <- <- _ <-]. split; [exact Hu|]. split; [by rewrite Hid|]. intros key v Hk Hroot.
  destruct (newContainer_props range_ cc key range_all Hk w1 k w2 En) as (root & v' & Hv & Hp).
  rewrite Hroot in Hv. rewrite <- Hv in Hp. rewrite <- (Hp ltac:(done)).
  assert (forall x w0, ~ sets x -> props_of (c_ID cc) (do x w0).2 = props_of (c_ID cc) w0) as Hq.
  { intros x w0 Hx. unfold props_of. rewrite do_log, fold_left_app. cbn. by destruct x. }
  rewrite !Hq by done. unfold container_start in Es. rewrite <- (Hq (Start (k_containerID k)) w2) by done.
  by rewrite Es.
Qed.
Lemma porto_props p c b root_path : ContainerProps p !! "env"%string = None ->
  let cc := spawn_config b (GetManifestLayers (s_Name c) (b_journal b)) p c in
  container_properties range_ cc root_path !! "command"%string =
    Some (formatCommand range_ (s_Executable c) (porto_args (s_Args c))) /\
  container_properties range_ cc root_path !! "env"%string = Some (formatEnv range_ (porto_env b p (s_Name c) (s_Env c))).
Proof.
  intros Hp cc. split; [apply container_properties_protected|].
  rewrite container_properties_env. unfold cc, spawn_config. cbn [c_exec e_Profile]. by rewrite Hp.
Qed.

(** A container that is tracked is found and described. *)
Lemma porto_Inspect_some rangeC compact a cache uuid b id k :
  (forall m, rangeC m ≡ₚ map_to_list m) -> b_containers b !! id = Some k -> k_uuid k = uuid ->
  i_connect a = None -> (forall names, exists r, i_get a names = Ok r) ->
  (forall s, exists t, compact s = Some t /\ t <> ""%string) ->
  exists t, (porto_Inspect rangeC compact a cache uuid b).1.1 = Ok t /\ t <> ""%string.
Proof.
  intros Hr Hid Hu Hc Hg Hcomp. unfold porto_Inspect. destruct (list_find _ _) as [[i [cid k']]|] eqn:E.
  - rewrite Hc. destruct (getPListAndDlist _ _ _) as [names cache']. destruct (Hg names) as [r ->].
    edestruct Hcomp as (t & -> & Ht). by exists t.
  - apply list_find_None in E. rewrite Forall_forall in E. exfalso. apply (E (id, k)); [|done].
    by rewrite Hr, elem_of_map_to_list.
Qed.

Lemma porto_passes cut_command cut_env rangeC compact a cache opts p b queue w args env :
  splits cut_command cut_env -> (forall m, rangeC m ≡ₚ map_to_list m) ->
  i_connect a = None -> (forall names, exists r, i_get a names = Ok r) ->
  (forall s, exists t, compact s = Some t /\ t <> ""%string) ->
  porto_decode opts = Some p -> ContainerProps p !! "env"%string = None ->
  willing w -> honest (cfg_Layers (b_config b)) (ExtendedInfo_Layers p) w -> ExtendedInfo_Layers p <> [] ->
  b_dhEnable b = true -> Forall (λ vp, Target vp <> ""%string) (ExtraVolumes p) -> queue < 10 ->
  args !! "--uuid"%string = Some "some_uuid"%string -> plain_args (porto_args args) ->
  plain_env own (porto_env b p "worker" env) ->
  run_TestSpawn (porto_under_test cut_command cut_env rangeC compact a cache opts b queue w) args env = [].
Proof using range_all Hrun.
  intros [Hcut Hcute] HrC Hconn Hget Hcomp Hdec Henv0 Hw Hh Hl Hd Hv Hq Huuid Ha He.
  unfold run_TestSpawn, porto_under_test. cbn [sb_Spool sb_Spawn]. rewrite Hdec.
  destruct (Spool_works "worker" p b w Hw Hh Hl Hd) as (w1 & Es & Aw). rewrite Es. cbn [fst].
  set (b1 := set_journal _ b). set (c := mkSpawn "worker" "worker.sh" args env).
  assert (GetManifestLayers (s_Name c) (b_journal b1) <> ""%string) as Hlay.
  { unfold b1, c, GetManifestLayers. cbn. rewrite lookup_insert_eq. by apply layers_of_some. }
  destruct (Spawn_works range_ p c b1 queue w1 (willing_same _ _ Aw Hw) Hv Hq Hlay) as (pr & w2 & E2 & _).
  destruct (Spawn_started _ _ _ _ _ _ _ _ _ E2) as (Hu & Hb & Hprops). rewrite E2. cbn [is_ok].
  change (addRootNamespacePrefix (set_containers _ b1) (spawn_id c)) with (addRootNamespacePrefix b1 (spawn_id c)).
  assert (porto_env (set_containers (<[addRootNamespacePrefix b1 (spawn_id c) := pr]> (b_containers b1)) b1) p "worker" env = porto_env b p "worker" env) as -> by done.
  cbn [c_ID spawn_config] in Hprops. unfold get at 1 2.
  rewrite (Hprops "command"%string _ ltac:(set_solver) (λ r, proj1 (porto_props p c b1 r Henv0))).
  rewrite (Hprops "env"%string _ ltac:(set_solver) (λ r, proj2 (porto_props p c b1 r Henv0))). cbn [from_option id].
  destruct (range_variables _ He) as [Hvars _].
  rewrite formatCommand_words, Hcut; [|done|constructor; [by split|apply (flat_words _ Ha)]].
  rewrite formatEnv_words by (eapply Forall_impl; [exact (proj2 Hvars)|by intros kv [[? _] _]]).
  rewrite Hcute by exact Hvars. cbn [tail].
  edestruct (porto_Inspect_some rangeC compact a cache "some_uuid") as (t & -> & Ht);
    [exact HrC|apply lookup_insert_eq|rewrite Hu; cbn; unfold get; by rewrite Huuid|done|done|done|].
  unfold check_worker. rewrite decide_False by done. cbn [app].
  by apply (launch_passes (porto_args args) (porto_env b p "worker" env) (porto_env b p "worker" env)).
Qed.
End launch.


(** A shell that adds nothing of its own. *)
Definition demo_sh (argv env : list string) : list byte :=
  unwords x20 (map str_bytes argv) ++ x0a :: concat (map (λ e, str_bytes e ++ [x0a]) env).
Lemma demo_sh_runs : runs_worker ∅ demo_sh.
Proof.
  intros argv env _ Hv _. exists env. split_and!; [done|done|]. unfold demo_sh, worker_text.
  by rewrite List.map_map.
Qed.

Definition plain_args_b (args : gmap string string) : bool :=
  negb (bool_decide (args = ∅)) && forallb (λ kv, negb (bool_decide (kv.1 = ""%string)) && negb (bool_decide (kv.2 = ""%string)) &&
    forallb word_char (str_bytes kv.1) && forallb word_char (str_bytes kv.2) && negb (echo_option kv.1)) (map_to_list args).
Lemma plain_args_dec args : plain_args_b args = true -> plain_args args.
Proof.
  unfold plain_args_b. rewrite andb_true_iff, negb_true_iff, bool_decide_eq_false, forallb_forall. intros [Hne H]. split; [done|].
  intros k v Hk. apply elem_of_map_to_list, list_elem_of_In, H in Hk. cbn in Hk.
  rewrite !andb_true_iff, !negb_true_iff, !bool_decide_eq_false in Hk. unfold word. tauto.
Qed.

(** An engine that splits as Porto does. *)
Definition demo_cut (c : byte) (s : string) : list string :=
  if decide (s = ""%string) then [] else map bytes_str (Split c (str_bytes s)).
Lemma demo_cut_words c ws : Forall (λ s, s <> ""%string /\ c ∉ str_bytes s) ws -> demo_cut c (join_words c ws) = ws.
Proof.
  intros [|w ws' [Hne Hw] Hws]; [done|]. unfold demo_cut, join_words. rewrite decide_False.
  - rewrite str_bytes_str, Split_unwords; [|done|].
    + rewrite List.map_map. cbn [map]. rewrite bytes_str_bytes. f_equal. clear. induction ws' as [|x l IH]; [done|].
      cbn. by rewrite bytes_str_bytes, IH.
    + apply Forall_map. constructor; [done|]. eapply Forall_impl; [exact Hws|]. by intros s [_ ?].
  - cbn [map]. rewrite unwords_cons. intros E. apply (f_equal str_bytes) in E. rewrite str_bytes_str in E.
    apply (f_equal bytes_str) in E. destruct w as [|x w]; [done|]. cbn in E. discriminate.
Qed.
Lemma demo_splits : splits (demo_cut x20) (demo_cut x3b).
Proof.
  split.
  - intros ws _ Hws. apply demo_cut_words. eapply Forall_impl; [exact Hws|]. intros s [Hs Hc]. split; [done|].
    by eapply word_char_not.
  - intros env [_ Hv]. apply demo_cut_words. apply Forall_map. eapply Forall_impl; [exact Hv|].
    intros kv [[Hk Hkc] Hvc]. cbn. split; [unfold pack; by destruct kv.1|]. rewrite pack_bytes.
    apply not_elem_of_app. split; [by eapply word_char_not|]. apply not_elem_of_cons. split; [done|by eapply word_char_not].
Qed.

Definition plain_env_b (env : gmap string string) : bool :=
  forallb (λ kv, negb (bool_decide (kv.1 = ""%string)) && forallb word_char (str_bytes kv.1) &&
    forallb word_char (str_bytes kv.2)) (map_to_list env).
Lemma plain_env_dec env : plain_env_b env = true -> plain_env ∅ env.
Proof.
  unfold plain_env_b. rewrite forallb_forall. intros H k v Hk.
  apply elem_of_map_to_list, list_elem_of_In, H in Hk. cbn in Hk.
  rewrite !andb_true_iff, !negb_true_iff, !bool_decide_eq_false in Hk. unfold word. set_solver.
Qed.


(** The checks see less than they mean to: a worker that was given one argument over and
    over passes. *)
Lemma suite_misses_arguments :
  check_args suite_args (unwords x20 (map str_bytes (concat (replicate 4 ["--app"; "appname"]%string))) ++ [x0a]) = None.
Proof. vm_compute. reflexivity. Qed.

(** A spawn that fails is only noticed through its consequences: the error is not checked,
    the output is empty, and the kill of the process that is not there panics. *)
Lemma suite_kills_nil inspected b args env args' env' Inspect :
  sb_Spool b "worker" = true -> sb_Spawn b "worker" "worker.sh" args env = (false, args', env', [], Inspect) ->
  Inspect "some_uuid"%string = Some inspected -> inspected <> ""%string ->
  run_TestSpawn b args env = [NilProcess; NoArgsLine].
Proof.
  intros Hs E Hi Hn. unfold run_TestSpawn. rewrite Hs, E, Hi. unfold check_worker. by rewrite decide_False.
Qed.
