(* ===== verification/Daemon.v ===== *)
(** * The daemon

    Construction of the boxes, listeners, the accept loops, the inspect handler and
    the start of the program (daemon/daemon.go, cmd/stout/main.go).  The daemon sees
    its boxes through the interface [BoxOps]; what a box does to the state it shares
    with the others is arbitrary. *)

From Stdlib Require Import ZArith Lia String.
From S2P Require Import Prelude MtnStore Mtn Config.

(** ** The shared state and the boxes *)

(** What [GlobalState] points to. *)
Record MtnState (Db : Type) := mkMtnState { ms_Cfg : MtnCfg; ms_Db : option Db }.
Arguments mkMtnState {Db}.
Arguments ms_Cfg {Db}.
Arguments ms_Db {Db}.

(** The address pool, the files and everything else a box can reach. *)
Record env (Db Wd : Type) := mkEnv { e_Mtn : MtnState Db; e_files : files; e_world : Wd }.
Arguments mkEnv {Db Wd}.
Arguments e_Mtn {Db Wd}.
Arguments e_files {Db Wd}.
Arguments e_world {Db Wd}.

(** The part of the interface [Box] the daemon itself calls. *)
Class BoxOps (Bx St Er : Type) := {
  Inspect : Bx -> string -> act St Er (list byte);
  box_Close : Bx -> act St Er unit
}.

(** ** Construction *)

Inductive errno := ErrIpbr | ErrStdb.

Inductive new_error (Er : Type) :=
  | CfgInitFailed
  | PoolInitFailed (e : errno)
  | DuplicatedType (typ : string)
  | NoBox (e : construct_error Er)
  | Panicked.
Arguments CfgInitFailed {Er}.
Arguments PoolInitFailed {Er}.
Arguments DuplicatedType {Er}.
Arguments NoBox {Er}.
Arguments Panicked {Er}.

Definition no_cfg : MtnCfg := mkCfg false 0 "" "" "" ∅ "".

Section daemon.
Context {Db Tx DbEr : Type} `{Bolt Db Tx DbEr}.
Context {Bx Wd Er : Type} `{BoxOps Bx (env Db Wd) Er}.

(** The order in which [range] visits the maps of the source. *)
Context (range_boxes : gmap string Bx -> list (string * Bx)).
Context (range_conf : gmap string BoxSection -> list (string * BoxSection)).
Context (range_nets : gmap string (list Allocation) -> list (string * list Allocation)).
Context (plugins : gmap string (BoxConstructor (St := env Db Wd) (Er := Er) (Bx := Bx))).

Record Daemon := mkDaemon { d_boxes : gmap string Bx; d_cfg : Config; d_listeners : list nat }.

(** [closeBoxes]: the errors are dropped. *)
Definition closeBoxes (boxes : gmap string Bx) (e : env Db Wd) : env Db Wd :=
  fold_left (λ e kb, (box_Close kb.2 e).2) (range_boxes boxes) e.

(** The error number of [PoolInit]: the allocations could not be had from the service,
    or the database refused. *)
Definition PoolInit_errno (get : http_resp (list RawAlloc)) : errno :=
  match GetAllocations (Er := DbEr) get with Err _ => ErrIpbr | Ok _ => ErrStdb end.

(** [PoolInit] on the state: without a database a transaction is a nil dereference. *)
Definition pool_init (get : http_resp (list RawAlloc)) (m : MtnState Db)
  : result (merror DbEr) unit * MtnState Db :=
  match ms_Db m with
  | Some db =>
      let '(x, db) := PoolInit (ms_Cfg m) get range_nets db in (x, mkMtnState (ms_Cfg m) (Some db))
  | None =>
      if negb (Enable (ms_Cfg m)) then (Ok tt, m)
      else match GetAllocations get with
           | Err x => (Err x, m)
           | Ok _ => (Err Panic, m)
           end
  end.

(** The first half of [New]: [CfgInit], then [PoolInit]. *)
Definition init_mtn (b : boot Db) (get : http_resp (list RawAlloc)) (configuration : Config)
  : act (env Db Wd) (new_error Er) unit := λ e,
  match CfgInit b (c_Mtn configuration) no_cfg None (e_files e) with
  | None => (Err Panicked, e)
  | Some (ok, c, db, fs) =>
      let e := mkEnv (mkMtnState c db) fs (e_world e) in
      if negb ok then (Err CfgInitFailed, e)
      else
        let '(x, m) := pool_init get (e_Mtn e) in
        let e := mkEnv m (e_files e) (e_world e) in
        match x with
        | Ok _ => (Ok tt, e)
        | Err Panic => (Err Panicked, e)
        | Err _ =>
            match PoolInit_errno get, c_AllowLocalState configuration with
            | ErrIpbr, true => (Ok tt, e)
            | n, _ => (Err (PoolInitFailed n), e)
            end
        end
  end.

(** The second half: one box per entry; an error closes those built so far. *)
Fixpoint build (entries : list (string * BoxSection)) (boxTypes : gset string)
    (boxes : gmap string Bx) (e : env Db Wd) : result (new_error Er) (gmap string Bx) * env Db Wd :=
  match entries with
  | [] => (Ok boxes, e)
  | (name, cfg) :: entries =>
      if decide (bx_Type cfg ∈ boxTypes) then
        (Err (DuplicatedType (bx_Type cfg)), closeBoxes boxes e)
      else
        match ConstructBox plugins (bx_Type cfg) (bx_Args cfg) e with
        | (Err x, e) => (Err (NoBox x), closeBoxes boxes e)
        | (Ok box, e) => build entries ({[bx_Type cfg]} ∪ boxTypes) (<[name := box]> boxes) e
        end
  end.

Definition New (b : boot Db) (get : http_resp (list RawAlloc)) (configuration : Config)
  : act (env Db Wd) (new_error Er) Daemon :=
  _ ← init_mtn b get configuration;
  boxes ← build (range_conf (c_Isolate configuration)) ∅ ∅;
  mret (mkDaemon boxes configuration []).

(** ** Listeners *)

(** The listening sockets of the process, with their endpoints, and the next identity. *)
Record net := mkNet { n_open : gmap nat string; n_next : nat }.

(** [net.Listen]; [listens] says which calls succeed. *)
Definition Listen (listens : nat -> string -> bool) (endpoint : string) : act net unit nat := λ n,
  if listens (n_next n) endpoint
  then (Ok (n_next n), mkNet (<[n_next n := endpoint]> (n_open n)) (S (n_next n)))
  else (Err tt, n).

Definition closeListeners (listeners : list nat) (n : net) : net :=
  fold_left (λ n ln, mkNet (delete ln (n_open n)) (n_next n)) listeners n.

(** The first half of [Serve]: one listener per endpoint. *)
Fixpoint listen_all (listens : nat -> string -> bool) (endpoints : list string) (listeners : list nat)
  : act net unit (list nat) := λ n,
  match endpoints with
  | [] => (Ok listeners, n)
  | endpoint :: endpoints =>
      match Listen listens endpoint n with
      | (Err x, n) => (Err x, closeListeners listeners n)
      | (Ok ln, n) => listen_all listens endpoints (listeners ++ [ln]) n
      end
  end.

(** What [ServeOnListeners] does before its loops start: the listeners of an earlier
    call are closed. *)
Definition adopt (d : Daemon) (listeners : list nat) (n : net) : Daemon * net :=
  (mkDaemon (d_boxes d) (d_cfg d) listeners, closeListeners (d_listeners d) n).

Definition Serve_start (listens : nat -> string -> bool) (d : Daemon) : act net unit Daemon := λ n,
  match listen_all listens (c_Endpoints (d_cfg d)) [] n with
  | (Err x, n) => (Err x, n)
  | (Ok listeners, n) => let '(d, n) := adopt d listeners n in (Ok d, n)
  end.

(** [Close] of the daemon. *)
Definition Daemon_Close (d : Daemon) (n : net) (e : env Db Wd) : net * env Db Wd :=
  (closeListeners (d_listeners d) n, closeBoxes (d_boxes d) e).

(** ** What construction guarantees *)

(** [built entries e bs e']: the boxes [bs] of [entries], constructed in this order,
    take the state from [e] to [e']. *)
Inductive built : list (string * BoxSection) -> env Db Wd -> list (string * Bx) -> env Db Wd -> Prop :=
  | built_nil e : built [] e [] e
  | built_cons name cfg entries e box e1 bs e2 :
      ConstructBox plugins (bx_Type cfg) (bx_Args cfg) e = (Ok box, e1) ->
      built entries e1 bs e2 ->
      built ((name, cfg) :: entries) e ((name, box) :: bs) e2.

(** The failed attempt at the first of the entries left: refused as a duplicate before
    anything happened, or by its constructor. *)
Inductive attempt (types : list string) (cfg : BoxSection) (e : env Db Wd)
  : new_error Er -> env Db Wd -> Prop :=
  | attempt_dup : bx_Type cfg ∈ types -> attempt types cfg e (DuplicatedType (bx_Type cfg)) e
  | attempt_refused x e' :
      ConstructBox plugins (bx_Type cfg) (bx_Args cfg) e = (Err x, e') -> attempt types cfg e (NoBox x) e'.

Definition types (entries : list (string * BoxSection)) : list string := map (λ kc, bx_Type kc.2) entries.

Definition close_each (bs : list (string * Bx)) (e : env Db Wd) : env Db Wd :=
  fold_left (λ e kb, (box_Close kb.2 e).2) bs e.

(** Everything [build] may do, from the entries before (whose types are known) on. *)
Definition build_outcome (before entries : list (string * BoxSection)) (old : gmap string Bx)
    (e : env Db Wd) (x : result (new_error Er) (gmap string Bx) * env Db Wd) : Prop :=
  match x with
  | (Ok boxes, e') => exists bs, built entries e bs e' /\ boxes = list_to_map bs ∪ old /\
      NoDup (types before ++ types entries)
  | (Err err, e') => exists done name cfg rest bs e1 e2,
      entries = done ++ (name, cfg) :: rest /\ built done e bs e1 /\
      attempt (types (before ++ done)) cfg e1 err e2 /\
      e' = closeBoxes (list_to_map bs ∪ old) e2
  end.

Lemma built_keys entries e bs e' : built entries e bs e' -> bs.*1 = entries.*1.
Proof. induction 1; cbn; congruence. Qed.

Lemma types_app xs ys : types (xs ++ ys) = types xs ++ types ys.
Proof. apply map_app. Qed.

Lemma build_spec entries before old e :
  NoDup (types before) -> NoDup entries.*1 -> dom old ## list_to_set entries.*1 ->
  build_outcome before entries old e (build entries (list_to_set (types before)) old e).
Proof using Type.
  revert before old e. induction entries as [|[name cfg] entries IH]; intros before old e Ht Hn Hd; cbn [build].
  { exists []. split_and!; [constructor|by rewrite list_to_map_nil, (left_id_L ∅ (∪))|].
    by rewrite app_nil_r. }
  destruct (decide _) as [Hin|Hnew].
  { exists [], name, cfg, entries, [], e, e. split_and!; [done|constructor| |].
    - constructor. rewrite app_nil_r. by apply elem_of_list_to_set in Hin.
    - by rewrite list_to_map_nil, (left_id_L ∅ (∪)). }
  destruct (ConstructBox _ _ _ e) as [[box|x] e1] eqn:Ec.
  2: { exists [], name, cfg, entries, [], e, e1. split_and!; [done|constructor|by constructor|].
       by rewrite list_to_map_nil, (left_id_L ∅ (∪)). }
  cbn in Hn, Hd. apply NoDup_cons in Hn as [Hname Hn]. rewrite elem_of_list_to_set in Hnew.
  assert (old !! name = None) as Hold by (apply not_elem_of_dom; set_solver).
  specialize (IH (before ++ [(name, cfg)]) (<[name := box]> old) e1).
  rewrite types_app in IH. cbn in IH. rewrite list_to_set_app_L in IH. cbn in IH.
  rewrite (right_id_L ∅ (∪)), (comm_L (∪) _ {[bx_Type cfg]}) in IH.
  assert (forall bs : list (string * Bx), bs.*1 ⊆ entries.*1 ->
    list_to_map bs ∪ <[name := box]> old = list_to_map ((name, box) :: bs) ∪ old) as Hmap.
  { intros bs Hbs. cbn. rewrite <- insert_union_r; [by rewrite insert_union_l|].
    apply not_elem_of_list_to_map_1. set_solver. }
  ospecialize* IH.
  { apply NoDup_app. split_and!; [done| |apply NoDup_singleton]. set_solver. }
  { done. }
  { rewrite dom_insert_L. set_solver. }
  unfold build_outcome in *. destruct (build entries _ _ e1) as [[boxes|err] e'].
  - destruct IH as (bs & Hb & -> & Hnd). exists ((name, box) :: bs). split_and!.
    + by econstructor.
    + apply Hmap. by rewrite (built_keys _ _ _ _ Hb).
    + cbn. rewrite types_app, <- app_assoc in Hnd. exact Hnd.
  - destruct IH as (done & name' & cfg' & rest & bs & e2 & e3 & -> & Hb & Ha & ->).
    exists ((name, cfg) :: done), name', cfg', rest, ((name, box) :: bs), e2, e3. split_and!.
    + done.
    + by econstructor.
    + by rewrite <- app_assoc in Ha.
    + f_equal. apply Hmap. rewrite (built_keys _ _ _ _ Hb), fmap_app. set_solver.
Qed.

Context (range_conf_all : forall m, range_conf m ≡ₚ map_to_list m).

Lemma range_conf_keys m : NoDup (range_conf m).*1 /\ list_to_set (range_conf m).*1 =@{gset string} dom m.
Proof using range_conf_all.
  split; [rewrite range_conf_all; apply NoDup_fst_map_to_list|].
  apply set_eq. intros k. rewrite elem_of_list_to_set, range_conf_all, elem_of_dom, list_elem_of_fmap.
  split; [intros ([? v] & -> & Hv%elem_of_map_to_list); eauto|].
  intros [v Hv]. exists (k, v). by rewrite elem_of_map_to_list.
Qed.

Lemma New_ok b get conf e d e' : New b get conf e = (Ok d, e') ->
  exists e1 bs, init_mtn b get conf e = (Ok tt, e1) /\ built (range_conf (c_Isolate conf)) e1 bs e' /\
    d = mkDaemon (list_to_map bs) conf [] /\ dom (d_boxes d) = dom (c_Isolate conf) /\
    NoDup (types (range_conf (c_Isolate conf))).
Proof using range_conf_all.
  unfold New, mbind, act_bind. destruct (init_mtn b get conf e) as [[[]|err] e1] eqn:Ei; [|done].
  destruct (range_conf_keys (c_Isolate conf)) as [Hn Hd].
  pose proof (build_spec (range_conf (c_Isolate conf)) [] ∅ e1) as Hb. cbn in Hb.
  ospecialize* Hb; [constructor|done|set_solver|]. unfold build_outcome in Hb.
  destruct (build _ ∅ ∅ e1) as [[boxes|err] e2]; [|done]. intros E.
  destruct Hb as (bs & Hb & Hbx & Ht). rewrite (right_id_L ∅ (∪)) in Hbx. exists e1, bs. subst boxes.
  unfold mret, act_ret in E. simplify_eq.
  split_and!; try done. cbn [d_boxes]. by rewrite dom_list_to_map_L, (built_keys _ _ _ _ Hb).
Qed.

Context (range_boxes_all : forall m, range_boxes m ≡ₚ map_to_list m).

Lemma range_boxes_built bs : NoDup bs.*1 -> range_boxes (list_to_map bs) ≡ₚ bs.
Proof using range_boxes_all. intros Hn. rewrite range_boxes_all. by apply map_to_list_to_map. Qed.


(** A service that cannot be reached makes the daemon panic: [GetAllocations] reads the
    body of the response before it looks at the error, so the permission to go on with
    the local state is of no use then. *)
Lemma unreachable_service_panics b conf e c db fs :
  CfgInit b (c_Mtn conf) no_cfg None (e_files e) = Some (true, c, db, fs) -> s_Enable (c_Mtn conf) = true ->
  (New b (DoErr None) conf e).1 = Err Panicked.
Proof using Type.
  intros E Hen. unfold New, mbind, act_bind, init_mtn. rewrite E. cbn [negb].
  assert (Enable c = true) as Hc.
  { unfold CfgInit in E. rewrite Hen in E. cbn [negb] in E. repeat case_match; simplify_eq; done. }
  unfold pool_init, PoolInit. cbn [e_Mtn ms_Cfg ms_Db]. rewrite Hc. cbn [negb].
  by destruct db.
Qed.

(** With a request that was refused the permission works. *)
Lemma refused_service_goes_on b conf e c db fs :
  CfgInit b (c_Mtn conf) no_cfg None (e_files e) = Some (true, c, Some db, fs) ->
  c_AllowLocalState conf = true ->
  init_mtn b NewRequestErr conf e = (Ok tt, mkEnv (mkMtnState c (Some db)) fs (e_world e)).
Proof using Type.
  intros E Ha. unfold init_mtn. rewrite E. cbn [negb].
  unfold pool_init, PoolInit. cbn [e_Mtn ms_Cfg ms_Db e_files e_world].
  destruct (Enable c); cbn; [|done]. by rewrite Ha.
Qed.
End daemon.

(** ** What the listeners guarantee *)

Section listeners.
Context {Bx : Type}.

Lemma closeListeners_lookup ls n j :
  n_open (closeListeners ls n) !! j = if decide (j ∈ ls) then None else n_open n !! j.
Proof.
  unfold closeListeners. revert n. induction ls as [|l ls IH]; intros n; cbn [fold_left]; [done|].
  rewrite IH. cbn [n_open]. destruct (decide (j = l)) as [->|Hj].
  - rewrite lookup_delete_eq. repeat case_decide; set_solver.
  - rewrite lookup_delete_ne by done. repeat case_decide; set_solver.
Qed.

(** Over the sockets [base], the [listeners] are open at the [endpoints], in order. *)
Record listening (base : gmap nat string) (listeners : list nat) (endpoints : list string) (n : net) : Prop := {
  l_length : length listeners = length endpoints;
  l_open k ln : listeners !! k = Some ln -> n_open n !! ln = endpoints !! k;
  l_others j : j ∉ listeners -> n_open n !! j = base !! j;
  l_fresh j : j ∈ listeners -> base !! j = None /\ (j < n_next n)%nat;
  l_next j : (n_next n <= j)%nat -> base !! j = None
}.

Lemma listening_step base ls eps n ep :
  listening base ls eps n ->
  listening base (ls ++ [n_next n]) (eps ++ [ep]) (mkNet (<[n_next n := ep]> (n_open n)) (S (n_next n))).
Proof.
  intros [H1 H2 H3 H4 H5]. assert (n_next n ∉ ls) as Hnew by (intros Hin; apply H4 in Hin; lia).
  split; cbn [n_open n_next].
  - rewrite !length_app. cbn. lia.
  - intros k ln Hk. apply lookup_app_Some in Hk as [Hk|[Hlen Hk]].
    + rewrite lookup_insert_ne by (intros <-; apply Hnew; by eapply list_elem_of_lookup_2).
      rewrite lookup_app_l; [by apply H2|]. apply lookup_lt_Some in Hk. lia.
    + apply list_lookup_singleton_Some in Hk as [Hk <-]. rewrite lookup_insert_eq.
      rewrite lookup_app_r by lia. by replace (k - length eps)%nat with 0%nat by lia.
  - intros j Hj. rewrite elem_of_app, list_elem_of_singleton in Hj.
    rewrite lookup_insert_ne by (intros <-; apply Hj; by right). apply H3. tauto.
  - intros j [Hj|Hj%list_elem_of_singleton]%elem_of_app; [destruct (H4 j Hj); auto|subst; split; [by apply H5|lia]].
  - intros j Hj. apply H5. lia.
Qed.

Lemma listen_all_spec listens base eps ls eps0 n :
  listening base ls eps0 n ->
  match listen_all listens eps ls n with
  | (Ok ls', n') => listening base ls' (eps0 ++ eps) n'
  | (Err _, n') => n_open n' = base
  end.
Proof.
  revert ls eps0 n. induction eps as [|ep eps IH]; intros ls eps0 n Hl; cbn [listen_all].
  { by rewrite app_nil_r. }
  unfold Listen. destruct (listens (n_next n) ep).
  - specialize (IH (ls ++ [n_next n]) (eps0 ++ [ep]) _ (listening_step _ _ _ _ ep Hl)).
    by rewrite <- app_assoc in IH.
  - apply map_eq. intros j. rewrite closeListeners_lookup. case_decide as Hj.
    + by destruct (l_fresh _ _ _ _ Hl j Hj).
    + by apply (l_others _ _ _ _ Hl).
Qed.

Lemma listen_all_fresh listens eps ls n ls' m n' :
  listen_all listens eps ls n = (Ok ls', n') -> (m <= n_next n)%nat ->
  (forall j, j ∈ ls -> (m <= j)%nat) -> forall j, j ∈ ls' -> (m <= j)%nat.
Proof.
  revert ls n. induction eps as [|ep eps IH]; intros ls n E Hm Hls; cbn in E; [by simplify_eq|].
  unfold Listen in E. destruct (listens _ _); [|done]. eapply IH; [exact E|cbn; lia|].
  intros j [Hj|Hj%list_elem_of_singleton]%elem_of_app; [auto|lia].
Qed.

(** [Serve] opens its listeners all or nothing: it starts with one open socket
    per endpoint of the configuration, in order, having closed those of an earlier
    call and no other; when an endpoint cannot be had, every socket it had opened is
    closed again and the sockets of the process are what they were. *)
Lemma Serve_start_spec listens (d : Daemon (Bx := Bx)) n :
  (forall j, (n_next n <= j)%nat -> n_open n !! j = None) ->
  (forall j, j ∈ d_listeners d -> (j < n_next n)%nat) ->
  match Serve_start listens d n with
  | (Ok d', n') =>
      d_boxes d' = d_boxes d /\ d_cfg d' = d_cfg d /\ length (d_listeners d') = length (c_Endpoints (d_cfg d)) /\
      (forall k ln, d_listeners d' !! k = Some ln -> n_open n' !! ln = c_Endpoints (d_cfg d) !! k) /\
      (forall j, j ∉ d_listeners d' ->
         n_open n' !! j = if decide (j ∈ d_listeners d) then None else n_open n !! j)
  | (Err _, n') => n_open n' = n_open n
  end.
Proof.
  intros Hn Hd. unfold Serve_start.
  pose proof (listen_all_spec listens (n_open n) (c_Endpoints (d_cfg d)) [] [] n) as Hl.
  ospecialize* Hl.
  { split; try done; intros; set_solver. }
  destruct (listen_all _ _ [] n) as [[ls|[]] n'] eqn:El; [|done]. cbn in Hl |- *.
  pose proof (listen_all_fresh _ _ _ _ _ (n_next n) _ El ltac:(done) ltac:(set_solver)) as Hfresh. split_and!; [done|done|apply Hl|..].
  - intros k ln Hk. rewrite closeListeners_lookup. rewrite decide_False; [by apply Hl|].
    intros Hin. apply Hd in Hin. apply list_elem_of_lookup_2, Hfresh in Hk. lia.
  - intros j Hj. rewrite closeListeners_lookup. case_decide; [done|by apply Hl].
Qed.
End listeners.

(** ** A world to run the daemon in

    The boxes are names; constructing and closing one is noted in the world. *)
Definition note (s : string) (e : env store (list string)) : env store (list string) :=
  mkEnv (e_Mtn e) (e_files e) (e_world e ++ [s]).
#[local] Instance demo_ops : BoxOps string (env store (list string)) unit := {|
  Inspect b id e := (Ok (str_bytes (b +:+ id)), e);
  box_Close b e := (Ok tt, note ("close " +:+ b) e)
|}.
Definition demo_plugins : gmap string (BoxConstructor (St := env store (list string)) (Er := unit) (Bx := string)) :=
  registered (λ _ e, (Err tt, note "refuse docker" e)) (λ _ e, (Ok "porto"%string, note "new porto" e))
    (λ _ e, (Ok "process"%string, note "new process" e)).
Definition demo_config (boxes : list (string * string)) : Config :=
  mkConf 2 [":29042"; ":29043"]%string "" InfoLevel "/dev/stderr" "" 0 []
    (list_to_map (map (λ nt : string * string, (nt.1, mkBoxSection nt.2 ∅)) boxes)) no_mtn false.
Definition demo_boot : boot store :=
  {| b_hostname := None; b_open1 := None; b_stat := StatErr; b_backup_exists := false;
     b_can_create := false; b_can_remove := false; b_open2 := None; b_check := false |}.
Definition demo_env : env store (list string) := mkEnv (mkMtnState no_cfg None) ∅ [].
Definition demo_New (boxes : list (string * string)) :=
  New map_to_list map_to_list map_to_list demo_plugins demo_boot NewRequestErr (demo_config boxes) demo_env.

