(* ===== verification/Telemetry.v ===== *)
(** * Logging and metrics

    The line a log entry becomes and where lines go (pkg/logutils/handler.go,
    pkg/logutils/writer.go), the exporter of metrics to Graphite and its factory
    (pkg/exportmetrics), the gauges and health checks of the daemon
    (daemon/metrics.go, pkg/fds/fds_linux.go). *)

From Stdlib Require Import ZArith Lia Ascii String SpecFloat.
From stdpp Require Import pretty.
From S2P Require Import Prelude MtnStore Mtn Journal Config.

Definition tab : string := String (ascii_of_nat 9) EmptyString.
Definition newline : string := String (ascii_of_nat 10) EmptyString.

(** ** Log entries *)

(** [getLevel]; [None] is the index out of range of [Level.String]. *)
Definition getLevel (lvl : Z) : option string :=
  if lvl =? DebugLevel then Some "DEBUG"%string
  else if lvl =? InfoLevel then Some "INFO"%string
  else if lvl =? WarnLevel then Some "WARN"%string
  else if (lvl =? ErrorLevel) || (lvl =? FatalLevel) then Some "ERROR"%string
  else Level_String lvl.

(** An entry; the time stamp and the values of the fields as they are formatted. *)
Record Entry := mkEntry_ {
  en_Timestamp : string;
  en_Level : Z;
  en_Message : string;
  en_Fields : gmap string string
}.

Section handler.
Context (range_ : gmap string string -> list (string * string)).

(** The loop over the sorted keys: [i] fields are left. *)
Fixpoint write_fields (fields : gmap string string) (keys : list string) (i : Z) (buf : string) : string :=
  match keys with
  | [] => buf
  | k :: keys =>
      let buf := (buf +:+ k +:+ ": " +:+ default "<nil>" (fields !! k))%string in
      let i := i - 1 in
      write_fields fields keys i (if 0 <? i then (buf +:+ ", ")%string else buf)
  end.

(** [HandleLog]: the bytes handed to the writer. *)
Definition HandleLog (entry : Entry) : option string :=
  lvl ← getLevel (en_Level entry);
  let keys := Strings (range_ (en_Fields entry)).*1 in
  let buf := (en_Timestamp entry +:+ tab +:+ lvl +:+ tab +:+ en_Message entry)%string in
  let i := Z.of_nat (size (en_Fields entry)) in
  let buf := if 0 <? i then (write_fields (en_Fields entry) keys i (buf +:+ tab +:+ "[") +:+ "]")%string else buf in
  Some (buf +:+ newline)%string.
End handler.

(** [NewLogFileOutput]: the standard streams are not closed by the daemon. *)
Inductive log_output := StdStream (name : string) | LogFile (path : string).
Definition NewLogFileOutput (can_open : string -> bool) (filepath : string) : option log_output :=
  if decide (filepath = "/dev/stderr"%string) then Some (StdStream "/dev/stderr")
  else if decide (filepath = "/dev/stdout"%string) then Some (StdStream "/dev/stdout")
  else if can_open filepath then Some (LogFile filepath) else None.

(** What a line of the log is meant to be. *)
Definition field_text (fields : gmap string string) (k : string) : string :=
  (k +:+ ": " +:+ default "<nil>" (fields !! k))%string.
Definition log_line (time level message : string) (keys : list string) (fields : gmap string string) : string :=
  (time +:+ tab +:+ level +:+ tab +:+ message +:+
   (match keys with
    | [] => ""
    | _ => tab +:+ "[" +:+ String.concat ", " (map (field_text fields) keys) +:+ "]"
    end) +:+ newline)%string.

Lemma str_app_assoc (a b c : string) : ((a +:+ b) +:+ c = a +:+ (b +:+ c))%string.
Proof.
  induction a as [|x a IH]; [done|].
  change (String x ((a +:+ b) +:+ c) = String x (a +:+ (b +:+ c))). by rewrite IH.
Qed.
Lemma str_app_nil (a : string) : (a +:+ "" = a)%string.
Proof. induction a as [|x a IH]; [done|]. change (String x (a +:+ "") = String x a). by rewrite IH. Qed.

Lemma write_fields_spec fields keys buf :
  write_fields fields keys (zlen keys) buf = (buf +:+ String.concat ", " (map (field_text fields) keys))%string.
Proof.
  revert buf. induction keys as [|k keys IH]; intros buf; cbn [write_fields map].
  { by rewrite str_app_nil. }
  rewrite zlen_cons. replace (1 + zlen keys - 1) with (zlen keys) by lia.
  destruct keys as [|k' keys].
  - cbn. unfold field_text. by rewrite !str_app_assoc.
  - destruct (Z.ltb_spec 0 (zlen (k' :: keys))) as [_|Hz]; [|rewrite zlen_cons in Hz; pose proof (zlen_nonneg keys); lia].
    rewrite IH.
    cbn [map String.concat]. unfold field_text. by rewrite !str_app_assoc.
Qed.

Lemma Strings_unique l k : l ≡ₚ k -> Strings l = Strings k.
Proof.
  intros Hp. unfold Strings. apply (StronglySorted_unique String.le).
  - apply StronglySorted_merge_sort; apply _.
  - apply StronglySorted_merge_sort; apply _.
  - by rewrite !merge_sort_Permutation.
Qed.

(** The line of a log entry is its time, level and message and, when it has
    fields, all of them once, in the order of their names, separated by commas; the
    order in which the map of fields is visited does not show.  Every level of the
    logger has a name, so the handler never panics. *)
Theorem HandleLog_line (range_ : gmap string string -> list (string * string)) entry :
  (forall m, range_ m ≡ₚ map_to_list m) -> 0 <= en_Level entry <= FatalLevel ->
  exists lvl keys,
    getLevel (en_Level entry) = Some lvl /\ keys ≡ₚ elements (dom (en_Fields entry)) /\
    StronglySorted String.le keys /\
    HandleLog range_ entry = Some (log_line (en_Timestamp entry) lvl (en_Message entry) keys (en_Fields entry)) /\
    HandleLog range_ entry = HandleLog map_to_list entry.
Proof.
  intros Hr Hl. destruct entry as [ts lv msg fs]. cbn [en_Level en_Fields en_Timestamp en_Message] in *.
  assert (exists lvl, getLevel lv = Some lvl) as [lvl El].
  { unfold getLevel, DebugLevel, InfoLevel, WarnLevel, ErrorLevel, FatalLevel in *.
    repeat (case_match; eauto). bool_prop. lia. }
  set (keys := Strings (range_ fs).*1).
  assert (keys ≡ₚ elements (dom fs)) as Hk.
  { unfold keys, Strings. rewrite merge_sort_Permutation, Hr. symmetry.
    apply NoDup_Permutation; [apply NoDup_elements|apply NoDup_fst_map_to_list|].
    intros k. rewrite elem_of_elements, elem_of_dom, list_elem_of_fmap. split.
    - intros [v Hv]. exists (k, v). by rewrite elem_of_map_to_list.
    - intros ([? v] & -> & Hv%elem_of_map_to_list). eauto. }
  assert (Z.of_nat (size fs) = zlen keys) as Hsz.
  { unfold zlen. rewrite Hk. rewrite <- size_dom. done. }
  exists lvl, keys. split_and!; [done|done|apply StronglySorted_merge_sort; apply _|..];
    unfold HandleLog; cbn [en_Level en_Fields en_Timestamp en_Message]; rewrite El; cbn; fold keys.
  - rewrite Hsz. unfold log_line. f_equal. destruct keys as [|k keys].
    + change (0 <? zlen (@nil string)) with false. change ("" +:+ newline) with newline.
      by rewrite !str_app_assoc.
    + pose proof (zlen_nonneg keys). destruct (Z.ltb_spec 0 (zlen (k :: keys))); [|rewrite zlen_cons in *; lia].
      rewrite write_fields_spec. by rewrite !str_app_assoc.
  - unfold keys. by rewrite (Strings_unique _ _ (fmap_Permutation fst _ _ (Hr fs))).
Qed.

Lemma HandleLog_line_witness :
  let entry := mkEntry_ "T" WarnLevel "late" {["b" := "2"; "a" := "1"]}%string in
  HandleLog map_to_list entry = Some (("T" +:+ tab +:+ "WARN" +:+ tab +:+ "late" +:+ tab +:+ "[a: 1, b: 2]" +:+ newline)%string) /\
  exists lvl keys, getLevel (en_Level entry) = Some lvl /\ StronglySorted String.le keys /\
    HandleLog map_to_list entry = Some (log_line "T" lvl "late" keys (en_Fields entry)).
Proof.
  intros entry. split; [reflexivity|].
  destruct (HandleLog_line map_to_list entry ltac:(done) ltac:(done)) as (lvl & keys & H1 & _ & H2 & H3 & _).
  exists lvl, keys. auto.
Defined.

(** ** Graphite *)

(** [%.2f]: the exact value rounded half to even to hundredths. *)
Definition hundredths (m : positive) (e : Z) : Z :=
  let n := Zpos m * 100 in
  if 0 <=? e then n * 2 ^ e
  else
    let d := 2 ^ (- e) in
    let q := n / d in
    let r := n mod d in
    if (d <? 2 * r) || ((2 * r =? d) && Z.odd q) then q + 1 else q.
Definition fixed2 (n : Z) : string :=
  (pretty (n / 100) +:+ "." +:+ (if (n mod 100 <? 10)%Z then "0" else "") +:+ pretty (n mod 100))%string.
Definition sign (s : bool) : string := if s then "-"%string else ""%string.
Definition fmt2 (f : spec_float) : string :=
  match f with
  | S754_nan => "NaN"%string
  | S754_infinity s => if s then "-Inf"%string else "+Inf"%string
  | S754_zero s => (sign s +:+ "0.00")%string
  | S754_finite s m e => (sign s +:+ fixed2 (hundredths m e))%string
  end.
Definition float64_div (f : spec_float) (n : Z) : spec_float :=
  SFdiv 53 1024 f (binary_normalize 53 1024 n 0 false).

Record Meter := mkMeter {
  m_Count : Z; m_Rate1 : spec_float; m_Rate5 : spec_float; m_Rate15 : spec_float; m_RateMean : spec_float }.
Record Timer := mkTimer {
  t_meter : Meter; t_Min : Z; t_Max : Z; t_Mean : spec_float;
  t_Percentile : spec_float -> spec_float }.

Inductive metric :=
  | ACounter (n : Z)
  | AGauge (n : Z)
  | AMeter (m : Meter)
  | ATimer (t : Timer)
  | AHealthcheck
  | AnUnknown.

Record GraphiteConfig := mkGraphite { gc_Prefix : string; gc_Addr : string; gc_DurationUnit : string }.
Record GraphiteExporter := mkExporter {
  ge_prefix : string; ge_addr : string; ge_duStr : string; ge_du : Z }.

(** [percentiles], with the keys [FormatFloat(p*100)] less its dot. *)
Definition percentiles : list (spec_float * string) :=
  [(S754_finite false 4503599627370496 (-53), "50"); (S754_finite false 6755399441055744 (-53), "75");
   (S754_finite false 8556839292003942 (-53), "95"); (S754_finite false 8917127262193582 (-53), "99");
   (S754_finite false 8998192055486251 (-53), "999")]%string.

Section graphite.
Context {Er : Type}.

Definition defaultPrefix : string := "{{hostname}}".

(** [render]: parsing and executing the template; [ParseDuration]: of package time. *)
Definition NewGraphiteExporter (render : string -> result Er string)
    (ParseDuration : string -> result Er Z) (cfg : GraphiteConfig)
  : result (option Er) GraphiteExporter :=
  let prefix := if decide (gc_Prefix cfg = ""%string) then defaultPrefix else gc_Prefix cfg in
  match render prefix with
  | Err e => Err (Some e)
  | Ok prefix =>
      let unit := if decide (gc_DurationUnit cfg = ""%string) then "1ms"%string else gc_DurationUnit cfg in
      if negb (String.prefix "1" unit) then Err None
      else match ParseDuration unit with
           | Err e => Err (Some e)
           | Ok du => Ok (mkExporter prefix (gc_Addr cfg) (String.substring 1 (String.length unit - 1) unit) du)
           end
  end.

(** [New] of the factory: [None] is the sender that does nothing. *)
Definition new_sender (unmarshal : list byte -> result Er GraphiteConfig)
    (render : string -> result Er string) (ParseDuration : string -> result Er Z) (c : Config)
  : result (option Er) (option GraphiteExporter) :=
  if decide (c_MetricsType c = "graphite"%string) then
    match unmarshal (c_MetricsArgs c) with
    | Err e => Err (Some e)
    | Ok cfg =>
        match NewGraphiteExporter render ParseDuration cfg with
        | Err e => Err e
        | Ok g => Ok (Some g)
        end
    end
  else if decide (c_MetricsType c = ""%string) then Ok None
  else Err None.
End graphite.

(** The entries of a metric: the rest of the path after its name, and the value. *)
Definition rates (five : string) (m : Meter) : list (string * string) :=
  [(".rate1m", fmt2 (m_Rate1 m)); (five, fmt2 (m_Rate5 m));
   (".rate15m", fmt2 (m_Rate15 m)); (".ratemean", fmt2 (m_RateMean m))]%string.
Definition entries_of (g : GraphiteExporter) (v : metric) : list (string * string) :=
  match v with
  | ACounter n | AGauge n => [(""%string, pretty n)]
  | AMeter m => (".count"%string, pretty (m_Count m)) :: rates ".rat5m" m
  | ATimer t =>
      [(".count", pretty (m_Count (t_meter t)));
       (".min_" +:+ ge_duStr g, pretty (Z.quot (t_Min t) (ge_du g)));
       (".max_" +:+ ge_duStr g, pretty (Z.quot (t_Max t) (ge_du g)));
       (".mean_" +:+ ge_duStr g, fmt2 (float64_div (t_Mean t) (ge_du g)))]%string ++
      map (λ pk : spec_float * string, ("." +:+ pk.2 +:+ "_" +:+ ge_duStr g,
        fmt2 (float64_div (t_Percentile t pk.1) (ge_du g)))%string) percentiles ++
      rates ".rate5m" (t_meter t)
  | AHealthcheck | AnUnknown => []
  end.

(** A line of the protocol: path, value and time. *)
Definition path (g : GraphiteExporter) (name rest : string) : string :=
  (ge_prefix g +:+ "." +:+ name +:+ rest)%string.
Definition lines_of (g : GraphiteExporter) (now : Z) (name : string) (v : metric) : list string :=
  map (λ kv : string * string, (path g name kv.1 +:+ " " +:+ kv.2 +:+ " " +:+ pretty now +:+ newline)%string)
    (entries_of g v).

(** [Send]: [false] when the server could not be dialled; otherwise what is handed to
    the connection, metric by metric. *)
Definition Send (dial : string -> bool) (now : Z) (g : GraphiteExporter) (r : list (string * metric))
  : bool * list string :=
  if dial (ge_addr g) then (true, concat (map (λ nv, lines_of g now nv.1 nv.2) r)) else (false, []).

(** ** Gauges and health checks of the daemon *)

Inductive health := Healthy | Unhealthy (why : string).

(** [uint64(val) >= l.Cur-100]: the difference wraps around. *)
Definition fdHealthCheck (rlimit : result unit Z) (openFDs : Z) : health :=
  match rlimit with
  | Err _ => Unhealthy "getrlimit"
  | Ok cur => if uint 64 (cur - 100) <=? uint 64 openFDs then Unhealthy "too many open files" else Healthy
  end.
Definition threadHealthCheck (threads : Z) : health :=
  if 5000 <=? threads then Unhealthy "too many OS threads" else Healthy.

(** [GetOpenFds]: the entries of /proc/self/fd. *)
Definition GetOpenFds (dir : result unit (list string)) : result unit Z :=
  match dir with Err e => Err e | Ok dirs => Ok (zlen dirs) end.

Record gauges := mkGauges {
  g_goroutines : Z; g_openFDs : Z; g_threads : Z; g_hc_openfd : health; g_hc_threads : health }.

(** What the system says at one tick. *)
Record sample := mkSample {
  s_goroutines : Z; s_fds : result unit (list string); s_threads : Z; s_rlimit : result unit Z }.

Definition collect (s : sample) (g : gauges) : gauges :=
  match GetOpenFds (s_fds s) with
  | Err _ => mkGauges (s_goroutines s) (g_openFDs g) (g_threads g) (g_hc_openfd g) (g_hc_threads g)
  | Ok count =>
      mkGauges (s_goroutines s) count (s_threads s)
        (fdHealthCheck (s_rlimit s) count) (threadHealthCheck (s_threads s))
  end.

(** [Collect]: once at the start and once per tick until the context is done, which
    is [None]. *)
Fixpoint ticks (evs : list (option sample)) (g : gauges) : gauges :=
  match evs with
  | Some s :: evs => ticks evs (collect s g)
  | None :: _ | [] => g
  end.
Definition Collect (first : sample) (evs : list (option sample)) (g : gauges) : gauges :=
  ticks evs (collect first g).

Definition desiredRlimit : Z := 65535.
(** [checkLimits] logs an error, a warning, or nothing. *)
Inductive limit_log := LimitError | LimitWarning | LimitFine.
Definition checkLimits (rlimit : result unit Z) : limit_log :=
  match rlimit with
  | Err _ => LimitError
  | Ok cur => if cur <? desiredRlimit then LimitWarning else LimitFine
  end.

(** ** Facts *)

Lemma str_app_inj (a b c : string) : (a +:+ b = a +:+ c)%string -> b = c.
Proof.
  induction a as [|x a IH]; [done|].
  change (String x (a +:+ b) = String x (a +:+ c) -> b = c). intros E. by injection E as E%IH.
Qed.

#[local] Instance path_inj g name : Inj (=) (=) (path g name).
Proof. intros a b E. unfold path in E. by do 3 apply str_app_inj in E. Qed.

(** The lines of one metric have different paths, whatever the unit of durations; a
    counter or gauge has one, a meter five, a timer thirteen. *)
Lemma paths_distinct g name v :
  NoDup (map (λ kv, path g name kv.1) (entries_of g v)) /\
  length (entries_of g v) =
    match v with ACounter _ | AGauge _ => 1 | AMeter _ => 5 | ATimer _ => 13 | _ => 0 end%nat.
Proof.
  split; [|by destruct v].
  assert (NoDup (entries_of g v).*1) as Hnd.
  { destruct v; cbn [entries_of rates map app percentiles fst snd fmap list_fmap];
      repeat (apply NoDup_cons; split; [rewrite ?elem_of_cons, elem_of_nil; intros Hin;
        repeat destruct Hin as [Hin|Hin]; vm_compute in Hin; congruence|]); constructor. }
  rewrite <- (map_map fst (path g name)). by apply (NoDup_fmap_2 (path g name)).
Qed.

(** With a limit of at least a hundred descriptors the check trips a hundred short of
    it. *)
Lemma fdHealthCheck_margin cur count :
  100 <= cur < 2 ^ 64 -> 0 <= count < 2 ^ 63 ->
  fdHealthCheck (Ok cur) count = Healthy <-> count + 100 < cur.
Proof.
  intros Hc Hn. unfold fdHealthCheck, uint. rewrite !Z.mod_small by lia.
  destruct (Z.leb_spec (cur - 100) count); split; (done || lia).
Qed.

(** Below that it wraps around and never trips, even with every descriptor in use. *)
Lemma fdHealthCheck_wraps cur count :
  0 <= cur < 100 -> 0 <= count <= cur -> fdHealthCheck (Ok cur) count = Healthy.
Proof.
  intros Hc Hn. unfold fdHealthCheck, uint.
  replace ((cur - 100) mod 2 ^ 64) with (cur - 100 + 2 ^ 64).
  - rewrite Z.mod_small by lia. destruct (Z.leb_spec (cur - 100 + 2 ^ 64) count); [lia|done].
  - rewrite <- (Z.mod_small (cur - 100 + 2 ^ 64) (2 ^ 64)) by lia.
    rewrite <- Zplus_mod_idemp_r, Z_mod_same_full, Z.add_0_r. done.
Qed.

(** A tick that cannot count the descriptors leaves the gauges and the checks of the
    tick before. *)
Lemma collect_stale s g :
  s_fds s = Err tt -> g_hc_threads (collect s g) = g_hc_threads g /\ g_threads (collect s g) = g_threads g.
Proof. intros E. unfold collect, GetOpenFds. by rewrite E. Qed.

(** The five-minute rate of a meter goes out under a name of its own. *)
Lemma meter_rat5m g m : entries_of g (AMeter m) !! 2%nat = Some (".rat5m"%string, fmt2 (m_Rate5 m)) /\
  forall t, entries_of g (ATimer t) !! 10%nat = Some (".rate5m"%string, fmt2 (m_Rate5 (t_meter t))).
Proof. done. Qed.

Example fmt2_examples :
  map fmt2 [S754_finite false 3 (-2); S754_finite true 12345 0; S754_finite false 1 (-3); S754_nan] =
  ["0.75"; "-12345.00"; "0.12"; "NaN"]%string.
Proof. reflexivity. Qed.
