(* ===== verification/Server.v ===== *)
(** * Serving

    The accept loops of [ServeOnListeners] with the connections they start, the inspect
    handler of the debug server (daemon/daemon.go) and the start of the program
    (cmd/stout/main.go). *)

From Stdlib Require Import ZArith Lia String.
From S2P Require Import Prelude Json MtnStore Mtn Config Daemon Telemetry.

(** ** The accept loops *)

Inductive loop_pc := Accepting | Stopped.

(** A connection: its goroutine has started, serves, or has returned. *)
Inductive conn_pc := Started | Handling | Closed.

#[export] Instance loop_pc_eq_dec : EqDecision loop_pc.
Proof. solve_decision. Defined.
#[export] Instance conn_pc_eq_dec : EqDecision conn_pc.
Proof. solve_decision. Defined.

Record serving := mkServing {
  sv_loops : list loop_pc;
  sv_conns : list conn_pc;
  sv_count : Z;                         (* the counter conns *)
  sv_cancelled : bool;                  (* the context of the connections *)
  sv_returned : bool
}.

(** [Inc] and [Dec] of a counter of package metrics. *)
Definition Inc (i n : Z) : Z := sint 64 (n + i).
Definition Dec (i n : Z) : Z := sint 64 (n - i).

Inductive serve_event :=
  | Accept (i : nat)                    (* a connection arrives at listener i *)
  | AcceptErr (i : nat)                 (* Accept of listener i fails *)
  | ConnStep (j : nat)                  (* the goroutine of connection j moves *)
  | Return.                             (* wg.Wait returns *)

Definition serve_start (listeners : list nat) (count : Z) : serving :=
  mkServing (map (λ _, Accepting) listeners) [] count false false.

Definition serve_exec (ev : serve_event) (s : serving) : option serving :=
  match ev with
  | Accept i =>
      match sv_loops s !! i with
      | Some Accepting =>
          Some (mkServing (sv_loops s) (sv_conns s ++ [Started]) (sv_count s) (sv_cancelled s) (sv_returned s))
      | _ => None
      end
  | AcceptErr i =>
      match sv_loops s !! i with
      | Some Accepting =>
          Some (mkServing (<[i := Stopped]> (sv_loops s)) (sv_conns s) (sv_count s) (sv_cancelled s) (sv_returned s))
      | _ => None
      end
  | ConnStep j =>
      match sv_conns s !! j with
      | Some Started =>
          Some (mkServing (sv_loops s) (<[j := Handling]> (sv_conns s)) (Inc 0 (sv_count s)) (sv_cancelled s) (sv_returned s))
      | Some Handling =>
          Some (mkServing (sv_loops s) (<[j := Closed]> (sv_conns s)) (Dec 0 (sv_count s)) (sv_cancelled s) (sv_returned s))
      | _ => None
      end
  | Return =>
      if forallb (λ l, bool_decide (l = Stopped)) (sv_loops s) && negb (sv_returned s)
      then Some (mkServing (sv_loops s) (sv_conns s) (sv_count s) true true)
      else None
  end.

Inductive serves (listeners : list nat) : serving -> Prop :=
  | serves_start : serves listeners (serve_start listeners 0)
  | serves_step s ev s' : serves listeners s -> serve_exec ev s = Some s' -> serves listeners s'.

Definition stopped (s : serving) : Prop := Forall (eq Stopped) (sv_loops s).

(** The connections that are being served. *)
Definition live (s : serving) : nat := length (filter (eq Handling) (sv_conns s)).

Record serve_inv (listeners : list nat) (s : serving) : Prop := {
  si_loops : length (sv_loops s) = length listeners;
  si_ctx : sv_cancelled s = sv_returned s;
  si_stopped : sv_returned s = true -> stopped s;
  si_count : sv_count s = 0
}.

Lemma forallb_stopped l : forallb (λ l, bool_decide (l = Stopped)) l = true <-> Forall (eq Stopped) l.
Proof.
  rewrite forallb_forall, Forall_forall. setoid_rewrite list_elem_of_In.
  split; intros H x Hx; specialize (H x Hx); [by apply bool_decide_eq_true in H|by apply bool_decide_eq_true].
Qed.

Lemma serve_inv_step listeners s ev s' :
  serve_inv listeners s -> serve_exec ev s = Some s' -> serve_inv listeners s'.
Proof.
  intros [H1 H2 H3 H4] E. destruct ev as [i|i|j|]; cbn in E.
  - destruct (sv_loops s !! i) as [[]|]; simplify_eq. by split.
  - destruct (sv_loops s !! i) as [[]|] eqn:El; simplify_eq. split; cbn; try done; [by rewrite length_insert|].
    intros Hr. apply Forall_insert; [by apply H3|done].
  - destruct (sv_conns s !! j) as [[]|]; simplify_eq; split; cbn; try done; by rewrite H4.
  - destruct (forallb _ _) eqn:Ef; [|done]. destruct (sv_returned s); [done|]. cbn in E. simplify_eq.
    split; cbn; try done. intros _. by apply forallb_stopped.
Qed.

Lemma serves_inv listeners s : serves listeners s -> serve_inv listeners s.
Proof.
  induction 1 as [|s ev s' _ IH E]; [|by eapply serve_inv_step].
  split; cbn; [by rewrite length_map|done..].
Qed.


(** The counter of connections is raised and lowered by zero: it never moves. *)
Lemma connections_never_counted listeners s : serves listeners s -> sv_count s = 0.
Proof. intros Hs. apply (serves_inv _ _ Hs). Qed.

(** Runs the machine over a list of events. *)
Fixpoint serve_run (evs : list serve_event) (s : serving) : option serving :=
  match evs with
  | [] => Some s
  | ev :: evs => s ← serve_exec ev s; serve_run evs s
  end.
Lemma serve_run_serves listeners evs s s' :
  serves listeners s -> serve_run evs s = Some s' -> serves listeners s'.
Proof.
  revert s. induction evs as [|ev evs IH]; intros s Hs E; cbn in E; [by simplify_eq|].
  destruct (serve_exec ev s) as [s1|] eqn:E1; [|done]. eapply IH; [|exact E]. by econstructor.
Qed.

(** Two listeners, a connection of the first still being served when both have failed:
    the server returns, with the counter at zero all along. *)
Definition demo_served : serving := mkServing [Stopped; Stopped] [Handling] 0 true true.

(** ** The inspect handler *)

(** A [http.ResponseWriter]: the header map of the handler, and what went out: status,
    the headers as they were then, the body. *)
Record response := mkResponse {
  r_status : option Z;
  r_header : gmap string string;
  r_sent : gmap string string;
  r_body : list byte
}.
Definition fresh : response := mkResponse None ∅ ∅ [].

Definition WriteHeader (code : Z) (w : response) : response :=
  match r_status w with
  | Some _ => w
  | None => mkResponse (Some code) (r_header w) (r_header w) (r_body w)
  end.
Definition Header_Set (k v : string) (w : response) : response :=
  mkResponse (r_status w) (<[k := v]> (r_header w)) (r_sent w) (r_body w).

(** [Write] sends the header first and, with the first bytes, guesses a content type
    when none was sent ([sniff] is [http.DetectContentType]). *)
Definition Write (sniff : list byte -> string) (data : list byte) (w : response) : response :=
  let w := WriteHeader 200 w in
  let sent := match r_body w, data, r_sent w !! "Content-Type"%string with
              | [], _ :: _, None => <["Content-Type"%string := sniff data]> (r_sent w)
              | _, _, _ => r_sent w
              end in
  mkResponse (r_status w) (r_header w) sent (r_body w ++ data).

Section inspect.
Context {Bx St Er : Type} `{BoxOps Bx St Er}.
Context (sniff : list byte -> string) (show : Er -> string).

Definition print (s : string) : response -> response := Write sniff (str_bytes s).

(** The handler registered for "/inspect/"+name. *)
Definition inspect_handler (boxes : gmap string Bx) (name method uuid : string) (st : St) : response * St :=
  if decide (method = "GET"%string \/ method = "HEAD"%string) then
    match boxes !! name with
    | None => (print ("Box " +:+ name +:+ " is unavailable") (WriteHeader 400 fresh), st)
    | Some box =>
        if decide (uuid = ""%string) then
          (print ("query arg uuid is not set" +:+ newline) (WriteHeader 400 fresh), st)
        else
          match Inspect box uuid st with
          | (Err e, st) =>
              (print ("Box.Inspect " +:+ name +:+ " failed " +:+ show e +:+ newline) (WriteHeader 500 fresh), st)
          | (Ok data, st) =>
              (Write sniff data (Header_Set "Content-Type" "application/json" (WriteHeader 200 fresh)), st)
          end
    end
  else (WriteHeader 405 fresh, st).

(** [RegisterHTTPHandlers]: one route per box. *)
Definition RegisterHTTPHandlers (boxes : gmap string Bx) : gmap string (string -> string -> St -> response * St) :=
  list_to_map (map (λ kb : string * Bx, ("/inspect/" +:+ kb.1, inspect_handler boxes kb.1)%string) (map_to_list boxes)).

(** What the debug server answers at "/inspect/"+name: there is a route exactly for
    each box; anything but GET and HEAD is refused with 405 and a request without an
    uuid with 400, both without asking the box; otherwise the box is asked once, and
    its document is the body of a 200, or its failure a 500.  The content type of the
    document is not the one the handler sets, which comes after the header was sent. *)
Theorem inspect_reply boxes name method uuid st :
  RegisterHTTPHandlers boxes !! ("/inspect/" +:+ name)%string =
    match boxes !! name with Some _ => Some (inspect_handler boxes name) | None => None end /\
  forall box, boxes !! name = Some box ->
    let '(w, st') := inspect_handler boxes name method uuid st in
    if decide (method = "GET"%string \/ method = "HEAD"%string) then
      if decide (uuid = ""%string) then r_status w = Some 400 /\ st' = st
      else match Inspect box uuid st with
           | (Ok data, st1) =>
               r_status w = Some 200 /\ r_body w = data /\ st' = st1 /\
               r_sent w !! "Content-Type"%string = match data with [] => None | _ => Some (sniff data) end
           | (Err _, st1) => r_status w = Some 500 /\ st' = st1
           end
    else r_status w = Some 405 /\ r_body w = [] /\ st' = st.
Proof.
  split.
  - unfold RegisterHTTPHandlers. destruct (boxes !! name) as [box|] eqn:E.
    + apply elem_of_list_to_map_1'; [|apply list_elem_of_fmap; exists (name, box); by rewrite elem_of_map_to_list].
      intros h ([n b] & E1 & _)%list_elem_of_fmap. cbn in E1. apply pair_eq in E1 as [E1 ->].
      by apply (str_app_inj "/inspect/") in E1 as ->.
    + apply not_elem_of_list_to_map_1. rewrite <- list_fmap_compose.
      intros ([n b] & E1 & Hin%elem_of_map_to_list)%list_elem_of_fmap. cbn in E1.
      apply (str_app_inj "/inspect/") in E1 as ->. congruence.
  - intros box Hb. unfold inspect_handler. rewrite Hb.
    destruct (decide (method = _ \/ _)); [|done]. destruct (decide (uuid = _)); [done|].
    destruct (Inspect box uuid st) as [[data|e] st']; [|done]. split_and!; try done. by destruct data.
Qed.
End inspect.

(** ** The program *)

Definition requiredConfigVersion : Z := 2.
Definition minimalPeriod : Z := 5 * Second.

(** The period of the metrics sender. *)
Definition sender_period (config : Config) : Z :=
  if c_MetricsPeriod config <? minimalPeriod then minimalPeriod else c_MetricsPeriod config.

(** How far [main] got: it left with a code, or it serves. *)
Inductive started (Bx : Type) :=
  | Exited (code : Z)
  | Serving (d : Daemon (Bx := Bx)) (output : log_output) (sender : option GraphiteExporter) (period : Z).
Arguments Exited {Bx}.
Arguments Serving {Bx}.

Section main.
Context {Db Tx DbEr : Type} `{Bolt Db Tx DbEr}.
Context {Bx Wd Er JErr : Type} `{BoxOps Bx (env Db Wd) Er}.
Context (range_boxes : gmap string Bx -> list (string * Bx)).
Context (range_conf : gmap string BoxSection -> list (string * BoxSection)).
Context (range_nets : gmap string (list Allocation) -> list (string * list Allocation)).
Context (plugins : gmap string (BoxConstructor (St := env Db Wd) (Er := Er) (Bx := Bx))).

(** The answers of the libraries and of the system. *)
Context (unmarshal : list byte -> Config -> result JErr Config).
Context (unmarshal_graphite : list byte -> result JErr GraphiteConfig).
Context (render : string -> result JErr string) (ParseDuration : string -> result JErr Z).
Context (can_open : string -> bool) (listens : nat -> string -> bool).
Context (b : boot Db) (get : http_resp (list RawAlloc)).

(** [os.Exit] and [logger.Fatalf] leave at once: no deferred call runs. *)
Definition main (showVersion : bool) (file : option (list byte)) (e : env Db Wd) (n : net)
  : started Bx * env Db Wd * net :=
  if showVersion then (Exited 0, e, n)
  else match file with
  | None => (Exited 1, e, n)
  | Some data =>
      match Parse unmarshal data with
      | Err _ => (Exited 1, e, n)
      | Ok config =>
          if negb (c_Version config =? requiredConfigVersion) then (Exited 1, e, n)
          else match NewLogFileOutput can_open (c_LogOutput config) with
          | None => (Exited 1, e, n)
          | Some output =>
              match new_sender unmarshal_graphite render ParseDuration config with
              | Err _ => (Exited 1, e, n)
              | Ok sender =>
                  match New range_boxes range_conf range_nets plugins b get config e with
                  | (Err Panicked, e) => (Exited 2, e, n)
                  | (Err _, e) => (Exited 1, e, n)
                  | (Ok d, e) =>
                      match Serve_start listens d n with
                      | (Err _, n) => (Exited 1, e, n)
                      | (Ok d, n) => (Serving d output sender (sender_period config), e, n)
                      end
                  end
              end
          end
      end
  end.

(** The deferred calls when [Serve] returns without error. *)
Definition main_return (d : Daemon (Bx := Bx)) (n : net) (e : env Db Wd) : net * env Db Wd :=
  Daemon_Close range_boxes d n e.

Context (range_conf_all : forall m, range_conf m ≡ₚ map_to_list m).

(** C38: when the program serves, it runs a valid configuration of version 2, with a
    box for every entry and an open listener for every endpoint, at least one of each,
    and reports metrics at most every five seconds; in all other cases it leaves with
    the code 0 exactly when it was asked for its version, and no listener stays open. *)
Theorem main_serves showVersion file e n :
  (forall j, (n_next n <= j)%nat -> n_open n !! j = None) ->
  match main showVersion file e n with
  | (Serving d output sender period, e', n') =>
      c_Version (d_cfg d) = requiredConfigVersion /\ 5 * Second <= period /\
      dom (d_boxes d) = dom (c_Isolate (d_cfg d)) /\ d_boxes d <> ∅ /\
      length (d_listeners d) = length (c_Endpoints (d_cfg d)) /\ d_listeners d <> [] /\
      forall k ln, d_listeners d !! k = Some ln -> n_open n' !! ln = c_Endpoints (d_cfg d) !! k
  | (Exited code, e', n') => (code = 0 <-> showVersion = true) /\ n_open n' = n_open n
  end.
Proof using range_conf_all.
  intros Hn. unfold main. destruct showVersion; [done|]. destruct file as [data|]; [|done].
  destruct (Parse unmarshal data) as [config|] eqn:Ep; [|done].
  destruct (Z.eqb_spec (c_Version config) requiredConfigVersion) as [Hv|]; [|done]. cbn [negb].
  destruct (NewLogFileOutput _ _) as [output|]; [|done].
  destruct (new_sender _ _ _ _) as [sender|]; [|done].
  destruct (New _ _ _ _ _ _ _ e) as [[d|err] e1] eqn:En; [|by destruct err].
  destruct (New_ok _ _ _ _ range_conf_all _ _ _ _ _ _ En) as (_ & bs & _ & _ & -> & Hdom & _).
  pose proof (Serve_start_spec listens (mkDaemon (list_to_map bs) config []) n Hn ltac:(set_solver)) as Hs.
  destruct (Serve_start _ _ n) as [[d'|] n1] eqn:Es; [|done]. destruct Hs as (H1 & H2 & H3 & H4 & H5).
  assert (c_Isolate config <> ∅ /\ c_Endpoints config <> []) as [Hi He].
  { unfold Parse in Ep. destruct (unmarshal _ _) as [c|]; [|done].
    destruct (Validate c) eqn:Ev; [done|]. simplify_eq. by apply Validate_None. }
  rewrite H1, H2. cbn [d_boxes d_cfg] in *. split_and!; try done.
  - unfold sender_period, minimalPeriod. destruct (Z.ltb_spec (c_MetricsPeriod config) (5 * Second)); lia.
  - intros E0. rewrite E0, dom_empty_L in Hdom. symmetry in Hdom. by apply dom_empty_iff_L in Hdom.
  - intros E0. rewrite E0 in H3. by destruct (c_Endpoints config).
Qed.

(** A listener that cannot be opened makes the program leave without closing the boxes
    it had constructed. *)
Lemma failed_listen_leaves_boxes data config output sender d e e1 n n1 :
  Parse unmarshal data = Ok config -> c_Version config = requiredConfigVersion ->
  NewLogFileOutput can_open (c_LogOutput config) = Some output ->
  new_sender unmarshal_graphite render ParseDuration config = Ok sender ->
  New range_boxes range_conf range_nets plugins b get config e = (Ok d, e1) ->
  Serve_start listens d n = (Err tt, n1) ->
  main false (Some data) e n = (Exited 1, e1, n1).
Proof using Type. intros E1 E2 E3 E4 E5 E6. unfold main. by rewrite E1, E2, E3, E4, E5, E6. Qed.
End main.

(** ** Runs *)

#[local] Existing Instance demo_ops.

Definition demo_main (listens : nat -> string -> bool) :=
  main (JErr := unit) map_to_list map_to_list map_to_list demo_plugins
    (λ _ _, Ok (demo_config [("p", "porto")]%string)) (λ _, Err tt) (λ s, Ok s) (λ _, Err tt)
    (λ _, true) listens demo_boot NewRequestErr false (Some []) demo_env (mkNet ∅ 0).

Definition demo_main_env : env store (list string) := mkEnv (mkMtnState no_cfg None) ∅ ["new porto"%string].

(** The program serves one box on two endpoints; when the second endpoint is taken it
    leaves with the box still open. *)
Lemma main_serves_witness :
  demo_main (λ i _, Nat.eqb i 0) = (Exited 1, demo_main_env, mkNet ∅ 1) /\
  match demo_main (λ _ _, true) with
  | (Serving d _ _ period, e, n) => e = demo_main_env /\ 5 * Second <= period /\ d_boxes d <> ∅ /\ d_listeners d <> []
  | (Exited _, _, _) => False
  end.
Proof.
  split; [reflexivity|].
  pose proof (main_serves (JErr := unit) map_to_list map_to_list map_to_list demo_plugins
    (λ _ _, Ok (demo_config [("p", "porto")]%string)) (λ _, Err tt) (λ s, Ok s) (λ _, Err tt)
    (λ _, true) (λ _ _, true) demo_boot NewRequestErr (λ m, Permutation_refl _) false (Some [])
    demo_env (mkNet ∅ 0) ltac:(done)) as H.
  unfold demo_main. destruct (main _ _ _ _ _ _ _ _ _ _ _ _ _ _ _ _) as [[[code|d out snd period] e] n] eqn:E.
  - vm_compute in E. discriminate.
  - destruct H as (_ & H1 & _ & H2 & _ & H3 & _). split_and!; try done.
    vm_compute in E. injection E as <- <- <- <- <- <-. reflexivity.
Defined.

Lemma inspect_reply_witness :
  let boxes := {["p" := "porto"]}%string in
  let sniff (_ : list byte) := "text/plain"%string in
  let show (_ : unit) := ""%string in
  let w := (inspect_handler sniff show boxes "p" "GET" "1" demo_env).1 in
  r_status w = Some 200 /\ r_body w = str_bytes "porto1" /\ r_sent w !! "Content-Type"%string = Some "text/plain"%string.
Proof.
  intros boxes sniff show w.
  destruct (inspect_reply sniff show boxes "p" "GET" "1" demo_env) as [_ H].
  specialize (H "porto"%string eq_refl). cbn in H. destruct H as (H1 & H2 & _ & H3). auto.
Defined.
