(* ===== verification/Metrics.v ===== *)
(** * The registry of metrics and its reports

    The registry of go-metrics ([StandardRegistry], [PrefixedRegistry]), what the packages
    put into it when the program starts (isolate/metrics.go, docker/metrics.go,
    porto/metrics.go, process/metrics.go, daemon/metrics.go), the exporter built from the
    arguments of the configuration (pkg/exportmetrics/factory.go), and the loop that sends
    the registry to it (cmd/stout/main.go [sendEvery]). *)

From Stdlib Require Import ZArith Lia Ascii String SpecFloat.
From stdpp Require Import pretty.
From S2P Require Import Prelude Json Duration MtnStore Mtn Journal PortoUtil GoPath Config ConfigJson Daemon Telemetry Server.

(** ** The registry *)

Inductive kind := Counter | Gauge | GaugeFloat64 | Healthcheck | Histogram | Meter_ | Timer_ | NoMetric.
#[export] Instance kind_eq : EqDecision kind.
Proof. solve_decision. Defined.

(** A registered object: its type and the variable that holds it. *)
Record handle := mkHandle { h_kind : kind; h_var : string }.
#[export] Instance handle_eq : EqDecision handle.
Proof. solve_decision. Defined.

Abbreviation registry := (gmap string handle).

(** [register]: a name that is taken is an error; an object of another type is dropped
    without one. *)
Definition Register (name : string) (i : handle) (r : registry) : option string * registry :=
  match r !! name with
  | Some _ => (Some name, r)
  | None => (None, match h_kind i with NoMetric => r | _ => <[name := i]> r end)
  end.

(** [NewPrefixedChildRegistry(metrics.DefaultRegistry, prefix)] and its [Register]. *)
Record package := mkPackage { p_prefix : string; p_metrics : list (string * handle) }.
Definition prefixed (p : package) : list (string * handle) :=
  map (λ nv, (p_prefix p +:+ nv.1, nv.2)) (p_metrics p).

(** Registrations in order, with the errors, which the packages ignore. *)
Definition register_all (l : list (string * handle)) (r : registry) : list string * registry :=
  fold_left (λ er nv, match Register nv.1 nv.2 er.2 with (e, r) => (er.1 ++ option_list e, r) end) l ([], r).

Definition isolate_init : package := mkPackage "isolate_"
  [("spawn_meter", mkHandle Meter_ "isolate.spawnMeter");
   ("kill_meter", mkHandle Meter_ "isolate.killMeter");
   ("spawn_cancel_meter", mkHandle Meter_ "isolate.spawnCancelMeter");
   ("spawn_cancelled_meter", mkHandle Meter_ "isolate.spawnCancelledMeter")]%string.
Definition docker_init : package := mkPackage "docker_"
  [("spawning_queue_size", mkHandle Counter "docker.spawningQueueSize");
   ("containers_created", mkHandle Counter "docker.containersCreatedCounter");
   ("containers_errored", mkHandle Counter "docker.containersErroredCounter");
   ("total_spawn_timer", mkHandle Timer_ "docker.totalSpawnTimer")]%string.
Definition porto_init : package := mkPackage "porto_"
  [("spawning_queue_size", mkHandle Counter "porto.spawningQueueSize");
   ("containers_created", mkHandle Counter "porto.containersCreatedCounter");
   ("containers_errored", mkHandle Counter "porto.containersErroredCounter");
   ("containers_killed", mkHandle Counter "porto.containersKilledCounter");
   ("total_spawn_timer", mkHandle Timer_ "porto.totalSpawnTimer")]%string.
Definition process_init : package := mkPackage "process_"
  [("spawning_queue_size", mkHandle Counter "process.spawningQueueSize");
   ("procs_created", mkHandle Counter "process.procsCreatedCounter");
   ("procs_errored", mkHandle Counter "process.procsErroredCounter");
   ("procs_waited", mkHandle Counter "process.procsWaitedCounter");
   ("total_spawn_timer", mkHandle Timer_ "process.totalSpawnTimer");
   ("procs_new_timer", mkHandle Timer_ "process.procsNewTimer");
   ("zombie_wait_timer", mkHandle Timer_ "process.zombieWaitTimer")]%string.
Definition daemon_init : package := mkPackage "daemon_"
  [("open_fds", mkHandle Gauge "daemon.openFDs");
   ("goroutines", mkHandle Gauge "daemon.goroutines");
   ("threads", mkHandle Gauge "daemon.threads");
   ("connections", mkHandle Counter "daemon.conns");
   ("hc_openfd", mkHandle Healthcheck "fdHealthCheck");
   ("hc_threads", mkHandle Healthcheck "threadHealthCheck")]%string.

Definition packages : list package := [isolate_init; docker_init; porto_init; process_init; daemon_init].

(** [metrics.DefaultRegistry] once the packages are initialised in the order [ps]. *)
Definition DefaultRegistry (ps : list package) : list string * registry := register_all (concat (map prefixed ps)) ∅.

(** ** Reports *)

(** The value of an object has the type of the object. *)
Definition of_kind (k : kind) (v : metric) : Prop :=
  match k, v with
  | Counter, ACounter _ | Gauge, AGauge _ | Meter_, AMeter _ | Timer_, ATimer _ | Healthcheck, AHealthcheck => True
  | (GaugeFloat64 | Histogram | NoMetric), AnUnknown => True
  | _, _ => False
  end.

(** One [Send] of a sender; [None] is [noopSender].  [range]: the order in which [Each]
    goes over the metrics, [value]: what they hold. *)
Definition sender_Send (sender : option GraphiteExporter) (dial : string -> bool) (now : Z)
    (value : handle -> metric) (range : registry -> list (string * handle)) (r : registry) : bool * list string :=
  match sender with
  | None => (true, [])
  | Some g => Send dial now g (map (λ nv, (nv.1, value nv.2)) (range r))
  end.

(** [sendEvery]: a report per tick until the context is done; a failed report is logged
    and the loop goes on. *)
Inductive send_event := Tick (dial : string -> bool) (now : Z) (value : handle -> metric) | CtxDone.
Fixpoint sendEvery (sender : option GraphiteExporter) (range : registry -> list (string * handle)) (r : registry)
    (evs : list send_event) : list (bool * list string) :=
  match evs with
  | Tick dial now value :: evs => sender_Send sender dial now value range r :: sendEvery sender range r evs
  | CtxDone :: _ | [] => []
  end.

(** The exporter from the raw arguments of the configuration. *)
Definition graphite_config (data : list byte) : result unmarshal_error GraphiteConfig :=
  map_ok (λ c, mkGraphite c.1.1 c.1.2 c.2) (unmarshal_graphite data).

(** [funcMap]: the function hostname of the template of the prefix. *)
Definition hostname {E} (Hostname : result E string) : result E string := map_ok (replace_char "." "_") Hostname.

(** ** Facts *)

(** The name of the host is one component of a path. *)
Lemma hostname_dotless {E} (h : result E string) name : hostname h = Ok name ->
  ∀ a, List.In a (list_ascii_of_string name) -> a <> "."%char.
Proof.
  destruct h as [s|]; [|done]. intros [= <-]. induction s as [|x s IH]; cbn; [done|]. intros a [<-|Ha]; [|by apply IH].
  by case_decide.
Qed.

Lemma register_all_app l1 l2 r : register_all (l1 ++ l2) r =
  ((register_all l1 r).1 ++ (register_all l2 (register_all l1 r).2).1, (register_all l2 (register_all l1 r).2).2).
Proof.
  unfold register_all. rewrite fold_left_app. destruct (fold_left _ l1 ([], r)) as [es r1]. clear. cbn.
  revert es r1. induction l2 as [|[n h] l2 IH]; intros es r1; cbn; [by rewrite app_nil_r|].
  destruct (Register n h r1) as [e r2]. rewrite IH, (IH (option_list e)). cbn. by rewrite app_assoc.
Qed.

(** Registering objects under new and different names keeps them all. *)
Lemma register_all_new l : NoDup l.*1 -> Forall (λ nv : string * handle, h_kind nv.2 <> NoMetric) l ->
  register_all l ∅ = ([], list_to_map l).
Proof.
  induction l as [|[n h] l IH] using rev_ind; [done|].
  rewrite fmap_app, NoDup_app, Forall_app. intros (Hl & Hx & _) [Hk Hh]. rewrite register_all_app, (IH Hl Hk).
  cbn. unfold Register. assert (n ∉ l.*1) as Hn by (intros ?%Hx; set_solver).
  rewrite (not_elem_of_list_to_map_1 _ _ Hn). apply Forall_cons in Hh as [Hh _]. cbn in *.
  assert (list_to_map (l ++ [(n, h)]) = <[n := h]> (list_to_map l : registry)) as ->.
  { rewrite <- list_to_map_cons. apply list_to_map_proper; [|by rewrite Permutation_app_comm].
    rewrite fmap_app, NoDup_app. split_and!; [done|set_solver|apply NoDup_singleton]. }
  by destruct (h_kind h).
Qed.

Definition all_metrics : list (string * handle) := Eval vm_compute in concat (map prefixed packages).

Lemma all_metrics_names : NoDup all_metrics.*1.
Proof. apply (bool_decide_unpack _). by vm_compute. Qed.

Lemma DefaultRegistry_all ps : ps ≡ₚ packages ->
  DefaultRegistry ps = ([], list_to_map all_metrics) /\ concat (map prefixed ps) ≡ₚ all_metrics.
Proof.
  intros Hp. assert (concat (map prefixed ps) ≡ₚ all_metrics) as E.
  { change all_metrics with (concat (map prefixed packages)). by rewrite <- Hp. }
  split; [|done]. unfold DefaultRegistry. rewrite register_all_new.
  - f_equal. apply list_to_map_proper; [|done]. rewrite E. apply all_metrics_names.
  - rewrite E. apply all_metrics_names.
  - rewrite E. by repeat (apply Forall_cons_2; [done|]).
Qed.

(** A name without dots and a rest that is empty or starts with one are read off the path. *)
Fixpoint dotless (s : string) : bool :=
  match s with
  | EmptyString => true
  | String a s => negb (Ascii.eqb a "."%char) && dotless s
  end.
Definition dotted (s : string) : Prop := s = ""%string \/ ∃ s', s = String "." s'.

Lemma dotless_app n1 n2 r1 r2 : dotless n1 = true -> dotless n2 = true -> dotted r1 -> dotted r2 ->
  (n1 +:+ r1 = n2 +:+ r2)%string -> n1 = n2.
Proof.
  intros H1 H2 D1 D2. revert n2 H2. induction n1 as [|a n1 IH]; intros [|b n2] H2 E; [done| | |].
  - cbn in *. destruct D1 as [->|[s ->]]; [done|]. injection E as <- _. done.
  - cbn in *. destruct D2 as [->|[s ->]]; [done|]. injection E as -> _. done.
  - cbn in *. apply andb_true_iff in H1 as [_ H1], H2 as [_ H2]. injection E as <- E. f_equal. by apply IH.
Qed.

Lemma entries_dotted g v : Forall (λ kv, dotted kv.1) (entries_of g v).
Proof.
  destruct v; cbn [entries_of rates map app percentiles fst snd];
    repeat (apply Forall_cons_2; [(by left) || (right; eexists; reflexivity)|]); constructor.
Qed.

(** The entries of a report, with their paths. *)
Definition report (g : GraphiteExporter) (l : list (string * metric)) : list (string * string) :=
  l ≫= λ nv, map (λ kv, (path g nv.1 kv.1, kv.2)) (entries_of g nv.2).

Lemma Send_report dial now g l : dial (ge_addr g) = true ->
  Send dial now g l = (true, map (λ pv, pv.1 +:+ " " +:+ pv.2 +:+ " " +:+ pretty now +:+ newline)%string (report g l)).
Proof.
  intros Hd. unfold Send. rewrite Hd. f_equal. induction l as [|[n v] l IH]; [done|]. cbn. rewrite IH, map_app.
  f_equal. unfold lines_of. by rewrite map_map.
Qed.

Lemma report_elem g l p : p ∈ (report g l).*1 <-> ∃ n v, (n, v) ∈ l /\ ∃ kv, kv ∈ entries_of g v /\ p = path g n kv.1.
Proof.
  unfold report. rewrite list_elem_of_fmap. setoid_rewrite list_elem_of_bind. split.
  - intros ([q y] & -> & [n v] & (kv & [= -> ->] & Hkv)%list_elem_of_fmap & Hl). eauto 10.
  - intros (n & v & Hl & kv & Hkv & ->). exists (path g n kv.1, kv.2). split; [done|]. exists (n, v).
    split; [|done]. apply list_elem_of_fmap. by exists kv.
Qed.

Lemma report_paths g l : NoDup l.*1 -> Forall (λ nv, dotless nv.1 = true) l -> NoDup (report g l).*1.
Proof.
  induction l as [|[n v] l IH]; [constructor|]. intros [Hn Hl]%NoDup_cons [Hd Hds]%Forall_cons.
  change (report g ((n, v) :: l)) with (map (λ kv, (path g n kv.1, kv.2)) (entries_of g v) ++ report g l).
  rewrite fmap_app, NoDup_app. split_and!; [|intros p Hp Hp'|by apply IH].
  - rewrite <- list_fmap_compose. apply (paths_distinct g n v).
  - rewrite <- list_fmap_compose in Hp. apply list_elem_of_fmap in Hp as (kv & -> & Hkv).
    apply report_elem in Hp' as (n' & v' & Hnv & kv' & Hkv' & E). apply Hn.
    pose proof (proj1 (Forall_forall _ _) (entries_dotted g v) _ Hkv) as D1.
    pose proof (proj1 (Forall_forall _ _) (entries_dotted g v') _ Hkv') as D2.
    pose proof (proj1 (Forall_forall _ _) Hds _ Hnv) as Hd'. unfold path in E. do 2 apply str_app_inj in E.
    cbn in *. rewrite (dotless_app _ _ _ _ Hd Hd' D1 D2 E). apply list_elem_of_fmap. by exists (n', v').
Qed.

(** How many lines an object of a type makes. *)
Definition lines_in (k : kind) : nat :=
  match k with Counter | Gauge => 1 | Meter_ => 5 | Timer_ => 13 | _ => 0 end.

Lemma length_report g (value : handle -> metric) l : (∀ h, of_kind (h_kind h) (value h)) ->
  length (report g (map (λ nv : string * handle, (nv.1, value nv.2)) l)) =
  sum_list_with (λ nv : string * handle, lines_in (h_kind nv.2)) l.
Proof.
  intros Hv. induction l as [|[n h] l IH]; [done|]. cbn [map report mbind list_bind sum_list_with].
  rewrite length_app, length_map. f_equal; [|exact IH]. cbn. rewrite (proj2 (paths_distinct g n _)).
  specialize (Hv h). by destruct (h_kind h), (value h).
Qed.

Lemma entries_of_reported g h v : of_kind (h_kind h) v -> (0 < lines_in (h_kind h))%nat -> entries_of g v <> [].
Proof. destruct (h_kind h), v; cbn; done || lia. Qed.
Lemma all_metrics_kinds :
  Forall (λ nv : string * handle, h_kind nv.2 = Healthcheck \/ (0 < lines_in (h_kind nv.2))%nat) all_metrics.
Proof. repeat (apply Forall_cons_2; [(by left) || (right; cbn; lia)|]). constructor. Qed.

(** ** Properties *)

(** C40: the packages register under different names whatever the order in which Go
    initialises them: no registration is refused or dropped and the registry is the same;
    and a report that reaches the server sends a hundred lines of different paths, in
    whatever order [Each] goes over the metrics, with at least one line under the name of
    every metric that is not a health check. *)
Theorem metrics_report ps range g dial now value : ps ≡ₚ packages -> (∀ r, range r ≡ₚ map_to_list r) ->
  (∀ h, of_kind (h_kind h) (value h)) -> dial (ge_addr g) = true ->
  DefaultRegistry ps = ([], list_to_map all_metrics) /\
  ∃ pvs, sender_Send (Some g) dial now value range (DefaultRegistry ps).2 =
      (true, map (λ pv, pv.1 +:+ " " +:+ pv.2 +:+ " " +:+ pretty now +:+ newline)%string pvs) /\
    length pvs = 100%nat /\ NoDup pvs.*1 /\
    ∀ p n h, p ∈ packages -> (n, h) ∈ p_metrics p -> h_kind h <> Healthcheck ->
      ∃ rest, path g (p_prefix p +:+ n) rest ∈ pvs.*1.
Proof.
  intros Hp Hr Hv Hd. destruct (DefaultRegistry_all ps Hp) as [E _]. split; [done|]. rewrite E. cbn [sender_Send snd].
  assert (range (list_to_map all_metrics) ≡ₚ all_metrics) as Hreg.
  { rewrite Hr. apply map_to_list_to_map, all_metrics_names. }
  set (l := range (list_to_map all_metrics)) in *. exists (report g (map (λ nv, (nv.1, value nv.2)) l)).
  split_and!; [by apply Send_report| | |].
  - by rewrite length_report, Hreg.
  - apply report_paths.
    + rewrite <- list_fmap_compose. change (NoDup l.*1). rewrite Hreg. apply all_metrics_names.
    + apply Forall_map. rewrite Hreg. by repeat (apply Forall_cons_2; [done|]).
  - intros p n h Hin Hn Hk. assert ((p_prefix p +:+ n, h) ∈ l) as Hl.
    { rewrite Hreg. change all_metrics with (concat (map prefixed packages)). apply list_elem_of_In, in_concat.
      exists (prefixed p). split; [by apply in_map, list_elem_of_In|]. apply (in_map (λ nv, (p_prefix p +:+ nv.1, nv.2)) _ (n, h)).
      by apply list_elem_of_In. }
    destruct (entries_of g (value h)) as [|[rest x] es] eqn:Ee.
    + exfalso. apply (entries_of_reported g h (value h)); [done| |done]. rewrite Hreg in Hl.
      by destruct (proj1 (Forall_forall _ _) all_metrics_kinds _ Hl).
    + exists rest. apply report_elem. exists (p_prefix p +:+ n), (value h).
      split; [by apply (list_elem_of_fmap_2 (λ nv, (nv.1, value nv.2)) l _ Hl)|]. exists (rest, x). rewrite Ee. split; [apply list_elem_of_here|done].
Qed.

Definition some_value (h : handle) : metric :=
  match h_kind h with
  | Counter => ACounter 0 | Gauge => AGauge 0 | Healthcheck => AHealthcheck
  | Meter_ => AMeter (mkMeter 0 (S754_zero false) (S754_zero false) (S754_zero false) (S754_zero false))
  | Timer_ => ATimer (mkTimer (mkMeter 0 (S754_zero false) (S754_zero false) (S754_zero false) (S754_zero false)) 0 0 (S754_zero false) (λ _, (S754_zero false)))
  | _ => AnUnknown
  end.

Lemma metrics_report_witness :
  ∃ pvs, sender_Send (Some (mkExporter "stout" ":42000" "ms" Millisecond)) (λ _, true) 0 some_value map_to_list
      (DefaultRegistry packages).2 =
      (true, map (λ pv, pv.1 +:+ " " +:+ pv.2 +:+ " " +:+ pretty 0 +:+ newline)%string pvs) /\
    length pvs = 100%nat /\ NoDup pvs.*1.
Proof.
  assert (∀ h, of_kind (h_kind h) (some_value h)) as Hv by (intros [[] x]; exact I).
  destruct (metrics_report packages map_to_list (mkExporter "stout" ":42000" "ms" Millisecond) (λ _, true) 0 some_value
    (Permutation_refl _) (λ r, Permutation_refl _) Hv eq_refl) as (_ & pvs & H1 & H2 & H3 & _).
  exists pvs. exact (conj H1 (conj H2 H3)).
Defined.

(** A tick whose server does not answer sends nothing and the next tick reports again. *)
Lemma sendEvery_retries g range r now value evs : ∀ dial, dial (ge_addr g) = false ->
  sendEvery (Some g) range r (Tick dial now value :: evs) = (false, []) :: sendEvery (Some g) range r evs.
Proof. intros dial Hd. cbn. unfold Send. by rewrite Hd. Qed.

(** ** The unit of durations

    The error text of [NewGraphiteExporter] names the units 1ms, 1sec and 1min; durations
    know neither sec nor min.  A unit of ten seconds passes the check of its first
    character and is reported as 0s. *)
Lemma duration_units render addr prefix : render prefix = Ok prefix -> prefix <> ""%string ->
  (∀ u, u ∈ ["1sec"; "1min"]%string ->
    ∃ e, NewGraphiteExporter render ParseDuration (mkGraphite prefix addr u) = Err (Some e)) /\
  NewGraphiteExporter render ParseDuration (mkGraphite prefix addr "10s") =
    Ok (mkExporter prefix addr "0s" (10 * Duration.Second)).
Proof.
  intros Hr Hp. unfold NewGraphiteExporter. cbn [gc_Prefix gc_DurationUnit gc_Addr]. rewrite (decide_False _ _ Hp), Hr.
  split; [|reflexivity]. intros u Hu. rewrite !elem_of_cons, elem_of_nil in Hu.
  destruct Hu as [->|[->|[]]]; eexists; vm_compute; reflexivity.
Qed.

(** ** The program on the configuration it ships with *)

Definition drop_error {E A} (r : result E A) : result unit A := match r with Ok a => Ok a | Err _ => Err tt end.

#[local] Existing Instance demo_ops.

Definition main_default :=
  main (JErr := unit) map_to_list map_to_list map_to_list
    (registered (λ _ e, (Ok "docker"%string, e)) (λ _ e, (Ok "porto"%string, e)) (λ _ e, (Ok "process"%string, e)))
    (λ data c, drop_error (unmarshal_config data c)) (λ data, drop_error (graphite_config data)) (λ s, Ok s)
    (λ s, drop_error (ParseDuration s)) (λ _, true) (λ _ _, true) demo_boot NewRequestErr false (Some stout_default_conf)
    demo_env (mkNet ∅ 0).

Example default_conf_serves :
  match main_default with
  | (Serving d output (Some g) period, _, n) =>
      Some (elements (dom (d_boxes d)), length (d_listeners d), ge_addr g, ge_duStr g, ge_du g, period)
  | _ => None
  end = Some (["docker"; "porto"; "process"], 1%nat, ":42000", "ms", Millisecond, 10 * Config.Second)%string.
Proof. vm_compute. reflexivity. Qed.
